(* ===== verification/_CoqProject ===== *)
-Q . S2P
Prelude.v
Netip.v
GoText.v
Intervals.v
China.v
NetipParse.v
GoTime.v
GoFormat.v
GoAddrText.v
Loader.v
Overrides.v
Dns.v
Policy.v
Upstream.v
ChaseProps.v
Engine.v
EngineProps.v
Family.v
Fanout.v
Cache.v
CacheProps.v
Janitor.v
Flight.v
Resolve.v
Callers.v
Metrics.v
Exposition.v
Accounts.v
MetricsPage.v
Testdns.v
Server.v
ServerProps.v
Config.v
Intake.v
Listen.v
FakeServer.v
Main.v
Start.v
System.v
Live.v
Fair.v
Requests.v
Front.v
