(* ===== verification/Prelude.v ===== *)
(** * chn-resolver: a verification development

    chn-resolver is a China/foreign split-horizon DNS resolver.  A query for
    an address is sent to several upstream resolvers at once; each upstream is
    China-class or not, each address returned is in the configured China
    prefixes or not, and a policy with an override list chooses what the
    client is told.  Other queries are forwarded.  This library models the Go
    program and proves what makes each part correct.

    ** The program and its model

    The parts call each other from the bottom up:

    - [internal/china]: the prefix index (index.go) and its loader (loader.go).
      [China] has [span], [Index], [Build] (with the in-place compaction of
      [merge], the byte-array arithmetic of [lastAddr] and [nextAddr]) and
      [Contains] with its binary search; [Loader] has [ParsePrefixLine],
      [loadFile], [Load] and [LoadFrom].  [Intervals] is the theory of merged
      intervals that [China] refines.
    - [internal/overrides]: [Overrides] has the set, its loader and [Match].
    - [internal/policy]: [Policy] has the upstream [Result], [Select],
      [FinalizeNegative] and [SelectTTL]; its specification is the decision
      table [rule].
    - [internal/upstream]: [Upstream] has the one-hop [Exchange] (client.go) and
      [Chase] (chase.go) in a state monad over the transport clients and a
      [World]: the context, the clock, the identifier generator, the network
      and what other goroutines write to the clients, which they share.
      [ChaseProps] has the theorems.
    - [internal/engine]: [Engine] has the goroutine of an upstream ([worker]),
      the receive loop over the events its [select] sees ([receive],
      [Resolve]), [earlyStable], [finalize] and the swap of assets.
      [EngineProps] has the theorems; [Fanout] has the goroutines of a
      resolution with their channel, of which the events come; [Family]
      follows the family of addresses from the records on the wire through a
      chase to a resolution.
    - [internal/cache]: [Cache] has the LRU list, its index, the clock and all
      operations of cache.go; [CacheProps] the theorems; [Janitor] the loop
      that sweeps; [Flight] has the coalescing [Do] of flight.go as a state
      machine.
    - [internal/resolve]: [Resolve] has the service that puts engine and cache
      together, for a caller that meets no other; [Callers] has
      [Service.Lookup] for any number of concurrent callers, over the machine
      of [Flight] and with the janitor, flushes and the ends of the callers'
      contexts in between; its invariant is about a window of a run, which
      may open in the middle of it.
    - [internal/server]: [Server] has the handler (handler.go), the forwarder
      (forward.go) and the per-message parts of server.go; [ServerProps] the
      theorems; [Intake] has the serve loops, the semaphore and the shutdown
      of server.go as a state machine; [Listen] has [New] and
      [ListenAndServe], the sockets they bind and close; [Requests] has what
      handling a request records; [Front] has the serve loops with their
      counters and handlers over the control of [Intake].
    - [internal/metrics]: [Metrics] has the counters; [Exposition] has [Write]
      as the text it prints, with a reader of that text; [Accounts] the calls
      that record something and what the counters count.
    - [internal/config]: [Config] has the on-disk shape, the defaults and
      [build] with every check in order.
    - [internal/testdns]: [Testdns] has the zone and the handler of the fake
      upstream, and a [World] in which a chase runs against it; [FakeServer]
      its sockets.
    - [cmd/chn-resolver]: [Main] has the choice and loading of files, the
      classification of the upstreams and the reload; [Start] has [main] from
      the command line to the running program, and what [-check] prints;
      [MetricsPage] has the HTTP server of the metrics page.
    - [System] connects the service to the server and follows a query to its
      reply; [Live] has the running program in which signals reload the assets
      while lookups and the engine's runs go on, and [Fair] its runs without
      end.

    The standard library is modelled where the program uses it: [Netip]
    (addresses and prefixes), [NetipParse] (their parsers), [GoText] (strings
    and the line scanner), [GoTime] ([time.ParseDuration] with its
    floating-point fractions), [GoFormat] (the text of numbers, quoted
    strings, addresses and durations), [GoAddrText] (an address is read back
    from its text).  [Prelude], this file, has the tactics, the
    [result] type of fallible operations with its notation, the machine
    integers and the lemmas the components share.

    ** What is a parameter

    Code that is not in the repository is a parameter.  [Dns.DnsLib] has the
    operations of the DNS library and [Dns.DnsLaws] the documented behaviour
    that is relied on, with [Dns.sample_dns] as an instance of both;
    [Upstream.World] has the network, context and clock; [GoText.GoUnicode] the
    case tables and [GoFormat.GoQuote] the quoting of text that is not ASCII;
    the TOML decoder is an argument of [Config.Load], the address the system
    binds for a text one of [Listen], and the order in which a map is visited
    one of [Exposition.Write].  Theorems hold for every value of the parameters, and their
    examples instantiate them.

    ** What the theorems show

    - Classification: when no prefix ends at an IPv4-mapped address, an index
      contains exactly the addresses some prefix contains ([Contains_Build]),
      and its spans are sorted, disjoint and apart ([Build_invariant]); they
      do not depend on how equal keys are sorted; a
      file loads as a whole or not at all ([Load_spec]); the override list
      means what its entries say ([Match_spec], [LoadFrom_unlines]).
    - Selection: [Select] is the decision table ([Select_spec]), independent of
      the order of arrival; negative answers need agreement
      ([FinalizeNegative_spec]); the TTL is the least of the first owners'
      ([SelectTTL_spec]).
    - Upstreams: a chase makes at most [maxHops] rounds for distinct names,
      within the time it has and that others allow it ([Chase_traffic]),
      follows chains to their end ([Chase_chain]), stops on
      loops and at the limit, and returns a well-formed result
      ([Chase_result]).
    - The engine's goroutines and its loop, in every interleaving, implement
      [Resolve] over events ([fan_out_refines]), and all end
      ([no_goroutine_left]).  It returns ([Resolve_returns]), consumes and reports exactly a
      prefix of the outcomes ([Resolve_run]), may return early only when the
      branch can no longer change ([early_branch_stable]), never loses an
      answer ([partial_success]) and is order-independent when complete.
    - The cache refines an LRU association list ([cache_refines_lru]), serves a
      value until it expires ([store_then_lookup]) and evicts the right entry
      ([eviction_choice]).  Coalescing has one leader per key
      ([single_leader]), one value per flight ([flight_agreement]) and no
      waiter left behind ([waiter_served]).  A sweep removes what has expired
      and no lookup can tell ([sweep_spec]).  The service stores only
      authoritative results ([stores_only_authoritative]) and reuses them
      ([answer_reused]).  With concurrent callers every value comes from an
      engine run for its key ([lookup_provenance]); [lookup_alone] relates
      [Resolve.Lookup] to it.  A reload takes effect for every lookup that
      begins after its flush for a name not being resolved then
      ([reload_takes_effect]).  In every run in which a caller that can go on
      eventually does, every lookup is answered, whatever comes in between
      ([lookups_answered]).
    - Against the fake upstream of the tests a chase returns what its zone says
      ([zone_chase]) or times out ([zone_timeout]); its transports share a
      port ([one_port]).
    - The server answers address queries from the lookup
      ([address_query_answered]), keeps the addresses intact on the way
      ([positive_reply_roundtrip]), forwards to the first upstream that answers,
      over UDP and then TCP, in any world ([forward_first_success]), answers TCP frames in order ([tcp_pipeline]),
      bounds its concurrency ([handlers_bounded], [inflight_bounded]) and
      drains on shutdown ([drain_is_final]), after which its counters balance,
      but for requests of an unknown EDNS version, which none of them counts
      ([drained_accounts]); the front end refines the control of [Intake]
      ([front_refines_intake]).  Exactly the consistent configurations are
      accepted, with the settings of the file ([build_checks]), and reloads keep the last assets that loaded
      ([reloads_keep_last_good]).
    - A started program is consistent ([start_consistent]), [-check] predicts
      the start ([check_predicts_start]), the server leaves no socket behind
      ([listen_and_serve]), both transports share an address
      ([transports_share_address]), and the metrics page reads back as the
      number of calls of each kind ([started_page]), at the one path that is
      not redirected or unknown ([metrics_served]).
    - End to end, with the cache and concurrent callers, the addresses of a
      reply are the ones a resolution of the name chose, of the family asked
      for, and its policy tells on which side of the prefix list they all are,
      when no prefix of it ends at an IPv4-mapped address
      ([served_split_horizon]; [split_horizon_reply] for one uncached query).
    - Theorems about defects: [mapped_tail_lost] and
      [mapped_prefix_hides_others] (IPv6 prefixes that end at an IPv4-mapped
      address), [zero_ttl_lost], [shared_timeout_race],
      [expired_context_category], [SelectTTL_first_owner],
      [flush_misses_flight], [reload_keeps_classes],
      [negative_min_ttl_accepted], [root_key], [janitor_survives],
      [upper_case_name_lost].

    ** Bounds and fuel

    Loops over slices are structural.  [compact_loop] counts the elements left;
    [search_loop] has the slice's length as fuel, which its interval never
    exceeds; [chase_loop] recurses on the hops left and, for names it skips,
    on the pending list; [evict_loop] has the list's length, of which every
    iteration removes one element; [handleTCPConn] has the length of the
    input, of which every iteration reads two octets; [parse_terms] has the
    length of the text, of which every term consumes a character;
    [string6_loop] has the eight groups of an address, of which every
    iteration passes at least one; [read_labels] has the length of the line.
    Addresses
    are integers below 2^32 or 2^128 seen as byte arrays; ports, TTLs and
    durations are kept at their widths by [uint16], [uint32] and [int64].

    ** What is not modelled

    Socket deadlines, delivery of signals, parsing of flags and logging are
    input and output; the loops see their effects as events.  A request to
    the metrics page is seen by its decoded path.  [Metrics.counter] is taken
    as atomic: the unlocked read of its map is a data race and is listed with
    the findings.  That another goroutine writes the [Timeout] of a shared
    client before an exchange reads it is [others_write] of the [World]; the
    worlds of [Testdns] and of the examples, [busy_world] apart, have one
    chase only, which reads what it wrote.  The fairness of [Fair] takes the
    scheduler, and the end of an engine's run, for granted; that the
    goroutines of a run can always end is [no_goroutine_left].  In [Front] the calls of a handler are fixed when it starts,
    as those of a run of the handler ([handleDatagram_calls],
    [handleTCPConn_calls]), and made one at a time afterwards.  The Go tests
    are not part of the program. *)

From stdpp Require Export base numbers list gmap sorting strings.
From Stdlib Require Export ZArith Lia Bool.

#[global] Open Scope Z_scope.

(** ** Tactics and hint databases *)

Create HintDb chn discriminated.
#[export] Hint Constants Opaque : chn.
Create Rewrite HintDb chn_simp.

(** Turns every boolean test of the context and the goal into the
    proposition it decides. *)
Ltac bool_props :=
  repeat match goal with
  | H : _ && _ = true |- _ => apply andb_true_iff in H as [? ?]
  | H : _ || _ = false |- _ => apply orb_false_iff in H as [? ?]
  | H : negb _ = true |- _ => apply negb_true_iff in H
  | H : negb _ = false |- _ => apply negb_false_iff in H
  | H : (_ <? _) = true |- _ => apply Z.ltb_lt in H
  | H : (_ <? _) = false |- _ => apply Z.ltb_ge in H
  | H : (_ <=? _) = true |- _ => apply Z.leb_le in H
  | H : (_ <=? _) = false |- _ => apply Z.leb_gt in H
  | H : (_ =? _) = true |- _ => apply Z.eqb_eq in H
  | H : (_ =? _) = false |- _ => apply Z.eqb_neq in H
  end.

(** Case analysis on the innermost test or match of the goal, with the
    equation kept. *)
Ltac split_match :=
  match goal with
  | |- context [match ?x with _ => _ end] =>
      lazymatch x with context [match _ with _ => _ end] => fail | _ => idtac end;
      destruct x eqn:?
  end.

(** The same in a hypothesis. *)
Ltac split_match_in H :=
  match type of H with
  | context [match ?x with _ => _ end] =>
      lazymatch x with context [match _ with _ => _ end] => fail | _ => idtac end;
      destruct x eqn:?
  end.

(** ** Fallible operations

    A Go pair of a value and an error, of which exactly one is meaningful. *)
Inductive result (E A : Type) :=
| Ok (a : A)
| Err (e : E).
Arguments Ok {E A} a.
Arguments Err {E A} e.

Definition result_bind {E A B} (r : result E A) (k : A -> result E B) : result E B :=
  match r with Ok a => k a | Err e => Err e end.

Declare Scope go_scope.
Delimit Scope go_scope with go.
Notation "'let?' x ':=' r 'in' k" := (result_bind r (fun x => k))
  (at level 10, x pattern, r at level 100, k at level 200) : go_scope.
Notation "'guard?' b 'else' e 'in' k" := (if b then k else Err e)
  (at level 10, b at level 100, e at level 100, k at level 200) : go_scope.

Lemma result_bind_Ok {E A B} (r : result E A) (k : A -> result E B) b :
  result_bind r k = Ok b <-> exists a, r = Ok a /\ k a = Ok b.
Proof. destruct r; simpl; split; [by eauto|by intros (? & [= ->] & ?)|done|by intros (? & ? & ?)]. Qed.

(** ** Machine integers

    Go's unsigned conversions keep the low bits; [int64] is the signed
    reading of the low 64 bits, which is what [time.Duration] arithmetic
    wraps to. *)
Definition uint8 (z : Z) : Z := z mod 2 ^ 8.
Definition uint16 (z : Z) : Z := z mod 2 ^ 16.
Definition uint32 (z : Z) : Z := z mod 2 ^ 32.
Definition uint64 (z : Z) : Z := z mod 2 ^ 64.
Definition int64 (z : Z) : Z := (z + 2 ^ 63) mod 2 ^ 64 - 2 ^ 63.

(** [time.Second], in nanoseconds. *)
Definition Second : Z := 1000000000.

Definition in_uint (w z : Z) : Prop := 0 <= z < 2 ^ w.
Definition in_int64 (z : Z) : Prop := - 2 ^ 63 <= z < 2 ^ 63.

Lemma uint16_id z : in_uint 16 z -> uint16 z = z.
Proof. apply Z.mod_small. Qed.

Lemma uint32_id z : in_uint 32 z -> uint32 z = z.
Proof. apply Z.mod_small. Qed.

Lemma uint32_range z : in_uint 32 (uint32 z).
Proof. apply Z.mod_pos_bound. lia. Qed.

Lemma int64_id z : in_int64 z -> int64 z = z.
Proof. unfold int64, in_int64. intros. rewrite Z.mod_small by lia. lia. Qed.

Lemma int64_add a b : int64 (int64 a + b) = int64 (a + b).
Proof.
  unfold int64. f_equal.
  replace ((a + 2 ^ 63) mod 2 ^ 64 - 2 ^ 63 + b + 2 ^ 63) with ((a + 2 ^ 63) mod 2 ^ 64 + b) by lia.
  rewrite Zplus_mod_idemp_l. f_equal. lia.
Qed.

Lemma int64_range z : in_int64 (int64 z).
Proof.
  unfold int64, in_int64. pose proof (Z.mod_pos_bound (z + 2 ^ 63) (2 ^ 64)). lia.
Qed.

#[export] Hint Resolve uint32_range int64_range : chn.

(** ** Order-preserving removal of duplicates

    The loop shared by [policy.dedup] and [upstream.dedupAddrs]: a set of
    the elements already seen, and the output appended to. *)
Section Dedup.
Context {A : Type} `{Countable A}.

Fixpoint dedup_loop (seen : gset A) (l : list A) : list A :=
  match l with
  | [] => []
  | a :: l => if decide (a ∈ seen) then dedup_loop seen l
              else a :: dedup_loop ({[a]} ∪ seen) l
  end.

Lemma elem_of_dedup_loop seen l x :
  x ∈ dedup_loop seen l <-> x ∈ l /\ x ∉ seen.
Proof.
  revert seen. induction l as [|a l IH]; intros seen; simpl; [set_solver|].
  destruct (decide (a ∈ seen)); rewrite ?elem_of_cons, IH; [set_solver|].
  destruct (decide (x = a)); set_solver.
Qed.

Lemma NoDup_dedup_loop seen l : NoDup (dedup_loop seen l).
Proof.
  revert seen. induction l as [|a l IH]; intros seen; simpl; [constructor|].
  destruct (decide (a ∈ seen)); [done|]. constructor; [|done].
  rewrite elem_of_dedup_loop. set_solver.
Qed.

Lemma dedup_loop_sublist seen l : dedup_loop seen l `sublist_of` l.
Proof.
  revert seen. induction l as [|a l IH]; intros seen; simpl; [constructor|].
  destruct (decide (a ∈ seen)); by constructor.
Qed.

(** Deduplicating a concatenation keeps the deduplicated first part as a
    prefix. *)
Lemma dedup_loop_app seen l k :
  dedup_loop seen (l ++ k) =
  dedup_loop seen l ++ dedup_loop (list_to_set l ∪ seen) k.
Proof.
  revert seen. induction l as [|a l IH]; intros seen; simpl.
  - by replace (∅ ∪ seen) with seen by set_solver.
  - destruct (decide (a ∈ seen)); rewrite IH; simpl.
    + by replace ({[a]} ∪ list_to_set l ∪ seen) with (list_to_set l ∪ seen)
        by set_solver.
    + by replace (list_to_set l ∪ ({[a]} ∪ seen))
        with ({[a]} ∪ list_to_set l ∪ seen) by set_solver.
Qed.

Lemma dedup_loop_nil_iff l : dedup_loop ∅ l = [] <-> l = [].
Proof.
  split; [|by intros ->]. destruct l as [|a l]; [done|]. simpl.
  by rewrite decide_False by set_solver.
Qed.
End Dedup.

#[export] Hint Resolve NoDup_dedup_loop dedup_loop_sublist : chn.

(** ** Filtering under a map *)

Lemma fmap_filter_ext {A B} (f : A -> B) (P : A -> Prop) (Q : B -> Prop)
    `{forall x, Decision (P x)} `{forall y, Decision (Q y)} (l : list A) :
  (forall x, x ∈ l -> P x <-> Q (f x)) ->
  f <$> base.filter P l = base.filter Q (f <$> l).
Proof.
  induction l as [|x l IH]; intros Hx; [done|]. rewrite fmap_cons, !filter_cons.
  assert (f <$> base.filter P l = base.filter Q (f <$> l)) as E
    by (apply IH; intros; apply Hx; by right).
  pose proof (Hx x ltac:(left)) as Hd.
  destruct (decide (P x)), (decide (Q (f x))); try tauto. by rewrite fmap_cons, E.
Qed.
