(* ===== verification/Netip.v ===== *)
(** * Netip: what the resolver uses of Go's [net/netip]

    Addresses ([netip.Addr]), prefixes ([netip.Prefix]), their byte-array
    views ([As16], [AddrFrom16], [AsSlice], [AddrFromSlice]), the order
    [Addr.Compare] and the IPv4-in-IPv6 unmapping.  This is a part of the Go
    standard library the sources call, so nothing of this file maps to a
    source line; the files that follow are written on top of it.

    An address is the zero [Addr], an IPv4 address or an IPv6 address with a
    zone ([""] for none).  Byte arrays are lists of integers in [0, 256),
    most significant byte first, as the Go arrays are. *)

From S2P Require Import Prelude.

Inductive Addr :=
| AddrZero
| Addr4 (a : Z)
| Addr6 (a : Z) (zone : string).

#[export] Instance Addr_eq_dec : EqDecision Addr.
Proof. solve_decision. Defined.

Definition Addr_encode (a : Addr) : unit + (Z + Z * string) :=
  match a with
  | AddrZero => inl ()
  | Addr4 v => inr (inl v)
  | Addr6 v z => inr (inr (v, z))
  end.
Definition Addr_decode (e : unit + (Z + Z * string)) : Addr :=
  match e with
  | inl _ => AddrZero
  | inr (inl v) => Addr4 v
  | inr (inr (v, z)) => Addr6 v z
  end.
#[export] Instance Addr_countable : Countable Addr :=
  inj_countable' Addr_encode Addr_decode ltac:(by intros []).

Definition Is4 (ip : Addr) : bool := match ip with Addr4 _ => true | _ => false end.
Definition Is6 (ip : Addr) : bool := match ip with Addr6 _ _ => true | _ => false end.
Definition Zone (ip : Addr) : string := match ip with Addr6 _ z => z | _ => "" end.

Definition BitLen (ip : Addr) : Z :=
  match ip with AddrZero => 0 | Addr4 _ => 32 | Addr6 _ _ => 128 end.

(** The 128-bit value an address is stored as: IPv4 addresses live in
    [::ffff:0:0/96]. *)
Definition mapped_base : Z := 0xffff * 2 ^ 32.
Definition addr128 (ip : Addr) : Z :=
  match ip with
  | AddrZero => 0
  | Addr4 a => mapped_base + a
  | Addr6 a _ => a
  end.

(** Whether a 128-bit value is in [::ffff:0:0/96]. *)
Definition mapped (a : Z) : bool := Z.shiftr a 32 =? 0xffff.

Definition Is4In6 (ip : Addr) : bool := Is6 ip && mapped (addr128 ip).

Definition Unmap (ip : Addr) : Addr :=
  match ip with
  | Addr6 a _ => if mapped a then Addr4 (a - mapped_base) else ip
  | _ => ip
  end.

Definition cmp_int (c : comparison) : Z :=
  match c with Lt => -1 | Eq => 0 | Gt => 1 end.

(** Bit length first, then the value, then (IPv6) the zone. *)
Definition Compare (ip ip2 : Addr) : Z :=
  match Z.compare (BitLen ip) (BitLen ip2) with
  | Eq =>
      match Z.compare (addr128 ip) (addr128 ip2) with
      | Eq => if Is6 ip then cmp_int (String.compare (Zone ip) (Zone ip2)) else 0
      | c => cmp_int c
      end
  | c => cmp_int c
  end.

(** ** Byte arrays *)

(** Least significant byte first: the order in which the loops of
    [china/index.go] walk an array. *)
Fixpoint le_bytes (n : nat) (v : Z) : list Z :=
  match n with
  | O => []
  | S n => v mod 256 :: le_bytes n (v / 256)
  end.
Fixpoint le_val (bs : list Z) : Z :=
  match bs with
  | [] => 0
  | b :: bs => b + 256 * le_val bs
  end.

Definition be_bytes (n : nat) (v : Z) : list Z := reverse (le_bytes n v).
Definition be_val (bs : list Z) : Z := le_val (reverse bs).

Definition As16 (ip : Addr) : list Z := be_bytes 16 (addr128 ip).
Definition AddrFrom16 (b : list Z) : Addr := Addr6 (be_val b) "".

Definition AsSlice (ip : Addr) : list Z :=
  match ip with
  | AddrZero => []
  | Addr4 a => be_bytes 4 a
  | Addr6 a _ => be_bytes 16 a
  end.
Definition AddrFromSlice (b : list Z) : option Addr :=
  if (length b =? 4)%nat then Some (Addr4 (be_val b))
  else if (length b =? 16)%nat then Some (AddrFrom16 b)
  else None.

(** ** Prefixes *)

Record Prefix := mkPrefix { p_addr : Addr; p_bits : Z }.

#[export] Instance Prefix_eq_dec : EqDecision Prefix.
Proof. solve_decision. Defined.

(** Clears the low [n] bits. *)
Definition clear_low (n a : Z) : Z := Z.shiftl (Z.shiftr a n) n.

Definition Masked (p : Prefix) : Prefix :=
  match p_addr p with
  | AddrZero => mkPrefix AddrZero (-1)
  | Addr4 a => mkPrefix (Addr4 (clear_low (32 - p_bits p) a)) (p_bits p)
  | Addr6 a _ => mkPrefix (Addr6 (clear_low (128 - p_bits p) a) "") (p_bits p)
  end.

(** [netip.Prefix.Contains]: no zone, the same family, and the same leading
    bits. *)
Definition Prefix_Contains (p : Prefix) (ip : Addr) : bool :=
  match p_addr p, ip with
  | Addr4 a, Addr4 b =>
      Z.shiftr a (32 - p_bits p) =? Z.shiftr b (32 - p_bits p)
  | Addr6 a _, Addr6 b z =>
      String.eqb z "" &&
      (Z.shiftr a (128 - p_bits p) =? Z.shiftr b (128 - p_bits p))
  | _, _ => false
  end.

Record AddrPort := mkAddrPort { ap_addr : Addr; ap_port : Z }.
#[export] Instance AddrPort_eq_dec : EqDecision AddrPort.
Proof. solve_decision. Defined.

(** ** Well-formed values *)

Definition Addr_ok (ip : Addr) : Prop :=
  match ip with
  | AddrZero => True
  | Addr4 a => in_uint 32 a
  | Addr6 a _ => in_uint 128 a
  end.

Definition bytes_ok (bs : list Z) : Prop := Forall (in_uint 8) bs.

(** ** Lemmas *)

Lemma length_le_bytes n v : length (le_bytes n v) = n.
Proof. revert v. induction n; intros; simpl; auto. Qed.

Lemma le_bytes_ok n v : bytes_ok (le_bytes n v).
Proof.
  revert v. induction n as [|n IH]; intros v; simpl; constructor; [|apply IH].
  apply (Z.mod_pos_bound v 256). lia.
Qed.

Lemma le_val_bounds bs : bytes_ok bs -> 0 <= le_val bs < 256 ^ Z.of_nat (length bs).
Proof.
  induction 1 as [|b bs Hb _ IH]; simpl le_val; simpl length; [lia|].
  unfold in_uint in Hb. rewrite Nat2Z.inj_succ, Z.pow_succ_r by lia. lia.
Qed.

Lemma le_val_bytes n v : le_val (le_bytes n v) = v mod 256 ^ Z.of_nat n.
Proof.
  revert v. induction n as [|n IH]; intros v; simpl le_val.
  - by rewrite Z.mod_1_r.
  - rewrite IH, Nat2Z.inj_succ, Z.pow_succ_r by lia.
    rewrite Z.rem_mul_r by lia. lia.
Qed.

Lemma le_bytes_val bs : bytes_ok bs -> le_bytes (length bs) (le_val bs) = bs.
Proof.
  induction 1 as [|b bs Hb _ IH]; simpl; [done|]. unfold in_uint in Hb.
  replace (b + 256 * le_val bs) with (le_val bs * 256 + b) by lia.
  rewrite Z.add_comm, Z.mod_add, Z.div_add, Z.div_small, Z.mod_small by lia.
  by rewrite Z.add_0_l, IH.
Qed.

Lemma be_val_bytes n v : be_val (be_bytes n v) = v mod 256 ^ Z.of_nat n.
Proof. unfold be_val, be_bytes. by rewrite reverse_involutive, le_val_bytes. Qed.

Lemma be_bytes_val bs : bytes_ok bs -> be_bytes (length bs) (be_val bs) = bs.
Proof.
  intros Hok. unfold be_val, be_bytes. rewrite <-(length_reverse bs).
  rewrite le_bytes_val, reverse_involutive; [done|]. by apply Forall_reverse.
Qed.

Lemma addr128_bounds ip : Addr_ok ip -> in_uint 128 (addr128 ip).
Proof.
  destruct ip; unfold in_uint; simpl; unfold mapped_base, in_uint; lia.
Qed.

Lemma be_val_As16 ip : Addr_ok ip -> be_val (As16 ip) = addr128 ip.
Proof.
  intros Hok. unfold As16. rewrite be_val_bytes. apply Z.mod_small.
  apply addr128_bounds in Hok. exact Hok.
Qed.

Lemma mapped_spec a : mapped a = true <-> mapped_base <= a < mapped_base + 2 ^ 32.
Proof.
  unfold mapped, mapped_base. rewrite Z.eqb_eq, Z.shiftr_div_pow2 by lia.
  pose proof (Z.div_mod a (2 ^ 32)). pose proof (Z.mod_pos_bound a (2 ^ 32)).
  split; nia.
Qed.

Lemma mapped_false a : mapped a = false <-> ~ (mapped_base <= a < mapped_base + 2 ^ 32).
Proof. rewrite <-mapped_spec. by destruct (mapped a). Qed.

Lemma Unmap_ok ip : Addr_ok ip -> Addr_ok (Unmap ip).
Proof.
  destruct ip as [| |a z]; cbn [Unmap]; intros Ha; [exact Ha|exact Ha|].
  destruct (mapped a) eqn:Hm; [|exact Ha]. apply mapped_spec in Hm.
  cbn [Addr_ok]. unfold in_uint. lia.
Qed.

Lemma length_be_bytes n v : length (be_bytes n v) = n.
Proof. unfold be_bytes. by rewrite length_reverse, length_le_bytes. Qed.

Lemma AsSlice_FromSlice ip :
  Addr_ok ip -> ip <> AddrZero -> Zone ip = "" -> AddrFromSlice (AsSlice ip) = Some ip.
Proof.
  intros Hok Hz Hzone. unfold AddrFromSlice, AddrFrom16.
  destruct ip as [|a|a z]; [done| |]; unfold AsSlice; rewrite length_be_bytes;
    cbn [Nat.eqb]; rewrite be_val_bytes, Z.mod_small by apply Hok.
  - done.
  - by rewrite <-Hzone.
Qed.

Lemma string_compare_refl s : String.compare s s = Eq.
Proof. pose proof (String.compare_antisym s s) as H. by destruct (String.compare s s). Qed.

Lemma Compare_refl ip : Compare ip ip = 0.
Proof.
  unfold Compare. rewrite !Z.compare_refl. destruct (Is6 ip); [|done].
  by rewrite string_compare_refl.
Qed.
