(* ===== verification/GoText.v ===== *)
(** * GoText: what the resolver uses of Go's [strings] and [bufio]

    Go strings are byte sequences, here [string]s of 8-bit characters.
    [TrimSpace] is modelled in full, Unicode white space included: the
    white-space runes are finitely many, so trimming strips one of their
    UTF-8 encodings at a time.  [ToLower] and [EqualFold] are modelled on
    ASCII text; on text with a byte above 127 they consult Go's Unicode case
    tables, which are the parameter [GoUnicode].  DNS names reach the
    resolver in presentation format, which is ASCII.

    [bufio.Scanner] in its default line mode is modelled with its limit on
    the length of a line and the two ways in which it stops early.

    Only the comment syntax of the two file formats, which the loaders of
    [internal/china] and [internal/overrides] repeat, is the sources' own. *)

From S2P Require Import Prelude.
From Stdlib Require Import Ascii.

(** Go's case tables, applied to text that is not ASCII. *)
Class GoUnicode := {
  unicode_ToLower : string -> string;
  unicode_EqualFold : string -> string -> bool;
}.

(** ** Slices *)

(** [s[n:]] and [s[:n]] for [n <= len(s)]. *)
Fixpoint str_drop (n : nat) (s : string) : string :=
  match n, s with
  | O, _ => s
  | S n, String _ s => str_drop n s
  | S _, EmptyString => EmptyString
  end.
Fixpoint str_take (n : nat) (s : string) : string :=
  match n, s with
  | O, _ => EmptyString
  | S n, String c s => String c (str_take n s)
  | S _, EmptyString => EmptyString
  end.

Definition HasPrefix (s prefix : string) : bool := String.prefix prefix s.
Definition HasSuffix (s suffix : string) : bool :=
  (String.length suffix <=? String.length s)%nat &&
  String.eqb (str_drop (String.length s - String.length suffix) s) suffix.
Definition TrimSuffix (s suffix : string) : string :=
  if HasSuffix s suffix
  then str_take (String.length s - String.length suffix) s else s.

(** [strings.Index]: the position of the first occurrence. *)
Definition Index (s sep : string) : option nat := String.index 0 sep s.

(** ** White space *)

Definition char (n : nat) : ascii := ascii_of_nat n.
Definition bytes (l : list nat) : string := String.string_of_list_ascii (char <$> l).

Definition ascii_space : list string :=
  [bytes [9%nat]; bytes [10%nat]; bytes [11%nat]; bytes [12%nat]; bytes [13%nat]; " "].

(** The UTF-8 encodings of the runes [unicode.IsSpace] accepts: the ASCII
    ones, U+0085, U+00A0, U+1680, U+2000 to U+200A, U+2028, U+2029, U+202F,
    U+205F and U+3000. *)
Definition space_runes : list string :=
  ascii_space ++
  [bytes [194; 133]%nat; bytes [194; 160]%nat; bytes [225; 154; 128]%nat] ++
  ((fun k => bytes [226; 128; 128 + k]%nat) <$> seq 0 11) ++
  [bytes [226; 128; 168]%nat; bytes [226; 128; 169]%nat; bytes [226; 128; 175]%nat;
   bytes [226; 129; 159]%nat; bytes [227; 128; 128]%nat].

Fixpoint trim_left (fuel : nat) (s : string) : string :=
  match fuel with
  | O => s
  | S fuel =>
      match List.find (HasPrefix s) space_runes with
      | Some w => trim_left fuel (str_drop (String.length w) s)
      | None => s
      end
  end.
Fixpoint trim_right (fuel : nat) (s : string) : string :=
  match fuel with
  | O => s
  | S fuel =>
      match List.find (HasSuffix s) space_runes with
      | Some w => trim_right fuel (str_take (String.length s - String.length w) s)
      | None => s
      end
  end.

(** Each round removes at least one byte, so the length is enough fuel. *)
Definition TrimSpace (s : string) : string :=
  let l := trim_left (String.length s) s in trim_right (String.length l) l.

(** ** Comments

    The two file formats share their comment syntax: a line that starts with
    one of three marks, or an inline comment after a blank or a tab. *)
Definition is_comment (line : string) : bool :=
  HasPrefix line "#" || HasPrefix line ";" || HasPrefix line "//".

Definition tab : string := bytes [9%nat].
Definition inline_marks : list string :=
  [" #"; tab +:+ "#"; " ;"; tab +:+ ";"; " //"; tab +:+ "//"].

(** The text before the first separator of the list that occurs. *)
Fixpoint strip_inline (seps : list string) (line : string) : string :=
  match seps with
  | [] => line
  | sep :: seps =>
      match Index line sep with
      | Some i => TrimSpace (str_take i line)
      | None => strip_inline seps line
      end
  end.

(** ** Case *)

Definition is_ascii_char (c : ascii) : bool := (nat_of_ascii c <? 128)%nat.
Fixpoint is_ascii (s : string) : bool :=
  match s with
  | EmptyString => true
  | String c s => is_ascii_char c && is_ascii s
  end.

Definition is_upper (c : ascii) : bool :=
  (65 <=? nat_of_ascii c)%nat && (nat_of_ascii c <=? 90)%nat.
Definition lower_char (c : ascii) : ascii :=
  if is_upper c then ascii_of_nat (nat_of_ascii c + 32) else c.
Fixpoint ascii_lower (s : string) : string :=
  match s with
  | EmptyString => EmptyString
  | String c s => String (lower_char c) (ascii_lower s)
  end.

Section Case.
Context `{GoUnicode}.

Definition ToLower (s : string) : string :=
  if is_ascii s then ascii_lower s else unicode_ToLower s.

(** Byte by byte while both strings are ASCII; the rest is left to the
    tables as soon as a byte of either is not. *)
Fixpoint EqualFold (s t : string) : bool :=
  match s, t with
  | EmptyString, EmptyString => true
  | String a s', String b t' =>
      if is_ascii_char a && is_ascii_char b
      then Ascii.eqb (lower_char a) (lower_char b) && EqualFold s' t'
      else unicode_EqualFold s t
  | _, _ => false
  end.
End Case.

(** ** Reading lines *)

(** What a reader delivers before it ends: its bytes, and whether it ended
    with an error instead of the end of the file. *)
Record Reader := mkReader { rd_data : string; rd_fail : bool }.

Definition newline : ascii := char 10.
Definition carriage_return : string := bytes [13%nat].

(** The text between newlines; the last fragment has no newline after it. *)
Fixpoint split_newlines (s : string) : list string :=
  match s with
  | EmptyString => [EmptyString]
  | String c s =>
      if Ascii.eqb c newline then EmptyString :: split_newlines s
      else match split_newlines s with
           | l :: ls => String c l :: ls
           | [] => [String c EmptyString]
           end
  end.

(** A last fragment that is empty is not a line. *)
Fixpoint drop_last_empty (ls : list string) : list string :=
  match ls with
  | [] => []
  | [l] => if String.eqb l "" then [] else [l]
  | l :: ls => l :: drop_last_empty ls
  end.

(** The lines up to the first one that does not fit the buffer, and whether
    there is such a line; a carriage return before the newline is dropped. *)
Fixpoint scan_tokens (max : nat) (ls : list string) : list string * bool :=
  match ls with
  | [] => ([], false)
  | l :: ls =>
      if (max <=? String.length l)%nat then ([], true)
      else let '(toks, err) := scan_tokens max ls in
           (TrimSuffix l carriage_return :: toks, err)
  end.

(** The values [sc.Text()] takes, and whether [sc.Err()] is set after the
    last of them. *)
Definition ScanLines (max : nat) (r : Reader) : list string * bool :=
  let '(toks, long) := scan_tokens max (drop_last_empty (split_newlines (rd_data r))) in
  (toks, long || rd_fail r).

Definition MaxScanTokenSize : nat := Z.to_nat 65536.

(** ** Lemmas *)

#[local] Arguments String.append !_ _ / : simpl nomatch.

Lemma str_drop_app s t : str_drop (String.length s) (s +:+ t) = t.
Proof. induction s; simpl; auto. Qed.

Lemma str_take_app s t : str_take (String.length s) (s +:+ t) = s.
Proof. induction s; simpl; congruence. Qed.

Lemma str_take_drop n s : str_take n s +:+ str_drop n s = s.
Proof. revert s. induction n; intros [|c s]; simpl; auto. f_equal. apply IHn. Qed.

Lemma str_length_app s t :
  String.length (s +:+ t) = (String.length s + String.length t)%nat.
Proof. induction s; simpl; auto. Qed.

Lemma str_app_assoc s t u : (s +:+ t) +:+ u = s +:+ (t +:+ u).
Proof. induction s; simpl; congruence. Qed.

Lemma str_app_nil_r s : s +:+ "" = s.
Proof. induction s; simpl; congruence. Qed.

Lemma str_length_drop n s : String.length (str_drop n s) = (String.length s - n)%nat.
Proof. revert s. induction n; intros [|c s]; simpl; auto. Qed.

Lemma str_length_take n s : String.length (str_take n s) = (Nat.min n (String.length s))%nat.
Proof. revert s. induction n; intros [|c s]; simpl; auto. Qed.

Lemma HasPrefix_spec s p : HasPrefix s p = true <-> exists t, s = p +:+ t.
Proof.
  unfold HasPrefix. revert s. induction p as [|c p IH]; intros s; simpl.
  - destruct s; split; eauto.
  - destruct s as [|d s]; simpl; [split; [done|by intros []]|].
    destruct (Ascii.ascii_dec c d) as [->|Hne].
    + rewrite IH. split; intros [t Ht]; exists t; simpl in *; congruence.
    + split; [done|]. intros [t Ht]. simpl in Ht. congruence.
Qed.

Lemma HasSuffix_spec s suf : HasSuffix s suf = true <-> exists p, s = p +:+ suf.
Proof.
  unfold HasSuffix. rewrite andb_true_iff, Nat.leb_le, String.eqb_eq. split.
  - intros [_ Hd]. exists (str_take (String.length s - String.length suf) s).
    rewrite <-Hd at 2. by rewrite str_take_drop.
  - intros [p ->]. rewrite str_length_app. split; [lia|].
    rewrite Nat.add_sub. apply str_drop_app.
Qed.

Lemma TrimSuffix_app s suf : TrimSuffix (s +:+ suf) suf = s.
Proof.
  unfold TrimSuffix. rewrite (proj2 (HasSuffix_spec _ _)) by eauto.
  rewrite str_length_app, Nat.add_sub. apply str_take_app.
Qed.

Lemma TrimSuffix_none s suf : HasSuffix s suf = false -> TrimSuffix s suf = s.
Proof. unfold TrimSuffix. by intros ->. Qed.

Lemma lower_char_idem c : lower_char (lower_char c) = lower_char c.
Proof. destruct c as [[] [] [] [] [] [] [] []]; vm_compute; reflexivity. Qed.

Lemma lower_char_ascii c : is_ascii_char (lower_char c) = is_ascii_char c.
Proof. destruct c as [[] [] [] [] [] [] [] []]; vm_compute; reflexivity. Qed.

Lemma ascii_lower_idem s : ascii_lower (ascii_lower s) = ascii_lower s.
Proof. induction s; simpl; [done|]. by rewrite lower_char_idem, IHs. Qed.

Lemma is_ascii_lower s : is_ascii (ascii_lower s) = is_ascii s.
Proof. induction s; simpl; [done|]. by rewrite lower_char_ascii, IHs. Qed.

Lemma ascii_lower_app s t : ascii_lower (s +:+ t) = ascii_lower s +:+ ascii_lower t.
Proof. induction s; simpl; congruence. Qed.

Lemma ascii_lower_length s : String.length (ascii_lower s) = String.length s.
Proof. induction s; simpl; congruence. Qed.

Lemma is_ascii_app s t : is_ascii (s +:+ t) = is_ascii s && is_ascii t.
Proof. induction s; simpl; [done|]. by rewrite IHs, andb_assoc. Qed.

Section CaseLemmas.
Context `{GoUnicode}.

Lemma ToLower_ascii s : is_ascii s = true -> ToLower s = ascii_lower s.
Proof. unfold ToLower. by intros ->. Qed.

Lemma ToLower_idem_ascii s : is_ascii s = true -> ToLower (ToLower s) = ToLower s.
Proof.
  intros Hs. rewrite !(ToLower_ascii s), ToLower_ascii by (rewrite ?is_ascii_lower; auto).
  apply ascii_lower_idem.
Qed.

Lemma EqualFold_ascii s t :
  is_ascii s = true -> is_ascii t = true ->
  EqualFold s t = String.eqb (ascii_lower s) (ascii_lower t).
Proof.
  revert t. induction s as [|a s IH]; intros [|b t]; simpl; auto.
  rewrite !andb_true_iff. intros [Ha Hs] [Hb Ht]. rewrite Ha, Hb. simpl.
  rewrite IH by auto. by destruct (Ascii.eqb _ _).
Qed.
End CaseLemmas.

(** ** Text without letters, text without white space *)

Definition letter (c : ascii) : bool :=
  is_upper c || ((97 <=? nat_of_ascii c)%nat && (nat_of_ascii c <=? 122)%nat).
Definition visible_char (c : ascii) : bool :=
  (33 <=? nat_of_ascii c)%nat && (nat_of_ascii c <=? 126)%nat.

Fixpoint all_chars (P : ascii -> bool) (s : string) : bool :=
  match s with
  | EmptyString => true
  | String c s => P c && all_chars P s
  end.
Abbreviation caseless := (all_chars (fun c => negb (letter c))).
Abbreviation visible := (all_chars visible_char).

Lemma all_chars_app P s t : all_chars P (s +:+ t) = all_chars P s && all_chars P t.
Proof. induction s; simpl; [done|]. by rewrite IHs, andb_assoc. Qed.

Lemma all_chars_substring P n m s :
  all_chars P s = true -> all_chars P (String.substring n m s) = true.
Proof.
  revert n m. induction s as [|c s IH]; intros [|n] [|m]; simpl; try done;
    rewrite ?andb_true_iff; naive_solver.
Qed.

Lemma visible_ascii s : visible s = true -> is_ascii s = true.
Proof.
  induction s as [|c s IH]; simpl; [done|]. unfold visible_char, is_ascii_char.
  rewrite !andb_true_iff, !Nat.leb_le, Nat.ltb_lt. intros [? ?]. split; [lia|auto].
Qed.

Lemma space_runes_caseless : forallb caseless space_runes = true.
Proof. reflexivity. Qed.
Lemma space_runes_invisible : forallb (fun w => negb (visible w)) space_runes = true.
Proof. reflexivity. Qed.
Lemma inline_marks_invisible : forallb (fun w => negb (visible w)) inline_marks = true.
Proof. reflexivity. Qed.

(** White space is never part of visible text. *)
Lemma visible_no_prefix s w :
  visible s = true -> visible w = false -> HasPrefix s w = false.
Proof.
  intros Hs Hw. apply not_true_iff_false. intros [t ->]%HasPrefix_spec.
  rewrite all_chars_app, Hw in Hs. done.
Qed.
Lemma visible_no_suffix s w :
  visible s = true -> visible w = false -> HasSuffix s w = false.
Proof.
  intros Hs Hw. apply not_true_iff_false. intros [t ->]%HasSuffix_spec.
  rewrite all_chars_app, Hw, andb_false_r in Hs. done.
Qed.

Lemma find_none_forallb (f g : string -> bool) l :
  forallb g l = true -> (forall w, g w = true -> f w = false) -> List.find f l = None.
Proof.
  intros Hg Hf. induction l as [|w l IH]; simpl in *; [done|].
  apply andb_true_iff in Hg as [Hw Hl]. rewrite Hf by done. auto.
Qed.

Lemma TrimSpace_visible s : visible s = true -> TrimSpace s = s.
Proof.
  intros Hs. unfold TrimSpace.
  assert (forall n, trim_left n s = s) as ->.
  { intros [|n]; [done|]. cbn [trim_left].
    rewrite (find_none_forallb _ _ _ space_runes_invisible); [done|].
    intros w Hw%negb_true_iff. by apply visible_no_prefix. }
  destruct (String.length s) as [|n]; [done|]. cbn [trim_right].
  rewrite (find_none_forallb _ _ _ space_runes_invisible); [done|].
  intros w Hw%negb_true_iff. by apply visible_no_suffix.
Qed.

Lemma Index_visible s sep : visible s = true -> visible sep = false -> Index s sep = None.
Proof.
  intros Hs Hsep. unfold Index. destruct (String.index 0 sep s) as [i|] eqn:E; [|done].
  apply String.index_correct1 in E. rewrite <-E in Hsep.
  rewrite all_chars_substring in Hsep by done. done.
Qed.

Lemma strip_inline_visible s : visible s = true -> strip_inline inline_marks s = s.
Proof.
  intros Hs. unfold inline_marks. cbn [strip_inline].
  by rewrite !(Index_visible s) by done.
Qed.

(** Text without letters is found in a lowered string where it was in the
    original. *)
Lemma lower_char_letter c : letter (lower_char c) = false -> lower_char c = c.
Proof. destruct c as [[] [] [] [] [] [] [] []]; vm_compute; congruence. Qed.

Lemma lower_char_nonletter c : letter c = false -> lower_char c = c.
Proof. destruct c as [[] [] [] [] [] [] [] []]; vm_compute; congruence. Qed.

Lemma HasPrefix_lower s w :
  caseless w = true -> HasPrefix (ascii_lower s) w = HasPrefix s w.
Proof.
  unfold HasPrefix. revert s. induction w as [|c w IH]; intros [|d s] Hw; try done.
  simpl in *. apply andb_true_iff in Hw as [Hc%negb_true_iff Hw].
  destruct (Ascii.ascii_dec c (lower_char d)) as [->|Hn], (Ascii.ascii_dec _ d) as [E|E];
    subst; auto; exfalso.
  - by rewrite lower_char_letter in E.
  - by rewrite lower_char_nonletter in Hn.
Qed.

Lemma str_drop_lower n s : str_drop n (ascii_lower s) = ascii_lower (str_drop n s).
Proof. revert s. induction n; intros [|c s]; simpl; auto. Qed.
Lemma str_take_lower n s : str_take n (ascii_lower s) = ascii_lower (str_take n s).
Proof. revert s. induction n; intros [|c s]; simpl; auto. by rewrite IHn. Qed.

Lemma eqb_lower s w : caseless w = true -> String.eqb (ascii_lower s) w = String.eqb s w.
Proof.
  revert s. induction w as [|c w IH]; intros [|d s] Hw; try done.
  simpl in *. apply andb_true_iff in Hw as [Hc%negb_true_iff Hw].
  destruct (Ascii.eqb_spec (lower_char d) c) as [E1|E1], (Ascii.eqb_spec d c) as [E2|E2];
    auto; exfalso.
  - apply E2. rewrite <-E1. symmetry. apply lower_char_letter. by rewrite E1.
  - apply E1. rewrite E2. by apply lower_char_nonletter.
Qed.

Lemma HasSuffix_lower s w :
  caseless w = true -> HasSuffix (ascii_lower s) w = HasSuffix s w.
Proof.
  intros Hw. unfold HasSuffix. by rewrite ascii_lower_length, str_drop_lower, eqb_lower.
Qed.

Lemma TrimSuffix_lower s w :
  caseless w = true -> TrimSuffix (ascii_lower s) w = ascii_lower (TrimSuffix s w).
Proof.
  intros Hw. unfold TrimSuffix. rewrite HasSuffix_lower, ascii_lower_length by done.
  destruct (HasSuffix s w); [|done]. apply str_take_lower.
Qed.

Lemma find_caseless_ext (f g : string -> bool) :
  (forall w, caseless w = true -> f w = g w) ->
  List.find f space_runes = List.find g space_runes.
Proof.
  intros Hfg. pose proof space_runes_caseless as Hc.
  induction space_runes as [|w l IH]; simpl in *; [done|].
  apply andb_true_iff in Hc as [Hw Hl]. rewrite Hfg by done. by rewrite IH.
Qed.

Lemma trim_left_lower n s : trim_left n (ascii_lower s) = ascii_lower (trim_left n s).
Proof.
  revert s. induction n as [|n IH]; intros s; cbn [trim_left]; [done|].
  rewrite (find_caseless_ext _ (HasPrefix s)) by (intros; by apply HasPrefix_lower).
  destruct (List.find _ _); [|done]. by rewrite str_drop_lower, IH.
Qed.
Lemma trim_right_lower n s : trim_right n (ascii_lower s) = ascii_lower (trim_right n s).
Proof.
  revert s. induction n as [|n IH]; intros s; cbn [trim_right]; [done|].
  rewrite (find_caseless_ext _ (HasSuffix s)) by (intros; by apply HasSuffix_lower).
  destruct (List.find _ _); [|done]. by rewrite ascii_lower_length, str_take_lower, IH.
Qed.

Lemma TrimSpace_lower s : TrimSpace (ascii_lower s) = ascii_lower (TrimSpace s).
Proof.
  unfold TrimSpace. by rewrite ascii_lower_length, trim_left_lower, ascii_lower_length,
    trim_right_lower.
Qed.

(** Trimming only removes characters. *)
Lemma all_chars_take P n s : all_chars P s = true -> all_chars P (str_take n s) = true.
Proof.
  rewrite <-(str_take_drop n s) at 1. rewrite all_chars_app, andb_true_iff. by intros [].
Qed.
Lemma all_chars_drop P n s : all_chars P s = true -> all_chars P (str_drop n s) = true.
Proof.
  rewrite <-(str_take_drop n s) at 1. rewrite all_chars_app, andb_true_iff. by intros [].
Qed.
Lemma is_ascii_all s : is_ascii s = all_chars is_ascii_char s.
Proof. induction s; simpl; congruence. Qed.

Lemma all_chars_TrimSpace P s : all_chars P s = true -> all_chars P (TrimSpace s) = true.
Proof.
  intros Hs. unfold TrimSpace.
  assert (forall n t, all_chars P t = true -> all_chars P (trim_left n t) = true) as Hl.
  { induction n as [|n IH]; intros t Ht; cbn [trim_left]; [done|].
    destruct (List.find _ _); [|done]. by apply IH, all_chars_drop. }
  assert (forall n t, all_chars P t = true -> all_chars P (trim_right n t) = true) as Hr.
  { induction n as [|n IH]; intros t Ht; cbn [trim_right]; [done|].
    destruct (List.find _ _); [|done]. by apply IH, all_chars_take. }
  auto.
Qed.

Lemma all_chars_TrimSuffix P s w :
  all_chars P s = true -> all_chars P (TrimSuffix s w) = true.
Proof. unfold TrimSuffix. destruct (HasSuffix s w); [apply all_chars_take|done]. Qed.

(** A visible first character survives trimming. *)
Lemma space_runes_chars_invisible :
  forallb (all_chars (fun c => negb (visible_char c))) space_runes = true.
Proof. reflexivity. Qed.

Lemma trim_right_head n c t :
  visible_char c = true -> exists t', trim_right n (String c t) = String c t'.
Proof.
  intros Hc. revert t. induction n as [|n IH]; intros t; cbn [trim_right]; [by eauto|].
  destruct (List.find _ _) as [w|] eqn:E; [|by eauto].
  apply List.find_some in E as [Hin Hs]. apply HasSuffix_spec in Hs as [p Hp].
  pose proof space_runes_chars_invisible as Hi. rewrite forallb_forall in Hi.
  specialize (Hi w Hin). destruct p as [|d p]; simpl in Hp.
  - subst w. simpl in Hi. by rewrite Hc in Hi.
  - injection Hp as <- ->. change (String c (p +:+ w)) with (String c p +:+ w).
    rewrite str_length_app, Nat.add_sub, str_take_app. apply IH.
Qed.

Lemma TrimSpace_head c t :
  visible_char c = true -> exists t', TrimSpace (String c t) = String c t'.
Proof.
  intros Hc. unfold TrimSpace. assert (forall n, trim_left n (String c t) = String c t) as ->.
  { intros [|n]; [done|]. cbn [trim_left].
    destruct (List.find _ _) as [w|] eqn:E; [|done].
    apply List.find_some in E as [Hin Hs]. apply HasPrefix_spec in Hs as [u Hu].
    pose proof space_runes_chars_invisible as Hi. rewrite forallb_forall in Hi.
    specialize (Hi w Hin). destruct w as [|d w]; simpl in *.
    - by vm_compute in Hin; repeat destruct Hin as [?|Hin].
    - injection Hu as <- _. by rewrite Hc in Hi. }
  by apply trim_right_head.
Qed.

(** ** Files made of lines *)

Definition line_char (c : ascii) : bool := negb (Ascii.eqb c newline).

Lemma visible_line s : visible s = true -> all_chars line_char s = true.
Proof.
  induction s as [|c s IH]; [done|]. cbn [all_chars]. rewrite !andb_true_iff.
  intros [Hc Hs]. split; [|auto]. unfold line_char. apply negb_true_iff.
  destruct (Ascii.eqb_spec c newline) as [->|]; done.
Qed.

(** A file of complete lines. *)
Definition unlines (ls : list string) : string :=
  foldr (fun l s => l +:+ String newline s) "" ls.

Lemma split_newlines_line l s :
  all_chars line_char l = true ->
  split_newlines (l +:+ String newline s) = l :: split_newlines s.
Proof.
  induction l as [|c l IH]; simpl; [done|]. rewrite andb_true_iff. intros [Hc Hl].
  unfold line_char in Hc. apply negb_true_iff in Hc. by rewrite Hc, IH.
Qed.

Lemma split_newlines_unlines ls :
  Forall (fun l => all_chars line_char l = true) ls ->
  drop_last_empty (split_newlines (unlines ls)) = ls.
Proof.
  intros H. assert (split_newlines (unlines ls) = ls ++ [""]) as ->.
  { induction H as [|l ls Hl _ IH]; [done|]. cbn [unlines foldr].
    rewrite split_newlines_line by done. fold (unlines ls). by rewrite IH. }
  clear H. induction ls as [|l ls IH]; [done|]. simpl.
  destruct ls; simpl in *; [done|]. by rewrite IH.
Qed.

(** Case tables that lower ASCII letters and leave other bytes alone. *)
Definition ascii_tables : GoUnicode := {|
  unicode_ToLower := ascii_lower;
  unicode_EqualFold := fun s t => String.eqb (ascii_lower s) (ascii_lower t);
|}.
