(* ===== verification/Intervals.v ===== *)
(** * Intervals: merging and searching integer intervals

    The mathematics behind the prefix index, on pairs of integers: a list of
    closed intervals sorted by lower bound is merged into its canonical form,
    the only list of disjoint, non-adjacent, increasing intervals that covers
    the same integers.  [China] proves that the code computes this on
    addresses. *)

From S2P Require Import Prelude.

Abbreviation interval := (Z * Z)%type.

Definition inside (x : Z) (i : interval) : Prop := i.1 <= x <= i.2.
Definition covers (l : list interval) (x : Z) : Prop := Exists (inside x) l.

Definition iv_le (i j : interval) : Prop := i.1 <= j.1.

Definition touches (cur s : interval) : bool :=
  (s.1 <=? cur.2) || (cur.2 + 1 =? s.1).

(** The merge of a list sorted by lower bound, [cur] being the interval that
    is still growing. *)
Fixpoint zmerge (cur : interval) (l : list interval) : list interval :=
  match l with
  | [] => [cur]
  | s :: l =>
      if touches cur s then zmerge (cur.1, Z.max cur.2 s.2) l
      else cur :: zmerge s l
  end.

(** Canonical lists: proper intervals with a gap between neighbours. *)
Inductive canon : list interval -> Prop :=
| canon_nil : canon []
| canon_one i : i.1 <= i.2 -> canon [i]
| canon_cons i j l : i.1 <= i.2 -> i.2 + 1 < j.1 -> canon (j :: l) -> canon (i :: j :: l).

#[export] Hint Constructors canon : chn.

Lemma canon_tail i l : canon (i :: l) -> canon l.
Proof. inversion 1; subst; [constructor|done]. Qed.

Lemma canon_head i l : canon (i :: l) -> i.1 <= i.2.
Proof. by inversion 1. Qed.

Lemma canon_gap i l x : canon (i :: l) -> covers l x -> i.2 + 1 < x.
Proof.
  revert i. induction l as [|j l IH]; intros i Hc Hx; [inversion Hx|].
  inversion Hc as [| |? ? ? Hi Hgap Hj]; subst. apply Exists_cons in Hx as [Hx|Hx].
  - unfold inside in Hx. lia.
  - apply (IH j) in Hx; [|done]. apply canon_head in Hj. lia.
Qed.

(** Canonical lists that cover the same integers are equal. *)
Lemma canon_unique l1 l2 :
  canon l1 -> canon l2 -> (forall x, covers l1 x <-> covers l2 x) -> l1 = l2.
Proof.
  revert l2. induction l1 as [|[a1 b1] t1 IH]; intros [|[a2 b2] t2] H1 H2 Hx.
  - done.
  - exfalso. apply canon_head in H2. specialize (Hx a2).
    assert (covers [] a2) as Hn; [|inversion Hn].
    apply Hx. constructor. unfold inside. simpl in *. lia.
  - exfalso. apply canon_head in H1. specialize (Hx a1).
    assert (covers [] a1) as Hn; [|inversion Hn].
    apply Hx. constructor. unfold inside. simpl in *. lia.
  - pose proof (canon_head _ _ H1) as P1. pose proof (canon_head _ _ H2) as P2.
    pose proof (fun x => canon_gap _ _ x H1) as G1.
    pose proof (fun x => canon_gap _ _ x H2) as G2.
    assert (forall x, a1 <= x <= b1 \/ covers t1 x <-> a2 <= x <= b2 \/ covers t2 x) as Hc.
    { intros x. specialize (Hx x). unfold covers in *. by rewrite !Exists_cons in Hx. }
    simpl in *.
    assert (a2 <= a1) by (destruct (proj1 (Hc a1)) as [|Hc1%G2]; lia).
    assert (a1 <= a2) by (destruct (proj2 (Hc a2)) as [|Hc2%G1]; lia).
    assert (~ b1 < b2) by (intros ?; destruct (proj2 (Hc (b1 + 1))) as [|Hc3%G1]; lia).
    assert (~ b2 < b1) by (intros ?; destruct (proj1 (Hc (b2 + 1))) as [|Hc4%G2]; lia).
    assert (a1 = a2) as <- by lia. assert (b1 = b2) as <- by lia.
    f_equal. apply IH; [by eapply canon_tail..|]. intros x.
    specialize (Hc x). specialize (G1 x). specialize (G2 x). intuition lia.
Qed.

Lemma StronglySorted_iv_le_lower i l :
  StronglySorted iv_le (i :: l) -> Forall (fun j => i.1 <= j.1) l.
Proof. by inversion 1. Qed.

(** What the merge computes: the same integers, in canonical form, starting
    where the growing interval starts. *)
Lemma zmerge_spec cur l :
  StronglySorted iv_le (cur :: l) -> Forall (fun i => i.1 <= i.2) (cur :: l) ->
  canon (zmerge cur l) /\
  (forall x, covers (zmerge cur l) x <-> covers (cur :: l) x) /\
  exists b t, zmerge cur l = (cur.1, b) :: t.
Proof.
  revert cur. induction l as [|s l IH]; intros cur Hs Hp; simpl.
  - inversion Hp; subst. split_and!; [by constructor|done|].
    exists cur.2, []. by destruct cur.
  - inversion Hs as [|? ? Hs1 Hl]; subst. inversion Hl as [|? ? Hcs Hl']; subst.
    inversion Hs1 as [|? ? Hs2 Hsl]; subst.
    apply Forall_cons in Hp as [Hc Hp]. apply Forall_cons in Hp as [Hsp Hp].
    unfold iv_le in *. destruct (touches cur s) eqn:Ht; unfold touches in Ht.
    + destruct (IH (cur.1, Z.max cur.2 s.2)) as (IH1 & IH2 & IH3).
      { constructor; [done|]. done. }
      { constructor; [simpl; lia|done]. }
      split_and!; [done| |done]. intros x. rewrite IH2. unfold covers.
      rewrite !Exists_cons. unfold inside at 1 3 4. simpl.
      apply orb_true_iff in Ht as [Ht|Ht]; bool_props; intuition lia.
    + apply orb_false_iff in Ht as [Ht1 Ht2]. bool_props.
      destruct (IH s) as (IH1 & IH2 & b & t & E).
      { by constructor. }
      { by constructor. }
      rewrite E in *. split_and!.
      * constructor; [done|simpl; lia|done].
      * intros x. unfold covers in *. rewrite !(Exists_cons _ cur), IH2. done.
      * exists cur.2. eexists. by destruct cur.
Qed.

(** ** Search in a canonical list *)

(** The first interval that does not end before [x] decides. *)
Lemma canon_lookup_decides l x i s :
  canon l -> l !! i = Some s -> x <= s.2 ->
  (forall k t, (k < i)%nat -> l !! k = Some t -> t.2 < x) ->
  covers l x <-> s.1 <= x.
Proof.
  revert i. induction l as [|h l IH]; intros i Hc Hi Hx Hb; [done|].
  destruct i as [|i]; simpl in Hi.
  - injection Hi as ->. unfold covers. rewrite Exists_cons. unfold inside at 1. split.
    + intros [|Hl]; [lia|]. pose proof (canon_gap _ _ _ Hc Hl). lia.
    + intros. left. lia.
  - assert (h.2 < x) as Hh by (apply (Hb 0%nat); [lia|done]).
    unfold covers. rewrite Exists_cons. rewrite <-(IH i); eauto using canon_tail.
    + unfold inside at 1, covers. split; [intros [|]; [lia|done]|by right].
    + intros k t Hk Ht. apply (Hb (S k)); [lia|done].
Qed.

Lemma canon_all_before l x :
  (forall k t, l !! k = Some t -> t.2 < x) -> ~ covers l x.
Proof.
  intros Hb Hx. apply Exists_exists in Hx as (t & Ht & Hin).
  apply list_elem_of_lookup in Ht as [k Hk]. apply Hb in Hk. unfold inside in Hin. lia.
Qed.

Lemma canon_ends_increase l i j s t :
  canon l -> (i <= j)%nat -> l !! i = Some s -> l !! j = Some t -> s.2 <= t.2.
Proof.
  intros Hc. revert i j. induction l as [|h l IH]; intros i j Hij Hi Hj; [done|].
  destruct i as [|i], j as [|j]; simpl in *; simplify_eq; try done; try lia.
  - assert (covers l t.2) as Hcov.
    { apply Exists_exists. exists t. split; [by eapply list_elem_of_lookup_2|].
      unfold inside. assert (canon l) as Hl by by eapply canon_tail.
      clear -Hl Hj. revert j Hj. induction l as [|h l IH]; intros [|j] Hj; simpl in *;
        simplify_eq; [apply canon_head in Hl; lia|].
      eapply IH; [by eapply canon_tail|done]. }
    pose proof (canon_gap _ _ _ Hc Hcov). lia.
  - eapply IH; [by eapply canon_tail| |done..]. lia.
Qed.
