(* ===== verification/China.v ===== *)
(** * China: the prefix index of [internal/china/index.go]

    [Build] turns a list of prefixes into two sorted lists of disjoint
    inclusive spans, one per address family, and [Contains] classifies an
    address by binary search.  The definitions follow the code: the loops of
    [lastAddr] and [nextAddr] walk the 16 bytes of an address from the least
    significant one, [merge] sorts and then compacts the spans in place (the
    output shares the backing array of the input, as [out := spans[:0]]
    does), and the search is the loop of [sort.Search].

    The theorems relate the index to the linear scan over the prefixes that
    it replaces. *)

From S2P Require Import Prelude Netip Intervals.

(** ** Data *)

Record span := mkSpan { lo : Addr; hi : Addr }.

#[export] Instance span_eq_dec : EqDecision span.
Proof. solve_decision. Defined.

Record Index := mkIndex {
  ix_v4 : list span;
  ix_v6 : list span;
  V4Input : Z;
  V6Input : Z;
}.

(** ** Operations *)

(** The loop of [lastAddr], on the bytes from the last one: sets the low
    [hostBits] bits. *)
Fixpoint fill_host (rb : list Z) (hostBits : Z) : list Z :=
  match rb with
  | [] => []
  | b :: rb' =>
      if 0 <? hostBits then
        let bits := if 8 <? hostBits then 8 else hostBits in
        Z.lor b (uint8 (Z.shiftr 0xFF (8 - bits))) :: fill_host rb' (hostBits - 8)
      else rb
  end.

Definition lastAddr (p : Prefix) : Addr :=
  let a := p_addr p in
  if p_bits p =? BitLen a then a
  else
    let b := As16 a in
    let hostBits := BitLen a - p_bits p in
    Unmap (AddrFrom16 (reverse (fill_host (reverse b) hostBits))).

(** The loop of [nextAddr]: increment with carry, from the last byte. *)
Fixpoint inc_bytes (rb : list Z) : list Z :=
  match rb with
  | [] => []
  | b :: rb' => let b := uint8 (b + 1) in
                if negb (b =? 0) then b :: rb' else b :: inc_bytes rb'
  end.

Definition nextAddr (a : Addr) : Addr :=
  Unmap (AddrFrom16 (reverse (inc_bytes (reverse (As16 a))))).

(** The order [sort.Slice] is given. *)
Definition span_le (s t : span) : Prop := Compare (lo s) (lo t) <= 0.
#[export] Instance span_le_dec : RelDecision span_le.
Proof. intros s t. unfold span_le. apply _. Defined.

Definition sort_Slice (spans : list span) : list span := merge_sort span_le spans.

(** The condition under which [s] is merged into [cur]. *)
Definition joins (cur s : span) : bool :=
  (Compare (lo s) (hi cur) <=? 0) || (Compare (nextAddr (hi cur)) (lo s) =? 0).

Definition extend (cur s : span) : span :=
  if 0 <? Compare (hi s) (hi cur) then mkSpan (lo cur) (hi s) else cur.

(** The compaction loop, [steps] elements from index [i] on: [out] is the
    first [n] cells of [arr] itself. *)
Fixpoint compact_loop (steps i : nat) (arr : list span) (n : nat) (cur : span)
    : list span * nat * span :=
  match steps with
  | O => (arr, n, cur)
  | S steps =>
      match arr !! i with
      | None => (arr, n, cur)
      | Some s =>
          if joins cur s then compact_loop steps (S i) arr n (extend cur s)
          else compact_loop steps (S i) (<[n := cur]> arr) (S n) s
      end
  end.

(** What [merge] does once the slice is sorted. *)
Definition compact (arr : list span) : list span :=
  match arr with
  | [] => []
  | cur :: _ =>
      let '(arr, n, cur) := compact_loop (length arr - 1) 1 arr 0 cur in
      take (S n) (<[n := cur]> arr)
  end.

Definition merge (spans : list span) : list span :=
  if (length spans <=? 1)%nat then spans else compact (sort_Slice spans).

Definition build_step (acc : list span * list span * Z * Z) (p : Prefix)
    : list span * list span * Z * Z :=
  let '(v4, v6, v4n, v6n) := acc in
  if Is4 (p_addr p)
  then (v4 ++ [mkSpan (p_addr p) (lastAddr p)], v6, v4n + 1, v6n)
  else (v4, v6 ++ [mkSpan (p_addr p) (lastAddr p)], v4n, v6n + 1).

Definition Build (prefixes : list Prefix) : Index :=
  let '(v4, v6, v4n, v6n) := foldl build_step ([], [], 0, 0) prefixes in
  mkIndex (merge v4) (merge v6) v4n v6n.

Definition Counts (ix : Index) : nat * nat := (length (ix_v4 ix), length (ix_v6 ix)).

(** [sort.Search]: the loop on [i < j], with fuel for its iterations. *)
Fixpoint search_loop (fuel i j : nat) (f : nat -> bool) : nat :=
  match fuel with
  | O => i
  | S fuel =>
      if (i <? j)%nat then
        let h := ((i + j) / 2)%nat in
        if negb (f h) then search_loop fuel (S h) j f else search_loop fuel i h f
      else i
  end.
Definition sort_Search (n : nat) (f : nat -> bool) : nat := search_loop n 0 n f.

Definition contains (spans : list span) (ip : Addr) : bool :=
  let i := sort_Search (length spans) (fun i =>
    match spans !! i with Some s => 0 <=? Compare (hi s) ip | None => true end) in
  match spans !! i with
  | None => false
  | Some s => negb (0 <? Compare (lo s) ip)
  end.

Definition Contains (ix : Index) (ip : Addr) : bool :=
  let ip := Unmap ip in
  if Is4 ip then contains (ix_v4 ix) ip else contains (ix_v6 ix) ip.

(** ** The byte loops *)

Lemma lor_uint8 a b : in_uint 8 a -> in_uint 8 b -> in_uint 8 (Z.lor a b).
Proof.
  intros Ha Hb. assert (Z.lor a b = Z.lor a b mod 2 ^ 8) as ->.
  { rewrite <-Z.land_ones, Z.land_lor_distr_l, !Z.land_ones by lia.
    by rewrite !Z.mod_small by assumption. }
  apply Z.mod_pos_bound. lia.
Qed.

Lemma byte_add_lor b v : in_uint 8 b -> b + 256 * v = Z.lor b (Z.shiftl v 8).
Proof.
  intros Hb. rewrite Z.shiftl_mul_pow2 by lia. change (2 ^ 8) with 256.
  rewrite Z.mul_comm. rewrite <-Z.lxor_lor, Z.add_nocarry_lxor; [done| |];
    (replace (v * 256) with (Z.shiftl v 8) by (rewrite Z.shiftl_mul_pow2; lia));
    apply Z.bits_inj'; intros i Hi; rewrite Z.land_spec, Z.bits_0;
    (destruct (Z.ltb_spec i 8);
     [rewrite Z.shiftl_spec_low by lia; apply andb_false_r|]);
    rewrite <-(Z.mod_small b (2 ^ 8)) by assumption;
    rewrite Z.mod_pow2_bits_high by lia; done.
Qed.

Lemma ones_shiftr_255 h : 0 < h <= 8 -> uint8 (Z.shiftr 255 (8 - h)) = Z.ones h.
Proof.
  intros. assert (h = 1 \/ h = 2 \/ h = 3 \/ h = 4 \/ h = 5 \/ h = 6 \/ h = 7 \/ h = 8)
    as Hc by lia.
  by repeat destruct Hc as [->|Hc]; [..|subst h].
Qed.

Lemma ones_uint8 h : 0 < h <= 8 -> in_uint 8 (Z.ones h).
Proof. intros. rewrite <-ones_shiftr_255 by lia. apply Z.mod_pos_bound. lia. Qed.

Lemma ones_split h : 8 <= h -> Z.ones h = Z.lor 255 (Z.shiftl (Z.ones (h - 8)) 8).
Proof.
  intros. rewrite <-byte_add_lor by (unfold in_uint; lia).
  rewrite !Z.ones_equiv. replace h with (8 + (h - 8)) at 1 by lia.
  rewrite Z.pow_add_r by lia. lia.
Qed.

(** The loop of [lastAddr] sets exactly the low [h] bits. *)
Lemma le_val_fill_host rb h :
  bytes_ok rb -> 0 <= h <= 8 * Z.of_nat (length rb) ->
  le_val (fill_host rb h) = Z.lor (le_val rb) (Z.ones h).
Proof.
  intros Hok. revert h. induction Hok as [|b rb Hb Hok IH]; intros h Hh; simpl in Hh.
  - replace h with 0 by lia. done.
  - cbn [fill_host]. destruct (Z.ltb_spec 0 h); cycle 1.
    { replace h with 0 by lia. by rewrite Z.lor_0_r. }
    cbn [le_val]. rewrite (byte_add_lor b) by done. destruct (Z.ltb_spec 8 h).
    + rewrite IH by lia. rewrite ones_shiftr_255 by lia.
      rewrite byte_add_lor by (apply lor_uint8; [done|apply ones_uint8; lia]).
      rewrite (ones_split h), Z.shiftl_lor by lia. change (Z.ones 8) with 255.
      rewrite <-!Z.lor_assoc. f_equal. rewrite !Z.lor_assoc. f_equal. apply Z.lor_comm.
    + rewrite ones_shiftr_255 by lia.
      assert (fill_host rb (h - 8) = rb) as ->
        by (destruct rb; simpl; [done|]; destruct (Z.ltb_spec 0 (h - 8)); [lia|done]).
      rewrite byte_add_lor by (apply lor_uint8; [done|apply ones_uint8; lia]).
      rewrite <-!Z.lor_assoc. f_equal. apply Z.lor_comm.
Qed.

(** The loop of [nextAddr] adds one, modulo the size of the array. *)
Lemma le_val_inc_bytes rb :
  bytes_ok rb -> le_val (inc_bytes rb) = (le_val rb + 1) mod 256 ^ Z.of_nat (length rb).
Proof.
  induction 1 as [|b rb Hb Hok IH]; [done|]. cbn [inc_bytes le_val length].
  pose proof (le_val_bounds rb Hok). unfold in_uint in Hb. unfold uint8.
  rewrite Nat2Z.inj_succ, Z.pow_succ_r by lia. destruct (Z.eq_dec b 255) as [->|].
  - change ((255 + 1) mod 2 ^ 8) with 0. cbn [Z.eqb negb le_val]. rewrite IH.
    replace (255 + 256 * le_val rb + 1) with (256 * (le_val rb + 1)) by lia.
    rewrite Z.mul_mod_distr_l by lia. lia.
  - rewrite (Z.mod_small (b + 1)) by lia.
    rewrite (proj2 (Z.eqb_neq (b + 1) 0)) by lia. cbn [negb le_val].
    rewrite Z.mod_small by nia. lia.
Qed.

(** ** Addresses of one family as integers *)

(** [true] for IPv4, [false] for IPv6. *)
Definition mk (f : bool) (a : Z) : Addr := if f then Addr4 a else Addr6 a "".
Definition width (f : bool) : Z := if f then 32 else 128.
Definition emb (f : bool) (i : interval) : span := mkSpan (mk f i.1) (mk f i.2).

(** An address value of the family; an IPv6 one is outside [::ffff:0:0/96],
    where [Unmap] would move it to the other family. *)
Definition val_ok (f : bool) (a : Z) : Prop :=
  in_uint (width f) a /\ (f = false -> mapped a = false).
Definition iv_ok (f : bool) (i : interval) : Prop :=
  val_ok f i.1 /\ val_ok f i.2 /\ i.1 <= i.2.

Lemma Compare_mk f a b : Compare (mk f a) (mk f b) = cmp_int (a ?= b).
Proof.
  destruct f; unfold Compare, mk; cbn [BitLen addr128 Is6 Zone].
  - rewrite Z.compare_refl, Zcompare_plus_compat. by destruct (a ?= b).
  - rewrite Z.compare_refl. destruct (a ?= b); [|done|done].
    by rewrite string_compare_refl.
Qed.

Lemma cmp_int_le a b : (cmp_int (a ?= b) <=? 0) = (a <=? b).
Proof. destruct (Z.compare_spec a b); cbn [cmp_int]; lia. Qed.
Lemma cmp_int_ge a b : (0 <=? cmp_int (a ?= b)) = (b <=? a).
Proof. destruct (Z.compare_spec a b); cbn [cmp_int]; lia. Qed.
Lemma cmp_int_gt a b : (0 <? cmp_int (a ?= b)) = (b <? a).
Proof. destruct (Z.compare_spec a b); cbn [cmp_int]; lia. Qed.
Lemma cmp_int_eq a b : (cmp_int (a ?= b) =? 0) = (a =? b).
Proof. destruct (Z.compare_spec a b); cbn [cmp_int]; lia. Qed.

Lemma mk_ok f a : val_ok f a -> Addr_ok (mk f a).
Proof. intros [Ha _]. destruct f; exact Ha. Qed.

Lemma nextAddr_unfold a :
  Addr_ok a -> nextAddr a = Unmap (Addr6 ((addr128 a + 1) mod 2 ^ 128) "").
Proof.
  intros Ha. unfold nextAddr, AddrFrom16, be_val. rewrite reverse_involutive.
  rewrite le_val_inc_bytes by (unfold As16, be_bytes; rewrite reverse_involutive;
    apply le_bytes_ok).
  rewrite length_reverse. unfold As16 at 2. rewrite length_be_bytes.
  change (le_val (reverse (As16 a))) with (be_val (As16 a)). by rewrite be_val_As16.
Qed.

(** Inside its family [nextAddr] is the successor; the last address of a
    family has none and gives an address that equals no address of it but,
    for IPv6, the first one. *)
Lemma nextAddr_mk f a s :
  val_ok f a -> val_ok f s -> (s <=? a) = false ->
  (Compare (nextAddr (mk f a)) (mk f s) =? 0) = (a + 1 =? s).
Proof.
  intros [Ha Hma] [Hs Hms] Hlt. bool_props.
  rewrite nextAddr_unfold by (apply mk_ok; done).
  destruct f; unfold in_uint in *; simpl width in *; unfold mk; cbn [addr128].
  - rewrite Z.mod_small by (unfold mapped_base; lia). cbn [Unmap].
    rewrite (proj2 (mapped_spec _)) by (unfold mapped_base; lia).
    replace (mapped_base + a + 1 - mapped_base) with (a + 1) by lia.
    change (Addr4 ?x) with (mk true x). by rewrite Compare_mk, cmp_int_eq.
  - rewrite Z.mod_small by lia. cbn [Unmap]. destruct (mapped (a + 1)) eqn:E.
    + rewrite (proj2 (Z.eqb_neq (a + 1) s)); [done|].
      intros <-. rewrite Hms in E by done. done.
    + change (Addr6 ?x "") with (mk false x). by rewrite Compare_mk, cmp_int_eq.
Qed.

Lemma joins_emb f c s :
  iv_ok f c -> iv_ok f s -> joins (emb f c) (emb f s) = touches c s.
Proof.
  intros (_ & Hc & _) (Hs & _ & _). unfold joins, touches, emb. cbn [lo hi].
  rewrite Compare_mk, cmp_int_le. destruct (s.1 <=? c.2) eqn:E; [done|].
  by rewrite nextAddr_mk.
Qed.

Lemma extend_emb f c s : extend (emb f c) (emb f s) = emb f (c.1, Z.max c.2 s.2).
Proof.
  unfold extend, emb. cbn [lo hi fst snd]. rewrite Compare_mk, cmp_int_gt.
  destruct (Z.ltb_spec c.2 s.2); repeat f_equal; lia.
Qed.

Lemma span_le_emb f i j : span_le (emb f i) (emb f j) <-> iv_le i j.
Proof.
  unfold span_le, emb, iv_le. cbn [lo hi]. rewrite Compare_mk, <-Z.leb_le, cmp_int_le.
  apply Z.leb_le.
Qed.

(** ** Compaction in place *)

(** The specification of [compact]: the list version of the loop. *)
Fixpoint merge_list (cur : span) (l : list span) : list span :=
  match l with
  | [] => [cur]
  | s :: l =>
      if joins cur s then merge_list (extend cur s) l else cur :: merge_list s l
  end.

(** The loop writes below the index it reads next, so the elements it has
    still to read are the original ones. *)
Lemma compact_loop_spec rest : forall out junk cur,
  let '(arr', n', cur') :=
    compact_loop (length rest) (length out + length junk) (out ++ junk ++ rest)
                 (length out) cur in
  junk <> [] -> take (S n') (<[n' := cur']> arr') = out ++ merge_list cur rest.
Proof.
  induction rest as [|s rest IH]; intros out junk cur; cbn [compact_loop length].
  - intros Hj. destruct junk as [|j junk]; [done|].
    rewrite insert_app_r_alt by lia. rewrite Nat.sub_diag. simpl.
    rewrite (cons_middle cur), (app_assoc out).
    replace (S (length out)) with (length (out ++ [cur]))
      by (rewrite length_app; simpl; lia).
    by rewrite take_app_length.
  - rewrite (app_assoc out), lookup_app_r by (rewrite length_app; lia).
    rewrite length_app, Nat.sub_diag. cbn [list_lookup lookup].
    destruct (joins cur s) eqn:E.
    + specialize (IH out (junk ++ [s]) (extend cur s)).
      rewrite length_app, <-!(app_assoc _ [s]) in IH. simpl in IH.
      replace (length out + (length junk + 1))%nat
        with (S (length out + length junk)) in IH by lia.
      rewrite <-app_assoc. destruct (compact_loop _ _ _ _ _) as [[arr' n'] cur'].
      intros _. simpl. rewrite E. apply IH. by destruct junk.
    + destruct junk as [|j junk].
      { destruct (compact_loop _ _ _ _ _) as [[arr' n'] cur']. done. }
      rewrite <-app_assoc. rewrite insert_app_r_alt, Nat.sub_diag by lia. simpl.
      specialize (IH (out ++ [cur]) (junk ++ [s]) s).
      rewrite !length_app, <-!(app_assoc _ [s]), <-(app_assoc out) in IH. simpl in IH.
      replace (length out + 1 + (length junk + 1))%nat
        with (S (length out + S (length junk))) in IH by lia.
      rewrite (Nat.add_1_r (length out)) in IH.
      destruct (compact_loop _ _ _ _ _) as [[arr' n'] cur'].
      intros _. rewrite E, IH by by destruct junk. by rewrite <-app_assoc.
Qed.

Lemma compact_spec cur rest : compact (cur :: rest) = merge_list cur rest.
Proof.
  unfold compact. pose proof (compact_loop_spec rest [] [cur] cur) as H. simpl in H.
  cbn [length]. rewrite Nat.sub_succ, Nat.sub_0_r.
  destruct (compact_loop _ _ _ _ _) as [[arr n] c]. by apply H.
Qed.

Lemma merge_list_emb f cur l :
  iv_ok f cur -> Forall (iv_ok f) l ->
  merge_list (emb f cur) (emb f <$> l) = emb f <$> zmerge cur l.
Proof.
  intros Hc Hl. revert cur Hc. induction Hl as [|s l Hs Hl IH]; intros cur Hc; [done|].
  cbn [merge_list zmerge fmap list_fmap]. rewrite joins_emb by done.
  destruct (touches cur s).
  - rewrite extend_emb. apply IH. destruct Hc as (? & ? & ?), Hs as (? & ? & ?).
    unfold iv_ok. cbn [fst snd]. split_and!; [assumption| |lia].
    destruct (Z.max_spec cur.2 s.2) as [[_ ->]|[_ ->]]; assumption.
  - cbn [fmap list_fmap]. f_equal. by apply IH.
Qed.

(** ** The sorted, merged spans *)

Lemma Compare_antisym a b : Compare b a = - Compare a b.
Proof.
  unfold Compare. rewrite (Z.compare_antisym (BitLen a)).
  destruct (BitLen a ?= BitLen b) eqn:Eb; [|done..]. simpl.
  rewrite (Z.compare_antisym (addr128 a)).
  destruct (addr128 a ?= addr128 b); [|done..]. simpl. apply Z.compare_eq in Eb.
  assert (Is6 b = Is6 a) as -> by (destruct a, b; simpl in *; congruence).
  destruct (Is6 a); [|done]. rewrite String.compare_antisym.
  by destruct (String.compare (Zone a) (Zone b)).
Qed.

#[export] Instance span_le_total : Total span_le.
Proof.
  intros s t. unfold span_le. rewrite (Compare_antisym (lo s) (lo t)). lia.
Qed.

#[export] Instance iv_le_trans : Transitive iv_le.
Proof. intros i j k. unfold iv_le. lia. Qed.

Lemma Sorted_emb f l : Sorted span_le (emb f <$> l) -> StronglySorted iv_le l.
Proof.
  intros Hs. apply Sorted_StronglySorted; [apply _|].
  induction l as [|i l IH]; [constructor|]. inversion Hs as [|? ? Hs' Hh]; subst.
  constructor; [by apply IH|]. destruct l; constructor.
  inversion Hh; subst. by eapply span_le_emb.
Qed.

Lemma zmerge_ok f cur l :
  iv_ok f cur -> Forall (iv_ok f) l -> Forall (iv_ok f) (zmerge cur l).
Proof.
  intros Hc Hl. revert cur Hc. induction Hl as [|s l Hs Hl IH]; intros cur Hc; simpl.
  - by constructor.
  - destruct (touches cur s); [|constructor; [done|by apply IH]].
    apply IH. destruct Hc as (? & ? & ?), Hs as (? & ? & ?).
    unfold iv_ok. cbn [fst snd]. split_and!; [assumption| |lia].
    destruct (Z.max_spec cur.2 s.2) as [[_ ->]|[_ ->]]; assumption.
Qed.

(** Spans of one family, as intervals. *)
Definition spans_as (f : bool) (spans : list span) (l : list interval) : Prop :=
  spans = emb f <$> l /\ Forall (iv_ok f) l.

Lemma iv_ok_proper f l : Forall (iv_ok f) l -> Forall (fun i => i.1 <= i.2) l.
Proof. intros H. eapply Forall_impl; [exact H|]. by intros i (_ & _ & Hi). Qed.

(** Compacting a sorted slice gives the canonical intervals. *)
Lemma compact_canon f arr l :
  spans_as f arr l -> Sorted span_le arr ->
  exists l', spans_as f (compact arr) l' /\ canon l' /\
             (forall x, covers l' x <-> covers l x).
Proof.
  intros [-> Hok] Hs. destruct l as [|i l].
  { exists []. split_and!; [by split|constructor|done]. }
  exists (zmerge i l). apply Forall_cons in Hok as [Hi Hok].
  pose proof (Sorted_emb _ _ Hs) as Hss.
  destruct (zmerge_spec i l) as (Hc & Hx & _);
    [done|by apply (iv_ok_proper f); constructor|].
  split_and!; [|done|done]. split; [|by apply zmerge_ok].
  cbn [fmap list_fmap]. rewrite compact_spec. by apply merge_list_emb.
Qed.

Lemma spans_as_perm f arr arr' l :
  Permutation arr arr' -> spans_as f arr l ->
  exists l', spans_as f arr' l' /\ Permutation l l'.
Proof.
  intros Hp [-> Hok]. symmetry in Hp.
  apply Permutation_map_inv in Hp as (l' & -> & Hp'). exists l'.
  split; [|done]. split; [done|]. by rewrite <-Hp'.
Qed.

Lemma covers_perm l l' x : Permutation l l' -> covers l x <-> covers l' x.
Proof. intros Hp. unfold covers. by rewrite Hp. Qed.

Lemma merge_canon f spans l :
  spans_as f spans l ->
  exists l', spans_as f (merge spans) l' /\ canon l' /\
             (forall x, covers l' x <-> covers l x).
Proof.
  intros Has. unfold merge. destruct (length spans <=? 1)%nat eqn:Hlen.
  - exists l. apply Nat.leb_le in Hlen. destruct Has as [-> Hok].
    rewrite length_fmap in Hlen. split_and!; [by split| |done].
    destruct l as [|i [|j l]]; [constructor| |simpl in Hlen; lia].
    apply Forall_cons in Hok as [(_ & _ & ?) _]. by constructor.
  - destruct (spans_as_perm f spans (sort_Slice spans) l) as (l1 & Has1 & Hp);
      [symmetry; apply merge_sort_Permutation|done|].
    destruct (compact_canon f (sort_Slice spans) l1) as (l' & ? & ? & Hx);
      [done|apply Sorted_merge_sort; apply _|].
    exists l'. split_and!; [done|done|]. intros x. rewrite Hx. by apply covers_perm.
Qed.

(** ** Binary search *)

Lemma search_loop_spec f fuel i j r :
  (forall a b, (a <= b)%nat -> f a = true -> f b = true) ->
  (i <= j)%nat -> (j - i <= fuel)%nat -> search_loop fuel i j f = r ->
  (i <= r <= j)%nat /\ (forall k, (i <= k < r)%nat -> f k = false) /\
  (forall k, (r <= k < j)%nat -> f k = true).
Proof.
  intros Hmono. revert i j.
  induction fuel as [|fuel IH]; intros i j Hij Hf; cbn [search_loop].
  - intros <-. split_and!; intros; lia.
  - destruct (Nat.ltb_spec i j) as [Hlt|]; cycle 1.
    { intros <-. split_and!; intros; lia. }
    set (h := ((i + j) / 2)%nat).
    assert (i <= h < j)%nat as Hh.
    { unfold h. pose proof (Nat.div_mod_eq (i + j) 2).
      pose proof (Nat.mod_upper_bound (i + j) 2). lia. }
    destruct (f h) eqn:E; cbn [negb]; intros Hr.
    + destruct (IH i h) as (H1 & H2 & H3); [lia|lia|done|].
      split_and!; [lia|lia|done|]. intros k Hk. destruct (decide (k < h)%nat); [apply H3; lia|].
      eapply Hmono; [|exact E]. lia.
    + destruct (IH (S h) j) as (H1 & H2 & H3); [lia|lia|done|].
      split_and!; [lia|lia| |intros; apply H3; lia]. intros k Hk.
      destruct (decide (k <= h)%nat); [|apply H2; lia].
      destruct (f k) eqn:Ek; [|done]. rewrite (Hmono k h) in E by (lia || done). done.
Qed.

Lemma contains_canon f l x :
  canon l -> contains (emb f <$> l) (mk f x) = true <-> covers l x.
Proof.
  intros Hc. unfold contains, sort_Search. rewrite length_fmap.
  set (g := fun i => match (emb f <$> l) !! i with
                     | Some s => 0 <=? Compare (hi s) (mk f x) | None => true end).
  assert (forall i, g i = match l !! i with Some s => x <=? s.2 | None => true end) as Hg.
  { intros i. unfold g. rewrite list_lookup_fmap. destruct (l !! i); [|done].
    simpl. by rewrite Compare_mk, cmp_int_ge. }
  destruct (search_loop_spec g (length l) 0 (length l)
    (search_loop (length l) 0 (length l) g)) as ([_ Hr] & Hlow & Hhigh); [|lia|lia|done|].
  { intros a b Hab. rewrite !Hg. destruct (l !! a) as [s|] eqn:Ea; [|].
    - intros Hx. destruct (l !! b) as [t|] eqn:Eb; [|done].
      pose proof (canon_ends_increase l a b s t Hc Hab Ea Eb). lia.
    - intros _. apply lookup_ge_None in Ea. rewrite lookup_ge_None_2 by lia. done. }
  set (r := search_loop (length l) 0 (length l) g) in *.
  rewrite list_lookup_fmap. destruct (l !! r) as [s|] eqn:Er; simpl.
  - rewrite Compare_mk, cmp_int_gt, negb_true_iff, Z.ltb_ge. symmetry.
    apply (canon_lookup_decides l x r s); [done|done| |].
    + pose proof (Hhigh r) as Hr'. rewrite Hg, Er in Hr'.
      apply lookup_lt_Some in Er. specialize (Hr' ltac:(lia)). lia.
    + intros k t Hk Ht. specialize (Hlow k ltac:(lia)). rewrite Hg, Ht in Hlow. lia.
  - split; [done|]. intros Hx. exfalso. apply lookup_ge_None in Er.
    apply (canon_all_before l x); [|done]. intros k t Ht.
    pose proof (lookup_lt_Some _ _ _ Ht). specialize (Hlow k ltac:(lia)).
    rewrite Hg, Ht in Hlow. lia.
Qed.

(** ** Prefixes as intervals *)

Definition family (p : Prefix) : bool := Is4 (p_addr p).
Definition host_bits (p : Prefix) : Z := BitLen (p_addr p) - p_bits p.
Definition p_val (p : Prefix) : Z :=
  match p_addr p with AddrZero => 0 | Addr4 a => a | Addr6 a _ => a end.
Definition p_last (p : Prefix) : Z := p_val p + 2 ^ host_bits p - 1.

(** What [ParsePrefix] followed by [Masked] delivers: a valid address without
    zone, a length within its family, and no bit below the mask. *)
Definition Prefix_ok (p : Prefix) : Prop :=
  p_addr p = mk (family p) (p_val p) /\ in_uint (width (family p)) (p_val p) /\
  0 <= p_bits p <= width (family p) /\ p_val p mod 2 ^ host_bits p = 0.

(** The last address is not an IPv4-mapped one. *)
Definition tail_unmapped (p : Prefix) : bool :=
  family p || negb (mapped (p_last p)).

Lemma BitLen_mk f a : BitLen (mk f a) = width f.
Proof. by destruct f. Qed.

Lemma lor_ones_aligned v h :
  0 <= h -> v mod 2 ^ h = 0 -> Z.lor v (Z.ones h) = v + (2 ^ h - 1).
Proof.
  intros Hh Hv. assert (Z.land v (Z.ones h) = 0) as Hl by by rewrite Z.land_ones.
  rewrite <-Z.lxor_lor, <-Z.add_nocarry_lxor by done. by rewrite Z.ones_equiv.
Qed.

Lemma mapped_base_add_aligned h a :
  0 <= h <= 32 -> a mod 2 ^ h = 0 -> (mapped_base + a) mod 2 ^ h = 0.
Proof.
  intros Hh Ha. pose proof (Z.pow_pos_nonneg 2 h).
  assert (mapped_base = 0xffff * 2 ^ (32 - h) * 2 ^ h) as ->.
  { unfold mapped_base. rewrite <-Z.mul_assoc, <-Z.pow_add_r by lia. f_equal. f_equal. lia. }
  rewrite Z.add_comm, Z.mod_add by lia. done.
Qed.

Lemma host_bits_ok p : Prefix_ok p -> host_bits p = width (family p) - p_bits p.
Proof. intros (E & _). unfold host_bits. by rewrite E, BitLen_mk. Qed.

Lemma p_last_bound p : Prefix_ok p -> p_val p <= p_last p < 2 ^ width (family p).
Proof.
  intros Hp. pose proof (host_bits_ok p Hp) as Hh. destruct Hp as (_ & Hv & Hb & Hm).
  unfold p_last. assert (0 <= host_bits p) by lia. assert (host_bits p <= width (family p)) by lia.
  unfold in_uint in Hv. split.
  { pose proof (Z.pow_pos_nonneg 2 (host_bits p)). lia. }
  pose proof (Z.div_mod (p_val p) (2 ^ host_bits p)) as Hd. rewrite Hm in Hd.
  assert (2 ^ width (family p) = 2 ^ p_bits p * 2 ^ host_bits p) as Hw.
  { rewrite <-Z.pow_add_r by lia. f_equal. lia. }
  rewrite Hw in Hv |- *. set (q := p_val p / 2 ^ host_bits p) in *.
  pose proof (Z.pow_pos_nonneg 2 (host_bits p)). assert (q < 2 ^ p_bits p) by nia. nia.
Qed.

Lemma fill_host_As16 a h :
  Addr_ok a -> 0 <= h <= 128 ->
  AddrFrom16 (reverse (fill_host (reverse (As16 a)) h)) =
  Addr6 (Z.lor (addr128 a) (Z.ones h)) "".
Proof.
  intros Ha Hh. unfold AddrFrom16, be_val. rewrite reverse_involutive.
  rewrite le_val_fill_host.
  - change (le_val (reverse (As16 a))) with (be_val (As16 a)). by rewrite be_val_As16.
  - unfold As16, be_bytes. rewrite reverse_involutive. apply le_bytes_ok.
  - rewrite length_reverse. unfold As16. rewrite length_be_bytes. lia.
Qed.

(** The highest address of a masked prefix, before [Unmap] has moved an
    IPv4-mapped one to the other family. *)
Lemma lastAddr_spec p :
  Prefix_ok p ->
  lastAddr p = if family p then Addr4 (p_last p) else
               if p_bits p =? 128 then p_addr p else Unmap (Addr6 (p_last p) "").
Proof.
  intros Hp. pose proof (host_bits_ok p Hp) as Hh. pose proof (p_last_bound p Hp) as Hl.
  destruct Hp as (E & Hv & Hb & Hm). unfold lastAddr.
  assert (BitLen (p_addr p) = width (family p)) as Hw by by rewrite E, BitLen_mk.
  rewrite Hw. destruct (Z.eqb_spec (p_bits p) (width (family p))) as [Eb|Eb].
  - unfold p_last. rewrite Hh, Eb, Z.sub_diag. rewrite E.
    destruct (family p); simpl width in *; cbn [mk]; [f_equal; lia|done].
  - fold (host_bits p). replace (width (family p) - p_bits p) with (host_bits p) by lia.
    rewrite fill_host_As16;
      [|rewrite E; by destruct (family p)|destruct (family p); simpl width in *; lia].
    rewrite E. destruct (family p) eqn:Ef; simpl width in *; cbn [mk addr128].
    + rewrite lor_ones_aligned by (lia || (apply mapped_base_add_aligned; lia || done)).
      cbn [Unmap]. rewrite (proj2 (mapped_spec _)) by (unfold p_last, in_uint in *; lia).
      f_equal. unfold p_last. lia.
    + rewrite (proj2 (Z.eqb_neq _ _)) by done. rewrite lor_ones_aligned by (lia || done).
      f_equal. f_equal. unfold p_last. lia.
Qed.

(** A prefix whose last address is not IPv4-mapped does not start at an
    IPv4-mapped one. *)
Lemma tail_unmapped_val p :
  Prefix_ok p -> family p = false -> mapped (p_last p) = false -> mapped (p_val p) = false.
Proof.
  intros Hp Hf Hl. pose proof (host_bits_ok p Hp) as Hh. rewrite Hf in Hh. simpl in Hh.
  destruct Hp as (_ & _ & Hb & Hm). rewrite Hf in Hb. simpl width in *.
  destruct (mapped (p_val p)) eqn:Hv; [|done]. exfalso.
  apply mapped_spec in Hv. apply mapped_false in Hl. apply Hl. clear Hl.
  unfold p_last, mapped_base in *. set (h := host_bits p) in *.
  pose proof (Z.div_mod (p_val p) (2 ^ h)) as Hd. rewrite Hm in Hd.
  set (q := p_val p / 2 ^ h) in *. pose proof (Z.pow_pos_nonneg 2 h ltac:(lia) ltac:(lia)).
  destruct (Z.le_gt_cases h 32).
  - split; [lia|].
    assert (2 ^ 32 = 2 ^ (32 - h) * 2 ^ h) as E32
      by (rewrite <-Z.pow_add_r by lia; f_equal; lia).
    assert (q < 65536 * 2 ^ (32 - h)) by nia. nia.
  - assert (2 ^ h = 2 ^ (h - 33) * (2 * 2 ^ 32)) as Eh.
    { change (2 * 2 ^ 32) with (2 ^ 33). rewrite <-Z.pow_add_r by lia. f_equal. lia. }
    rewrite Eh in Hd. set (m := q * 2 ^ (h - 33)). assert (p_val p = m * (2 * 2 ^ 32)) by lia. lia.
Qed.

Definition p_iv (p : Prefix) : interval := (p_val p, p_last p).

Lemma p_iv_ok p : Prefix_ok p -> tail_unmapped p = true -> iv_ok (family p) (p_iv p).
Proof.
  intros Hp Ht. pose proof (p_last_bound p Hp). unfold tail_unmapped in Ht.
  assert (in_uint (width (family p)) (p_val p)) as Hv by apply Hp.
  unfold iv_ok, val_ok, p_iv, in_uint in *. cbn [fst snd].
  split_and!; try lia; intros Hf; rewrite Hf in Ht; apply negb_true_iff in Ht; [|done].
  by apply tail_unmapped_val.
Qed.

Lemma span_of_prefix p :
  Prefix_ok p -> tail_unmapped p = true ->
  mkSpan (p_addr p) (lastAddr p) = emb (family p) (p_iv p).
Proof.
  intros Hp Ht. unfold emb, p_iv. cbn [fst snd]. rewrite lastAddr_spec by done.
  unfold tail_unmapped in Ht. f_equal; [apply Hp|].
  destruct (family p) eqn:Hf; [done|]. apply negb_true_iff in Ht.
  destruct (Z.eqb_spec (p_bits p) 128) as [Eb|].
  - pose proof (host_bits_ok p Hp) as Hh. rewrite Hf, Eb in Hh.
    unfold p_last. rewrite Hh. destruct Hp as (E & _). rewrite E, Hf. cbn [mk].
    f_equal. simpl width. lia.
  - cbn [Unmap]. by rewrite Ht.
Qed.

Lemma Prefix_Contains_mk p f x :
  Prefix_ok p -> in_uint (width f) x ->
  Prefix_Contains p (mk f x) = true <-> family p = f /\ inside x (p_iv p).
Proof.
  intros Hp Hx. pose proof (host_bits_ok p Hp) as Hh. destruct Hp as (E & _ & Hb & Hm).
  unfold Prefix_Contains. rewrite E.
  assert (forall h, 0 <= h -> h = host_bits p ->
    (Z.shiftr (p_val p) h =? Z.shiftr x h) = true <-> inside x (p_iv p)) as Hs.
  { intros h Hh0 ->. unfold inside, p_iv, p_last. cbn [fst snd].
    rewrite Z.eqb_eq, !Z.shiftr_div_pow2 by done.
    pose proof (Z.pow_pos_nonneg 2 (host_bits p) ltac:(lia) Hh0).
    pose proof (Z.div_mod (p_val p) (2 ^ host_bits p) ltac:(lia)) as Hd. rewrite Hm in Hd.
    pose proof (Z.div_mod x (2 ^ host_bits p) ltac:(lia)) as Hdx.
    pose proof (Z.mod_pos_bound x (2 ^ host_bits p) ltac:(lia)) as Hmx.
    split; [nia|]. intros. apply (Z.div_unique x _ _ (x - p_val p)); lia. }
  destruct (family p), f; simpl width in *; cbn [mk].
  - rewrite Hs by lia. tauto.
  - split; [done|]. intros [? _]. done.
  - split; [done|]. intros [? _]. done.
  - cbn [String.eqb andb]. rewrite Hs by lia. tauto.
Qed.

(** ** The index *)

Definition p_span (p : Prefix) : span := mkSpan (p_addr p) (lastAddr p).
Definition of_family (f : bool) (ps : list Prefix) : list Prefix :=
  filter (fun p => family p = f) ps.

Lemma foldl_build_step ps v4 v6 n4 n6 :
  foldl build_step (v4, v6, n4, n6) ps =
  (v4 ++ (p_span <$> of_family true ps), v6 ++ (p_span <$> of_family false ps),
   n4 + Z.of_nat (length (of_family true ps)), n6 + Z.of_nat (length (of_family false ps))).
Proof.
  unfold of_family. revert v4 v6 n4 n6. induction ps as [|p ps IH]; intros; simpl.
  - rewrite !app_nil_r, !Z.add_0_r. done.
  - fold (family p). rewrite !filter_cons. destruct (family p) eqn:Hf; rewrite IH.
    + rewrite (decide_True (P := true = true)), (decide_False (P := true = false)) by done.
      simpl. rewrite <-app_assoc. f_equal; try lia; f_equal; lia.
    + rewrite (decide_False (P := false = true)), (decide_True (P := false = false)) by done.
      simpl. rewrite <-app_assoc. f_equal; try lia; f_equal; lia.
Qed.

Lemma Build_unfold ps :
  Build ps = mkIndex (merge (p_span <$> of_family true ps))
                     (merge (p_span <$> of_family false ps))
                     (Z.of_nat (length (of_family true ps)))
                     (Z.of_nat (length (of_family false ps))).
Proof. unfold Build. by rewrite foldl_build_step. Qed.

Section Index.
Context (ps : list Prefix).
Hypothesis Hok : Forall Prefix_ok ps.
Hypothesis Htail : Forall (fun p => tail_unmapped p = true) ps.

Lemma of_family_as f :
  spans_as f (p_span <$> of_family f ps) (p_iv <$> of_family f ps).
Proof.
  unfold of_family. clear -Hok Htail.
  induction ps as [|p qs IH]; [split; [done|constructor]|].
  apply Forall_cons in Hok as [Hp Hq]. apply Forall_cons in Htail as [Ht Htq].
  destruct (IH Hq Htq) as [IH1 IH2]. rewrite filter_cons.
  destruct (decide (family p = f)) as [<-|]; [|done].
  split; cbn [fmap list_fmap]; [|constructor; [by apply p_iv_ok|done]].
  rewrite IH1. unfold p_span at 1. by rewrite span_of_prefix.
Qed.

Lemma covers_of_family f x :
  in_uint (width f) x ->
  covers (p_iv <$> of_family f ps) x <->
  existsb (fun p => Prefix_Contains p (mk f x)) ps = true.
Proof.
  intros Hx. unfold covers, of_family. rewrite Exists_fmap, existsb_exists, Exists_exists.
  rewrite Forall_forall in Hok. split.
  - intros (p & [Hf Hin]%list_elem_of_filter & Hi). exists p. split; [by apply list_elem_of_In|].
    apply Prefix_Contains_mk; auto.
  - intros (p & Hin & Hp). apply list_elem_of_In in Hin.
    apply Prefix_Contains_mk in Hp as [Hf Hi]; auto.
    exists p. split; [by apply list_elem_of_filter|done].
Qed.

Lemma contains_family f x :
  in_uint (width f) x ->
  contains (merge (p_span <$> of_family f ps)) (mk f x) =
  existsb (fun p => Prefix_Contains p (mk f x)) ps.
Proof.
  intros Hx. destruct (merge_canon f _ _ (of_family_as f)) as (l' & [-> _] & Hc & Hcov).
  apply eq_true_iff_eq. rewrite contains_canon, Hcov by done. by apply covers_of_family.
Qed.
End Index.

Lemma contains_AddrZero f l : contains (emb f <$> l) AddrZero = false.
Proof.
  unfold contains. rewrite list_lookup_fmap. destruct (l !! _); [|done]. by destruct f.
Qed.

Lemma length_merge_list l : forall cur, (length (merge_list cur l) <= S (length l))%nat.
Proof.
  induction l as [|s l IH]; intros cur; simpl; [done|].
  destruct (joins cur s); [specialize (IH (extend cur s))|specialize (IH s)]; simpl; lia.
Qed.

Lemma length_merge spans : (length (merge spans) <= length spans)%nat.
Proof.
  unfold merge. destruct (length spans <=? 1)%nat; [done|].
  assert (length (sort_Slice spans) = length spans) as <-.
  { unfold sort_Slice. by rewrite (merge_sort_Permutation span_le spans). }
  destruct (sort_Slice spans) as [|s l]; [done|]. rewrite compact_spec.
  apply length_merge_list.
Qed.

Lemma length_of_family ps :
  (length (of_family true ps) + length (of_family false ps) = length ps)%nat.
Proof.
  unfold of_family. induction ps as [|p ps IH]; [done|]. rewrite !filter_cons.
  destruct (family p).
  - rewrite (decide_True (P := true = true)), (decide_False (P := true = false)) by done.
    simpl. lia.
  - rewrite (decide_False (P := false = true)), (decide_True (P := false = false)) by done.
    simpl. lia.
Qed.

(** The index agrees with the scan over the prefixes. *)
Lemma Build_scan ps ip :
  Forall Prefix_ok ps -> Forall (fun p => tail_unmapped p = true) ps ->
  Addr_ok ip -> Zone ip = "" ->
  Contains (Build ps) ip = existsb (fun p => Prefix_Contains p (Unmap ip)) ps.
Proof.
  intros Hok Ht Hip Hz. pose proof (Unmap_ok ip Hip) as Hu.
  assert (Unmap ip = AddrZero \/ exists f x, Unmap ip = mk f x /\ in_uint (width f) x)
    as [E|(f & x & E & Hx)].
  { destruct ip as [|a|a z]; [by left|right; by exists true, a|right]. simpl in Hz. subst z.
    cbn [Unmap] in *. destruct (mapped a); [exists true|exists false]; eauto. }
  - unfold Contains. rewrite E. cbn [Is4]. rewrite Build_unfold. cbn [ix_v6].
    destruct (merge_canon false _ _ (of_family_as ps Hok Ht false)) as (l & [-> _] & _).
    rewrite contains_AddrZero. symmetry. apply not_true_iff_false.
    rewrite existsb_exists. intros (p & _ & Hp). unfold Prefix_Contains in Hp.
    by destruct (p_addr p).
  - unfold Contains. rewrite E, Build_unfold. cbn [ix_v4 ix_v6].
    rewrite <-(contains_family ps Hok Ht f x Hx). by destruct f.
Qed.

(** ** Theorems *)

(** Discharges the side conditions on concrete prefixes and addresses. *)
Ltac solve_concrete :=
  repeat match goal with
  | |- Forall _ _ => constructor
  | |- Prefix_ok _ => unfold Prefix_ok
  | |- Addr_ok _ => cbn [Addr_ok]
  | |- in_uint _ _ => unfold in_uint
  | |- _ /\ _ => split
  end; vm_compute; first [reflexivity|intros; discriminate].

(** C2: when no prefix of the list ends at an IPv4-mapped address, the index
    classifies addresses exactly as the linear scan over the prefixes does:
    [Contains] on the merged, sorted spans with its binary search equals
    [netip.Prefix.Contains] tried on each prefix, for the unmapped address.
    The prefixes are those the loader delivers (valid, masked, without zone)
    and the address has no zone.  A prefix that ends at an IPv4-mapped
    address, as [::ffff:192.168.1.0/120] of [TestContainsMatchesNaive] does, is
    excluded: [mapped_tail_lost] and [mapped_prefix_hides_others] say what
    becomes of it and of the others. *)
Theorem Contains_Build ps ip :
  Forall Prefix_ok ps -> Forall (fun p => tail_unmapped p = true) ps ->
  Addr_ok ip -> Zone ip = "" ->
  Contains (Build ps) ip = existsb (fun p => Prefix_Contains p (Unmap ip)) ps.
Proof. apply Build_scan. Qed.

(** Two of the test fixtures of [index_test.go], overlapping, and a query. *)
Definition sample_prefixes : list Prefix :=
  [mkPrefix (Addr4 (be_val [1; 0; 2; 0])) 23; mkPrefix (Addr4 (be_val [1; 0; 2; 128])) 25;
   mkPrefix (Addr6 (0x20014860 * 2 ^ 96) "") 32].

Lemma Contains_Build_witness :
  Contains (Build sample_prefixes) (Addr6 (mapped_base + be_val [1; 0; 3; 255]) "") = true.
Proof.
  rewrite (Contains_Build sample_prefixes).
  - reflexivity.
  - unfold sample_prefixes. solve_concrete.
  - unfold sample_prefixes. solve_concrete.
  - solve_concrete.
  - reflexivity.
Defined.

(** C38: the shape of an index built from well-formed prefixes none of which
    ends at an IPv4-mapped address (the span of one that does has an upper end
    below its lower end).  Each family's spans are, in order,
    proper intervals with at least one address between neighbours, so they
    are sorted and disjoint and the adjacent ones have been merged; every
    input prefix is counted once, and no family has more spans than inputs. *)
Theorem Build_invariant ps :
  Forall Prefix_ok ps -> Forall (fun p => tail_unmapped p = true) ps ->
  (exists l4, spans_as true (ix_v4 (Build ps)) l4 /\ canon l4) /\
  (exists l6, spans_as false (ix_v6 (Build ps)) l6 /\ canon l6) /\
  V4Input (Build ps) + V6Input (Build ps) = Z.of_nat (length ps) /\
  Z.of_nat (fst (Counts (Build ps))) <= V4Input (Build ps) /\
  Z.of_nat (snd (Counts (Build ps))) <= V6Input (Build ps).
Proof.
  intros Hok Ht. rewrite Build_unfold. cbn [ix_v4 ix_v6 V4Input V6Input Counts fst snd].
  destruct (merge_canon true _ _ (of_family_as ps Hok Ht true)) as (l4 & H4 & C4 & _).
  destruct (merge_canon false _ _ (of_family_as ps Hok Ht false)) as (l6 & H6 & C6 & _).
  pose proof (length_merge (p_span <$> of_family true ps)) as L4.
  pose proof (length_merge (p_span <$> of_family false ps)) as L6.
  rewrite length_fmap in L4, L6. pose proof (length_of_family ps).
  split_and!; [by eauto|by eauto|lia..].
Qed.

Lemma Build_invariant_witness :
  (exists l4, spans_as true (ix_v4 (Build sample_prefixes)) l4 /\ canon l4) /\
  Counts (Build sample_prefixes) = (1%nat, 1%nat).
Proof.
  destruct (Build_invariant sample_prefixes) as (H4 & _).
  - unfold sample_prefixes. solve_concrete.
  - unfold sample_prefixes. solve_concrete.
  - split; [exact H4|reflexivity].
Defined.

(** [merge] does not depend on how [sort.Slice] orders spans with the
    same lower bound (its sort is not stable): any two sorted arrangements of
    the same spans are compacted to the same list. *)
Theorem compact_tie_independent f arr1 arr2 l :
  spans_as f arr1 l -> Permutation arr1 arr2 ->
  Sorted span_le arr1 -> Sorted span_le arr2 -> compact arr1 = compact arr2.
Proof.
  intros H1 Hp S1 S2. destruct (spans_as_perm f arr1 arr2 l Hp H1) as (l2 & H2 & Hpl).
  destruct (compact_canon f arr1 l H1 S1) as (c1 & [-> _] & C1 & X1).
  destruct (compact_canon f arr2 l2 H2 S2) as (c2 & [-> _] & C2 & X2).
  f_equal. apply canon_unique; [done|done|]. intros x. rewrite X1, X2.
  by apply covers_perm.
Qed.

(** 10.0.0.0/25 and 10.0.0.0/24 in both orders, then 10.0.1.0/24. *)
Definition tie_spans (swap : bool) : list span :=
  let a := (167772160, 167772287) in let b := (167772160, 167772415) in
  emb true <$> (if swap then [b; a] else [a; b]) ++ [(167772416, 167772671)].

Lemma compact_tie_independent_witness :
  compact (tie_spans false) = compact (tie_spans true) /\
  compact (tie_spans true) = [emb true (167772160, 167772671)].
Proof.
  split; [|reflexivity].
  apply (compact_tie_independent true _ _
    [(167772160, 167772287); (167772160, 167772415); (167772416, 167772671)]).
  - split; [reflexivity|]. repeat (constructor || split); vm_compute; done.
  - apply perm_swap.
  - repeat constructor; vm_compute; done.
  - repeat constructor; vm_compute; done.
Defined.

(** An IPv6 prefix that ends at an IPv4-mapped address is lost: its last
    address is unmapped to an IPv4 one, which sorts below every IPv6 address,
    so the index built from it contains no address at all, whatever the
    prefix covers. *)
Theorem mapped_tail_lost p ip :
  Prefix_ok p -> family p = false -> p_bits p < 128 -> tail_unmapped p = false ->
  Addr_ok ip -> Contains (Build [p]) ip = false.
Proof.
  intros Hp Hf Hb Ht Hip. rewrite Build_unfold. unfold of_family.
  rewrite !filter_cons, Hf, !filter_nil.
  rewrite (decide_False (P := false = true)), (decide_True (P := false = false)) by done.
  unfold Contains. cbn [ix_v4 ix_v6 fmap list_fmap]. unfold merge. cbn [length Nat.leb].
  assert (exists a, lastAddr p = Addr4 a) as [a Ea].
  { rewrite lastAddr_spec, Hf by done. rewrite (proj2 (Z.eqb_neq _ _)) by lia.
    unfold tail_unmapped in Ht. rewrite Hf in Ht. cbn [orb] in Ht. apply negb_false_iff in Ht.
    cbn [Unmap]. rewrite Ht. eauto. }
  assert (exists b, p_addr p = Addr6 b "") as [b Eb].
  { destruct Hp as (E & _). rewrite Hf in E. rewrite E. cbn [mk]. eauto. }
  unfold p_span. rewrite Ea, Eb. destruct (Unmap ip); reflexivity.
Qed.

(** [::/80] covers [::1], and the index built from it does not contain it. *)
Lemma mapped_tail_lost_witness :
  Contains (Build [mkPrefix (Addr6 0 "") 80]) (Addr6 1 "") = false /\
  Prefix_Contains (mkPrefix (Addr6 0 "") 80) (Addr6 1 "") = true.
Proof.
  split; [|reflexivity]. apply (mapped_tail_lost (mkPrefix (Addr6 0 "") 80) (Addr6 1 "")).
  - solve_concrete.
  - reflexivity.
  - reflexivity.
  - reflexivity.
  - solve_concrete.
Defined.

(** An IPv4-mapped prefix in the list, such as the one of
    [TestContainsMatchesNaive], also hides other prefixes: its upper bound
    breaks the order the binary search relies on, and an address of [::/96]
    is no longer found. *)
Theorem mapped_prefix_hides_others :
  let ps := [mkPrefix (Addr6 0 "") 96;
             mkPrefix (Addr6 (mapped_base + be_val [192; 168; 1; 0]) "") 120;
             mkPrefix (Addr6 (0x20014860 * 2 ^ 96) "") 32] in
  Forall Prefix_ok ps /\ existsb (fun p => Prefix_Contains p (Addr6 1 "")) ps = true /\
  Contains (Build ps) (Addr6 1 "") = false.
Proof. split_and!; [solve_concrete|reflexivity|reflexivity]. Qed.
