(* ===== verification/NetipParse.v ===== *)
(** * NetipParse: the parsers of Go's [net/netip]

    [ParseAddr], [ParsePrefix] and [ParseAddrPort] with the loops of the
    standard library, errors as [None].  What the rest of the development
    needs of them is at the end: the values they deliver are well formed, and
    a parsed prefix is one the index can be built from once it is masked. *)

From S2P Require Import Prelude Netip GoText.
From Stdlib Require Import Ascii.

Definition code (c : ascii) : Z := Z.of_N (N_of_ascii c).

Definition between (l h : ascii) (c : ascii) : bool :=
  (code l <=? code c) && (code c <=? code h).
Definition is_digit (c : ascii) : bool := between "0" "9" c.
Definition digit_val (c : ascii) : Z := code c - code "0".

(** ** IPv4 *)

(** [parseIPv4Fields]: [prevdot] holds at the start and after a dot, [fields]
    are the octets already stored. *)
Fixpoint parseIPv4Fields (s : string) (prevdot : bool) (val : Z) (digLen : nat)
    (fields : list Z) : option (list Z) :=
  match s with
  | EmptyString => if (length fields <? 3)%nat then None else Some (fields ++ [val])
  | String c s' =>
      if is_digit c then
        if (digLen =? 1)%nat && (val =? 0) then None
        else
          let val := val * 10 + digit_val c in
          if 255 <? val then None
          else parseIPv4Fields s' false val (S digLen) fields
      else if Ascii.eqb c "." then
        if prevdot || String.eqb s' "" then None
        else if (length fields =? 3)%nat then None
        else parseIPv4Fields s' true 0 0 (fields ++ [val])
      else None
  end.

Definition parseIPv4 (s : string) : option Addr :=
  match parseIPv4Fields s true 0 0 [] with
  | Some fields => Some (Addr4 (be_val fields))
  | None => None
  end.

(** ** IPv6 *)

Definition hex_val (c : ascii) : option Z :=
  if is_digit c then Some (digit_val c)
  else if between "a" "f" c then Some (code c - code "a" + 10)
  else if between "A" "F" c then Some (code c - code "A" + 10)
  else None.

(** The digits of one group: their number, their value and the rest; [None]
    for more than four digits. *)
Fixpoint hex_group (s : string) (off : nat) (acc : Z) : option (nat * Z * string) :=
  match s with
  | EmptyString => Some (off, acc, s)
  | String c s' =>
      match hex_val c with
      | None => Some (off, acc, s)
      | Some d =>
          let acc := Z.shiftl acc 4 + d in
          if (3 <? off)%nat then None
          else if 65535 <? acc then None
          else hex_group s' (S off) acc
      end
  end.

(** The loop over the groups: [ip] holds the bytes stored so far, the fuel is
    the number of groups that still fit the 16 bytes. *)
Fixpoint v6_loop (fuel : nat) (s : string) (ip : list Z) (ellipsis : option nat)
    : option (list Z * option nat * string) :=
  match fuel with
  | O => Some (ip, ellipsis, s)
  | S fuel =>
      match hex_group s 0 0 with
      | None => None
      | Some (O, _, _) => None
      | Some (S _, acc, rest) =>
          match rest with
          | String "." _ =>
              if bool_decide (ellipsis = None) && negb (length ip =? 12)%nat then None
              else if (16 <? length ip + 4)%nat then None
              else match parseIPv4Fields s true 0 0 [] with
                   | None => None
                   | Some fields => Some (ip ++ fields, ellipsis, "")
                   end
          | _ =>
              let ip := ip ++ [Z.shiftr acc 8; uint8 acc] in
              match rest with
              | EmptyString => Some (ip, ellipsis, "")
              | String ":" EmptyString => None
              | String ":" (String ":" rest') =>
                  if bool_decide (ellipsis = None) then
                    let ellipsis := Some (length ip) in
                    if String.eqb rest' "" then Some (ip, ellipsis, "")
                    else v6_loop fuel rest' ip ellipsis
                  else None
              | String ":" rest' => v6_loop fuel rest' ip ellipsis
              | String _ _ => None
              end
          end
      end
  end.

(** The bytes once the string is consumed, the ellipsis expanded. *)
Definition v6_finish (ip : list Z) (ellipsis : option nat) (s : string) : option (list Z) :=
  if negb (String.eqb s "") then None
  else if (length ip <? 16)%nat then
    match ellipsis with
    | None => None
    | Some e => Some (take e ip ++ replicate (16 - length ip) 0 ++ drop e ip)
    end
  else match ellipsis with None => Some ip | Some _ => None end.

Definition parseIPv6_bytes (s : string) : option (list Z) :=
  match s with
  | String ":" (String ":" s') =>
      if String.eqb s' "" then Some (replicate 16 0)
      else match v6_loop 8 s' [] (Some 0%nat) with
           | Some (ip, e, rest) => v6_finish ip e rest
           | None => None
           end
  | _ => match v6_loop 8 s [] None with
         | Some (ip, e, rest) => v6_finish ip e rest
         | None => None
         end
  end.

(** The zone is split off first. *)
Definition parseIPv6 (s : string) : option Addr :=
  let '(addr, zone) :=
    match Index s "%" with
    | Some i => (str_take i s, Some (str_drop (S i) s))
    | None => (s, None)
    end in
  if bool_decide (zone = Some "") then None
  else match parseIPv6_bytes addr with
       | Some b => Some (Addr6 (be_val b) (default "" zone))
       | None => None
       end.

Fixpoint ParseAddr_scan (s rest : string) : option Addr :=
  match rest with
  | EmptyString => None
  | String "." _ => parseIPv4 s
  | String ":" _ => parseIPv6 s
  | String "%" _ => None
  | String _ rest => ParseAddr_scan s rest
  end.
Definition ParseAddr (s : string) : option Addr := ParseAddr_scan s s.

(** ** Prefixes and ports *)

(** [bytealg.LastIndexByteString]. *)
Fixpoint LastIndexByte (s : string) (c : ascii) : option nat :=
  match s with
  | EmptyString => None
  | String d s =>
      match LastIndexByte s c with
      | Some i => Some (S i)
      | None => if Ascii.eqb d c then Some 0%nat else None
      end
  end.

(** [strconv] on a text of digits; a value past the range of [int] is an
    error there and past every bound the callers check. *)
Fixpoint parse_digits (s : string) (acc : Z) : option Z :=
  match s with
  | EmptyString => Some acc
  | String c s => if is_digit c then parse_digits s (acc * 10 + digit_val c) else None
  end.
Definition Atoi_digits (s : string) : option Z :=
  if String.eqb s "" then None else parse_digits s 0.

Definition ParsePrefix (s : string) : option Prefix :=
  match LastIndexByte s "/" with
  | None => None
  | Some i =>
      match ParseAddr (str_take i s) with
      | None => None
      | Some ip =>
          let bitsStr := str_drop (S i) s in
          let bad := match bitsStr with
                     | String c (String _ _) => negb (between "1" "9" c)
                     | _ => false
                     end in
          if negb (String.eqb (Zone ip) "") then None
          else if bad then None
          else match Atoi_digits bitsStr with
               | None => None
               | Some bits =>
                   let maxBits := if Is6 ip then 128 else 32 in
                   if (bits <? 0) || (maxBits <? bits) then None
                   else Some (mkPrefix ip bits)
               end
      end
  end.

Definition ParseAddrPort (s : string) : option AddrPort :=
  match LastIndexByte s ":" with
  | None => None
  | Some i =>
      let ip := str_take i s in
      let port := str_drop (S i) s in
      if String.eqb ip "" || String.eqb port "" then None
      else
        let bracketed := HasPrefix ip "[" in
        if bracketed && negb ((2 <=? String.length ip)%nat && HasSuffix ip "]") then None
        else
          let ip := if bracketed then TrimSuffix (str_drop 1 ip) "]" else ip in
          match Atoi_digits port with
          | None => None
          | Some p =>
              if 65535 <? p then None
              else match ParseAddr ip with
                   | None => None
                   | Some a => if Bool.eqb bracketed (Is6 a) then Some (mkAddrPort a p) else None
                   end
          end
  end.

Example ParseAddr_v4 : ParseAddr "1.0.2.200" = Some (Addr4 (be_val [1; 0; 2; 200])).
Proof. reflexivity. Qed.
Example ParseAddr_v4_leading_zero : ParseAddr "1.02.3.4" = None.
Proof. reflexivity. Qed.
Example ParseAddr_v6 : ParseAddr "2001:4860::8888" = Some (Addr6 0x20014860000000000000000000008888 "").
Proof. reflexivity. Qed.
Example ParseAddr_v6_mapped : ParseAddr "::ffff:192.168.1.5" = Some (Addr6 (mapped_base + be_val [192; 168; 1; 5]) "").
Proof. reflexivity. Qed.
Example ParseAddr_zone : ParseAddr "fe80::1%eth0" = Some (Addr6 (0xfe80 * 2 ^ 112 + 1) "eth0").
Proof. reflexivity. Qed.
Example ParsePrefix_v4 : ParsePrefix "1.2.3.4/24" = Some (mkPrefix (Addr4 (be_val [1; 2; 3; 4])) 24).
Proof. reflexivity. Qed.
Example ParsePrefix_bad : ParsePrefix "1.2.3.4/024" = None /\ ParsePrefix "not-a-prefix" = None /\ ParsePrefix "1.2.3.4/33" = None.
Proof. done. Qed.
Example ParseAddrPort_ex : ParseAddrPort "127.0.0.1:8055" = Some (mkAddrPort (Addr4 (be_val [127; 0; 0; 1])) 8055) /\ ParseAddrPort "[::1]:53" = Some (mkAddrPort (Addr6 1 "") 53) /\ ParseAddrPort "::1:53" = None.
Proof. done. Qed.

(** ** What is parsed is well formed *)

Lemma digit_val_range c : is_digit c = true -> 0 <= digit_val c <= 9.
Proof.
  destruct c as [[] [] [] [] [] [] [] []]; vm_compute; intros; split; congruence.
Qed.

Lemma parseIPv4Fields_ok s : forall prevdot val digLen fields r,
  0 <= val <= 255 -> bytes_ok fields -> (length fields <= 3)%nat ->
  parseIPv4Fields s prevdot val digLen fields = Some r -> bytes_ok r /\ length r = 4%nat.
Proof.
  induction s as [|c s IH]; intros prevdot val digLen fields r Hv Hf Hl; cbn [parseIPv4Fields].
  - destruct (Nat.ltb_spec (length fields) 3); [done|]. intros [= <-]. split.
    + apply Forall_app; split; [done|]. constructor; [unfold in_uint; lia|constructor].
    + rewrite length_app. simpl. lia.
  - destruct (is_digit c) eqn:Hd.
    + destruct (_ && _); [done|]. destruct (Z.ltb_spec 255 (val * 10 + digit_val c)); [done|].
      apply digit_val_range in Hd. apply IH; [lia|done|done].
    + destruct (Ascii.eqb c "."); [|done]. destruct (prevdot || _); [done|].
      destruct (Nat.eqb_spec (length fields) 3); [done|]. apply IH; [lia| |].
      * apply Forall_app; split; [done|]. constructor; [unfold in_uint; lia|constructor].
      * rewrite length_app. simpl. lia.
Qed.

Lemma hex_val_range c d : hex_val c = Some d -> 0 <= d <= 15.
Proof.
  destruct c as [[] [] [] [] [] [] [] []]; vm_compute; intros; simplify_eq; split; congruence.
Qed.

Lemma hex_group_range s : forall off acc off' acc' rest,
  0 <= acc <= 65535 -> hex_group s off acc = Some (off', acc', rest) -> 0 <= acc' <= 65535.
Proof.
  induction s as [|c s IH]; intros off acc off' acc' rest Ha; cbn [hex_group].
  - intros. by simplify_eq.
  - destruct (hex_val c) as [d|] eqn:Hd; [|intros; by simplify_eq].
    destruct (3 <? off)%nat; [done|].
    destruct (Z.ltb_spec 65535 (Z.shiftl acc 4 + d)); [done|].
    apply IH. apply hex_val_range in Hd. rewrite Z.shiftl_mul_pow2 in * by lia. lia.
Qed.

Lemma group_bytes_ok acc : 0 <= acc <= 65535 -> bytes_ok [Z.shiftr acc 8; uint8 acc].
Proof.
  intros Ha. rewrite Z.shiftr_div_pow2 by lia.
  assert (in_uint 8 (acc / 2 ^ 8)).
  { split; [apply Z.div_pos; lia|apply Z.div_lt_upper_bound; lia]. }
  assert (in_uint 8 (uint8 acc)) by (apply Z.mod_pos_bound; lia).
  by repeat (apply Forall_cons_2; [assumption|]).
Qed.

Lemma v6_loop_ok fuel : forall s ip e ip' e' rest,
  bytes_ok ip -> (length ip + 2 * fuel = 16)%nat ->
  v6_loop fuel s ip e = Some (ip', e', rest) -> bytes_ok ip' /\ (length ip' <= 16)%nat.
Proof.
  induction fuel as [|fuel IH]; intros s ip e ip' e' rest Hok Hl; cbn [v6_loop].
  { intros. simplify_eq. split; [done|lia]. }
  destruct (hex_group s 0 0) as [[[[|off] acc] tl]|] eqn:Hg; [done| |done].
  apply hex_group_range in Hg; [|lia].
  assert (bytes_ok (ip ++ [Z.shiftr acc 8; uint8 acc])) as Hok'
    by (apply Forall_app; split; [done|by apply group_bytes_ok]).
  assert (length (ip ++ [Z.shiftr acc 8; uint8 acc]) = length ip + 2)%nat as Hl'
    by (rewrite length_app; done).
  assert (forall e s, v6_loop fuel s (ip ++ [Z.shiftr acc 8; uint8 acc]) e = Some (ip', e', rest) ->
    bytes_ok ip' /\ (length ip' <= 16)%nat) as Hrec by (intros e0 s0; apply IH; [done|lia]).
  repeat case_match; intros; simplify_eq; try done; try (by eapply Hrec);
    try (split; [done|lia]).
  match goal with H : parseIPv4Fields _ _ _ _ _ = Some ?f |- _ =>
    apply parseIPv4Fields_ok in H as [Hf Hlf]; [|lia|constructor|simpl; lia] end.
  split; [by apply Forall_app|]. rewrite length_app, Hlf.
  match goal with H : (16 <? _)%nat = false |- _ => apply Nat.ltb_ge in H end. lia.
Qed.

Lemma v6_finish_ok ip e s b :
  bytes_ok ip -> (length ip <= 16)%nat ->
  v6_finish ip e s = Some b -> bytes_ok b /\ length b = 16%nat.
Proof.
  unfold v6_finish. intros Hok Hl Hb. repeat case_match; simplify_eq; try done.
  - split.
    + repeat apply Forall_app_2; [by apply Forall_take| |by apply Forall_drop].
      apply Forall_replicate. unfold in_uint. lia.
    + rewrite !length_app, length_replicate, length_take, length_drop. lia.
  - match goal with H : (length _ <? 16)%nat = false |- _ => apply Nat.ltb_ge in H end.
    split; [done|lia].
Qed.

Lemma parseIPv6_bytes_ok s b :
  parseIPv6_bytes s = Some b -> bytes_ok b /\ length b = 16%nat.
Proof.
  unfold parseIPv6_bytes. intros Hb.
  assert (forall s e ip e' rest b, v6_loop 8 s [] e = Some (ip, e', rest) ->
    v6_finish ip e' rest = Some b -> bytes_ok b /\ length b = 16%nat) as Hgen.
  { intros ? ? ? ? ? ? [? ?]%v6_loop_ok; [|constructor|done]. by apply v6_finish_ok. }
  repeat case_match; simplify_eq; try done; try by eapply Hgen.
  split; [apply Forall_replicate; unfold in_uint; lia|by rewrite length_replicate].
Qed.

Lemma be_val_bounds bs : bytes_ok bs -> 0 <= be_val bs < 256 ^ Z.of_nat (length bs).
Proof.
  intros. unfold be_val. rewrite <-(length_reverse bs). apply le_val_bounds.
  by apply Forall_reverse.
Qed.

Lemma ParseAddr_ok s a : ParseAddr s = Some a -> Addr_ok a /\ a <> AddrZero.
Proof.
  assert (forall rest, ParseAddr_scan s rest = Some a ->
    parseIPv4 s = Some a \/ parseIPv6 s = Some a) as Hscan.
  { induction rest as [|c rest IH]; cbn [ParseAddr_scan]; [done|].
    intros H. repeat case_match; auto; done. }
  intros [H|H]%Hscan.
  - unfold parseIPv4 in H. destruct (parseIPv4Fields _ _ _ _ _) eqn:E; [|done].
    simplify_eq. split; [|done]. apply parseIPv4Fields_ok in E as [Hb Hl];
      [|lia|constructor|simpl; lia]. apply be_val_bounds in Hb. rewrite Hl in Hb. exact Hb.
  - unfold parseIPv6 in H. repeat case_match; simplify_eq; (split; [|done]);
      match goal with H : parseIPv6_bytes _ = Some _ |- _ =>
        apply parseIPv6_bytes_ok in H as [Hb Hl]; apply be_val_bounds in Hb;
        rewrite Hl in Hb; exact Hb end.
Qed.

(** A parsed prefix has a valid address without zone and a length within its
    family. *)
Lemma ParsePrefix_ok s p :
  ParsePrefix s = Some p ->
  Addr_ok (p_addr p) /\ p_addr p <> AddrZero /\ Zone (p_addr p) = "" /\
  0 <= p_bits p <= BitLen (p_addr p).
Proof.
  unfold ParsePrefix. intros H. destruct (LastIndexByte s "/"); [|done].
  destruct (ParseAddr _) as [ip|] eqn:Ha; [|done]. apply ParseAddr_ok in Ha as [Hok Hz].
  destruct (String.eqb_spec (Zone ip) "") as [Hzone|]; [|done]. cbn [negb] in H.
  destruct (match str_drop _ _ with EmptyString => _ | String _ _ => _ end); [done|].
  destruct (Atoi_digits _) as [bits|]; [|done].
  destruct (_ || _) eqn:E; [done|]. injection H as <-. bool_props. cbn [p_addr p_bits].
  split_and!; try done. by destruct ip; simpl in *.
Qed.
