(* ===== verification/GoTime.v ===== *)
(** * GoTime: [time.ParseDuration]

    The parser of Go's standard library that the configuration uses, with its
    64-bit accumulators and its floating-point fractions (in the binary64
    format of [SpecFloat]); errors are [None].  Nothing of this file maps to a
    source line. *)

From S2P Require Import Prelude GoText NetipParse.
From Stdlib Require Import Ascii Floats.SpecFloat.

Definition Duration : Type := Z.
Definition Nanosecond : Z := 1.
Definition Millisecond : Z := 1000000.

(** ** Floating point *)

Definition float_of (z : Z) : spec_float := binary_normalize 53 1024 z 0 false.
Definition float_mul : spec_float -> spec_float -> spec_float := SFmul 53 1024.
Definition float_div : spec_float -> spec_float -> spec_float := SFdiv 53 1024.

(** Conversion to [uint64] of a number in range. *)
Definition float_trunc (x : spec_float) : Z :=
  match x with
  | S754_finite s m e => let v := Z.shiftl (Zpos m) e in if s then - v else v
  | _ => 0
  end.

(** ** The parser *)

(** The leading digits; [None] when they exceed 2^63. *)
Fixpoint leadingInt (s : string) (x : Z) : option (Z * string) :=
  match s with
  | EmptyString => Some (x, s)
  | String c s' =>
      if is_digit c then
        if x >? 2 ^ 63 / 10 then None
        else
          let x := x * 10 + digit_val c in
          if x >? 2 ^ 63 then None else leadingInt s' x
      else Some (x, s)
  end.

(** The leading digits of a fraction, as far as they fit, and the power of
    ten they are counted in. *)
Fixpoint leadingFraction (s : string) (x : Z) (scale : spec_float) (overflow : bool)
    : Z * spec_float * string :=
  match s with
  | EmptyString => (x, scale, s)
  | String c s' =>
      if is_digit c then
        if overflow then leadingFraction s' x scale true
        else if x >? (2 ^ 63 - 1) / 10 then leadingFraction s' x scale true
        else
          let y := x * 10 + digit_val c in
          if y >? 2 ^ 63 then leadingFraction s' x scale true
          else leadingFraction s' y (float_mul scale (float_of 10)) false
      else (x, scale, s)
  end.

(** The unit: everything up to the next digit or dot. *)
Fixpoint take_unit (s : string) : string * string :=
  match s with
  | EmptyString => ("", "")
  | String c s' =>
      if Ascii.eqb c "." || is_digit c then ("", s)
      else let '(u, rest) := take_unit s' in (String c u, rest)
  end.

Definition micro_sign : string := bytes [0xC2; 0xB5]%nat.
Definition greek_mu : string := bytes [0xCE; 0xBC]%nat.

Definition unit_value (u : string) : option Z :=
  if String.eqb u "ns" then Some Nanosecond
  else if String.eqb u "us" then Some 1000
  else if String.eqb u (micro_sign +:+ "s") then Some 1000
  else if String.eqb u (greek_mu +:+ "s") then Some 1000
  else if String.eqb u "ms" then Some Millisecond
  else if String.eqb u "s" then Some Second
  else if String.eqb u "m" then Some (60 * Second)
  else if String.eqb u "h" then Some (3600 * Second)
  else None.

(** One number and its unit added to [d]. *)
Definition parse_term (s : string) (d : Z) : option (Z * string) :=
  match s with
  | EmptyString => None
  | String c _ =>
      if negb (Ascii.eqb c "." || is_digit c) then None
      else
        match leadingInt s 0 with
        | None => None
        | Some (v, s1) =>
            let pre := negb (String.length s1 =? String.length s)%nat in
            let '(f, scale, s2, post) :=
              match s1 with
              | String "." s1 =>
                  let '(f, scale, s2) := leadingFraction s1 0 (float_of 1) false in
                  (f, scale, s2, negb (String.length s2 =? String.length s1)%nat)
              | _ => (0, float_of 1, s1, false)
              end in
            if negb pre && negb post then None
            else
              let '(u, s3) := take_unit s2 in
              match unit_value u with
              | None => None
              | Some unit =>
                  if v >? 2 ^ 63 / unit then None
                  else
                    let v := v * unit in
                    let v := if f >? 0
                             then uint64 (v + float_trunc (float_mul (float_of f)
                                                (float_div (float_of unit) scale)))
                             else v in
                    if v >? 2 ^ 63 then None
                    else
                      let d := uint64 (d + v) in
                      if d >? 2 ^ 63 then None else Some (d, s3)
              end
        end
  end.

(** A term consumes at least one character, so the length bounds their
    number. *)
Fixpoint parse_terms (fuel : nat) (s : string) (d : Z) : option Z :=
  match s, fuel with
  | EmptyString, _ => Some d
  | _, O => None
  | _, S fuel => match parse_term s d with
                 | Some (d, s) => parse_terms fuel s d
                 | None => None
                 end
  end.

Definition ParseDuration (s : string) : option Duration :=
  let '(neg, s) := match s with
                   | String "-" s' => (true, s')
                   | String "+" s' => (false, s')
                   | _ => (false, s)
                   end in
  if String.eqb s "0" then Some 0
  else if String.eqb s "" then None
  else match parse_terms (String.length s) s 0 with
       | None => None
       | Some d => if neg then Some (int64 (- int64 d))
                   else if d >? 2 ^ 63 - 1 then None else Some d
       end.

(** ** Examples *)

Example parse_seconds : ParseDuration "30s" = Some (30 * Second).
Proof. vm_compute. reflexivity. Qed.
Example parse_compound : ParseDuration "1h2m3.5s" = Some (3723500 * Millisecond).
Proof. vm_compute. reflexivity. Qed.
Example parse_negative : ParseDuration "-5s" = Some (-5 * Second).
Proof. vm_compute. reflexivity. Qed.
Example parse_fraction : ParseDuration "2.5s" = Some (2500 * Millisecond).
Proof. vm_compute. reflexivity. Qed.
Example parse_no_unit : ParseDuration "30" = None.
Proof. vm_compute. reflexivity. Qed.
Example parse_most : ParseDuration "9223372036854775807ns" = Some (2 ^ 63 - 1).
Proof. vm_compute. reflexivity. Qed.
Example parse_too_much : ParseDuration "9223372036854775808ns" = None.
Proof. vm_compute. reflexivity. Qed.

(** ** Range *)

Lemma parse_terms_range fuel s d r :
  0 <= d <= 2 ^ 63 -> parse_terms fuel s d = Some r -> 0 <= r <= 2 ^ 63.
Proof.
  revert s d. induction fuel as [|fuel IH]; intros [|c s] d Hd; cbn [parse_terms]; try congruence.
  destruct (parse_term (String c s) d) as [[d' s']|] eqn:E; [|done]. apply IH.
  unfold parse_term in E. repeat (split_match_in E; try done).
  all: injection E as <- _; split; [apply Z.mod_pos_bound; lia|];
    match goal with H : (_ >? 2 ^ 63) = false |- _ =>
      rewrite Z.gtb_ltb in H; apply Z.ltb_ge in H; exact H end.
Qed.

Lemma ParseDuration_range s d : ParseDuration s = Some d -> in_int64 d.
Proof.
  unfold ParseDuration. destruct (match s with String _ _ => _ | _ => _ end) as [neg s'].
  destruct (String.eqb s' "0"); [intros [= <-]; unfold in_int64; lia|].
  destruct (String.eqb s' ""); [done|].
  destruct (parse_terms _ s' 0) as [r|] eqn:E; [|done].
  apply parse_terms_range in E; [|lia]. destruct neg.
  - intros [= <-]. apply int64_range.
  - destruct (r >? _) eqn:Eg; [done|]. intros [= <-]. rewrite Z.gtb_ltb in Eg. bool_props.
    unfold in_int64. lia.
Qed.
