(* ===== verification/GoFormat.v ===== *)
(** * GoFormat: what the resolver uses of Go's text rendering

    Numbers ([strconv.Itoa], [%d], [%.0f]), quoted strings ([%q]), booleans
    ([%v]), addresses and their pairs with a port ([Addr.String],
    [AddrPort.String], [net.JoinHostPort]) and durations
    ([Duration.String]).  A part of the standard library: nothing of this
    file maps to a source line.  [GoAddrText] has the proof that addresses
    are read back. *)

From S2P Require Import Prelude Netip GoText NetipParse GoTime.
From stdpp Require Import pretty.
From Stdlib Require Import Ascii Floats.SpecFloat.
#[local] Open Scope Z_scope.

(** ** Numbers *)

Definition Itoa (z : Z) : string := pretty z.

(** [time.Duration.Seconds]. *)
Definition Seconds (d : Z) : spec_float :=
  SFadd 53 1024 (float_of (Z.quot d Second)) (float_div (float_of (Z.rem d Second)) (float_of Second)).

(** A float rounded to an integer, ties to even, as [%.0f] does. *)
Definition round_even (x : spec_float) : Z :=
  match x with
  | S754_finite s m e =>
      let v := if 0 <=? e then Z.shiftl (Zpos m) e
               else let q := Z.shiftr (Zpos m) (- e) in
                    let r := Zpos m - Z.shiftl q (- e) in
                    let half := Z.shiftl 1 (- e - 1) in
                    if (half <? r) || ((half =? r) && Z.odd q) then q + 1 else q in
      if s then - v else v
  | _ => 0
  end.
Definition float0 (x : spec_float) : string := Itoa (round_even x).

(** ** Booleans and strings *)

Definition bool_text (b : bool) : string := if b then "true" else "false".

Definition quote_char : ascii := char 34.
Definition backslash : ascii := char 92.
Definition hex_digit (d : Z) : ascii :=
  if d <? 10 then ascii_of_N (Z.to_N (48 + d)) else ascii_of_N (Z.to_N (87 + d)).

(** The escape of one ASCII character inside a quoted string. *)
Definition quote_ascii (c : ascii) : string :=
  let n := code c in
  if Ascii.eqb c quote_char || Ascii.eqb c backslash then String backslash (String c "")
  else if (32 <=? n) && (n <=? 126) then String c ""
  else if n =? 7 then String backslash "a"
  else if n =? 8 then String backslash "b"
  else if n =? 12 then String backslash "f"
  else if n =? 10 then String backslash "n"
  else if n =? 13 then String backslash "r"
  else if n =? 9 then String backslash "t"
  else if n =? 11 then String backslash "v"
  else String backslash (String "x" (String (hex_digit (n / 16)) (String (hex_digit (n mod 16)) ""))).

Fixpoint quote_body (s : string) : string :=
  match s with
  | EmptyString => ""
  | String c s => quote_ascii c +:+ quote_body s
  end.

(** [%q] and [strconv.Quote]; text that is not ASCII depends on Go's tables
    of printable runes. *)
Class GoQuote := { unicode_Quote : string -> string }.
Definition Quote `{GoQuote} (s : string) : string :=
  if is_ascii s then String quote_char (quote_body s +:+ String quote_char "") else unicode_Quote s.

(** ** Addresses *)

Definition string4 (a : Z) : string :=
  match be_bytes 4 a with
  | [b0; b1; b2; b3] => Itoa b0 +:+ "." +:+ Itoa b1 +:+ "." +:+ Itoa b2 +:+ "." +:+ Itoa b3
  | _ => ""
  end.

(** The eight groups of an IPv6 address ([v6u16]). *)
Definition groups (a : Z) : list Z :=
  (fun i => Z.shiftr a (16 * (7 - Z.of_nat i)) mod 2 ^ 16) <$> seq 0 8.

Definition appendHex (x : Z) : string :=
  let low := String (hex_digit (Z.land x 15)) "" in
  let low := if x >=? 16 then String (hex_digit (Z.land (Z.shiftr x 4) 15)) low else low in
  let low := if x >=? 256 then String (hex_digit (Z.land (Z.shiftr x 8) 15)) low else low in
  if x >=? 4096 then String (hex_digit (Z.shiftr x 12)) low else low.

(** The end of the run of zero groups from [i]. *)
Fixpoint zero_end (gs : list Z) (i : nat) : nat :=
  match gs with
  | [] => i
  | g :: gs => if g =? 0 then zero_end gs (S i) else i
  end.

(** The first longest run of at least two zero groups; [(255, 255)] when
    there is none. *)
Fixpoint zero_run (gs : list Z) (i : nat) (best : nat * nat) : nat * nat :=
  match gs with
  | [] => best
  | _ :: gs' =>
      let j := zero_end gs i in
      zero_run gs' (S i)
        (if (2 <=? j - i)%nat && (best.2 - best.1 <? j - i)%nat then (i, j) else best)
  end.

(** The rendering loop from group [i]; every iteration moves forward, so
    eight of them are enough. *)
Fixpoint string6_loop (fuel : nat) (gs : list Z) (zs ze i : nat) : string :=
  match fuel with
  | O => ""
  | S fuel =>
      if (i <? 8)%nat then
        if (i =? zs)%nat then
          "::" +:+ (if (8 <=? ze)%nat then ""
                    else appendHex (nth ze gs 0) +:+ string6_loop fuel gs zs ze (S ze))
        else
          (if (0 <? i)%nat then ":" else "") +:+ appendHex (nth i gs 0) +:+
          string6_loop fuel gs zs ze (S i)
      else ""
  end.
Definition string6 (a : Z) : string :=
  let '(zs, ze) := zero_run (groups a) 0 (255, 255)%nat in string6_loop 8 (groups a) zs ze 0.

Definition Addr_String (ip : Addr) : string :=
  match ip with
  | AddrZero => "invalid IP"
  | Addr4 a => string4 a
  | Addr6 a zone =>
      (if mapped a then "::ffff:" +:+ string4 (a - mapped_base) else string6 a) +:+
      (if String.eqb zone "" then "" else "%" +:+ zone)
  end.

Definition AddrPort_String (ap : AddrPort) : string :=
  match ap_addr ap with
  | AddrZero => "invalid AddrPort"
  | Addr4 a => string4 a +:+ ":" +:+ Itoa (ap_port ap)
  | _ => "[" +:+ Addr_String (ap_addr ap) +:+ "]:" +:+ Itoa (ap_port ap)
  end.

(** [net.JoinHostPort]. *)
Definition JoinHostPort (host port : string) : string :=
  match Index host ":" with
  | Some _ => "[" +:+ host +:+ "]:" +:+ port
  | None => host +:+ ":" +:+ port
  end.

(** ** Durations *)

(** [fmtFrac]: the last [prec] digits of [v] without trailing zeros, after a
    point unless nothing is left, and the other digits. *)
Fixpoint fmtFrac (prec : nat) (v : Z) (print : bool) (acc : string) : string * Z :=
  match prec with
  | O => (if print then "." +:+ acc else acc, v)
  | S prec =>
      let digit := v mod 10 in
      let print := print || negb (digit =? 0) in
      fmtFrac prec (v / 10) print
        (if print then String (ascii_of_N (Z.to_N (48 + digit))) acc else acc)
  end.

Definition Duration_String (d : Z) : string :=
  let neg := d <? 0 in
  let u := Z.abs d in
  let text :=
    if u <? Second then
      if u =? 0 then "0s"
      else if u <? 1000 then Itoa u +:+ "ns"
      else if u <? Millisecond then
        let '(frac, v) := fmtFrac 3 u false "" in Itoa v +:+ frac +:+ micro_sign +:+ "s"
      else let '(frac, v) := fmtFrac 6 u false "" in Itoa v +:+ frac +:+ "ms"
    else
      let '(frac, v) := fmtFrac 9 u false "" in
      let secs := Itoa (v mod 60) +:+ frac +:+ "s" in
      let m := v / 60 in
      if m >? 0 then
        let mins := Itoa (m mod 60) +:+ "m" +:+ secs in
        let h := m / 60 in
        if h >? 0 then Itoa h +:+ "h" +:+ mins else mins
      else secs in
  if neg then "-" +:+ text else text.

(** ** Examples *)

Example Addr_String_v4 : Addr_String (Addr4 (be_val [1; 0; 2; 200])) = "1.0.2.200".
Proof. vm_compute. reflexivity. Qed.
Example Addr_String_v6 :
  Addr_String (Addr6 0x20014860000000000000000000008888 "") = "2001:4860::8888" /\
  Addr_String (Addr6 0 "") = "::" /\ Addr_String (Addr6 1 "") = "::1" /\
  Addr_String (Addr6 (2 ^ 112) "eth0") = "1::%eth0" /\
  Addr_String (Addr6 0x20010db8000000010000000000000001 "") = "2001:db8:0:1::1" /\
  Addr_String (Addr6 (mapped_base + be_val [192; 168; 1; 5]) "") = "::ffff:192.168.1.5".
Proof. vm_compute. split_and!; reflexivity. Qed.
Example AddrPort_String_ex :
  AddrPort_String (mkAddrPort (Addr4 (be_val [127; 0; 0; 1])) 8055) = "127.0.0.1:8055" /\
  AddrPort_String (mkAddrPort (Addr6 1 "") 53) = "[::1]:53".
Proof. vm_compute. split; reflexivity. Qed.
Example Duration_String_ex :
  Duration_String 2500000000 = "2.5s" /\ Duration_String (3600 * Second) = "1h0m0s" /\
  Duration_String 1500000 = "1.5ms" /\ Duration_String (- 90 * Second) = "-1m30s" /\
  Duration_String 30000000000 = "30s".
Proof. vm_compute. split_and!; reflexivity. Qed.
Example float0_ex : float0 (Seconds 2500000000) = "2" /\ float0 (Seconds 3500000000) = "4" /\
  float0 (Seconds 61700000000) = "62" /\ float0 (Seconds 0) = "0".
Proof. vm_compute. split_and!; reflexivity. Qed.
