(* ===== verification/GoAddrText.v ===== *)
(** * GoAddrText: addresses are read back from their text

    The parsers of [NetipParse] applied to the renderings of [GoFormat]: what
    [Addr.String] and [AddrPort.String] print determines the address and the
    port. *)

From S2P Require Import Prelude Netip GoText NetipParse GoFormat.
From stdpp Require Import pretty.
From Stdlib Require Import Ascii.
#[local] Open Scope Z_scope.

(** ** Decimal numbers *)

Lemma digit_char d : 0 <= d < 10 ->
  is_digit (pretty_N_char (Z.to_N d)) = true /\ digit_val (pretty_N_char (Z.to_N d)) = d.
Proof.
  intros Hd. assert (d ∈ [0; 1; 2; 3; 4; 5; 6; 7; 8; 9]) as Hin by (rewrite !elem_of_cons; lia).
  repeat (apply elem_of_cons in Hin as [->|Hin]; [by vm_compute|]). by apply elem_of_nil in Hin.
Qed.

(** Reading the digits of a number multiplies what was read before by a power
    of ten and adds the number. *)
Lemma parse_pretty_go x : forall s, exists k, 0 <= k /\
  forall acc, parse_digits (pretty_N_go x s) acc = parse_digits s (acc * 10 ^ k + Z.of_N x).
Proof.
  induction (N.lt_wf_0 x) as [x _ IH]; intros s. destruct (decide (x = 0)%N) as [->|Hx].
  { exists 0. split; [done|]. intros acc. rewrite pretty_N_go_0. f_equal. lia. }
  rewrite pretty_N_go_step by lia.
  destruct (IH (x `div` 10)%N (N.div_lt x 10 ltac:(lia) ltac:(lia)) (String (pretty_N_char (x mod 10)) s))
    as (k & Hk & Hp).
  exists (k + 1). split; [lia|]. intros acc. rewrite Hp. cbn [parse_digits].
  assert (0 <= Z.of_N (x mod 10) < 10) as Hr by (rewrite N2Z.inj_mod; by apply Z.mod_pos_bound).
  destruct (digit_char _ Hr) as [Hd Hv]. rewrite N2Z.id in Hd, Hv. rewrite Hd, Hv. f_equal.
  rewrite N2Z.inj_div, N2Z.inj_mod, Z.pow_add_r, Z.pow_1_r by lia. change (Z.of_N 10) with 10.
  pose proof (Z.div_mod (Z.of_N x) 10 ltac:(done)). lia.
Qed.

Lemma Itoa_N z : 0 <= z -> Itoa z = pretty (Z.to_N z).
Proof. by destruct z. Qed.

Lemma Itoa_go z : 0 < z -> Itoa z = pretty_N_go (Z.to_N z) "".
Proof.
  intros Hz. rewrite Itoa_N by lia. unfold pretty, pretty_N. by rewrite decide_False by lia.
Qed.

Lemma pretty_go_nonempty x s : s <> "" -> pretty_N_go x s <> "".
Proof.
  revert s. induction (N.lt_wf_0 x) as [x _ IH]; intros s Hs. destruct (decide (x = 0)%N) as [->|Hx].
  { by rewrite pretty_N_go_0. }
  rewrite pretty_N_go_step by lia. apply IH; [|done]. apply N.div_lt; lia.
Qed.

Lemma Itoa_nonempty z : 0 <= z -> Itoa z <> "".
Proof.
  intros Hz. destruct (decide (z = 0)) as [->|Hne]; [done|]. rewrite Itoa_go by lia.
  rewrite pretty_N_go_step by lia. by apply pretty_go_nonempty.
Qed.

Lemma Atoi_Itoa z : 0 <= z -> Atoi_digits (Itoa z) = Some z.
Proof.
  intros Hz. unfold Atoi_digits. destruct (String.eqb_spec (Itoa z) "") as [E|_];
    [by apply Itoa_nonempty in E|].
  destruct (decide (z = 0)) as [->|Hne]; [done|]. rewrite Itoa_go by lia.
  destruct (parse_pretty_go (Z.to_N z) "") as (k & _ & ->). cbn. f_equal. lia.
Qed.

(** A number is made of digits. *)
Lemma pretty_go_digits x s : all_chars is_digit s = true -> all_chars is_digit (pretty_N_go x s) = true.
Proof.
  revert s. induction (N.lt_wf_0 x) as [x _ IH]; intros s Hs. destruct (decide (x = 0)%N) as [->|Hx].
  { by rewrite pretty_N_go_0. }
  rewrite pretty_N_go_step by lia. apply IH; [apply N.div_lt; lia|]. cbn. rewrite Hs, andb_true_r.
  assert (0 <= Z.of_N (x mod 10) < 10) as Hr by (rewrite N2Z.inj_mod; by apply Z.mod_pos_bound).
  destruct (digit_char _ Hr) as [Hd _]. by rewrite N2Z.id in Hd.
Qed.

Lemma Itoa_digits z : 0 <= z -> all_chars is_digit (Itoa z) = true.
Proof.
  intros Hz. destruct (decide (z = 0)) as [->|Hne]; [done|]. rewrite Itoa_go by lia.
  by apply pretty_go_digits.
Qed.

(** ** IPv4 *)

(** One octet in front of a dot, and the last one. *)
Definition octets : list Z := Z.of_nat <$> seq 0 256.

Lemma octet_elem b : in_uint 8 b -> b ∈ octets.
Proof.
  intros Hb. apply list_elem_of_fmap. exists (Z.to_nat b). unfold in_uint in Hb.
  split; [lia|]. apply elem_of_seq. lia.
Qed.

Lemma octets_digits t fields :
  Forall (fun b => parseIPv4Fields (Itoa b +:+ t) true 0 0 fields =
    parseIPv4Fields t false b (String.length (Itoa b)) fields) octets.
Proof.
  let l := eval vm_compute in octets in change octets with l.
  repeat (apply Forall_cons; split; [reflexivity|]). constructor.
Qed.

Lemma field_digits b t fields :
  in_uint 8 b ->
  parseIPv4Fields (Itoa b +:+ t) true 0 0 fields =
  parseIPv4Fields t false b (String.length (Itoa b)) fields.
Proof. intros Hb%octet_elem. pose proof (octets_digits t fields) as Hf. rewrite Forall_forall in Hf. by apply Hf. Qed.

Lemma field_dot b t fields :
  in_uint 8 b -> t <> "" -> (length fields < 3)%nat ->
  parseIPv4Fields (Itoa b +:+ ("." +:+ t)) true 0 0 fields = parseIPv4Fields t true 0 0 (fields ++ [b]).
Proof.
  intros Hb Ht Hf. rewrite field_digits by done. destruct t as [|c t]; [done|].
  change ("." +:+ String c t) with (String "." (String c t)). cbn [parseIPv4Fields orb].
  change (is_digit ".") with false. change (Ascii.eqb "." ".") with true. cbn [String.eqb negb].
  by rewrite (proj2 (Nat.eqb_neq _ _)) by lia.
Qed.

Lemma field_last b fields :
  in_uint 8 b -> length fields = 3%nat -> parseIPv4Fields (Itoa b) true 0 0 fields = Some (fields ++ [b]).
Proof.
  intros Hb Hf. rewrite <-(str_app_nil_r (Itoa b)), field_digits by done. cbn. by rewrite Hf.
Qed.

Lemma string4_fields a : in_uint 32 a ->
  parseIPv4Fields (string4 a) true 0 0 [] = Some (be_bytes 4 a).
Proof.
  intros Ha. unfold string4. pose proof (le_bytes_ok 4 a) as Hb. apply Forall_reverse in Hb.
  change (reverse (le_bytes 4 a)) with (be_bytes 4 a) in Hb. pose proof (length_be_bytes 4 a) as Hl.
  destruct (be_bytes 4 a) as [|b0 [|b1 [|b2 [|b3 []]]]]; try done.
  rewrite !Forall_cons in Hb. destruct Hb as (H0 & H1 & H2 & H3 & _).
  assert (forall b t, in_uint 8 b -> Itoa b +:+ t <> "") as Hne.
  { intros b t Hb E. assert (Itoa b <> "") as Hi by (apply Itoa_nonempty; unfold in_uint in Hb; lia).
    by destruct (Itoa b). }
  rewrite field_dot by (try done; cbn; try lia; by apply Hne).
  rewrite field_dot by (try done; cbn; try lia; by apply Hne).
  rewrite field_dot by (try done; cbn; try lia; rewrite <-(str_app_nil_r (Itoa b3)); by apply Hne).
  by rewrite field_last.
Qed.

Lemma parseIPv4_string4 a : in_uint 32 a -> parseIPv4 (string4 a) = Some (Addr4 a).
Proof.
  intros Ha. unfold parseIPv4. rewrite string4_fields by done.
  by rewrite be_val_bytes, Z.mod_small.
Qed.

(** ** A host and a port *)

Fixpoint has_char (c : ascii) (s : string) : bool :=
  match s with
  | EmptyString => false
  | String c' s => Ascii.eqb c c' || has_char c s
  end.

Lemma has_char_app c s t : has_char c (s +:+ t) = has_char c s || has_char c t.
Proof.
  induction s as [|c' s IH]; [done|].
  change (String c' s +:+ t) with (String c' (s +:+ t)). cbn [has_char]. by rewrite IH, orb_assoc.
Qed.

Lemma Index_char c s : Index s (String c "") = None <-> has_char c s = false.
Proof.
  unfold Index. induction s as [|c' s IH]; [done|]. cbn [has_char].
  change (String.index 0 (String c "") (String c' s)) with
    (if String.prefix (String c "") (String c' s) then Some 0%nat
     else match String.index 0 (String c "") s with Some n => Some (S n) | None => None end).
  cbn [String.prefix]. destruct (Ascii.eqb_spec c c') as [->|Hne].
  - destruct (ascii_dec c' c') as [_|?]; [|done]. by destruct s.
  - destruct (ascii_dec c c') as [?|_]; [done|]. rewrite orb_false_l, <-IH.
    by destruct (String.index 0 _ s).
Qed.

(** Texts that end after their last colon in the same way are split there. *)
Lemma last_colon a a' p p' :
  has_char ":" p = false -> has_char ":" p' = false -> a +:+ ":" +:+ p = a' +:+ ":" +:+ p' ->
  a = a' /\ p = p'.
Proof.
  intros Hp Hp'. revert a'. induction a as [|c a IH]; intros [|c' a'] E.
  - by injection E.
  - injection E as <- E. change (p = a' +:+ ":" +:+ p') in E. by rewrite E, !has_char_app, orb_true_r in Hp.
  - injection E as -> E. change (a +:+ ":" +:+ p = p') in E.
    by rewrite <-E, !has_char_app, orb_true_r in Hp'.
  - injection E as <- E. by destruct (IH a' E) as [-> ->].
Qed.

Lemma brackets_inj s s' : "[" +:+ s +:+ "]" = "[" +:+ s' +:+ "]" -> s = s'.
Proof.
  intros E. injection E as E. change (s +:+ "]" = s' +:+ "]") in E.
  revert s' E. induction s as [|c s IH]; intros [|c' s'] E; try done.
  - injection E as _ E. by destruct s'.
  - injection E as _ E. by destruct s.
  - injection E as -> E. by rewrite (IH s' E).
Qed.

(** The host and the port are read off the text [net.JoinHostPort] makes. *)
Lemma JoinHostPort_inj h h' p p' :
  has_char ":" p = false -> has_char ":" p' = false -> JoinHostPort h p = JoinHostPort h' p' ->
  h = h' /\ p = p'.
Proof.
  intros Hp Hp'. unfold JoinHostPort.
  assert (forall g, Index g ":" <> None -> has_char ":" ("[" +:+ g +:+ "]") = true) as Hc.
  { intros g Hg. rewrite !has_char_app. destruct (has_char ":" g) eqn:E; [done|].
    by apply Index_char in E. }
  assert (forall g q, "[" +:+ g +:+ "]:" +:+ q = ("[" +:+ g +:+ "]") +:+ ":" +:+ q) as Hb
    by (intros g q; rewrite !str_app_assoc; reflexivity).
  destruct (Index h ":") as [i|] eqn:E, (Index h' ":") as [i'|] eqn:E'; rewrite ?Hb; intros Ej;
    apply last_colon in Ej as [Eh ->]; try done.
  - split; [by apply brackets_inj|done].
  - apply Index_char in E'. subst h'. rewrite Hc in E' by congruence. done.
  - apply Index_char in E. subst h. rewrite Hc in E by congruence. done.
Qed.

Lemma Itoa_no_colon z : 0 <= z -> has_char ":" (Itoa z) = false.
Proof.
  intros Hz. pose proof (Itoa_digits z Hz) as Hd. induction (Itoa z) as [|c s IH]; [done|].
  cbn in Hd. apply andb_true_iff in Hd as [Hc Hs]. cbn [has_char]. rewrite IH by done.
  destruct (Ascii.eqb_spec ":" c) as [<-|]; [by vm_compute in Hc|done].
Qed.
(** ** Groups of hexadecimal digits *)

Lemma hex_forall (P : Z -> Prop) d :
  Forall P [0; 1; 2; 3; 4; 5; 6; 7; 8; 9; 10; 11; 12; 13; 14; 15] -> 0 <= d < 16 -> P d.
Proof. rewrite Forall_forall. intros HP Hd. apply HP. rewrite !elem_of_cons. lia. Qed.

Lemma hex_val_digit d : 0 <= d < 16 -> hex_val (hex_digit d) = Some d.
Proof. apply (hex_forall (fun d => hex_val (hex_digit d) = Some d)). by repeat constructor. Qed.

(** The text does not go on with a hexadecimal digit. *)
Definition hex_stop (t : string) : bool :=
  match t with
  | EmptyString => true
  | String c _ => match hex_val c with None => true | Some _ => false end
  end.

Lemma hex_group_stop t off acc : hex_stop t = true -> hex_group t off acc = Some (off, acc, t).
Proof. destruct t as [|c t]; cbn; [done|]. by destruct (hex_val c). Qed.

Lemma hex_group_step d t off acc :
  0 <= d < 16 -> (off <= 3)%nat -> 0 <= acc -> acc * 16 + d <= 65535 ->
  hex_group (String (hex_digit d) t) off acc = hex_group t (S off) (acc * 16 + d).
Proof.
  intros Hd Ho Ha Hb. cbn [hex_group]. rewrite hex_val_digit by done.
  rewrite Z.shiftl_mul_pow2 by lia. change (2 ^ 4) with 16.
  rewrite (proj2 (Nat.ltb_ge _ _)) by lia. by rewrite (proj2 (Z.ltb_ge _ _)) by lia.
Qed.

Lemma land_15 z : Z.land z 15 = z mod 16.
Proof. change 15 with (Z.ones 4). by rewrite Z.land_ones. Qed.

Lemma hex_digits x : in_uint 16 x ->
  exists d3 d2 d1 d0, 0 <= d3 < 16 /\ 0 <= d2 < 16 /\ 0 <= d1 < 16 /\ 0 <= d0 < 16 /\
    Z.shiftr x 12 = d3 /\ Z.land (Z.shiftr x 8) 15 = d2 /\ Z.land (Z.shiftr x 4) 15 = d1 /\
    Z.land x 15 = d0 /\ x = ((d3 * 16 + d2) * 16 + d1) * 16 + d0.
Proof.
  intros Hx. unfold in_uint in Hx. exists (x / 4096), (x / 256 mod 16), (x / 16 mod 16), (x mod 16).
  rewrite !land_15, !Z.shiftr_div_pow2 by lia.
  change (2 ^ 4) with 16. change (2 ^ 8) with 256. change (2 ^ 12) with 4096.
  split_and!; try done; try (apply Z.mod_pos_bound; lia); Z.to_euclidean_division_equations; lia.
Qed.

Lemma hex_group_append x t :
  in_uint 16 x -> hex_stop t = true ->
  exists k, hex_group (appendHex x +:+ t) 0 0 = Some (S k, x, t).
Proof.
  intros Hx Ht. destruct (hex_digits x Hx) as (d3 & d2 & d1 & d0 & H3 & H2 & H1 & H0 & E3 & E2 & E1 & E0 & E).
  unfold appendHex. rewrite E3, E2, E1, E0. unfold in_uint in Hx. rewrite !Z.geb_leb.
  destruct (Z.leb_spec 4096 x), (Z.leb_spec 256 x), (Z.leb_spec 16 x); try lia; eexists;
    cbv beta iota delta [String.append]; rewrite !hex_group_step by lia; rewrite hex_group_stop by done;
    do 3 f_equal; lia.
Qed.

(** ** IPv6: the rendering *)

(** Groups with colons between them, in front of a text. *)
Fixpoint joint (gs : list Z) (t : string) : string :=
  match gs with
  | [] => t
  | [g] => appendHex g +:+ t
  | g :: gs => appendHex g +:+ String ":" (joint gs t)
  end.

(** The text of eight groups with those from [zs] to [ze] left out. *)
Definition cut_text (gs : list Z) (zs ze : nat) : string :=
  joint (take zs gs) (String ":" (String ":" (joint (drop ze gs) ""))).

Lemma list_8 {A} (gs : list A) : length gs = 8%nat ->
  exists g0 g1 g2 g3 g4 g5 g6 g7, gs = [g0; g1; g2; g3; g4; g5; g6; g7].
Proof. do 9 (destruct gs as [|? gs]; try done). intros _. by do 8 eexists. Qed.

Lemma string6_loop_all gs : length gs = 8%nat -> string6_loop 8 gs 255 255 0 = joint gs "".
Proof. intros (g0 & g1 & g2 & g3 & g4 & g5 & g6 & g7 & ->)%list_8. reflexivity. Qed.

Lemma string6_loop_cut gs zs ze :
  length gs = 8%nat -> (zs + 2 <= ze <= 8)%nat -> string6_loop 8 gs zs ze 0 = cut_text gs zs ze.
Proof.
  intros (g0 & g1 & g2 & g3 & g4 & g5 & g6 & g7 & ->)%list_8 Hz.
  do 7 (destruct zs as [|zs]; [do 9 (destruct ze as [|ze]; [first [exfalso; lia|reflexivity]|]); exfalso; lia|]).
  exfalso; lia.
Qed.

(** *** The run of zeros *)

Lemma zero_end_spec gs0 gs i :
  gs = drop i gs0 -> (i <= length gs0)%nat ->
  (i <= zero_end gs i <= length gs0)%nat /\
  forall k, (i <= k < zero_end gs i)%nat -> gs0 !! k = Some 0.
Proof.
  revert i. induction gs as [|g gs IH]; intros i Hg Hi; cbn [zero_end]; [split; [lia|intros; lia]|].
  assert (gs0 !! i = Some g) as Hk by (by rewrite <-(Nat.add_0_r i), <-lookup_drop, <-Hg).
  destruct (Z.eqb_spec g 0) as [->|]; [|split; [lia|intros; lia]].
  destruct (IH (S i)) as [Hr Hz].
  - by rewrite <-Nat.add_1_r, <-drop_drop, <-Hg.
  - apply lookup_lt_Some in Hk. lia.
  - split; [lia|]. intros k Hki. destruct (decide (k = i)) as [->|]; [done|apply Hz; lia].
Qed.

(** No run, or one of at least two zeros. *)
Definition run_ok (gs0 : list Z) (r : nat * nat) : Prop :=
  r = (255, 255)%nat \/
  ((r.1 + 2 <= r.2 <= length gs0)%nat /\ forall k, (r.1 <= k < r.2)%nat -> gs0 !! k = Some 0).

Lemma zero_run_ok gs0 gs i best :
  gs = drop i gs0 -> run_ok gs0 best -> run_ok gs0 (zero_run gs i best).
Proof.
  revert i best. induction gs as [|g gs IH]; intros i best Hg Hb; [done|]. cbn [zero_run].
  assert (gs0 !! i = Some g) as Hk by (by rewrite <-(Nat.add_0_r i), <-lookup_drop, <-Hg).
  apply lookup_lt_Some in Hk. apply IH; [by rewrite <-Nat.add_1_r, <-drop_drop, <-Hg|].
  destruct (zero_end_spec gs0 (g :: gs) i Hg ltac:(lia)) as [Hr Hz].
  destruct (_ && _) eqn:E; [|done]. apply andb_true_iff in E as [E _]. apply Nat.leb_le in E.
  right. cbn [fst snd]. split; [lia|done].
Qed.

Lemma string6_cases a :
  string6 a = joint (groups a) "" \/
  exists zs ze, (zs + 2 <= ze <= 8)%nat /\ (forall k, (zs <= k < ze)%nat -> groups a !! k = Some 0) /\
    string6 a = cut_text (groups a) zs ze.
Proof.
  assert (length (groups a) = 8%nat) as Hl by done. unfold string6.
  destruct (zero_run_ok (groups a) (groups a) 0 (255, 255)%nat eq_refl ltac:(by left)) as [E|[Hr Hz]].
  - left. rewrite E. by apply string6_loop_all.
  - right. destruct (zero_run _ _ _) as [zs ze]. exists zs, ze. split; [done|]. split; [done|].
    by apply string6_loop_cut.
Qed.

(** ** IPv6: reading it back *)

Definition group_bytes (gs : list Z) : list Z := concat ((fun g => [Z.shiftr g 8; uint8 g]) <$> gs).

(** The text starts with a hexadecimal digit. *)
Definition hex_start (s : string) : Prop := s <> "" /\ hex_stop s = false.

Lemma appendHex_start x t : in_uint 16 x -> hex_start (appendHex x +:+ t).
Proof.
  intros Hx. destruct (hex_digits x Hx) as (d3 & d2 & d1 & d0 & H3 & H2 & H1 & H0 & E3 & E2 & E1 & E0 & _).
  unfold appendHex. rewrite E3, E2, E1, E0.
  destruct (x >=? 4096), (x >=? 256), (x >=? 16); (split; [done|]); cbv beta iota delta [String.append];
    cbn [hex_stop]; by rewrite hex_val_digit.
Qed.

Lemma joint_start g gs t : Forall (in_uint 16) (g :: gs) -> hex_start (joint (g :: gs) t).
Proof. intros [Hg _]%Forall_cons. cbn [joint]. destruct gs; by apply appendHex_start. Qed.

(** One group followed by a colon and another group. *)
Lemma v6_group fuel g s ip e :
  in_uint 16 g -> hex_start s ->
  v6_loop (S fuel) (appendHex g +:+ String ":" s) ip e = v6_loop fuel s (ip ++ group_bytes [g]) e.
Proof.
  intros Hg [Hne Hs]. cbn [v6_loop]. destruct (hex_group_append g (String ":" s) Hg eq_refl) as [k ->].
  destruct s as [|c s]; [done|].
  destruct c as [[] [] [] [] [] [] [] []]; (reflexivity || by vm_compute in Hs).
Qed.

Lemma v6_last fuel g ip e :
  in_uint 16 g -> v6_loop (S fuel) (appendHex g +:+ "") ip e = Some (ip ++ group_bytes [g], e, "").
Proof. intros Hg. cbn [v6_loop]. by destruct (hex_group_append g "" Hg eq_refl) as [k ->]. Qed.

Lemma v6_ellipsis fuel g s ip :
  in_uint 16 g ->
  v6_loop (S fuel) (appendHex g +:+ String ":" (String ":" s)) ip None =
  let ip := ip ++ group_bytes [g] in
  if String.eqb s "" then Some (ip, Some (length ip), "")
  else v6_loop fuel s ip (Some (length ip)).
Proof.
  intros Hg. cbn [v6_loop]. destruct (hex_group_append g (String ":" (String ":" s)) Hg eq_refl) as [k ->].
  by rewrite bool_decide_true.
Qed.

(** All groups, and groups before an ellipsis. *)
Lemma v6_groups gs fuel ip e :
  Forall (in_uint 16) gs -> gs <> [] -> (length gs <= fuel)%nat ->
  v6_loop fuel (joint gs "") ip e = Some (ip ++ group_bytes gs, e, "").
Proof.
  revert fuel ip. induction gs as [|g gs IH]; intros fuel ip Hgs Hne Hl; [done|].
  destruct fuel as [|fuel]; [cbn in Hl; lia|]. pose proof Hgs as [Hg Hgs']%Forall_cons.
  destruct gs as [|g' gs]; [by apply v6_last|].
  change (joint (g :: g' :: gs) "") with (appendHex g +:+ String ":" (joint (g' :: gs) "")).
  rewrite v6_group; [|done|by apply joint_start]. rewrite IH; [|done|done|cbn in *; lia].
  by rewrite <-app_assoc.
Qed.

Lemma v6_before gs fuel ip s :
  Forall (in_uint 16) gs -> gs <> [] -> (length gs <= fuel)%nat ->
  v6_loop fuel (joint gs (String ":" (String ":" s))) ip None =
  let ip := ip ++ group_bytes gs in
  if String.eqb s "" then Some (ip, Some (length ip), "")
  else v6_loop (fuel - length gs) s ip (Some (length ip)).
Proof.
  revert fuel ip. induction gs as [|g gs IH]; intros fuel ip Hgs Hne Hl; [done|].
  destruct fuel as [|fuel]; [cbn in Hl; lia|]. pose proof Hgs as [Hg Hgs']%Forall_cons.
  destruct gs as [|g' gs].
  - cbn [joint length]. rewrite v6_ellipsis by done. by rewrite Nat.sub_succ, Nat.sub_0_r.
  - change (joint (g :: g' :: gs) ?t) with (appendHex g +:+ String ":" (joint (g' :: gs) t)).
    rewrite v6_group; [|done|by apply joint_start]. rewrite IH; [|done|done|cbn in *; lia].
    cbv zeta. by rewrite <-!app_assoc.
Qed.

Lemma length_group_bytes gs : length (group_bytes gs) = (2 * length gs)%nat.
Proof. unfold group_bytes. induction gs as [|g gs IH]; [done|]. cbn in *. lia. Qed.

Lemma joint_text_start gs t : Forall (in_uint 16) gs -> gs <> [] ->
  parseIPv6_bytes (joint gs t) =
  match v6_loop 8 (joint gs t) [] None with Some (ip, e, rest) => v6_finish ip e rest | None => None end.
Proof.
  intros Hgs Hne. destruct gs as [|g gs]; [done|]. destruct (joint_start g gs t Hgs) as [Hn Hs].
  unfold parseIPv6_bytes. destruct (joint (g :: gs) t) as [|c s]; [done|].
  destruct c as [[] [] [] [] [] [] [] []]; (reflexivity || by vm_compute in Hs).
Qed.

Lemma zeros_bytes gs : Forall (eq 0) gs -> group_bytes gs = replicate (2 * length gs) 0.
Proof.
  unfold group_bytes. induction 1 as [|g gs <- _ IH]; [done|]. cbn [fmap list_fmap concat length app].
  rewrite IH. by replace (2 * S (length gs))%nat with (S (S (2 * length gs))) by lia.
Qed.

Lemma group_bytes_app gs hs : group_bytes (gs ++ hs) = group_bytes gs ++ group_bytes hs.
Proof. unfold group_bytes. by rewrite fmap_app, concat_app. Qed.

(** Eight groups with a run of zeros left out. *)
Lemma parse_cut gs zs ze :
  Forall (in_uint 16) gs -> length gs = 8%nat -> (zs + 2 <= ze <= 8)%nat ->
  (forall k, (zs <= k < ze)%nat -> gs !! k = Some 0) ->
  parseIPv6_bytes (cut_text gs zs ze) = Some (group_bytes gs).
Proof.
  intros Hgs Hl Hz H0. set (hs := take zs gs). set (ts := drop ze gs).
  assert (Forall (in_uint 16) hs) as Hhs by by apply Forall_take.
  assert (Forall (in_uint 16) ts) as Hts by by apply Forall_drop.
  assert (length hs = zs) as Lh by (unfold hs; rewrite length_take; lia).
  assert (length ts = (8 - ze)%nat) as Lt by (unfold ts; rewrite length_drop; lia).
  assert (group_bytes gs = group_bytes hs ++ replicate (2 * (ze - zs)) 0 ++ group_bytes ts) as ->.
  { rewrite <-(take_drop zs gs) at 1. rewrite <-(take_drop (ze - zs) (drop zs gs)), drop_drop.
    replace (zs + (ze - zs))%nat with ze by lia. rewrite !group_bytes_app. do 2 f_equal.
    rewrite zeros_bytes.
    - rewrite length_take, length_drop. do 2 f_equal. lia.
    - apply Forall_lookup. intros k x Hk. apply lookup_take_Some in Hk as [Hk Hlt].
      rewrite lookup_drop, H0 in Hk by lia. by injection Hk. }
  assert (forall ip e, ip = group_bytes hs ++ group_bytes ts -> e = length (group_bytes hs) ->
    v6_finish ip (Some e) "" = Some (group_bytes hs ++ replicate (2 * (ze - zs)) 0 ++ group_bytes ts)) as Hfin.
  { intros ip e -> ->. unfold v6_finish. cbn [String.eqb negb].
    rewrite !length_app, !length_group_bytes, Lh, Lt. rewrite (proj2 (Nat.ltb_lt _ _)) by lia.
    rewrite take_app_length', drop_app_length' by (by rewrite length_group_bytes, Lh).
    do 4 f_equal. lia. }
  assert (String.eqb (joint ts "") "" = bool_decide (ts = [])) as Hempty.
  { destruct ts as [|t ts']; [done|]. destruct (joint_start t ts' "" Hts) as [Hn _].
    by destruct (String.eqb_spec (joint (t :: ts') "") ""). }
  unfold cut_text. fold hs ts. destruct (decide (hs = [])) as [Eh|Hne].
  - rewrite Eh in *. cbn [joint]. unfold parseIPv6_bytes. rewrite Hempty.
    destruct (decide (ts = [])) as [Et|Hnt].
    + rewrite bool_decide_true by done. cbn in Lh, Lt. rewrite Et in *. cbn in Lt.
      replace (ze - zs)%nat with 8%nat by lia. reflexivity.
    + rewrite bool_decide_false, v6_groups by (done || lia). by apply Hfin.
  - rewrite joint_text_start, v6_before by (done || lia). cbv zeta. rewrite app_nil_l, Hempty.
    destruct (decide (ts = [])) as [Et|Hnt].
    + rewrite bool_decide_true by done. apply Hfin; [by rewrite Et, app_nil_r|done].
    + rewrite bool_decide_false, v6_groups by (done || lia). by apply Hfin.
Qed.

(** ** IPv6: the bytes of the groups *)

Lemma split_group x : [Z.shiftr (x mod 2 ^ 16) 8; uint8 (x mod 2 ^ 16)] = [x / 256 mod 256; x mod 256].
Proof.
  rewrite Z.shiftr_div_pow2 by lia. unfold uint8. change (2 ^ 16) with 65536. change (2 ^ 8) with 256.
  assert (x mod 65536 = x mod 256 + 256 * (x / 256 mod 256)) as -> by (change 65536 with (256 * 256); by rewrite Z.rem_mul_r).
  pose proof (Z.mod_pos_bound x 256). f_equal; [|f_equal].
  - rewrite Z.mul_comm, Z.div_add, Z.div_small by lia. done.
  - rewrite Z.mul_comm, Z.mod_add, Z.mod_mod by lia. done.
Qed.

Lemma groups_bytes a : in_uint 128 a -> group_bytes (groups a) = be_bytes 16 a.
Proof.
  intros _. unfold groups, group_bytes. rewrite <-list_fmap_compose. cbn [seq fmap list_fmap concat compose].
  rewrite !split_group. rewrite !Z.shiftr_div_pow2 by lia.
  unfold be_bytes. cbn [le_bytes]. rewrite !Z.div_div by lia.
  change (2 ^ (16 * (7 - Z.of_nat 7))) with 1. rewrite Z.div_1_r. reflexivity.
Qed.

Lemma groups_ok a : Forall (in_uint 16) (groups a).
Proof.
  unfold groups. apply Forall_fmap, Forall_forall. intros i _. cbn. unfold in_uint.
  by apply Z.mod_pos_bound.
Qed.

Lemma parse_string6 a : in_uint 128 a -> parseIPv6_bytes (string6 a) = Some (be_bytes 16 a).
Proof.
  intros Ha. rewrite <-groups_bytes by done. pose proof (groups_ok a) as Hg.
  destruct (string6_cases a) as [->|(zs & ze & Hz & H0 & ->)].
  - rewrite joint_text_start, v6_groups by (done || cbn; lia). reflexivity.
  - by apply parse_cut.
Qed.

(** ** IPv4-mapped addresses *)

Lemma octets_hex t :
  Forall (fun b => exists k v, hex_group (Itoa b +:+ String "." t) 0 0 = Some (S k, v, String "." t)) octets.
Proof.
  let l := eval vm_compute in octets in change octets with l.
  repeat (apply Forall_cons; split; [do 2 eexists; reflexivity|]). constructor.
Qed.

Lemma string4_octets a : exists b0 b1 b2 b3, be_bytes 4 a = [b0; b1; b2; b3] /\
  in_uint 8 b0 /\ string4 a = Itoa b0 +:+ String "." (Itoa b1 +:+ "." +:+ Itoa b2 +:+ "." +:+ Itoa b3).
Proof.
  unfold string4. pose proof (le_bytes_ok 4 a) as Hb. apply Forall_reverse in Hb.
  change (reverse (le_bytes 4 a)) with (be_bytes 4 a) in Hb. pose proof (length_be_bytes 4 a) as Hl.
  destruct (be_bytes 4 a) as [|b0 [|b1 [|b2 [|b3 []]]]]; try done.
  apply Forall_cons in Hb as [H0 _]. exists b0, b1, b2, b3. by split_and!.
Qed.

(** The last two groups as an IPv4 address. *)
Lemma v6_dotted fuel s ip e k v t fields :
  hex_group s 0 0 = Some (S k, v, String "." t) -> parseIPv4Fields s true 0 0 [] = Some fields ->
  (length ip + 4 <= 16)%nat ->
  v6_loop (S fuel) s ip (Some e) = Some (ip ++ fields, Some e, "").
Proof.
  intros Hk Hf Hl. cbn [v6_loop]. rewrite Hk, Hf, bool_decide_false by done. cbn [andb].
  by rewrite (proj2 (Nat.ltb_ge _ _)).
Qed.

Lemma parse_mapped a : in_uint 128 a -> mapped a = true ->
  parseIPv6_bytes ("::ffff:" +:+ string4 (a - mapped_base)) =
  Some (replicate 10 0 ++ [255; 255] ++ be_bytes 4 (a - mapped_base)).
Proof.
  intros Ha Hm. apply mapped_spec in Hm.
  assert (in_uint 32 (a - mapped_base)) as Hlow by (unfold in_uint; lia).
  pose proof (string4_fields _ Hlow) as Hf.
  destruct (string4_octets (a - mapped_base)) as (b0 & b1 & b2 & b3 & Eb & H0 & Es).
  pose proof (octets_hex (Itoa b1 +:+ "." +:+ Itoa b2 +:+ "." +:+ Itoa b3)) as Hx.
  rewrite Forall_forall in Hx. destruct (Hx b0 (octet_elem b0 H0)) as (k & v & Hk). rewrite <-Es in Hk.
  change (parseIPv6_bytes ("::ffff:" +:+ string4 (a - mapped_base))) with
    (match v6_loop 8 (appendHex 65535 +:+ String ":" (string4 (a - mapped_base))) [] (Some 0%nat) with
     | Some (ip, e, rest) => v6_finish ip e rest | None => None end).
  assert (hex_start (string4 (a - mapped_base))) as Hstart.
  { rewrite Es in *. assert (Forall (fun b => forall t, hex_start (Itoa b +:+ t)) octets) as Ho.
    { let l := eval vm_compute in octets in change octets with l.
      repeat (apply Forall_cons; split; [by intros t|]). constructor. }
    rewrite Forall_forall in Ho. by apply Ho, octet_elem. }
  rewrite v6_group by (done || (unfold in_uint; lia)). rewrite (v6_dotted _ _ _ _ _ _ _ _ Hk Hf) by (cbn; lia).
  rewrite Eb. reflexivity.
Qed.

Lemma mapped_bytes a : in_uint 128 a -> mapped a = true ->
  be_val (replicate 10 0 ++ [255; 255] ++ be_bytes 4 (a - mapped_base)) = a.
Proof.
  intros Ha Hm. apply mapped_spec in Hm.
  pose proof (be_val_bytes 4 (a - mapped_base)) as Hv. rewrite Z.mod_small in Hv by (cbn; lia).
  pose proof (length_be_bytes 4 (a - mapped_base)) as Hl.
  destruct (be_bytes 4 (a - mapped_base)) as [|b0 [|b1 [|b2 [|b3 []]]]]; try done.
  unfold be_val, mapped_base in *. cbn in *. lia.
Qed.

(** ** Addresses *)

(** Lower-case hexadecimal digits, and the characters of an address before
    its zone. *)
Definition hex_char (c : ascii) : bool := is_digit c || NetipParse.between "a" "f" c.
Definition addr_char (c : ascii) : bool := hex_char c || Ascii.eqb c ":" || Ascii.eqb c ".".

Lemma all_chars_mono (P Q : ascii -> bool) s :
  (forall c, P c = true -> Q c = true) -> all_chars P s = true -> all_chars Q s = true.
Proof.
  intros H. induction s as [|c s IH]; [done|]. cbn [all_chars]. rewrite !andb_true_iff. naive_solver.
Qed.

Lemma addr_chars_no s : all_chars addr_char s = true -> has_char "%" s = false.
Proof.
  induction s as [|c s IH]; [done|]. cbn [all_chars has_char]. rewrite andb_true_iff. intros [Hc Hs].
  rewrite IH by done. destruct (Ascii.eqb_spec "%" c) as [<-|]; [by vm_compute in Hc|done].
Qed.

Lemma Itoa_addr_chars z : 0 <= z -> all_chars addr_char (Itoa z) = true.
Proof.
  intros Hz. apply (all_chars_mono is_digit); [|by apply Itoa_digits].
  intros c Hc. unfold addr_char, hex_char. by rewrite Hc.
Qed.

Lemma string4_chars a : in_uint 32 a -> all_chars addr_char (string4 a) = true.
Proof.
  intros Ha. unfold string4. pose proof (le_bytes_ok 4 a) as Hb. apply Forall_reverse in Hb.
  change (reverse (le_bytes 4 a)) with (be_bytes 4 a) in Hb. pose proof (length_be_bytes 4 a) as Hl.
  destruct (be_bytes 4 a) as [|b0 [|b1 [|b2 [|b3 []]]]]; try done.
  rewrite !Forall_cons in Hb. unfold in_uint in Hb. destruct Hb as (H0 & H1 & H2 & H3 & _).
  rewrite !all_chars_app, !Itoa_addr_chars by lia. reflexivity.
Qed.

Lemma hex_digit_char d : 0 <= d < 16 -> hex_char (hex_digit d) = true.
Proof. apply (hex_forall (fun d => hex_char (hex_digit d) = true)). by repeat constructor. Qed.

Lemma appendHex_chars x : in_uint 16 x -> all_chars hex_char (appendHex x) = true.
Proof.
  intros Hx. destruct (hex_digits x Hx) as (d3 & d2 & d1 & d0 & H3 & H2 & H1 & H0 & E3 & E2 & E1 & E0 & _).
  unfold appendHex. rewrite E3, E2, E1, E0.
  destruct (x >=? 4096), (x >=? 256), (x >=? 16); cbn [all_chars]; by rewrite !hex_digit_char.
Qed.

Lemma hex_addr_char c : hex_char c = true -> addr_char c = true.
Proof. intros Hc. unfold addr_char. by rewrite Hc. Qed.

Lemma joint_chars gs t :
  Forall (in_uint 16) gs -> all_chars addr_char t = true -> all_chars addr_char (joint gs t) = true.
Proof.
  intros Hgs Ht. assert (forall g, in_uint 16 g -> all_chars addr_char (appendHex g) = true) as Hg.
  { intros g Hg. by eapply all_chars_mono, appendHex_chars; [apply hex_addr_char|]. }
  induction Hgs as [|g gs Hx Hgs IH]; [done|]. cbn [joint].
  destruct gs; rewrite all_chars_app, Hg by done; done.
Qed.

Lemma string6_chars a : all_chars addr_char (string6 a) = true.
Proof.
  pose proof (groups_ok a) as Hg. destruct (string6_cases a) as [->|(zs & ze & _ & _ & ->)].
  - by apply joint_chars.
  - apply joint_chars; [by apply Forall_take|]. cbn [all_chars].
    rewrite joint_chars; [done|by apply Forall_drop|done].
Qed.

(** The scan stops at the first colon or dot. *)
Lemma scan_skip s h t : all_chars hex_char h = true -> ParseAddr_scan s (h +:+ t) = ParseAddr_scan s t.
Proof.
  induction h as [|c h IH]; [done|]. cbn [all_chars]. rewrite andb_true_iff. intros [Hc Hh].
  change (String c h +:+ t) with (String c (h +:+ t)). rewrite <-(IH Hh).
  destruct c as [[] [] [] [] [] [] [] []]; (reflexivity || by vm_compute in Hc).
Qed.

Lemma ParseAddr_string4 a : in_uint 32 a -> ParseAddr (string4 a) = Some (Addr4 a).
Proof.
  intros Ha. rewrite <-parseIPv4_string4 by done. unfold ParseAddr.
  destruct (string4_octets a) as (b0 & b1 & b2 & b3 & _ & H0 & Es).
  rewrite Es at 2. rewrite scan_skip; [done|].
  apply (all_chars_mono is_digit); [by intros c Hc; unfold hex_char; rewrite Hc|].
  apply Itoa_digits. unfold in_uint in H0. lia.
Qed.

(** The text of an IPv6 address starts with groups up to a colon. *)
Lemma string6_scan s a t : ParseAddr_scan s (string6 a +:+ t) = parseIPv6 s.
Proof.
  assert (forall g u, in_uint 16 g -> ParseAddr_scan s (appendHex g +:+ String ":" u) = parseIPv6 s) as Hstep
    by (intros g u Hg; by rewrite scan_skip by by apply appendHex_chars).
  pose proof (groups_ok a) as Hg. destruct (string6_cases a) as [->|(zs & ze & _ & _ & ->)].
  - destruct (groups a) as [|g [|g' gs]] eqn:E; [by apply (f_equal length) in E..|].
    apply Forall_cons in Hg as [Hg _]. cbn [joint]. rewrite str_app_assoc. by apply (Hstep g).
  - unfold cut_text. destruct (take zs (groups a)) as [|g gs] eqn:E; [done|].
    assert (in_uint 16 g) as Hx by (apply (Forall_take _ zs) in Hg; rewrite E in Hg; by apply Forall_cons in Hg as [? _]).
    cbn [joint]. destruct gs; rewrite str_app_assoc; by apply (Hstep g).
Qed.

Lemma Index_zone s z : has_char "%" s = false -> Index (s +:+ String "%" z) "%" = Some (String.length s).
Proof.
  unfold Index. induction s as [|c s IH]; intros Hs.
  - change ("" +:+ String "%" z) with (String "%" z). by destruct z.
  - change (String c s +:+ String "%" z) with (String c (s +:+ String "%" z)). cbn [has_char] in Hs.
    apply orb_false_iff in Hs as [Hc Hs].
    change (String.index 0 "%" (String c (s +:+ String "%" z))) with
      (if String.prefix "%" (String c (s +:+ String "%" z)) then Some 0%nat
       else match String.index 0 "%" (s +:+ String "%" z) with Some n => Some (S n) | None => None end).
    rewrite (IH Hs). cbn [String.prefix]. destruct (ascii_dec "%" c) as [<-|]; [by vm_compute in Hc|done].
Qed.

Lemma str_drop_past s c t : str_drop (S (String.length s)) (s +:+ String c t) = t.
Proof. induction s as [|d s IH]; [done|exact IH]. Qed.

(** The text before the zone determines the bytes, the rest is the zone. *)
Lemma parseIPv6_zone s z b : all_chars addr_char s = true -> parseIPv6_bytes s = Some b ->
  parseIPv6 (s +:+ (if String.eqb z "" then "" else "%" +:+ z)) = Some (Addr6 (be_val b) z).
Proof.
  intros Hs%addr_chars_no Hb. unfold parseIPv6. destruct (String.eqb_spec z "") as [->|Hz].
  - rewrite str_app_nil_r. apply Index_char in Hs. by rewrite Hs, bool_decide_false, Hb.
  - change ("%" +:+ z) with (String "%" z). rewrite Index_zone by done.
    rewrite str_take_app, str_drop_past, bool_decide_false, Hb by by intros [= E]. done.
Qed.

(** ** Round trips *)

Lemma Addr_String_scan s a z t : in_uint 128 a ->
  ParseAddr_scan s (Addr_String (Addr6 a z) +:+ t) = parseIPv6 s.
Proof.
  intros Ha. cbn [Addr_String]. rewrite str_app_assoc. destruct (mapped a); [done|apply string6_scan].
Qed.

(** An address is read back from its text. *)
Lemma ParseAddr_String ip : Addr_ok ip -> ip <> AddrZero -> ParseAddr (Addr_String ip) = Some ip.
Proof.
  destruct ip as [|a|a z]; intros Ha Hz; [done|by apply ParseAddr_string4|]. cbn [Addr_ok] in Ha.
  unfold ParseAddr. rewrite <-(str_app_nil_r (Addr_String (Addr6 a z))) at 2. rewrite Addr_String_scan by done.
  cbn [Addr_String]. destruct (mapped a) eqn:Hm.
  - pose proof (parse_mapped a Ha Hm) as Hb. apply (parseIPv6_zone _ z) in Hb.
    + by rewrite Hb, mapped_bytes.
    + apply mapped_spec in Hm. rewrite all_chars_app, string4_chars; [done|unfold in_uint; lia].
  - rewrite (parseIPv6_zone _ z _ (string6_chars a) (parse_string6 a Ha)).
    by rewrite be_val_bytes, Z.mod_small.
Qed.

(** The text of an address and a port determines both. *)
Lemma AddrPort_String_inj p q :
  Addr_ok (ap_addr p) -> ap_addr p <> AddrZero -> 0 <= ap_port p ->
  Addr_ok (ap_addr q) -> ap_addr q <> AddrZero -> 0 <= ap_port q ->
  AddrPort_String p = AddrPort_String q -> p = q.
Proof.
  intros Hp Hpz Hpp Hq Hqz Hqp E.
  assert (forall r, ap_addr r <> AddrZero ->
    exists h, AddrPort_String r = h +:+ ":" +:+ Itoa (ap_port r) /\
      h = (if Is4 (ap_addr r) then Addr_String (ap_addr r) else "[" +:+ Addr_String (ap_addr r) +:+ "]")) as Hr.
  { intros [[|a|a z] port] Hz; [done| |]; eexists; (split; [|reflexivity]); cbn [AddrPort_String ap_addr ap_port Is4];
      [done|by rewrite !str_app_assoc]. }
  destruct (Hr p Hpz) as (h & Ep & Eh), (Hr q Hqz) as (h' & Eq & Eh'). rewrite Ep, Eq in E.
  apply last_colon in E as [-> E]; [|by apply Itoa_no_colon..]. rewrite Eh in Eh'.
  assert (ap_port p = ap_port q) as Hport.
  { pose proof (Atoi_Itoa _ Hpp) as Ha. rewrite E, Atoi_Itoa in Ha by done. by injection Ha. }
  assert (Addr_String (ap_addr p) = Addr_String (ap_addr q)) as Hs.
  { assert (forall ip s, Addr_ok ip -> Is4 ip = true -> Addr_String ip <> "[" +:+ s) as H4.
    { intros [|a|] s Ha Hi Es; try done. pose proof (ParseAddr_string4 a Ha) as Hpa.
      cbn [Addr_String] in Es. pose proof (string4_chars a Ha) as Hc. rewrite Es in Hc. done. }
    destruct (Is4 (ap_addr p)) eqn:E4, (Is4 (ap_addr q)) eqn:E4'.
    - done.
    - by apply H4 in Eh'.
    - symmetry in Eh'. by apply H4 in Eh'.
    - by apply brackets_inj. }
  pose proof (ParseAddr_String _ Hp Hpz) as Ha. rewrite Hs, ParseAddr_String in Ha by done.
  injection Ha as Ha. destruct p, q; cbn in *; congruence.
Qed.

Lemma addr_chars_ascii s : all_chars addr_char s = true -> is_ascii s = true.
Proof.
  intros Hs. rewrite is_ascii_all. eapply all_chars_mono; [|exact Hs].
  intros c. by destruct c as [[] [] [] [] [] [] [] []].
Qed.

(** The text of an address in ASCII. *)
Lemma AddrPort_String_ascii p :
  Addr_ok (ap_addr p) -> 0 <= ap_port p -> is_ascii (Zone (ap_addr p)) = true ->
  is_ascii (AddrPort_String p) = true.
Proof.
  assert (forall z, 0 <= z -> is_ascii (Itoa z) = true) as Hi
    by (intros z Hz; by apply addr_chars_ascii, Itoa_addr_chars).
  assert (forall a, in_uint 32 a -> is_ascii (string4 a) = true) as H4
    by (intros a Ha; by apply addr_chars_ascii, string4_chars).
  destruct p as [[|a|a z] port]; cbn [ap_addr ap_port Zone Addr_ok]; intros Ha Hp Hz; [done| |].
  - cbn [AddrPort_String ap_addr ap_port]. by rewrite !is_ascii_app, H4, Hi.
  - cbn [AddrPort_String ap_addr ap_port Addr_String]. rewrite !is_ascii_app, Hi by done.
    assert (is_ascii (if String.eqb z "" then "" else "%" +:+ z) = true) as ->
      by (destruct (String.eqb z ""); [done|by rewrite is_ascii_app, Hz]).
    assert (is_ascii (if mapped a then "::ffff:" +:+ string4 (a - mapped_base) else string6 a) = true) as ->; [|done].
    destruct (mapped a) eqn:Hm; [|apply addr_chars_ascii, string6_chars].
    apply mapped_spec in Hm. rewrite is_ascii_app, H4; [done|unfold in_uint; lia].
Qed.
