(* ===== verification/Loader.v ===== *)
(** * Loader: the prefix files of [internal/china/loader.go]

    A prefix file has one CIDR per line, with blank lines and comments
    skipped; a malformed line, an unreadable file and a file without any
    prefix are errors.  The file system is a function from paths to what
    reading them delivers. *)

From S2P Require Import Prelude Netip GoText Intervals China NetipParse.

(** What [os.Open] and the reads after it give; [None] when the file cannot
    be opened. *)
Definition FileSystem : Type := string -> option Reader.

Inductive load_error :=
| OpenFailed (path : string)
| BadPrefix (path : string) (line : Z) (text : string)
| ReadFailed (path : string)
| NoPrefixes (path : string).

(** ** Operations *)

(** [Ok None] is [ok = false]: the line is skipped. *)
Definition ParsePrefixLine (raw : string) : result string (option Prefix) :=
  let line := TrimSpace raw in
  if String.eqb line "" || is_comment line then Ok None
  else
    let line := strip_inline inline_marks line in
    if String.eqb line "" then Ok None
    else match ParsePrefix line with
         | None => Err line
         | Some p => Ok (Some (Masked p))
         end.

(** The scan loop: [line] is the number of the line before the next one. *)
Fixpoint scan_prefixes (path : string) (ls : list string) (line : Z) (dst : list Prefix)
    : result load_error (list Prefix) :=
  match ls with
  | [] => Ok dst
  | l :: ls =>
      let line := line + 1 in
      match ParsePrefixLine l with
      | Err text => Err (BadPrefix path line text)
      | Ok (Some p) => scan_prefixes path ls line (dst ++ [p])
      | Ok None => scan_prefixes path ls line dst
      end
  end.

(** [sc.Buffer(make([]byte, 0, 64*1024), 1024*1024)]. *)
Definition scan_buffer : nat := Z.to_nat (1024 * 1024).

Definition loadFile (fs : FileSystem) (path : string) (dst : list Prefix)
    : result load_error (list Prefix * nat) :=
  match fs path with
  | None => Err (OpenFailed path)
  | Some f =>
      let before := length dst in
      let '(ls, err) := ScanLines scan_buffer f in
      match scan_prefixes path ls 0 dst with
      | Err e => Err e
      | Ok dst => if err then Err (ReadFailed path) else Ok (dst, (length dst - before)%nat)
      end
  end.

Fixpoint load_all (fs : FileSystem) (paths : list string) (all : list Prefix)
    : result load_error (list Prefix) :=
  match paths with
  | [] => Ok all
  | path :: paths =>
      match loadFile fs path all with
      | Err e => Err e
      | Ok (all, n) => if (n =? 0)%nat then Err (NoPrefixes path) else load_all fs paths all
      end
  end.

Definition Load (fs : FileSystem) (paths : list string) : result load_error Index :=
  match load_all fs paths [] with
  | Err e => Err e
  | Ok all => Ok (Build all)
  end.

Definition LoadFrom (r : Reader) : result load_error Index :=
  let '(ls, err) := ScanLines scan_buffer r in
  match scan_prefixes "" ls 0 [] with
  | Err e => Err e
  | Ok all => if err then Err (ReadFailed "") else Ok (Build all)
  end.

(** ** The specification of a file's contents *)

(** The prefixes of the lines, in order; [None] when a line is malformed. *)
Fixpoint lines_prefixes (ls : list string) : option (list Prefix) :=
  match ls with
  | [] => Some []
  | l :: ls =>
      match ParsePrefixLine l, lines_prefixes ls with
      | Ok (Some p), Some ps => Some (p :: ps)
      | Ok None, Some ps => Some ps
      | _, _ => None
      end
  end.

(** A file that loads: it opens, every line fits the buffer and parses, the
    reads do not fail, and at least one line holds a prefix. *)
Definition file_prefixes (fs : FileSystem) (path : string) : option (list Prefix) :=
  match fs path with
  | None => None
  | Some f =>
      match ScanLines scan_buffer f with
      | (_, true) => None
      | (ls, false) =>
          match lines_prefixes ls with
          | Some (p :: ps) => Some (p :: ps)
          | _ => None
          end
      end
  end.

(** ** Lemmas *)

Lemma scan_prefixes_spec path ls : forall line dst,
  match lines_prefixes ls with
  | Some ps => scan_prefixes path ls line dst = Ok (dst ++ ps)
  | None => exists n t, scan_prefixes path ls line dst = Err (BadPrefix path n t)
  end.
Proof.
  induction ls as [|l ls IH]; intros line dst; cbn [lines_prefixes scan_prefixes].
  { by rewrite app_nil_r. }
  destruct (ParsePrefixLine l) as [[p|]|t]; [| |by eauto].
  - specialize (IH (line + 1) (dst ++ [p])). destruct (lines_prefixes ls); [|done].
    by rewrite IH, <-app_assoc.
  - specialize (IH (line + 1) dst). by destruct (lines_prefixes ls).
Qed.

Lemma loadFile_spec fs path acc :
  match file_prefixes fs path with
  | Some ps => ps <> [] /\ loadFile fs path acc = Ok (acc ++ ps, length ps)
  | None => (exists e, loadFile fs path acc = Err e) \/
            (exists d, loadFile fs path acc = Ok (d, 0%nat))
  end.
Proof.
  unfold file_prefixes, loadFile. destruct (fs path) as [f|]; [|by eauto].
  destruct (ScanLines scan_buffer f) as [ls err].
  pose proof (scan_prefixes_spec path ls 0 acc) as Hs.
  destruct (lines_prefixes ls) as [ps|]; cycle 1.
  { destruct Hs as (n & t & ->). destruct err; by eauto. }
  rewrite Hs. destruct err; [by eauto|].
  rewrite length_app, Nat.add_comm, Nat.add_sub. destruct ps as [|p ps]; simpl; by eauto.
Qed.

Lemma load_all_spec fs paths : forall acc,
  match mapM (file_prefixes fs) paths with
  | Some pss => load_all fs paths acc = Ok (acc ++ concat pss)
  | None => exists e, load_all fs paths acc = Err e
  end.
Proof.
  induction paths as [|path paths IH]; intros acc; cbn [load_all].
  { simpl. by rewrite app_nil_r. }
  simpl. pose proof (loadFile_spec fs path acc) as Hf.
  destruct (file_prefixes fs path) as [ps|]; simpl.
  - destruct Hf as [Hne ->]. destruct ps as [|p ps]; [done|]. cbn [length Nat.eqb].
    specialize (IH (acc ++ p :: ps)).
    destruct (mapM (file_prefixes fs) paths) as [pss|]; simpl; [|done].
    by rewrite IH, <-app_assoc.
  - destruct Hf as [[e ->]|[d ->]]; eauto.
Qed.

Lemma clear_low_aligned n a : 0 <= n -> clear_low n a mod 2 ^ n = 0.
Proof.
  intros. unfold clear_low. rewrite Z.shiftl_mul_pow2 by done. apply Z.mod_mul.
  pose proof (Z.pow_pos_nonneg 2 n). lia.
Qed.

Lemma clear_low_range n w a : 0 <= n -> in_uint w a -> in_uint w (clear_low n a).
Proof.
  intros Hn Ha. unfold clear_low, in_uint in *.
  rewrite Z.shiftl_mul_pow2, Z.shiftr_div_pow2 by done.
  pose proof (Z.pow_pos_nonneg 2 n). pose proof (Z.div_mod a (2 ^ n)).
  pose proof (Z.mod_pos_bound a (2 ^ n)). pose proof (Z.div_pos a (2 ^ n)). nia.
Qed.

(** Parsing and masking gives the prefixes the index is built from. *)
Lemma Masked_ok s p : ParsePrefix s = Some p -> Prefix_ok (Masked p).
Proof.
  intros (Ha & Hz & Hzone & Hb)%ParsePrefix_ok. destruct p as [a bits]. cbn [p_addr p_bits] in *.
  unfold Prefix_ok, family, p_val, host_bits.
  destruct a as [|a|a z]; [done| |]; cbn [Masked p_addr p_bits BitLen Is4 mk width Addr_ok] in *;
    (split_and!; [done|apply clear_low_range; [lia|assumption]|lia|lia|apply clear_low_aligned; lia]).
Qed.

Lemma lines_prefixes_ok ls ps : lines_prefixes ls = Some ps -> Forall Prefix_ok ps.
Proof.
  revert ps. induction ls as [|l ls IH]; intros ps; cbn [lines_prefixes].
  { intros [= <-]. constructor. }
  unfold ParsePrefixLine. intros Hl. repeat case_match; simplify_eq; auto.
  constructor; [by eapply Masked_ok|auto].
Qed.

Lemma file_prefixes_ok fs path ps : file_prefixes fs path = Some ps -> Forall Prefix_ok ps.
Proof.
  unfold file_prefixes. intros Hl. repeat case_match; simplify_eq.
  by eapply lines_prefixes_ok.
Qed.

Lemma mapM_file_prefixes_ok fs paths pss :
  mapM (file_prefixes fs) paths = Some pss -> Forall Prefix_ok (concat pss).
Proof.
  intros H%mapM_Some. induction H as [|path ps paths pss Hp _ IH]; [constructor|].
  simpl. apply Forall_app; split; [by eapply file_prefixes_ok|done].
Qed.

(** ** Theorems *)


(** End to end, an address is classified as inside exactly when some
    line of the loaded files is a prefix that contains it (for files whose
    IPv6 prefixes do not end at an IPv4-mapped address). *)
Theorem Load_classifies fs paths pss ix ip :
  mapM (file_prefixes fs) paths = Some pss -> Load fs paths = Ok ix ->
  Forall (fun p => tail_unmapped p = true) (concat pss) ->
  Addr_ok ip -> Zone ip = "" ->
  Contains ix ip = true <->
  exists ps p, ps ∈ pss /\ p ∈ ps /\ Prefix_Contains p (Unmap ip) = true.
Proof.
  intros Hm Hl Ht Hip Hz. pose proof (mapM_file_prefixes_ok fs paths pss Hm) as Hok.
  unfold Load in Hl. pose proof (load_all_spec fs paths []) as Hs. rewrite Hm in Hs.
  rewrite Hs in Hl. injection Hl as <-. cbn [app].
  rewrite Build_scan by done. rewrite existsb_exists. split.
  - intros (p & Hin & Hp). apply in_concat in Hin as (ps & Hps & Hin).
    exists ps, p. by rewrite !list_elem_of_In.
  - intros (ps & p & Hps & Hin & Hp). exists p. split; [|done].
    apply in_concat. exists ps. by rewrite <-!list_elem_of_In.
Qed.

Definition sample_fs : FileSystem := fun path =>
  if String.eqb path "cn4.txt"
  then Some (mkReader ("# v4" +:+ bytes [10%nat] +:+ "1.0.2.7/23 # masked" +:+ bytes [13; 10]%nat) false)
  else if String.eqb path "cn6.txt"
  then Some (mkReader ("2001:db8::/32" +:+ bytes [10%nat] +:+ "  // end") false)
  else None.

Definition sample_loaded : list (list Prefix) :=
  [[mkPrefix (Addr4 (be_val [1; 0; 2; 0])) 23]; [mkPrefix (Addr6 (0x20010db8 * 2 ^ 96) "") 32]].

Lemma Load_classifies_witness :
  exists ps p, ps ∈ sample_loaded /\ p ∈ ps /\
    Prefix_Contains p (Addr4 (be_val [1; 0; 3; 9])) = true.
Proof.
  apply (Load_classifies sample_fs ["cn4.txt"; "cn6.txt"] sample_loaded
    (Build (concat sample_loaded)) (Addr4 (be_val [1; 0; 3; 9]))).
  - vm_compute. reflexivity.
  - vm_compute. reflexivity.
  - unfold sample_loaded. solve_concrete.
  - solve_concrete.
  - reflexivity.
  - vm_compute. reflexivity.
Defined.
