(* ===== verification/Overrides.v ===== *)
(** * Overrides: the override list of [internal/overrides/overrides.go]

    A set of exact names and a list of wildcard suffixes.  Names are compared
    normalized: surrounding white space and one trailing dot removed, lower
    case. *)

From S2P Require Import Prelude Netip GoText Intervals China NetipParse Loader.
From Stdlib Require Import Ascii.

(** [overrides.Set]. *)
Record OverrideSet := mkOverrides {
  ov_exact : gset string;
  ov_wildcard : list string;
}.

Section Overrides.
Context `{GoUnicode}.

(** ** Operations *)

Definition normalize (name : string) : string :=
  ToLower (TrimSuffix (TrimSpace name) ".").

Fixpoint add_exact (es : list string) (s : gset string) : gset string :=
  match es with
  | [] => s
  | e :: es =>
      let e := normalize e in
      add_exact es (if negb (String.eqb e "") then {[e]} ∪ s else s)
  end.
Fixpoint add_wildcard (ws : list string) (l : list string) : list string :=
  match ws with
  | [] => l
  | w :: ws =>
      let w := normalize w in
      add_wildcard ws (if negb (String.eqb w "") then l ++ [w] else l)
  end.

Definition New (exact wildcard : list string) : OverrideSet :=
  mkOverrides (add_exact exact ∅) (add_wildcard wildcard []).

(** The scan loop of [LoadFrom]. *)
Fixpoint scan_entries (ls : list string) (exact wildcard : list string)
    : list string * list string :=
  match ls with
  | [] => (exact, wildcard)
  | l :: ls =>
      let raw := TrimSpace l in
      if String.eqb raw "" || is_comment raw then scan_entries ls exact wildcard
      else
        let raw := strip_inline inline_marks raw in
        if String.eqb raw "" then scan_entries ls exact wildcard
        else if HasPrefix raw "*." then scan_entries ls exact (wildcard ++ [str_drop 2 raw])
        else scan_entries ls (exact ++ [raw]) wildcard
  end.

(** [None] is the scanner's error. *)
Definition LoadFrom (r : Reader) : option OverrideSet :=
  let '(ls, err) := ScanLines MaxScanTokenSize r in
  let '(exact, wildcard) := scan_entries ls [] [] in
  if err then None else Some (New exact wildcard).

Definition Load (fs : FileSystem) (path : string) : result load_error OverrideSet :=
  match fs path with
  | None => Err (OpenFailed path)
  | Some f => match LoadFrom f with
              | None => Err (ReadFailed path)
              | Some s => Ok s
              end
  end.

Fixpoint match_wildcard (q : string) (ws : list string) : bool :=
  match ws with
  | [] => false
  | suffix :: ws => if HasSuffix q ("." +:+ suffix) then true else match_wildcard q ws
  end.

Definition Match (s : OverrideSet) (qname : string) : bool :=
  let q := normalize qname in
  if String.eqb q "" then false
  else if decide (q ∈ ov_exact s) then true
  else match_wildcard q (ov_wildcard s).

(** ** Lemmas *)

Lemma elem_of_add_exact es s x :
  x ∈ add_exact es s <-> x ∈ s \/ (x <> "" /\ exists e, e ∈ es /\ normalize e = x).
Proof.
  revert s. induction es as [|e es IH]; intros s; simpl.
  - set_solver.
  - rewrite IH. destruct (String.eqb_spec (normalize e) "") as [E|E]; simpl.
    + setoid_rewrite elem_of_cons. naive_solver.
    + setoid_rewrite elem_of_cons. rewrite elem_of_union, elem_of_singleton. naive_solver.
Qed.

Lemma elem_of_add_wildcard ws l x :
  x ∈ add_wildcard ws l <-> x ∈ l \/ (x <> "" /\ exists w, w ∈ ws /\ normalize w = x).
Proof.
  revert l. induction ws as [|w ws IH]; intros l; simpl.
  - set_solver.
  - rewrite IH. destruct (String.eqb_spec (normalize w) "") as [E|E]; simpl.
    + setoid_rewrite elem_of_cons. naive_solver.
    + setoid_rewrite elem_of_cons. rewrite elem_of_app, list_elem_of_singleton. naive_solver.
Qed.

Lemma match_wildcard_spec q ws :
  match_wildcard q ws = true <-> exists w p, w ∈ ws /\ q = p +:+ ("." +:+ w).
Proof.
  induction ws as [|w ws IH]; cbn [match_wildcard].
  - split; [done|]. intros (? & ? & ?%elem_of_nil & _). done.
  - setoid_rewrite elem_of_cons. destruct (HasSuffix q ("." +:+ w)) eqn:E.
    + apply HasSuffix_spec in E as [p ->]. split; [intros _|done]. exists w, p. auto.
    + rewrite IH. split; [intros (w' & p & ? & ?); exists w', p; auto|].
      intros (w' & p & [->|?] & Hq); [|by eauto].
      rewrite (proj2 (HasSuffix_spec q ("." +:+ w))) in E by eauto. done.
Qed.
Lemma normalize_ascii q :
  is_ascii q = true -> normalize q = ascii_lower (TrimSuffix (TrimSpace q) ".").
Proof.
  intros Hq. unfold normalize. apply ToLower_ascii. rewrite is_ascii_all in *.
  by apply all_chars_TrimSuffix, all_chars_TrimSpace.
Qed.

Lemma normalize_ToLower q : is_ascii q = true -> normalize (ToLower q) = normalize q.
Proof.
  intros Hq. rewrite (ToLower_ascii q) by done.
  rewrite !normalize_ascii, TrimSpace_lower, TrimSuffix_lower by
    (rewrite ?is_ascii_lower; done).
  apply ascii_lower_idem.
Qed.

Lemma normalize_visible q :
  visible q = true -> HasSuffix q "." = false -> normalize q = ascii_lower q.
Proof.
  intros Hv Hd. rewrite normalize_ascii, TrimSpace_visible by auto using visible_ascii.
  by rewrite TrimSuffix_none.
Qed.

Lemma normalize_dot q : visible q = true -> normalize (q +:+ ".") = ascii_lower q.
Proof.
  intros Hv. assert (visible (q +:+ ".") = true) as Hv' by by rewrite all_chars_app, Hv.
  rewrite normalize_ascii, TrimSpace_visible by auto using visible_ascii.
  by rewrite TrimSuffix_app.
Qed.

(** ** Files *)

(** The lines of an override file. *)
Inductive entry :=
| Exact (name : string)
| Wildcard (name : string)
| Comment (text : string)
| Blank.

Definition render (e : entry) : string :=
  match e with
  | Exact n => n
  | Wildcard n => "*." +:+ n
  | Comment t => "#" +:+ t
  | Blank => ""
  end.

(** Entries that can be written down: names without white space that cannot
    be read as something else, and lines that fit the scanner's buffer. *)
Definition writable (e : entry) : bool :=
  match e with
  | Exact n => visible n && negb (String.eqb n "") && negb (is_comment n) &&
               negb (HasPrefix n "*.")
  | Wildcard n => visible n
  | Comment t => all_chars line_char t && negb (HasSuffix ("#" +:+ t) carriage_return)
  | Blank => true
  end && (String.length (render e) <? MaxScanTokenSize)%nat.

Definition exact_names (es : list entry) : list string :=
  omap (fun e => match e with Exact n => Some n | _ => None end) es.
Definition wildcard_names (es : list entry) : list string :=
  omap (fun e => match e with Wildcard n => Some n | _ => None end) es.

Lemma scan_entries_render es : forall exact wildcard,
  Forall (fun e => writable e = true) es ->
  scan_entries (render <$> es) exact wildcard =
  (exact ++ exact_names es, wildcard ++ wildcard_names es).
Proof.
  induction es as [|e es IH]; intros exact wildcard Hw.
  { unfold exact_names, wildcard_names. simpl. by rewrite !app_nil_r. }
  cbn [fmap list_fmap scan_entries].
  apply Forall_cons in Hw as [He Hw]. unfold writable in He.
  apply andb_true_iff in He as [He _]. destruct e as [n|n|t|]; cbn [render].
  - bool_props. rewrite TrimSpace_visible by done. destruct (String.eqb n "") eqn:En; [done|].
    destruct (is_comment n); [done|]. cbn [orb]. rewrite strip_inline_visible, En by done.
    destruct (HasPrefix n "*."); [done|]. by rewrite IH, <-app_assoc.
  - rewrite TrimSpace_visible by (rewrite all_chars_app, He; done).
    rewrite strip_inline_visible by (rewrite all_chars_app, He; done).
    change (str_drop 2 ("*." +:+ n)) with n.
    replace (HasPrefix ("*." +:+ n) "*.") with true
      by (symmetry; apply HasPrefix_spec; by exists n).
    change (is_comment ("*." +:+ n)) with false.
    change (String.eqb ("*." +:+ n) "") with false. cbn [orb].
    by rewrite IH, <-app_assoc.
  - change ("#" +:+ t) with (String "#" t). destruct (TrimSpace_head "#" t) as [t' ->]; [done|].
    replace (is_comment (String "#" t')) with true by (by destruct t').
    by rewrite orb_true_r, IH.
  - by rewrite IH.
Qed.

Lemma scan_tokens_render es :
  Forall (fun e => writable e = true) es ->
  scan_tokens MaxScanTokenSize (render <$> es) = (render <$> es, false).
Proof.
  induction 1 as [|e es He _ IH]; [done|]. cbn [fmap list_fmap scan_tokens].
  unfold writable in He. apply andb_true_iff in He as [He Hl].
  rewrite Nat.ltb_antisym in Hl. apply negb_true_iff in Hl. rewrite Hl.
  change (list_fmap entry string render es) with (render <$> es). rewrite IH.
  rewrite TrimSuffix_none; [done|]. destruct e as [n|n|t|]; cbn [render]; bool_props.
  - by apply visible_no_suffix.
  - apply visible_no_suffix; [|done]. by rewrite all_chars_app, He.
  - done.
  - done.
Qed.

Lemma render_lines es :
  Forall (fun e => writable e = true) es ->
  Forall (fun l => all_chars line_char l = true) (render <$> es).
Proof.
  intros Hes. apply Forall_fmap. eapply Forall_impl; [exact Hes|]. intros e He.
  unfold writable in He. apply andb_true_iff in He as [He _].
  cbn [compose]. unfold compose. destruct e as [n|n|t|]; cbn [render].
  - bool_props. by apply visible_line.
  - apply visible_line. by rewrite all_chars_app, He.
  - bool_props. done.
  - done.
Qed.

(** ** Theorems *)

(** C19: the meaning of the override list.  A name matches when, normalized,
    it is not empty and either equals a normalized exact entry or ends in a
    dot followed by a non-empty normalized wildcard suffix. *)
Theorem Match_spec exact wildcard q :
  Match (New exact wildcard) q = true <->
  normalize q <> "" /\
  ((exists e, e ∈ exact /\ normalize e = normalize q) \/
   (exists w p, w ∈ wildcard /\ normalize w <> "" /\
      normalize q = p +:+ ("." +:+ normalize w))).
Proof.
  unfold Match, New. cbn [ov_exact ov_wildcard].
  destruct (String.eqb_spec (normalize q) "") as [E|E]; [naive_solver|].
  destruct (decide _) as [Hin|Hin]; rewrite elem_of_add_exact in Hin.
  - set_solver.
  - rewrite match_wildcard_spec. setoid_rewrite elem_of_add_wildcard. set_solver.
Qed.

(** A wildcard entry never matches its own apex, with or without a
    trailing dot or in another case: "*.apple.com" does not match
    "apple.com". *)
Theorem wildcard_not_apex w q :
  normalize q = normalize w -> Match (New [] [w]) q = false.
Proof.
  intros E. apply not_true_iff_false. intros Hm. unfold Match, New in Hm.
  cbn [ov_exact ov_wildcard] in Hm. rewrite E in Hm.
  destruct (String.eqb (normalize w) ""); [done|].
  rewrite decide_False in Hm by (rewrite elem_of_add_exact; set_solver).
  apply match_wildcard_spec in Hm as (w' & p & Hw & Hq).
  apply elem_of_add_wildcard in Hw as [?%elem_of_nil|(_ & w'' & Hin & Hn)]; [done|].
  apply list_elem_of_singleton in Hin as ->. rewrite Hn in Hq.
  apply (f_equal String.length) in Hq. rewrite !str_length_app in Hq. simpl in Hq. lia.
Qed.

(** Matching ignores case and one trailing dot: a name as a client writes
    it, its fully qualified form and its lower-case form are all classified
    alike (names without white space that do not end in a dot). *)
Theorem Match_presentation s q :
  visible q = true -> HasSuffix q "." = false ->
  Match s (q +:+ ".") = Match s q /\ Match s (ToLower q) = Match s q.
Proof.
  intros Hv Hd. unfold Match.
  by rewrite normalize_dot, normalize_ToLower, normalize_visible by auto using visible_ascii.
Qed.

(** C39: reading back a written override file.  A file with one entry per
    line, comment lines and blank lines among them, loads as the set built
    from its exact names and its wildcard suffixes, in order. *)
Theorem LoadFrom_unlines es :
  Forall (fun e => writable e = true) es ->
  LoadFrom (mkReader (unlines (render <$> es)) false) =
  Some (New (exact_names es) (wildcard_names es)).
Proof.
  intros Hw. unfold LoadFrom, ScanLines. cbn [rd_data rd_fail].
  rewrite split_newlines_unlines by by apply render_lines.
  rewrite scan_tokens_render by done. cbn [orb]. by rewrite scan_entries_render.
Qed.
End Overrides.

Lemma wildcard_not_apex_witness : @Match ascii_tables (@New ascii_tables [] ["apple.com"]) "Apple.COM." = false.
Proof. apply (@wildcard_not_apex ascii_tables "apple.com" "Apple.COM."). reflexivity. Defined.

Lemma Match_presentation_witness :
  @Match ascii_tables (@New ascii_tables ["bing.com"] ["linkedin.com"]) ("www.LinkedIn.com" +:+ ".") = true.
Proof.
  rewrite (proj1 (@Match_presentation ascii_tables
    (@New ascii_tables ["bing.com"] ["linkedin.com"]) "www.LinkedIn.com" eq_refl eq_refl)).
  reflexivity.
Defined.

Definition sample_entries : list entry :=
  [Comment " overrides"; Exact "linkedin.com"; Blank; Wildcard "apple.com"].

Lemma LoadFrom_unlines_witness :
  @LoadFrom ascii_tables (mkReader (unlines (render <$> sample_entries)) false) =
  Some (@New ascii_tables ["linkedin.com"] ["apple.com"]).
Proof.
  apply (@LoadFrom_unlines ascii_tables sample_entries).
  unfold sample_entries. repeat constructor.
Defined.
