(* ===== verification/Dns.v ===== *)
(** * Dns: what the resolver uses of the DNS library

    Messages, questions and resource records as the library's Go structs have
    them.  The library itself ([github.com/miekg/dns]) is not part of the
    sources, so its operations are the fields of the class [DnsLib], and what
    the resolver relies on is stated as the named laws of [DnsLaws], which
    are the documented behaviour of those operations.  [sample_dns] is an
    instance of both.

    Pointers that may be nil are options; a message is passed by value, which
    is how the sources use it: every message they change is one they have
    just created or copied. *)

From S2P Require Import Prelude Netip.

Record RR_Header := mkHdr {
  h_name : string;
  h_rrtype : Z;
  h_class : Z;
  h_ttl : Z;
}.

Record SOA := mkSOA {
  soa_hdr : RR_Header;
  soa_ns : string;
  soa_mbox : string;
  soa_serial : Z;
  soa_refresh : Z;
  soa_retry : Z;
  soa_expire : Z;
  soa_minttl : Z;
}.

(** Address records hold the octets of their address ([net.IP]).  The header
    of an OPT record carries the advertised UDP size as its class and the
    EDNS version and flags in its TTL. *)
Inductive RR :=
| RR_A (hdr : RR_Header) (ip : list Z)
| RR_AAAA (hdr : RR_Header) (ip : list Z)
| RR_CNAME (hdr : RR_Header) (target : string)
| RR_SOA (soa : SOA)
| RR_OPT (hdr : RR_Header) (options : list Z)
| RR_other (hdr : RR_Header) (rdata : list Z).

Definition Header (rr : RR) : RR_Header :=
  match rr with
  | RR_A h _ | RR_AAAA h _ | RR_CNAME h _ | RR_OPT h _ | RR_other h _ => h
  | RR_SOA s => soa_hdr s
  end.

Record Question := mkQuestion { q_name : string; q_qtype : Z; q_qclass : Z }.

Record Msg := mkMsg {
  m_id : Z;
  m_response : bool;
  m_opcode : Z;
  m_authoritative : bool;
  m_truncated : bool;
  m_rd : bool;
  m_ra : bool;
  m_zero : bool;
  m_ad : bool;
  m_cd : bool;
  m_rcode : Z;
  m_compress : bool;
  m_question : list Question;
  m_answer : list RR;
  m_ns : list RR;
  m_extra : list RR;
}.

#[export] Instance RR_Header_eq_dec : EqDecision RR_Header.
Proof. solve_decision. Defined.
#[export] Instance SOA_eq_dec : EqDecision SOA.
Proof. solve_decision. Defined.
#[export] Instance RR_eq_dec : EqDecision RR.
Proof. solve_decision. Defined.
#[export] Instance Question_eq_dec : EqDecision Question.
Proof. solve_decision. Defined.
#[export] Instance Msg_eq_dec : EqDecision Msg.
Proof. solve_decision. Defined.

(** [new(dns.Msg)]. *)
Definition new_Msg : Msg :=
  mkMsg 0 false 0 false false false false false false false 0 false [] [] [] [].

(** ** Assignments to the fields the resolver sets *)

Definition set_id (m : Msg) (v : Z) : Msg :=
  mkMsg v (m_response m) (m_opcode m) (m_authoritative m) (m_truncated m) (m_rd m)
    (m_ra m) (m_zero m) (m_ad m) (m_cd m) (m_rcode m) (m_compress m) (m_question m) (m_answer m)
    (m_ns m) (m_extra m).
Definition set_rd (m : Msg) (v : bool) : Msg :=
  mkMsg (m_id m) (m_response m) (m_opcode m) (m_authoritative m) (m_truncated m) v
    (m_ra m) (m_zero m) (m_ad m) (m_cd m) (m_rcode m) (m_compress m) (m_question m) (m_answer m)
    (m_ns m) (m_extra m).
Definition set_truncated (m : Msg) (v : bool) : Msg :=
  mkMsg (m_id m) (m_response m) (m_opcode m) (m_authoritative m) v (m_rd m)
    (m_ra m) (m_zero m) (m_ad m) (m_cd m) (m_rcode m) (m_compress m) (m_question m) (m_answer m)
    (m_ns m) (m_extra m).
Definition set_ra (m : Msg) (v : bool) : Msg :=
  mkMsg (m_id m) (m_response m) (m_opcode m) (m_authoritative m) (m_truncated m) (m_rd m)
    v (m_zero m) (m_ad m) (m_cd m) (m_rcode m) (m_compress m) (m_question m) (m_answer m)
    (m_ns m) (m_extra m).
Definition set_rcode (m : Msg) (v : Z) : Msg :=
  mkMsg (m_id m) (m_response m) (m_opcode m) (m_authoritative m) (m_truncated m) (m_rd m)
    (m_ra m) (m_zero m) (m_ad m) (m_cd m) v (m_compress m) (m_question m) (m_answer m)
    (m_ns m) (m_extra m).
Definition set_compress (m : Msg) (v : bool) : Msg :=
  mkMsg (m_id m) (m_response m) (m_opcode m) (m_authoritative m) (m_truncated m) (m_rd m)
    (m_ra m) (m_zero m) (m_ad m) (m_cd m) (m_rcode m) v (m_question m) (m_answer m)
    (m_ns m) (m_extra m).
Definition set_answer (m : Msg) (v : list RR) : Msg :=
  mkMsg (m_id m) (m_response m) (m_opcode m) (m_authoritative m) (m_truncated m) (m_rd m)
    (m_ra m) (m_zero m) (m_ad m) (m_cd m) (m_rcode m) (m_compress m) (m_question m) v
    (m_ns m) (m_extra m).
Definition set_ns (m : Msg) (v : list RR) : Msg :=
  mkMsg (m_id m) (m_response m) (m_opcode m) (m_authoritative m) (m_truncated m) (m_rd m)
    (m_ra m) (m_zero m) (m_ad m) (m_cd m) (m_rcode m) (m_compress m) (m_question m) (m_answer m)
    v (m_extra m).

(** ** The library's constants *)

Definition TypeA : Z := 1.
Definition TypeCNAME : Z := 5.
Definition TypeSOA : Z := 6.
Definition TypeAAAA : Z := 28.
Definition TypeOPT : Z := 41.
Definition ClassINET : Z := 1.
Definition OpcodeQuery : Z := 0.
Definition RcodeSuccess : Z := 0.
Definition RcodeFormatError : Z := 1.
Definition RcodeServerFailure : Z := 2.
Definition RcodeNameError : Z := 3.
Definition RcodeBadVers : Z := 16.
Definition MinMsgSize : Z := 512.

(** ** The library's operations

    Methods that change their receiver return the changed message.
    [SetQuestion] also takes the random identifier it draws. *)
Class DnsLib := {
  SetReply : Msg -> Msg -> Msg;
  SetQuestion : Z -> Msg -> string -> Z -> Msg;
  SetEdns0 : Msg -> Z -> bool -> Msg;
  IsEdns0 : Msg -> option RR;
  OPT_Version : RR -> Z;
  OPT_UDPSize : RR -> Z;
  Truncate : Msg -> Z -> Msg;
  Msg_Copy : Msg -> Msg;
  Copy_SOA : SOA -> SOA;
  RcodeToString : Z -> string;
  Pack : Msg -> option (list Z);
  Unpack : list Z -> option Msg;
}.

(** Documented behaviour the theorems rely on. *)
Class DnsLaws `{DnsLib} := {
  (** A reply to a request: the request's identifier and first question, the
      response bit, and no records. *)
  SetReply_new req :
    SetReply new_Msg req =
    mkMsg (m_id req) true (m_opcode req) false false
      (if m_opcode req =? OpcodeQuery then m_rd req else false) false false false
      (if m_opcode req =? OpcodeQuery then m_cd req else false) RcodeSuccess false
      (take 1 (m_question req)) [] [] [];
  (** A query for one question of class IN, with recursion desired. *)
  SetQuestion_new id name qtype :
    SetQuestion id new_Msg name qtype =
    mkMsg id false OpcodeQuery false false true false false false false RcodeSuccess false
      [mkQuestion name qtype ClassINET] [] [] [];
  (** An OPT record is appended to the additional section and nothing else
      changes. *)
  SetEdns0_spec m size do_ : exists opt,
    SetEdns0 m size do_ =
    mkMsg (m_id m) (m_response m) (m_opcode m) (m_authoritative m) (m_truncated m) (m_rd m)
      (m_ra m) (m_zero m) (m_ad m) (m_cd m) (m_rcode m) (m_compress m) (m_question m) (m_answer m)
      (m_ns m) (m_extra m ++ [opt]) /\
    h_rrtype (Header opt) = TypeOPT /\ (in_uint 16 size -> OPT_UDPSize opt = size) /\
    OPT_Version opt = 0;
  (** The OPT record of a message is the last one of the additional
      section. *)
  IsEdns0_app m opt :
    h_rrtype (Header opt) = TypeOPT -> last (m_extra m) = Some opt ->
    IsEdns0 m = Some opt;
  IsEdns0_none m :
    Forall (fun rr => h_rrtype (Header rr) <> TypeOPT) (m_extra m) -> IsEdns0 m = None;
  OPT_UDPSize_range opt : in_uint 16 (OPT_UDPSize opt);
  (** Copies have the contents of what they copy. *)
  Msg_Copy_id m : Msg_Copy m = m;
  Copy_SOA_id s : Copy_SOA s = s;
}.

(** ** An instance *)

(** Truncation to a size is by whole answer records; [msg_len] is a bound on
    the length of a message on the wire. *)
Definition rr_len (rr : RR) : Z := 12 + Z.of_nat (String.length (h_name (Header rr))).
Definition msg_len (m : Msg) : Z :=
  12 + foldr (fun q n => 6 + Z.of_nat (String.length (q_name q)) + n) 0 (m_question m) +
  foldr (fun rr n => rr_len rr + n) 0 (m_answer m ++ m_ns m ++ m_extra m).

Definition sample_dns : DnsLib := {|
  SetReply m req :=
    mkMsg (m_id req) true (m_opcode req) (m_authoritative m) (m_truncated m)
      (if m_opcode req =? OpcodeQuery then m_rd req else m_rd m) (m_ra m) (m_zero m) (m_ad m)
      (if m_opcode req =? OpcodeQuery then m_cd req else m_cd m) RcodeSuccess (m_compress m)
      (match m_question req with [] => m_question m | q :: _ => [q] end)
      (m_answer m) (m_ns m) (m_extra m);
  SetQuestion id m name qtype :=
    mkMsg id (m_response m) (m_opcode m) (m_authoritative m) (m_truncated m) true
      (m_ra m) (m_zero m) (m_ad m) (m_cd m) (m_rcode m) (m_compress m)
      [mkQuestion name qtype ClassINET] (m_answer m) (m_ns m) (m_extra m);
  SetEdns0 m size do_ :=
    mkMsg (m_id m) (m_response m) (m_opcode m) (m_authoritative m) (m_truncated m) (m_rd m)
      (m_ra m) (m_zero m) (m_ad m) (m_cd m) (m_rcode m) (m_compress m) (m_question m) (m_answer m)
      (m_ns m)
      (m_extra m ++ [RR_OPT (mkHdr "." TypeOPT (uint16 size) (if do_ then 0x8000 else 0)) []]);
  IsEdns0 m :=
    last (base.filter (fun rr => h_rrtype (Header rr) = TypeOPT) (m_extra m));
  OPT_Version opt := Z.shiftr (h_ttl (Header opt)) 16 mod 256;
  OPT_UDPSize opt := uint16 (h_class (Header opt));
  Truncate m size :=
    if msg_len m <=? size then m
    else mkMsg (m_id m) (m_response m) (m_opcode m) (m_authoritative m) true (m_rd m)
      (m_ra m) (m_zero m) (m_ad m) (m_cd m) (m_rcode m) true (m_question m) [] [] [];
  Msg_Copy m := m;
  Copy_SOA s := s;
  RcodeToString r :=
    if r =? 0 then "NOERROR" else if r =? 2 then "SERVFAIL" else
    if r =? 3 then "NXDOMAIN" else if r =? 5 then "REFUSED" else "";
  Pack m := Some [m_id m; m_rcode m];
  Unpack bs :=
    match bs with
    | [] => None
    | id :: _ =>
        Some (mkMsg id false OpcodeQuery false false true false false false false RcodeSuccess false
          [mkQuestion "host." TypeA ClassINET] [] [] [])
    end;
|}.

Lemma sample_dns_laws : @DnsLaws sample_dns.
Proof.
  split; cbn.
  - intros req. destruct (m_question req); cbn; by destruct (m_opcode req =? OpcodeQuery).
  - done.
  - intros m size do_. eexists. split; [done|]. cbn. split; [done|]. split.
    + intros Hs. unfold uint16, in_uint in *. rewrite Z.mod_mod by lia. by apply Z.mod_small.
    + by destruct do_.
  - intros m opt Ho Hl. apply last_Some in Hl as [l ->]. rewrite filter_app.
    rewrite filter_cons_True by done. by rewrite filter_nil, last_snoc.
  - intros m Hm. induction Hm as [|rr l Hrr _ IH]; [done|]. by rewrite filter_cons_False.
  - intros opt. apply Z.mod_pos_bound. lia.
  - done.
  - done.
Qed.
