(* ===== verification/Policy.v ===== *)
(** * Policy: the selection rules of [internal/policy/policy.go]

    Which addresses are returned when several resolvers have answered, which
    negative answer is given when none has, and the TTL of the chosen
    addresses.  The specification, [rule], is a decision table over which
    addresses the China-class and the other resolvers offered; [Select]
    implements it. *)

From S2P Require Import Prelude Netip Dns.

(** ** Data *)

Inductive State :=
| StateFailure
| StateNoData
| StateNXDomain
| StateAnswer.

#[export] Instance State_eq_dec : EqDecision State.
Proof. solve_decision. Defined.

Definition State_String (s : State) : string :=
  match s with
  | StateFailure => "failure"
  | StateNoData => "nodata"
  | StateNXDomain => "nxdomain"
  | StateAnswer => "answer"
  end.

Record Result := mkResult {
  r_server : Addr;
  r_china : bool;
  r_addrs : list Addr;
  r_state : State;
  r_soa : option SOA;
  r_minttl : Z;
  r_errcat : string;
}.

#[export] Instance Result_eq_dec : EqDecision Result.
Proof. solve_decision. Defined.

Record SelectResult := mkSelect { s_policy : string; s_addrs : list Addr }.

Definition PolicyOverride : string := "override_non_china_from_non_china_resolvers".
Definition PolicyPreferChina : string := "prefer_china_from_china_resolvers".
Definition PolicyAllNonChina : string := "all_non_china_return_only_non_china_resolvers".
Definition PolicyFallbackChina : string := "fallback_china_addresses".

(** ** Operations *)

Fixpoint filter_addrs (addrs : list Addr) (keep : Addr -> bool) : list Addr :=
  match addrs with
  | [] => []
  | a :: addrs => if keep a then a :: filter_addrs addrs keep else filter_addrs addrs keep
  end.

Definition dedup (addrs : list Addr) : list Addr := dedup_loop ∅ addrs.

(** The collecting loop of [Select]: the addresses offered by China-class
    resolvers, by the others, and by all of them, in order of arrival. *)
Fixpoint collect (results : list Result) (cnIPs nonCNIPs allIPs : list Addr)
    : list Addr * list Addr * list Addr :=
  match results with
  | [] => (cnIPs, nonCNIPs, allIPs)
  | r :: results =>
      if decide (r_state r <> StateAnswer) then collect results cnIPs nonCNIPs allIPs
      else
        let allIPs := allIPs ++ r_addrs r in
        if r_china r then collect results (cnIPs ++ r_addrs r) nonCNIPs allIPs
        else collect results cnIPs (nonCNIPs ++ r_addrs r) allIPs
  end.

Definition nonempty {A} (l : list A) : bool := (0 <? length l)%nat.

Definition Select (qname : string) (results : list Result)
    (isChina : Addr -> bool) (isOverride : string -> bool) : SelectResult :=
  let '(cnIPs, nonCNIPs, allIPs) := collect results [] [] [] in
  let cnIPsChina := filter_addrs cnIPs isChina in
  let nonCNIPsNonChina := filter_addrs nonCNIPs (fun a => negb (isChina a)) in
  let allChina := filter_addrs allIPs isChina in
  if nonempty cnIPsChina && nonempty nonCNIPsNonChina then
    if isOverride qname then mkSelect PolicyOverride (dedup nonCNIPsNonChina)
    else mkSelect PolicyPreferChina (dedup cnIPsChina)
  else if negb (nonempty allChina) then
    if nonempty nonCNIPs then mkSelect PolicyAllNonChina (dedup nonCNIPs)
    else mkSelect PolicyAllNonChina (dedup allIPs)
  else if nonempty cnIPsChina then mkSelect PolicyFallbackChina (dedup cnIPsChina)
  else mkSelect PolicyFallbackChina (dedup allChina).

Fixpoint firstSOA (rs : list Result) : option SOA :=
  match rs with
  | [] => None
  | r :: rs => match r_soa r with Some s => Some s | None => firstSOA rs end
  end.

Fixpoint split_negative (results nx nodata : list Result) : list Result * list Result :=
  match results with
  | [] => (nx, nodata)
  | r :: results =>
      match r_state r with
      | StateNXDomain => split_negative results (nx ++ [r]) nodata
      | StateNoData => split_negative results nx (nodata ++ [r])
      | _ => split_negative results nx nodata
      end
  end.

Definition FinalizeNegative (results : list Result) : Z * option SOA * bool :=
  let '(nx, nodata) := split_negative results [] [] in
  if nonempty nx && negb (nonempty nodata) then (RcodeNameError, firstSOA nx, true)
  else if negb (nonempty nx) && nonempty nodata then (RcodeSuccess, firstSOA nodata, true)
  else (RcodeServerFailure, None, false).

(** The owner map of [SelectTTL]: the first result that has an address. *)
Fixpoint own_addrs (addrs : list Addr) (ttl : Z) (owner : gmap Addr Z) : gmap Addr Z :=
  match addrs with
  | [] => owner
  | a :: addrs =>
      own_addrs addrs ttl
        (match owner !! a with Some _ => owner | None => <[a := ttl]> owner end)
  end.
Fixpoint owners (results : list Result) (owner : gmap Addr Z) : gmap Addr Z :=
  match results with
  | [] => owner
  | r :: results =>
      if decide (r_state r <> StateAnswer) then owners results owner
      else owners results (own_addrs (r_addrs r) (r_minttl r) owner)
  end.
Fixpoint min_owned (addrs : list Addr) (owner : gmap Addr Z) (ttl : Z) (found : bool)
    : Z * bool :=
  match addrs with
  | [] => (ttl, found)
  | a :: addrs =>
      match owner !! a with
      | None => min_owned addrs owner ttl found
      | Some t => if negb found || (t <? ttl) then min_owned addrs owner t true
                  else min_owned addrs owner ttl found
      end
  end.
Definition SelectTTL (addrs : list Addr) (results : list Result) : Z * bool :=
  min_owned addrs (owners results ∅) 0 false.

(** ** The decision table *)

(** [a] is among the addresses of an answering resolver of class [b]. *)
Definition offered (results : list Result) (b : bool) (a : Addr) : Prop :=
  exists r, r ∈ results /\ r_state r = StateAnswer /\ r_china r = b /\ a ∈ r_addrs r.
Definition offered_any (results : list Result) (a : Addr) : Prop :=
  exists b, offered results b a.

Section Rules.
Context (isChina : Addr -> bool) (isOverride : string -> bool).

(** A China-class resolver returned a China address; another resolver
    returned a non-China address; someone returned a China address. *)
Definition china_by_china (results : list Result) : Prop :=
  exists a, offered results true a /\ isChina a = true.
Definition foreign_by_foreign (results : list Result) : Prop :=
  exists a, offered results false a /\ isChina a = false.
Definition china_by_any (results : list Result) : Prop :=
  exists a, offered_any results a /\ isChina a = true.

(** [rule qname results policy chosen]: the table gives the policy's name and
    the set of addresses chosen. *)
Inductive rule (qname : string) (results : list Result) : string -> (Addr -> Prop) -> Prop :=
| rule_override :
    china_by_china results -> foreign_by_foreign results -> isOverride qname = true ->
    rule qname results PolicyOverride (fun a => offered results false a /\ isChina a = false)
| rule_prefer :
    china_by_china results -> foreign_by_foreign results -> isOverride qname = false ->
    rule qname results PolicyPreferChina (fun a => offered results true a /\ isChina a = true)
| rule_foreign_only :
    ~ china_by_any results -> (exists a, offered results false a) ->
    rule qname results PolicyAllNonChina (offered results false)
| rule_no_foreign :
    ~ china_by_any results -> ~ (exists a, offered results false a) ->
    rule qname results PolicyAllNonChina (offered_any results)
| rule_fallback_own :
    china_by_china results -> ~ foreign_by_foreign results ->
    rule qname results PolicyFallbackChina (fun a => offered results true a /\ isChina a = true)
| rule_fallback_any :
    ~ china_by_china results -> china_by_any results ->
    rule qname results PolicyFallbackChina (fun a => offered_any results a /\ isChina a = true).

(** At most one row applies. *)
Lemma china_by_china_any results : china_by_china results -> china_by_any results.
Proof. intros (a & ? & ?). exists a. split; [by exists true|done]. Qed.

Lemma rule_functional q results p1 c1 p2 c2 :
  rule q results p1 c1 -> rule q results p2 c2 -> p1 = p2 /\ forall a, c1 a <-> c2 a.
Proof.
  intros H1 H2. pose proof (china_by_china_any results).
  destruct H1; destruct H2; try congruence; try tauto; split; done.
Qed.
End Rules.

(** ** The collecting loop *)

(** The addresses of the answering resolvers that satisfy [P], in order of
    arrival. *)
Definition addrs_of (P : Result -> bool) (results : list Result) : list Addr :=
  results ≫= (fun r => if decide (r_state r = StateAnswer) then if P r then r_addrs r else [] else []).
Definition by_class (b : bool) : list Result -> list Addr :=
  addrs_of (fun r => Bool.eqb (r_china r) b).
Definition all_addrs : list Result -> list Addr := addrs_of (fun _ => true).

Lemma collect_eq results cn ncn all :
  collect results cn ncn all =
  (cn ++ by_class true results, ncn ++ by_class false results, all ++ all_addrs results).
Proof.
  revert cn ncn all. induction results as [|r results IH]; intros cn ncn all.
  { cbn. by rewrite !app_nil_r. }
  cbn [collect]. unfold by_class, all_addrs, addrs_of in *. rewrite !bind_cons.
  destruct (decide (r_state r <> StateAnswer)) as [Hr|Hr].
  - rewrite !decide_False by done. by rewrite IH.
  - rewrite !decide_True by by apply dec_stable.
    by destruct (r_china r); rewrite IH; cbn; rewrite <-!app_assoc.
Qed.

Lemma elem_of_addrs_of P results a :
  a ∈ addrs_of P results <->
  exists r, r ∈ results /\ r_state r = StateAnswer /\ P r = true /\ a ∈ r_addrs r.
Proof.
  unfold addrs_of. rewrite list_elem_of_bind. split.
  - intros (r & Ha & Hr). destruct (decide _); [|set_solver].
    destruct (P r) eqn:E; [|set_solver]. eauto.
  - intros (r & Hr & Hs & HP & Ha). exists r. split; [|done]. by rewrite decide_True, HP.
Qed.

Lemma elem_of_by_class b results a : a ∈ by_class b results <-> offered results b a.
Proof. unfold by_class. rewrite elem_of_addrs_of. by setoid_rewrite eqb_true_iff. Qed.

Lemma elem_of_all_addrs results a : a ∈ all_addrs results <-> offered_any results a.
Proof.
  unfold all_addrs, offered_any, offered. rewrite elem_of_addrs_of. split.
  - intros (r & ? & ? & _ & ?). by exists (r_china r), r.
  - intros (b & r & ? & ? & _ & ?). by exists r.
Qed.

Lemma by_class_sublist b results : by_class b results `sublist_of` all_addrs results.
Proof.
  unfold by_class, all_addrs, addrs_of. induction results as [|r results IH]; [done|].
  rewrite !bind_cons. apply sublist_app; [|done].
  destruct (decide _); [|done]. destruct (Bool.eqb _ _); [done|apply sublist_nil_l].
Qed.

Lemma elem_of_filter_addrs l keep a : a ∈ filter_addrs l keep <-> a ∈ l /\ keep a = true.
Proof.
  induction l as [|x l IH]; cbn; [set_solver|].
  destruct (keep x) eqn:E; rewrite ?elem_of_cons, IH; naive_solver congruence.
Qed.

Lemma filter_addrs_sublist l keep : filter_addrs l keep `sublist_of` l.
Proof. induction l as [|x l IH]; cbn; [done|]. destruct (keep x); by constructor. Qed.

Lemma nonempty_iff {A} (l : list A) : nonempty l = true <-> exists a, a ∈ l.
Proof.
  destruct l as [|x l]; cbn; split; try done.
  - by intros [a ?%elem_of_nil].
  - intros _. exists x. left.
Qed.

Lemma nonempty_false_iff {A} (l : list A) : nonempty l = false <-> ~ exists a, a ∈ l.
Proof. rewrite <-nonempty_iff. by destruct (nonempty l). Qed.

Lemma elem_of_dedup l a : a ∈ dedup l <-> a ∈ l.
Proof. unfold dedup. rewrite elem_of_dedup_loop. set_solver. Qed.

(** ** Selection *)

Section Select.
Context (isChina : Addr -> bool) (isOverride : string -> bool).

Definition chosen_ok (qname : string) (results : list Result) (s : SelectResult) : Prop :=
  exists chosen, rule isChina isOverride qname results (s_policy s) chosen /\
    (forall a, a ∈ s_addrs s <-> chosen a) /\
    NoDup (s_addrs s) /\ s_addrs s `sublist_of` all_addrs results.

Lemma chosen_ok_intro q results p (l : list Addr) (chosen : Addr -> Prop) :
  rule isChina isOverride q results p chosen -> (forall a, a ∈ l <-> chosen a) ->
  l `sublist_of` all_addrs results -> chosen_ok q results (mkSelect p (dedup l)).
Proof.
  intros Hr Hl Hs. exists chosen. cbn. split; [done|].
  split; [intros a; by rewrite elem_of_dedup|]. split; [apply NoDup_dedup_loop|].
  etrans; [apply dedup_loop_sublist|done].
Qed.

Lemma china_by_china_iff results :
  nonempty (filter_addrs (by_class true results) isChina) = true <->
  china_by_china isChina results.
Proof.
  rewrite nonempty_iff. setoid_rewrite elem_of_filter_addrs. by setoid_rewrite elem_of_by_class.
Qed.

Lemma foreign_by_foreign_iff results :
  nonempty (filter_addrs (by_class false results) (fun a => negb (isChina a))) = true <->
  foreign_by_foreign isChina results.
Proof.
  rewrite nonempty_iff. setoid_rewrite elem_of_filter_addrs.
  setoid_rewrite elem_of_by_class. by setoid_rewrite negb_true_iff.
Qed.

Lemma china_by_any_iff results :
  nonempty (filter_addrs (all_addrs results) isChina) = true <->
  china_by_any isChina results.
Proof.
  rewrite nonempty_iff. setoid_rewrite elem_of_filter_addrs. by setoid_rewrite elem_of_all_addrs.
Qed.

Lemma nonempty_by_class b results :
  nonempty (by_class b results) = true <-> exists a, offered results b a.
Proof. rewrite nonempty_iff. by setoid_rewrite elem_of_by_class. Qed.

Lemma bool_decides (b : bool) (P : Prop) : (b = true <-> P) -> if b then P else ~ P.
Proof. destruct b; intros H; [by apply H|by intros ?%H]. Qed.

Lemma Select_ok q results : chosen_ok q results (Select q results isChina isOverride).
Proof.
  unfold Select. rewrite collect_eq, !app_nil_l.
  pose proof (bool_decides _ _ (china_by_china_iff results)) as Hcc.
  pose proof (bool_decides _ _ (foreign_by_foreign_iff results)) as Hff.
  pose proof (bool_decides _ _ (china_by_any_iff results)) as Hca.
  pose proof (bool_decides _ _ (nonempty_by_class false results)) as Hn.
  pose proof (china_by_china_any isChina results) as Hcca.
  assert (forall b keep, filter_addrs (by_class b results) keep `sublist_of` all_addrs results)
    by (intros; etrans; [apply filter_addrs_sublist|apply by_class_sublist]).
  destruct (nonempty (filter_addrs (by_class true results) isChina)),
    (nonempty (filter_addrs (by_class false results) _)),
    (nonempty (filter_addrs (all_addrs results) isChina)),
    (nonempty (by_class false results)), (isOverride q) eqn:Eo; cbn [andb negb]; try tauto;
  (eapply chosen_ok_intro;
   [constructor; tauto
   |intros a; rewrite ?elem_of_filter_addrs, ?elem_of_by_class, ?elem_of_all_addrs,
      ?negb_true_iff; reflexivity
   |auto using filter_addrs_sublist, by_class_sublist]).
Qed.
End Select.

(** Permuting the results permutes what is offered. *)
#[export] Instance offered_Proper : Proper ((≡ₚ) ==> eq ==> eq ==> iff) offered.
Proof.
  intros rs rs' Hp b ? <- a ? <-. unfold offered. by setoid_rewrite Hp.
Qed.

Section SelectPerm.
Context (isChina : Addr -> bool) (isOverride : string -> bool).

Lemma rule_perm q rs rs' p c :
  rs ≡ₚ rs' -> rule isChina isOverride q rs p c ->
  exists c', rule isChina isOverride q rs' p c' /\ forall a, c a <-> c' a.
Proof.
  intros Hp. assert (forall b a, offered rs b a <-> offered rs' b a) as Ho
    by (intros; by rewrite Hp).
  assert (china_by_china isChina rs <-> china_by_china isChina rs') as H1
    by (unfold china_by_china; by setoid_rewrite Ho).
  assert (foreign_by_foreign isChina rs <-> foreign_by_foreign isChina rs') as H2
    by (unfold foreign_by_foreign; by setoid_rewrite Ho).
  assert (china_by_any isChina rs <-> china_by_any isChina rs') as H3
    by (unfold china_by_any, offered_any; by setoid_rewrite Ho).
  assert ((exists a, offered rs false a) <-> (exists a, offered rs' false a)) as H4
    by (by setoid_rewrite Ho).
  destruct 1; rewrite ?H1, ?H2, ?H3, ?H4 in *; eexists;
    (split; [constructor; done|]); unfold offered_any; intros a; cbn;
    rewrite ?Ho; try done; by setoid_rewrite Ho.
Qed.

Lemma Select_perm q rs rs' :
  rs ≡ₚ rs' ->
  s_policy (Select q rs isChina isOverride) = s_policy (Select q rs' isChina isOverride) /\
  s_addrs (Select q rs isChina isOverride) ≡ₚ s_addrs (Select q rs' isChina isOverride).
Proof.
  intros Hp. destruct (Select_ok isChina isOverride q rs) as (c & Hr & Hc & Hnd & _).
  destruct (Select_ok isChina isOverride q rs') as (c' & Hr' & Hc' & Hnd' & _).
  destruct (rule_perm _ _ _ _ _ Hp Hr) as (c'' & Hr'' & Hcc).
  destruct (rule_functional _ _ _ _ _ _ _ _ Hr'' Hr') as [Hpol Hext].
  split; [done|]. apply NoDup_Permutation; [done..|].
  intros a. by rewrite Hc, Hc', Hcc, Hext.
Qed.

Lemma Select_nonempty_iff q rs :
  s_addrs (Select q rs isChina isOverride) <> [] <-> exists a, offered_any rs a.
Proof.
  destruct (Select_ok isChina isOverride q rs) as (c & Hr & Hc & _ & Hs). split.
  - intros Hne. destruct (s_addrs _) as [|a l] eqn:E; [done|]. exists a. apply elem_of_all_addrs.
    eapply elem_of_submseteq; [left|by apply sublist_submseteq].
  - intros (a & Ha) E. rewrite E in Hc.
    assert (forall x, ~ c x) as Hno by (intros x Hx; apply Hc, elem_of_nil in Hx; done).
    destruct Hr; unfold china_by_china, foreign_by_foreign, china_by_any in *; naive_solver.
Qed.
End SelectPerm.

(** ** Negative answers *)

Definition with_state (s : State) (results : list Result) : list Result :=
  base.filter (fun r => r_state r = s) results.

Lemma split_negative_eq results nx nodata :
  split_negative results nx nodata =
  (nx ++ with_state StateNXDomain results, nodata ++ with_state StateNoData results).
Proof.
  unfold with_state. revert nx nodata.
  induction results as [|r results IH]; intros nx nodata; cbn [split_negative].
  { by rewrite !filter_nil, !app_nil_r. }
  rewrite !filter_cons. destruct (r_state r); rewrite IH;
    repeat (rewrite decide_True by done || rewrite decide_False by done);
    by rewrite <-?app_assoc.
Qed.

Lemma nonempty_with_state s results :
  nonempty (with_state s results) = true <-> exists r, r ∈ results /\ r_state r = s.
Proof.
  rewrite nonempty_iff. unfold with_state. setoid_rewrite list_elem_of_filter. naive_solver.
Qed.

(** The rcode a negative state stands for. *)
Definition negative_rcode (s : State) : Z :=
  match s with StateNXDomain => RcodeNameError | _ => RcodeSuccess end.

(** All upstreams that have not failed are in state [s], and there is one. *)
Definition agree_on (s : State) (results : list Result) : Prop :=
  (exists r, r ∈ results /\ r_state r = s) /\
  (forall r, r ∈ results -> r_state r = StateFailure \/ r_state r = s).

Lemma FinalizeNegative_eq results :
  FinalizeNegative results =
  (let nx := with_state StateNXDomain results in
   let nodata := with_state StateNoData results in
   if nonempty nx && negb (nonempty nodata) then (RcodeNameError, firstSOA nx, true)
   else if negb (nonempty nx) && nonempty nodata then (RcodeSuccess, firstSOA nodata, true)
   else (RcodeServerFailure, None, false)).
Proof. unfold FinalizeNegative. by rewrite split_negative_eq. Qed.

Lemma FinalizeNegative_agree results rcode soa :
  (forall r, r ∈ results -> r_state r <> StateAnswer) ->
  FinalizeNegative results = (rcode, soa, true) <->
  exists s, (s = StateNXDomain \/ s = StateNoData) /\ agree_on s results /\
    rcode = negative_rcode s /\ soa = firstSOA (with_state s results).
Proof.
  intros Hna. rewrite FinalizeNegative_eq. cbn zeta.
  pose proof (bool_decides _ _ (nonempty_with_state StateNXDomain results)) as Hx.
  pose proof (bool_decides _ _ (nonempty_with_state StateNoData results)) as Hd.
  assert (forall r, r ∈ results -> r_state r = StateFailure \/ r_state r = StateNXDomain \/
    r_state r = StateNoData) as Hall.
  { intros r Hr. specialize (Hna r Hr). destruct (r_state r); tauto. }
  unfold agree_on.
  destruct (nonempty (with_state StateNXDomain results)),
    (nonempty (with_state StateNoData results)); cbn [andb negb]; split.
  - done.
  - destruct Hx as (rx & ? & Hrx), Hd as (rd & ? & Hrd).
    intros (s & [->| ->] & [_ Hag] & _); [destruct (Hag rd)|destruct (Hag rx)]; congruence.
  - intros [= <- <-]. exists StateNXDomain. naive_solver.
  - intros (s & [->| ->] & [Hex _] & -> & ->); [done|tauto].
  - intros [= <- <-]. exists StateNoData. naive_solver.
  - intros (s & [->| ->] & [Hex _] & -> & ->); [tauto|done].
  - done.
  - intros (s & [->| ->] & [Hex _] & _); tauto.
Qed.

Lemma firstSOA_Some rs s :
  firstSOA rs = Some s -> exists r, r ∈ rs /\ r_soa r = Some s.
Proof.
  induction rs as [|r rs IH]; cbn; [done|]. destruct (r_soa r) eqn:E.
  - intros [= <-]. exists r. split; [left|done].
  - intros (r' & ? & ?)%IH. exists r'. split; [by right|done].
Qed.

Lemma FinalizeNegative_ok_iff results :
  (FinalizeNegative results).2 = false <->
  ((exists r, r ∈ results /\ r_state r = StateNXDomain) <->
   (exists r, r ∈ results /\ r_state r = StateNoData)).
Proof.
  rewrite FinalizeNegative_eq. cbn zeta.
  pose proof (bool_decides _ _ (nonempty_with_state StateNXDomain results)) as Hx.
  pose proof (bool_decides _ _ (nonempty_with_state StateNoData results)) as Hd.
  destruct (nonempty (with_state StateNXDomain results)),
    (nonempty (with_state StateNoData results)); cbn [andb negb snd];
    split; intros ?; try done; tauto.
Qed.

(** ** TTLs *)

(** The first answering result that has the address. *)
Fixpoint first_owner (a : Addr) (results : list Result) : option Result :=
  match results with
  | [] => None
  | r :: results =>
      if decide (r_state r = StateAnswer /\ a ∈ r_addrs r) then Some r
      else first_owner a results
  end.

Lemma own_addrs_lookup addrs ttl owner a :
  own_addrs addrs ttl owner !! a =
  match owner !! a with
  | Some t => Some t
  | None => if decide (a ∈ addrs) then Some ttl else None
  end.
Proof.
  revert owner. induction addrs as [|x addrs IH]; intros owner; cbn [own_addrs].
  { rewrite decide_False by set_solver. by destruct (owner !! a). }
  rewrite IH. destruct (decide (x = a)) as [->|Hne].
  - rewrite (decide_True (P := a ∈ a :: addrs)) by set_solver.
    destruct (owner !! a) eqn:E; [by rewrite E|by rewrite lookup_insert_eq].
  - rewrite (decide_ext (a ∈ x :: addrs) (a ∈ addrs)) by set_solver.
    destruct (owner !! x); [done|by rewrite lookup_insert_ne].
Qed.

Lemma owners_lookup results owner a :
  owners results owner !! a =
  match owner !! a with
  | Some t => Some t
  | None => r_minttl <$> first_owner a results
  end.
Proof.
  revert owner. induction results as [|r results IH]; intros owner; cbn [owners first_owner].
  { by destruct (owner !! a). }
  destruct (decide (r_state r <> StateAnswer)) as [Hs|Hs]; rewrite IH.
  - rewrite (decide_False (P := _ /\ _)) by tauto. done.
  - apply dec_stable in Hs. rewrite own_addrs_lookup. destruct (owner !! a); [done|].
    rewrite (decide_ext (r_state r = StateAnswer /\ a ∈ r_addrs r) (a ∈ r_addrs r)) by tauto.
    by destruct (decide (a ∈ r_addrs r)).
Qed.

Lemma first_owner_Some a results r :
  first_owner a results = Some r ->
  r ∈ results /\ r_state r = StateAnswer /\ a ∈ r_addrs r.
Proof.
  induction results as [|x results IH]; cbn; [done|].
  destruct (decide _) as [[? ?]|_]; [intros [= ->]; split; [left|done]|].
  intros (? & ? & ?)%IH. split; [by right|done].
Qed.

Lemma first_owner_is_Some a results : is_Some (first_owner a results) <-> offered_any results a.
Proof.
  unfold offered_any, offered. split.
  - intros [r (? & ? & ?)%first_owner_Some]. by exists (r_china r), r.
  - intros (b & r & Hin & Hs & _ & Ha).
    induction results as [|x results IH]; cbn; [by apply elem_of_nil in Hin|].
    destruct (decide _) as [|Hn]; [by eexists|]. apply IH.
    by apply elem_of_cons in Hin as [->|]; [tauto|].
Qed.

(** The TTLs of the owners of the addresses that have one. *)
Definition owner_ttls (addrs : list Addr) (results : list Result) : list Z :=
  omap (fun a => r_minttl <$> first_owner a results) addrs.

(** The minimum of a list, with a default for the empty one. *)
Definition minimum_of (l : list Z) (t : Z) (found : bool) : Prop :=
  if found then t ∈ l /\ Forall (fun x => t <= x) l else l = [].

Lemma min_owned_spec addrs owner ttl found done_ :
  minimum_of done_ ttl found ->
  minimum_of (done_ ++ omap (fun a => owner !! a) addrs)
    (min_owned addrs owner ttl found).1 (min_owned addrs owner ttl found).2.
Proof.
  revert ttl found done_. induction addrs as [|a addrs IH]; intros ttl found done_ Hd;
    cbn [min_owned omap list_omap]; [by rewrite app_nil_r|].
  destruct (owner !! a) as [t|] eqn:E; [|by apply IH].
  change (done_ ++ t :: ?k) with (done_ ++ [t] ++ k). rewrite app_assoc.
  destruct found; cbn [negb orb minimum_of] in *.
  - destruct Hd as [Hin Hle].
    destruct (t <? ttl) eqn:Et; bool_props; apply IH; cbn; split;
      rewrite ?elem_of_app, ?Forall_app, ?Forall_singleton; [set_solver| |set_solver|].
    + split; [|lia]. eapply Forall_impl; [exact Hle|]. cbn. lia.
    + split; [done|lia].
  - subst done_. apply IH. cbn. split; [set_solver|by apply Forall_singleton].
Qed.

Lemma owner_ttls_owners addrs results :
  omap (fun a => owners results ∅ !! a) addrs = owner_ttls addrs results.
Proof.
  unfold owner_ttls. induction addrs as [|a addrs IH]; [done|]. cbn.
  rewrite owners_lookup, lookup_empty, IH. done.
Qed.

Lemma SelectTTL_min addrs results :
  minimum_of (owner_ttls addrs results) (SelectTTL addrs results).1 (SelectTTL addrs results).2.
Proof.
  rewrite <-owner_ttls_owners. by apply (min_owned_spec addrs (owners results ∅) 0 false []).
Qed.

(** ** Theorems *)

(** C3: [Select] implements the decision table.  The policy's name and the
    set of addresses are those of the row that applies to what the China-class
    and the other resolvers offered; the addresses are returned without
    repetition, in the order in which they arrived.  (The README gives the
    policies other names, and lets the other resolvers answer whenever nobody
    returned a China address; by [rule_no_foreign] the addresses of the China
    resolvers are the answer when the others have none.) *)
Theorem Select_spec isChina isOverride qname results :
  exists chosen,
    rule isChina isOverride qname results
      (s_policy (Select qname results isChina isOverride)) chosen /\
    (forall a, a ∈ s_addrs (Select qname results isChina isOverride) <-> chosen a) /\
    NoDup (s_addrs (Select qname results isChina isOverride)) /\
    s_addrs (Select qname results isChina isOverride) `sublist_of` all_addrs results.
Proof. apply Select_ok. Qed.

(** The decision does not depend on the order in which the upstreams
    completed: permuting the results keeps the policy and the set of chosen
    addresses. *)
Theorem Select_order_independent isChina isOverride qname results results' :
  results ≡ₚ results' ->
  s_policy (Select qname results isChina isOverride) =
  s_policy (Select qname results' isChina isOverride) /\
  s_addrs (Select qname results isChina isOverride) ≡ₚ
  s_addrs (Select qname results' isChina isOverride).
Proof. apply Select_perm. Qed.

(** An empty selection is possible only when no upstream offered an
    address at all: no rule ever filters every record away. *)
Theorem Select_never_empties isChina isOverride qname results :
  s_addrs (Select qname results isChina isOverride) = [] <->
  forall a b, ~ offered results b a.
Proof.
  pose proof (Select_nonempty_iff isChina isOverride qname results) as H.
  unfold offered_any in H. destruct (s_addrs _) eqn:E; split; try done; [|naive_solver].
  intros _ a b Ho. by apply (proj2 H); eauto.
Qed.

(** C35: a negative answer needs agreement.  When no upstream has records,
    [FinalizeNegative] reports NXDOMAIN or NODATA exactly when some upstream
    reported it and every upstream that did not fail reported the same, with
    the first SOA among them. *)
Theorem FinalizeNegative_spec results rcode soa :
  (forall r, r ∈ results -> r_state r <> StateAnswer) ->
  FinalizeNegative results = (rcode, soa, true) <->
  exists s, (s = StateNXDomain \/ s = StateNoData) /\ agree_on s results /\
    rcode = negative_rcode s /\ soa = firstSOA (with_state s results).
Proof. apply FinalizeNegative_agree. Qed.

(** The TTL is the least [MinTTL] of the first owners of the chosen
    addresses, and one is found when the addresses come from [Select] and
    are not empty. *)
Theorem SelectTTL_spec isChina isOverride qname results :
  let addrs := s_addrs (Select qname results isChina isOverride) in
  minimum_of (owner_ttls addrs results) (SelectTTL addrs results).1 (negb (bool_decide (addrs = []))) /\
  (SelectTTL addrs results).2 = negb (bool_decide (addrs = [])).
Proof.
  intros addrs. pose proof (SelectTTL_min addrs results) as Hm.
  destruct (Select_ok isChina isOverride qname results) as (c & _ & _ & _ & Hs).
  fold addrs in Hs. destruct addrs as [|a l] eqn:E; [done|].
  assert (a ∈ all_addrs results) as Ha
    by (eapply elem_of_submseteq; [left|by apply sublist_submseteq]).
  apply elem_of_all_addrs, first_owner_is_Some in Ha as [r Hr].
  assert (owner_ttls (a :: l) results <> []) as Hne
    by (unfold owner_ttls; cbn; by rewrite Hr).
  rewrite bool_decide_false by done. cbn [negb].
  destruct (SelectTTL (a :: l) results).2; done.
Qed.

(** ** Examples *)

(** A class of addresses and three upstreams: a China-class one and two
    others, one of which returns a China address. *)
Definition sample_china (a : Addr) : bool :=
  match a with Addr4 v => (16777216 <=? v) && (v <? 33554432) | _ => false end.
Definition cn_addr : Addr := Addr4 16777217.
Definition fo_addr : Addr := Addr4 134744072.
Definition sample_result (china : bool) (addrs : list Addr) (ttl : Z) : Result :=
  mkResult AddrZero china addrs StateAnswer None ttl "".
Definition sample_results : list Result :=
  [sample_result false [cn_addr] 5; sample_result true [cn_addr] 300;
   sample_result false [fo_addr] 60].
Definition sample_nx : list Result :=
  [mkResult AddrZero true [] StateFailure None 0 "timeout";
   mkResult AddrZero false [] StateNXDomain None 0 ""].

Lemma Select_order_independent_witness :
  s_addrs (Select "a." sample_results sample_china (fun _ => false)) ≡ₚ [cn_addr].
Proof.
  rewrite (proj2 (Select_order_independent sample_china (fun _ => false) "a."
    sample_results (reverse sample_results) (symmetry (reverse_Permutation sample_results)))).
  vm_compute. reflexivity.
Defined.

Lemma FinalizeNegative_spec_witness :
  exists s, (s = StateNXDomain \/ s = StateNoData) /\ agree_on s sample_nx /\
    RcodeNameError = negative_rcode s /\ None = firstSOA (with_state s sample_nx).
Proof.
  apply (FinalizeNegative_spec sample_nx RcodeNameError None).
  - intros r Hr. unfold sample_nx in Hr. apply elem_of_cons in Hr as [->|Hr]; [discriminate|].
    apply list_elem_of_singleton in Hr as ->. discriminate.
  - reflexivity.
Defined.

(** The TTL of an answer depends on the order of arrival, and need not be
    that of a resolver that contributed the chosen addresses: a China address
    repeated by a non-China-class resolver that answers first gives the
    answer that resolver's TTL, although the addresses are chosen from the
    China-class resolver. *)
Theorem SelectTTL_first_owner :
  exists isChina results results',
    results ≡ₚ results' /\
    Select "a." results isChina (fun _ => false) = Select "a." results' isChina (fun _ => false) /\
    s_policy (Select "a." results isChina (fun _ => false)) = PolicyPreferChina /\
    (forall r, r ∈ results -> r_china r = true -> r_minttl r = 300) /\
    (SelectTTL (s_addrs (Select "a." results isChina (fun _ => false))) results).1 = 5 /\
    (SelectTTL (s_addrs (Select "a." results' isChina (fun _ => false))) results').1 = 300.
Proof.
  exists sample_china, sample_results,
    [sample_result true [cn_addr] 300; sample_result false [cn_addr] 5;
     sample_result false [fo_addr] 60].
  split; [apply perm_swap|]. split; [reflexivity|]. split; [reflexivity|].
  split; [|split; reflexivity].
  intros r Hr. unfold sample_results in Hr. set_unfold in Hr.
  by destruct Hr as [->|[->|[->|?]]].
Qed.
