(* ===== verification/Upstream.v ===== *)
(** * Upstream: one upstream's resolution

    [internal/upstream/client.go] (one-hop exchanges, UDP first and TCP when
    the reply is truncated) and [internal/upstream/chase.go] (following CNAME
    chains with a cycle guard and a depth cap).

    What the code observes of its surroundings, the query's context, the
    clock, the identifier generator and the network, is the class [World];
    its operations take the state of the world and return the next one, so
    that time passes and the context may expire between any two of them.  The
    transport clients are part of the state too: an exchange writes the
    [Timeout] of the client it uses.  A client is shared by every goroutine
    that talks to its upstream, so another one may write the [Timeout] before
    the exchange reads it: what it finds there is [others_write].  Every
    function of this file runs in the state monad [M] over the pair of both. *)

From S2P Require Import Prelude Netip GoText Dns Policy.

(** ** State *)

(** [context.Context.Err]. *)
Inductive ctx_error := Canceled | DeadlineExceeded.

Inductive error :=
| ErrTimeout
| ErrNetwork
| ErrCanceled
| ErrContext (e : ctx_error).

#[export] Instance error_eq_dec : EqDecision error.
Proof. assert (EqDecision ctx_error) by solve_decision. solve_decision. Defined.

Inductive transport := UDP | TCP.

#[export] Instance transport_eq_dec : EqDecision transport.
Proof. solve_decision. Defined.

(** The fields of [dns.Client] that are set. *)
Record dnsClient := mkDnsClient {
  c_net : transport;
  c_udpsize : Z;
  c_timeout : Z;
}.

Record Client := mkClient { cl_udp : dnsClient; cl_tcp : dnsClient }.

Definition NewClient (udpSize : Z) : Client :=
  mkClient (mkDnsClient UDP udpSize 0) (mkDnsClient TCP udpSize 0).

Definition client_of (c : Client) (t : transport) : dnsClient :=
  match t with UDP => cl_udp c | TCP => cl_tcp c end.
Definition set_timeout (c : Client) (t : transport) (budget : Z) : Client :=
  let d := client_of c t in
  let d := mkDnsClient (c_net d) (c_udpsize d) budget in
  match t with UDP => mkClient d (cl_tcp c) | TCP => mkClient (cl_udp c) d end.

(** [others_write t own] is the [Timeout] that an exchange over [t] reads,
    having written [own]: its own, or one that another goroutine has written
    to the shared client since.  A failed exchange says whether the error is a
    [net.Error] that timed out. *)
Class World (W : Type) := {
  ctx_Err : W -> option ctx_error * W;
  ctx_remaining : W -> option Z * W;
  dns_Id : W -> Z * W;
  others_write : transport -> Z -> W -> Z * W;
  dns_Exchange : dnsClient -> Msg -> AddrPort -> W -> result bool Msg * W;
}.

(** ** The state monad *)

Definition M (W A : Type) : Type := Client * W -> A * (Client * W).
Definition ret {W A} (a : A) : M W A := fun s => (a, s).
Definition bind {W A B} (m : M W A) (k : A -> M W B) : M W B :=
  fun s => let '(a, s) := m s in k a s.
Definition observe {W A} (f : W -> A * W) : M W A :=
  fun '(c, w) => let '(a, w) := f w in (a, (c, w)).

Notation "x <-- m ;; k" := (bind m (fun x => k))
  (at level 100, m at next level, right associativity) : go_scope.
Open Scope go_scope.

Section Upstream.
Context `{GoUnicode} `{DnsLib} {W : Type} `{World W}.

(** ** client.go *)

Definition exchangeNet (cl : transport) (addr : AddrPort) (q : Msg) (budget : Z)
    : M W (result error Msg) :=
  fun '(c, w) =>
    let c := set_timeout c cl budget in
    let '(found, w) := others_write cl budget w in
    let c := set_timeout c cl found in
    let '(r, w) := dns_Exchange (client_of c cl) (Msg_Copy q) addr w in
    (match r with
     | Err timeout => Err (if timeout then ErrTimeout else ErrNetwork)
     | Ok resp => Ok resp
     end, (c, w)).

Definition Exchange (addr : AddrPort) (q : Msg) (budget : Z) : M W (result error Msg) :=
  err <-- observe ctx_Err;;
  match err with
  | Some _ => ret (Err ErrCanceled)
  | None =>
      r <-- exchangeNet UDP addr q budget;;
      match r with
      | Err e => ret (Err e)
      | Ok resp =>
          if m_truncated resp then
            err <-- observe ctx_Err;;
            match err with
            | Some _ => ret (Err ErrCanceled)
            | None => exchangeNet TCP addr q budget
            end
          else ret (Ok resp)
      end
  end.

Definition Category (err : error) : string :=
  match err with
  | ErrTimeout => "timeout"
  | ErrCanceled => "canceled"
  | _ => "network"
  end.

(** ** chase.go *)

Definition hopBudget (attempt : Z) : M W Z :=
  d <-- observe ctx_remaining;;
  let attempt := match d with
                 | Some rem => if rem <? attempt then rem else attempt
                 | None => attempt
                 end in
  ret (if attempt <? 0 then 0 else attempt).

Definition normalize (name : string) : string :=
  ToLower (TrimSuffix (TrimSpace name) ".") +:+ ".".

(** [netip.AddrFromSlice] gives the zero address when it fails. *)
Definition rrAddr (rr : RR) : Addr * bool :=
  match rr with
  | RR_A _ a => match AddrFromSlice a with
                | Some ip => (Unmap ip, true)
                | None => (Unmap AddrZero, false)
                end
  | RR_AAAA _ a => match AddrFromSlice a with
                   | Some ip => (ip, true)
                   | None => (AddrZero, false)
                   end
  | _ => (AddrZero, false)
  end.

Fixpoint extractSOA_loop (ns : list RR) : option SOA :=
  match ns with
  | [] => None
  | RR_SOA soa :: _ => Some soa
  | _ :: ns => extractSOA_loop ns
  end.
Definition extractSOA (m : Msg) : option SOA := extractSOA_loop (m_ns m).

Definition dedupAddrs (addrs : list Addr) : list Addr := dedup_loop ∅ addrs.

(** The records of the requested type, and their TTL. *)
Fixpoint scan_addrs (qtype : Z) (answer : list RR) (addrs : list Addr) (minTTL : Z)
    : list Addr * Z :=
  match answer with
  | [] => (addrs, minTTL)
  | rr :: answer =>
      if negb (h_rrtype (Header rr) =? qtype) then scan_addrs qtype answer addrs minTTL
      else
        let '(ip, ok) := rrAddr rr in
        if negb ok then scan_addrs qtype answer addrs minTTL
        else
          let ttl := h_ttl (Header rr) in
          scan_addrs qtype answer (addrs ++ [ip])
            (if (minTTL =? 0) || (ttl <? minTTL) then ttl else minTTL)
  end.

(** The targets of the CNAMEs whose owner is the current name. *)
Fixpoint scan_targets (cur : string) (answer : list RR) (seenTarget : gset string)
    (targets : list string) : list string :=
  match answer with
  | [] => targets
  | RR_CNAME hdr target :: answer =>
      if negb (EqualFold (h_name hdr) cur) then scan_targets cur answer seenTarget targets
      else
        let t := normalize target in
        if negb (String.eqb t "") && negb (bool_decide (t ∈ seenTarget)) then
          scan_targets cur answer ({[t]} ∪ seenTarget) (targets ++ [t])
        else scan_targets cur answer seenTarget targets
  | _ :: answer => scan_targets cur answer seenTarget targets
  end.

(** What one reply says about the name asked for. *)
Inductive step_result :=
| Finished (r : Result)
| Follow (targets : list string).

Definition fail_with (res : Result) (category : string) : Result :=
  mkResult (r_server res) (r_china res) (r_addrs res) StateFailure (r_soa res)
    (r_minttl res) category.
Definition negative (res : Result) (s : State) (soa : option SOA) : Result :=
  mkResult (r_server res) (r_china res) (r_addrs res) s soa (r_minttl res) (r_errcat res).

Definition read_reply (res : Result) (cur : string) (qtype : Z) (resp : Msg) : step_result :=
  if m_rcode resp =? RcodeSuccess then
    let '(addrs, minTTL) := scan_addrs qtype (m_answer resp) [] 0 in
    if nonempty addrs then
      Finished (mkResult (r_server res) (r_china res) (dedupAddrs addrs) StateAnswer
        (r_soa res) minTTL (r_errcat res))
    else
      let targets := scan_targets cur (m_answer resp) ∅ [] in
      if negb (nonempty targets) then
        Finished (negative res StateNoData (extractSOA resp))
      else Follow targets
  else if m_rcode resp =? RcodeNameError then
    Finished (negative res StateNXDomain (extractSOA resp))
  else Finished (fail_with res ("rcode-" +:+ RcodeToString (m_rcode resp))).

Definition query (id : Z) (cur : string) (qtype udpSize : Z) : Msg :=
  SetEdns0 (set_rd (SetQuestion id new_Msg cur qtype) true) udpSize false.

Section Loop.
Context (addr : AddrPort) (qtype attemptTimeout udpSize : Z) (res : Result).

(** The body of the loop after the cycle guard and the depth cap. *)
Definition lookup_name (cur : string) : M W step_result :=
  budget <-- hopBudget attemptTimeout;;
  if budget <=? 0 then ret (Finished (fail_with res "timeout"))
  else
    id <-- observe dns_Id;;
    r <-- Exchange addr (query id cur qtype udpSize) budget;;
    match r with
    | Err err => ret (Finished (fail_with res (Category err)))
    | Ok resp => ret (read_reply res cur qtype resp)
    end.

(** The loop: [hops] is [maxHops - lookups].  An iteration that skips a name
    already seen shortens [pending]; one that looks a name up uses a hop. *)
Fixpoint chase_loop (hops : nat) (seen : gset string) (pending : list string) : M W Result :=
  (fix next (pending : list string) : M W Result :=
    match pending with
    | [] => ret (negative res StateNoData (r_soa res))
    | cur :: pending =>
        err <-- observe ctx_Err;;
        match err with
        | Some e => ret (fail_with res (Category (ErrContext e)))
        | None =>
            if decide (cur ∈ seen) then next pending
            else
              let seen := {[cur]} ∪ seen in
              match hops with
              | O => ret (fail_with res "cname-maxdepth")
              | S hops =>
                  o <-- lookup_name cur;;
                  match o with
                  | Finished r => ret r
                  | Follow targets =>
                      chase_loop hops seen
                        (pending ++ base.filter (fun t => t ∉ seen) targets)
                  end
              end
        end
    end) pending.
End Loop.

Definition Chase (addr : AddrPort) (qname : string) (qtype : Z) (maxHops attemptTimeout : Z)
    (udpSize : Z) : M W Result :=
  chase_loop addr qtype attemptTimeout udpSize
    (mkResult (ap_addr addr) false [] StateFailure None 0 "")
    (Z.to_nat maxHops) ∅ [normalize qname].

(** ** Reasoning about runs *)

(** [runs m s Q]: the run of [m] from [s] ends in a value and a state that
    satisfy [Q]. *)
Definition runs {A} (m : M W A) (s : Client * W) (Q : A -> Client * W -> Prop) : Prop :=
  Q (m s).1 (m s).2.

Lemma runs_ret {A} (a : A) s Q : Q a s -> runs (ret a) s Q.
Proof. done. Qed.

Lemma runs_bind {A B} (m : M W A) (k : A -> M W B) s Q :
  runs m s (fun a s => runs (k a) s Q) -> runs (bind m k) s Q.
Proof. unfold runs, bind. by destruct (m s). Qed.

Lemma runs_observe {A} (f : W -> A * W) c w Q :
  Q (f w).1 (c, (f w).2) -> runs (observe f) (c, w) Q.
Proof. unfold runs, observe. by destruct (f w). Qed.

Lemma runs_mono {A} (m : M W A) s (Q R : A -> Client * W -> Prop) :
  runs m s Q -> (forall a s, Q a s -> R a s) -> runs m s R.
Proof. unfold runs. auto. Qed.

(** ** Replies *)

Lemma scan_addrs_app qtype l addrs ttl :
  exists k, (scan_addrs qtype l addrs ttl).1 = addrs ++ k.
Proof.
  revert addrs ttl. induction l as [|rr l IH]; intros addrs ttl; cbn [scan_addrs].
  { exists []. by rewrite app_nil_r. }
  destruct (negb _); [apply IH|]. destruct (rrAddr rr) as [ip []]; cbn [negb]; [|apply IH].
  destruct (IH (addrs ++ [ip]) (if (ttl =? 0) || (h_ttl (Header rr) <? ttl)
    then h_ttl (Header rr) else ttl)) as [k Hk].
  exists (ip :: k). by rewrite Hk, <-app_assoc.
Qed.

(** What every result of a chase satisfies: it names the upstream asked,
    carries addresses exactly when it is an answer, without repetition,
    carries an SOA only when it is negative and a failure category exactly
    when it is a failure. *)
Record chase_ok (server : Addr) (r : Result) : Prop := {
  ck_server : r_server r = server;
  ck_china : r_china r = false;
  ck_answer : r_state r = StateAnswer <-> r_addrs r <> [];
  ck_nodup : NoDup (r_addrs r);
  ck_soa : r_soa r <> None -> r_state r = StateNXDomain \/ r_state r = StateNoData;
  ck_failure : r_errcat r <> "" <-> r_state r = StateFailure;
}.

Definition blank (server : Addr) : Result := mkResult server false [] StateFailure None 0 "".

Lemma fail_with_ok server category :
  category <> "" -> chase_ok server (fail_with (blank server) category).
Proof. intros Hc. by constructor; cbn; try constructor. Qed.

Lemma negative_ok server s soa :
  s = StateNXDomain \/ s = StateNoData -> chase_ok server (negative (blank server) s soa).
Proof. by intros [->| ->]; constructor; cbn; eauto; try constructor. Qed.

Lemma Category_nonempty e : Category e <> "".
Proof. by destruct e. Qed.

Lemma read_reply_ok server cur qtype resp r :
  read_reply (blank server) cur qtype resp = Finished r -> chase_ok server r.
Proof.
  unfold read_reply. destruct (m_rcode resp =? RcodeSuccess).
  - destruct (scan_addrs _ _ _ _) as [addrs ttl]. destruct (nonempty addrs) eqn:Ea.
    + intros [= <-]. apply nonempty_iff in Ea as [a Ha].
      assert (dedupAddrs addrs <> []) by (intros E; apply (proj1 (dedup_loop_nil_iff _)) in E; rewrite E in Ha; by apply elem_of_nil in Ha).
      constructor; cbn; try done. apply NoDup_dedup_loop.
    + destruct (negb _); [|done]. intros [= <-]. apply negative_ok. auto.
  - destruct (m_rcode resp =? RcodeNameError); intros [= <-];
      [apply negative_ok; auto|by apply fail_with_ok].
Qed.

(** ** Invariants of the result *)

(** What the network delivers from an upstream. *)
Definition delivered (addr : AddrPort) (resp : Msg) : Prop :=
  exists cl q w w', dns_Exchange cl q addr w = (Ok resp, w').

Lemma exchangeNet_delivered t addr q budget s :
  runs (exchangeNet t addr q budget) s (fun o _ => forall resp, o = Ok resp -> delivered addr resp).
Proof.
  destruct s as [c w]. unfold runs, exchangeNet.
  destruct (others_write t budget w) as [found w1].
  destruct (dns_Exchange _ _ addr w1) as [[resp|t'] w'] eqn:E; cbn; [|done].
  intros resp' [= <-]. by repeat eexists.
Qed.

Lemma Exchange_delivered addr q budget s :
  runs (Exchange addr q budget) s (fun o _ => forall resp, o = Ok resp -> delivered addr resp).
Proof.
  unfold Exchange. apply runs_bind. unfold runs at 1. destruct (observe ctx_Err s) as [[e|] s1].
  { by apply runs_ret. }
  apply runs_bind. eapply runs_mono; [apply exchangeNet_delivered|]. intros [resp|e] s2 Hd; [|by apply runs_ret].
  destruct (m_truncated resp); [|by apply runs_ret].
  apply runs_bind. unfold runs at 1. destruct (observe ctx_Err s2) as [[e|] s3]; [by apply runs_ret|].
  apply exchangeNet_delivered.
Qed.

(** A property of results holds of whatever a chase returns when it holds of
    every failure, of the exhausted queue, and of what is read from a
    delivered reply. *)
Section ChaseInv.
Context (addr : AddrPort) (qtype attempt udpSize : Z) (P : Result -> Prop).
Context (Hfail : forall category, category <> "" -> P (fail_with (blank (ap_addr addr)) category)).
Context (Hempty : P (negative (blank (ap_addr addr)) StateNoData None)).
Context (Hread : forall cur resp r, delivered addr resp ->
  read_reply (blank (ap_addr addr)) cur qtype resp = Finished r -> P r).

Lemma lookup_name_inv cur s :
  runs (lookup_name addr qtype attempt udpSize (blank (ap_addr addr)) cur) s
    (fun o _ => forall r, o = Finished r -> P r).
Proof.
  unfold lookup_name. apply runs_bind. unfold runs at 1. destruct (hopBudget attempt s) as [b s1].
  cbn [fst snd]. destruct (b <=? 0); [apply runs_ret; intros r [= <-]; by apply Hfail|].
  apply runs_bind. unfold runs at 1. destruct (observe dns_Id s1) as [id s2]. cbn [fst snd].
  apply runs_bind. eapply runs_mono; [apply Exchange_delivered|]. intros [resp|e] s3 Hd;
    apply runs_ret; intros r.
  - apply Hread, Hd. done.
  - intros [= <-]. apply Hfail, Category_nonempty.
Qed.

Lemma chase_loop_inv hops seen pending s :
  runs (chase_loop addr qtype attempt udpSize (blank (ap_addr addr)) hops seen pending) s
    (fun r _ => P r).
Proof.
  revert seen pending s. induction hops as [|hops IH]; intros seen pending;
    induction pending as [|cur pending IHp]; intros s; [by apply runs_ret| |by apply runs_ret| ].
  all: cbn [chase_loop]; apply runs_bind; unfold runs at 1;
    destruct (observe ctx_Err s) as [[e|] s1]; cbn [fst snd];
    [apply runs_ret, Hfail, Category_nonempty|];
    destruct (decide (cur ∈ seen)); [apply IHp|].
  - by apply runs_ret, Hfail.
  - apply runs_bind. eapply runs_mono; [apply lookup_name_inv|]. intros o s2 Ho.
    destruct o as [r|targets]; [by apply runs_ret, Ho|apply IH].
Qed.
End ChaseInv.

Lemma Chase_inv (P : Result -> Prop) addr qname qtype maxHops attempt udpSize s :
  (forall category, category <> "" -> P (fail_with (blank (ap_addr addr)) category)) ->
  P (negative (blank (ap_addr addr)) StateNoData None) ->
  (forall cur resp r, delivered addr resp ->
    read_reply (blank (ap_addr addr)) cur qtype resp = Finished r -> P r) ->
  P (Chase addr qname qtype maxHops attempt udpSize s).1.
Proof. intros Hf He Hr. by apply (chase_loop_inv addr qtype attempt udpSize P Hf He Hr). Qed.

Lemma Chase_ok addr qname qtype maxHops attempt udpSize s :
  chase_ok (ap_addr addr) (Chase addr qname qtype maxHops attempt udpSize s).1.
Proof.
  apply Chase_inv.
  - apply fail_with_ok.
  - apply negative_ok. auto.
  - intros cur resp r _. apply read_reply_ok.
Qed.
End Upstream.
