(* ===== verification/ChaseProps.v ===== *)
(** * ChaseProps: what an upstream resolution does and returns

    The traffic of a chase (in a world that records every exchange), its
    result along CNAME chains (in a world that answers from a zone), and the
    TTL it computes. *)

From S2P Require Import Prelude Netip GoText Dns Policy Upstream.

(** ** A world that records what happens

    An end of the context, the time left when it is asked for, the writes of
    the clients' [Timeout] and the exchanges with their outcomes. *)

Record call := mkCall { k_client : dnsClient; k_msg : Msg; k_addr : AddrPort }.

Inductive net_event :=
| Ended (e : ctx_error)
| Left (d : option Z)
| Wrote (t : transport) (budget : Z)
| Sent (k : call) (r : result bool Msg).

#[export] Instance logged {W} `{World W} : World (W * list net_event) := {|
  ctx_Err '(w, l) :=
    let '(e, w) := ctx_Err w in (e, (w, match e with Some e => l ++ [Ended e] | None => l end));
  ctx_remaining '(w, l) := let '(d, w) := ctx_remaining w in (d, (w, l ++ [Left d]));
  dns_Id '(w, l) := let '(i, w) := dns_Id w in (i, (w, l));
  others_write t own '(w, l) :=
    let '(b, w) := others_write t own w in (b, (w, l ++ [Wrote t own]));
  dns_Exchange cl q addr '(w, l) :=
    let '(r, w) := dns_Exchange cl q addr w in (r, (w, l ++ [Sent (mkCall cl q addr) r]));
|}.

(** The other goroutines write timeouts that are positive and at most
    [bound]. *)
Definition others_within {W} `{World W} (bound : Z) : Prop :=
  forall t own w, (others_write t own w).1 = own \/ 0 < (others_write t own w).1 <= bound.

(** Nothing else writes to the client. *)
Lemma others_within_alone {W} `{World W} bound :
  (forall t own w, (others_write t own w).1 = own) -> others_within bound.
Proof. intros Hw t own w. left. apply Hw. Qed.

(** The clients keep the transports they were created with. *)
Definition client_ok (c : Client) : Prop :=
  c_net (cl_udp c) = UDP /\ c_net (cl_tcp c) = TCP.

Lemma NewClient_ok n : client_ok (NewClient n).
Proof. done. Qed.

Lemma client_ok_net c t : client_ok c -> c_net (client_of c t) = t.
Proof. intros []. by destruct t. Qed.

Lemma set_timeout_ok c t b : client_ok c -> client_ok (set_timeout c t b).
Proof. intros []. by destruct t. Qed.

Lemma set_timeout_twice c t b b' : set_timeout (set_timeout c t b) t b' = set_timeout c t b'.
Proof. by destruct t. Qed.

Lemma set_timeout_of c t b : c_timeout (client_of (set_timeout c t b) t) = b.
Proof. by destruct t. Qed.

(** The time a step may take: at most [attempt], and what is left. *)
Definition within (attempt : Z) (d : option Z) : Z :=
  match d with Some rem => Z.min rem attempt | None => attempt end.

Section Exchanges.
Context `{GoUnicode} `{DnsLaws} {W : Type} `{World W}.
Context (others : Z) (Hothers : others_within others).
Context (addr : AddrPort).

Abbreviation LW := (W * list net_event)%type.

(** The exchange [k] over [t], for which [b] was written. *)
Definition sent_ok (t : transport) (q : Msg) (b : Z) (k : call) : Prop :=
  c_net (k_client k) = t /\ k_msg k = q /\ k_addr k = addr /\
  (c_timeout (k_client k) = b \/ 0 < c_timeout (k_client k) <= others).

Definition outcome (r : result bool Msg) : result error Msg :=
  match r with
  | Err timeout => Err (if timeout then ErrTimeout else ErrNetwork)
  | Ok resp => Ok resp
  end.

(** What happens when [q] is sent within [b], and what comes of it: UDP
    first, and TCP if, and only if, the reply is truncated and the context is
    still alive. *)
Inductive exchanged (q : Msg) (b : Z) : list net_event -> result error Msg -> Prop :=
| exchanged_ended e : exchanged q b [Ended e] (Err ErrCanceled)
| exchanged_udp k r :
    sent_ok UDP q b k -> (forall resp, r = Ok resp -> m_truncated resp = false) ->
    exchanged q b [Wrote UDP b; Sent k r] (outcome r)
| exchanged_cut k resp e :
    sent_ok UDP q b k -> m_truncated resp = true ->
    exchanged q b [Wrote UDP b; Sent k (Ok resp); Ended e] (Err ErrCanceled)
| exchanged_tcp k resp k' r :
    sent_ok UDP q b k -> m_truncated resp = true -> sent_ok TCP q b k' ->
    exchanged q b [Wrote UDP b; Sent k (Ok resp); Wrote TCP b; Sent k' r] (outcome r).

Lemma exchangeNet_logged t q b c (w : LW) :
  client_ok c ->
  runs (exchangeNet t addr q b) (c, w) (fun o s => client_ok s.1 /\
    exists k r, s.2.2 = w.2 ++ [Wrote t b; Sent k r] /\ sent_ok t q b k /\ o = outcome r).
Proof.
  intros Hc. destruct w as [w l]. unfold runs, exchangeNet. cbn.
  specialize (Hothers t b w). destruct (others_write t b w) as [found w1]. cbn in Hothers |- *.
  destruct (dns_Exchange _ _ _ w1) as [r w2] eqn:E. cbn.
  split; [by repeat apply set_timeout_ok|]. eexists _, r. rewrite <-app_assoc. split; [done|].
  split; [|done]. unfold sent_ok. cbn.
  rewrite set_timeout_of, client_ok_net, Msg_Copy_id by by repeat apply set_timeout_ok. done.
Qed.

Lemma ctx_Err_logged c (w : LW) (Q : option ctx_error -> Client * LW -> Prop) :
  (forall e w', Q (Some e) (c, (w', w.2 ++ [Ended e]))) -> (forall w', Q None (c, (w', w.2))) ->
  runs (observe ctx_Err) (c, w) Q.
Proof.
  intros Hs Hn. destruct w as [w l]. apply runs_observe. cbn.
  destruct (ctx_Err w) as [[e|] w']; [apply Hs|apply Hn].
Qed.

Lemma Exchange_logged q b c (w : LW) :
  client_ok c ->
  runs (Exchange addr q b) (c, w) (fun r s => client_ok s.1 /\
    exists es, s.2.2 = w.2 ++ es /\ exchanged q b es r).
Proof.
  intros Hc. unfold Exchange. apply runs_bind. apply ctx_Err_logged.
  { intros e w'. apply runs_ret. split; [done|]. eexists. by split; [|constructor]. }
  intros w1. apply runs_bind. eapply runs_mono; [by apply exchangeNet_logged|].
  intros o [c2 w2] (Hc2 & k & r & Hl & Hk & ->). cbn in Hc2, Hl.
  destruct r as [resp|e]; cbn [outcome].
  2:{ apply runs_ret. split; [done|]. eexists. split; [done|]. by apply (exchanged_udp q b k (Err e)). }
  destruct (m_truncated resp) eqn:Et.
  2:{ apply runs_ret. split; [done|]. eexists. split; [done|].
      apply (exchanged_udp q b k (Ok resp)); [done|]. by intros ? [= <-]. }
  apply runs_bind. apply ctx_Err_logged.
  { intros e w'. apply runs_ret. split; [done|]. cbn. rewrite Hl, <-app_assoc.
    eexists. split; [done|]. by constructor. }
  intros w3. eapply runs_mono; [by apply exchangeNet_logged|].
  intros o [c4 w4] (Hc4 & k' & r & Hl4 & Hk' & ->). cbn in Hc4, Hl4 |- *. split; [done|].
  rewrite Hl4, Hl, <-app_assoc. eexists. split; [done|]. by constructor.
Qed.
End Exchanges.

Section Traffic.
Context `{GoUnicode} `{DnsLaws} {W : Type} `{World W}.
Context (others : Z) (Hothers : others_within others).
Context (addr : AddrPort) (qtype attempt udpSize : Z).

Abbreviation LW := (W * list net_event)%type.

(** A query for [name]: one question of class IN with recursion desired,
    and one OPT record advertising [udpSize]. *)
Definition asks (name : string) (q : Msg) : Prop :=
  m_question q = [mkQuestion name qtype ClassINET] /\ m_opcode q = OpcodeQuery /\
  m_rd q = true /\ m_response q = false /\ m_answer q = [] /\ m_ns q = [] /\
  exists opt, m_extra q = [opt] /\ h_rrtype (Header opt) = TypeOPT /\
    (in_uint 16 udpSize -> OPT_UDPSize opt = udpSize).

(** One lookup: the time left is asked for and, unless it is over, one query
    is sent within the time of an attempt and what is left. *)
Inductive round (name : string) : list net_event -> Prop :=
| round_late d : within attempt d <= 0 -> round name [Left d]
| round_sent d q es r : 0 < within attempt d -> asks name q ->
    exchanged others addr q (within attempt d) es r -> round name (Left d :: es).

Lemma query_asks id cur : asks cur (query id cur qtype udpSize).
Proof.
  unfold query. rewrite SetQuestion_new.
  destruct (SetEdns0_spec (set_rd (mkMsg id false OpcodeQuery false false true false false false false
    RcodeSuccess false [mkQuestion cur qtype ClassINET] [] [] []) true) udpSize false)
    as (opt & -> & ? & ? & ?).
  unfold asks. cbn. do 6 (split; [done|]). by exists opt.
Qed.

Lemma hopBudget_logged c (w : LW) :
  runs (hopBudget attempt) (c, w) (fun b s => s.1 = c /\
    exists d, s.2.2 = w.2 ++ [Left d] /\ b = Z.max 0 (within attempt d)).
Proof.
  destruct w as [w l]. unfold hopBudget. apply runs_bind, runs_observe. cbn.
  destruct (ctx_remaining w) as [d w']. apply runs_ret. cbn.
  split; [done|]. exists d. split; [done|]. unfold within. destruct d as [rem|];
    repeat case_match; bool_props; lia.
Qed.

Lemma lookup_name_logged res cur c (w : LW) :
  client_ok c ->
  runs (lookup_name addr qtype attempt udpSize res cur) (c, w) (fun _ s => client_ok s.1 /\
    exists es, s.2.2 = w.2 ++ es /\ round cur es).
Proof.
  intros Hc. unfold lookup_name. apply runs_bind. eapply runs_mono; [apply hopBudget_logged|].
  intros b [c1 [w1 l1]] (Hc1 & d & Hl & Hb). cbn in Hc1, Hl. subst c1 l1.
  destruct (b <=? 0) eqn:E; bool_props.
  { apply runs_ret. split; [done|]. eexists. split; [done|]. apply round_late. lia. }
  apply runs_bind, runs_observe. cbn. destruct (dns_Id w1) as [id w2]. apply runs_bind.
  replace b with (within attempt d) by lia.
  eapply runs_mono; [by apply (Exchange_logged others Hothers)|].
  intros r [c3 w3] (Hc3 & es & Hl & Hk). cbn in Hl. rewrite <-app_assoc in Hl.
  assert (round cur (Left d :: es)) by (eapply round_sent; [lia|apply query_asks|done]).
  destruct r; apply runs_ret; eauto.
Qed.

(** What happens during a chase that has [hops] lookups left. *)
Definition traffic (hops : nat) (seen : gset string) (l : list net_event) : Prop :=
  exists names rounds tail, l = concat rounds ++ tail /\ Forall2 round names rounds /\
    NoDup names /\ (forall n, n ∈ names -> n ∉ seen) /\ (length names <= hops)%nat /\
    (tail = [] \/ exists e, tail = [Ended e]).

Lemma traffic_nil hops seen tail :
  tail = [] \/ (exists e, tail = [Ended e]) -> traffic hops seen tail.
Proof.
  intros Ht. exists [], [], tail. split; [done|]. split; [constructor|]. split; [constructor|].
  split; [set_solver|]. split; [cbn; lia|done].
Qed.

Lemma traffic_cons hops seen cur es l :
  cur ∉ seen -> round cur es -> traffic hops ({[cur]} ∪ seen) l ->
  traffic (S hops) seen (es ++ l).
Proof.
  intros Hcur Hk (names & rounds & tail & -> & HF & Hnd & Hn & Hlen & Ht).
  exists (cur :: names), (es :: rounds), tail. cbn [concat]. rewrite <-app_assoc. split_and!; try done.
  - by constructor.
  - constructor; [set_solver|done].
  - set_solver.
  - cbn. lia.
Qed.

Lemma chase_loop_logged res hops seen pending c (w : LW) :
  client_ok c ->
  runs (chase_loop addr qtype attempt udpSize res hops seen pending) (c, w)
    (fun _ s => exists l, s.2.2 = w.2 ++ l /\ traffic hops seen l).
Proof.
  assert (forall (w w' : LW) hops seen, w'.2 = w.2 -> exists l, w'.2 = w.2 ++ l /\ traffic hops seen l)
    as Hnil by (intros ???? ->; exists []; rewrite app_nil_r; auto using traffic_nil).
  revert seen pending c w. induction hops as [|hops IH]; intros seen pending;
    induction pending as [|cur pending IHp]; intros c w Hc;
    try (apply runs_ret; by apply Hnil).
  all: cbn [chase_loop]; apply runs_bind; apply ctx_Err_logged;
    [intros e w1; apply runs_ret; exists [Ended e]; eauto using traffic_nil|intros w1];
    destruct (decide (cur ∈ seen)); [by apply (IHp c (w1, w.2))|].
  - apply runs_ret. by apply Hnil.
  - apply runs_bind. eapply runs_mono; [by apply lookup_name_logged|].
    intros o [c2 w2] (Hc2 & es & Hl & Hr). cbn in Hc2, Hl. destruct o as [r|targets].
    + apply runs_ret. cbn. exists es. split; [done|]. rewrite <-(app_nil_r es).
      apply traffic_cons with cur; auto using traffic_nil.
    + eapply runs_mono; [by apply IH|]. intros r [c3 w3] (l & Hl3 & Ht). cbn in Hl3 |- *.
      exists (es ++ l). rewrite Hl3, Hl, <-app_assoc. split; [done|]. by apply traffic_cons with cur.
Qed.
End Traffic.

(** ** Following aliases

    [zone] is what an upstream says about each name.  The lemmas hold over
    every world in which the context stays alive and looking a name up reads
    the zone's message for it, as long as the state satisfies [I]. *)

Section Chains.
Context `{GoUnicode} `{DnsLib} (zone : string -> Msg).
Context (addr : AddrPort) (qtype attempt udpSize : Z).

(** The zone answers [n] with a single CNAME to [t]. *)
Definition alias (n t : string) : Prop :=
  m_truncated (zone n) = false /\ m_rcode (zone n) = RcodeSuccess /\
  exists hdr target, m_answer (zone n) = [RR_CNAME hdr target] /\
    EqualFold (h_name hdr) n = true /\ normalize target = t.

Fixpoint linked (n : string) (ns : list string) : Prop :=
  match ns with
  | [] => True
  | t :: ns => alias n t /\ linked t ns
  end.

Fixpoint chain_end (n : string) (ns : list string) : string :=
  match ns with
  | [] => n
  | t :: ns => chain_end t ns
  end.

Lemma normalize_nonempty s : normalize s <> "".
Proof. unfold normalize. by destruct (ToLower _). Qed.

Lemma alias_reply res n t : alias n t -> read_reply res n qtype (zone n) = Follow [t].
Proof.
  intros (_ & Hr & hdr & target & Ha & Hn & Ht). unfold read_reply. rewrite Hr, Ha.
  change (RcodeSuccess =? RcodeSuccess) with true. cbn [scan_addrs Header rrAddr negb].
  destruct (negb _); cbn [nonempty length Nat.ltb Nat.leb]; unfold scan_targets;
    rewrite Hn, Ht; cbn [negb];
    (replace (String.eqb t "") with false
      by (symmetry; apply String.eqb_neq; rewrite <-Ht; apply normalize_nonempty));
    by rewrite bool_decide_false by set_solver.
Qed.

Lemma linked_take n ns k : linked n ns -> linked n (take k ns).
Proof.
  revert n k. induction ns as [|t ns IH]; intros n [|k]; cbn; try done.
  intros [? ?]. auto.
Qed.

Lemma chain_end_elem n ns : chain_end n ns ∈ n :: ns.
Proof.
  revert n. induction ns as [|t ns IH]; intros n; cbn; [left|]. right. apply IH.
Qed.

Section Loop.
Context {W : Type} `{World W}.
Context (I : Client * W -> Prop).
Context (Hctx : forall c w, I (c, w) -> (ctx_Err w).1 = None /\ I (c, (ctx_Err w).2)).
Context (Hlookup : forall cur s, I s -> m_truncated (zone cur) = false ->
  runs (lookup_name addr qtype attempt udpSize (blank (ap_addr addr)) cur) s
    (fun o s' => o = read_reply (blank (ap_addr addr)) cur qtype (zone cur) /\ I s')).

Abbreviation loop := (chase_loop addr qtype attempt udpSize (blank (ap_addr addr))).

Lemma observe_alive (s : Client * W) (Q : option ctx_error -> Client * W -> Prop) :
  I s -> (forall s', I s' -> Q None s') -> runs (observe ctx_Err) s Q.
Proof.
  destruct s as [c w]. intros Hs HQ. apply runs_observe. destruct (Hctx c w Hs) as [-> ?]. by apply HQ.
Qed.

(** One turn of the loop on a name not seen before. *)
Lemma loop_step hops seen cur pending (s : Client * W) (Q : Result -> Client * W -> Prop) :
  I s -> m_truncated (zone cur) = false -> cur ∉ seen ->
  (forall s', I s' -> match read_reply (blank (ap_addr addr)) cur qtype (zone cur) with
    | Finished r => Q r s'
    | Follow targets => runs (loop hops ({[cur]} ∪ seen)
        (pending ++ base.filter (fun t => t ∉ {[cur]} ∪ seen) targets)) s' Q
    end) ->
  runs (loop (S hops) seen (cur :: pending)) s Q.
Proof.
  intros HI Htr Hs HQ. cbn [chase_loop]. apply runs_bind, observe_alive; [done|]. intros s1 HI1.
  rewrite decide_False by done. apply runs_bind.
  eapply runs_mono; [by apply Hlookup|]. cbn beta. intros o s2 [-> HI2].
  specialize (HQ s2 HI2). by destruct (read_reply _ _ _ _).
Qed.

(** Walking along a chain of aliases. *)
Lemma loop_chain ns n seen hops (s : Client * W) (Q : Result -> Client * W -> Prop) :
  I s -> linked n ns -> NoDup (n :: ns) -> (forall x, x ∈ n :: ns -> x ∉ seen) ->
  (forall s' seen', I s' -> chain_end n ns ∉ seen' -> seen ⊆ seen' ->
    (forall x, x ∈ n :: ns -> x = chain_end n ns \/ x ∈ seen') ->
    runs (loop hops seen' [chain_end n ns]) s' Q) ->
  runs (loop (length ns + hops) seen [n]) s Q.
Proof.
  revert n seen s. induction ns as [|t ns IH]; intros n seen s HI Hl Hnd Hs HQ.
  { apply HQ; [done|apply Hs; left|done|]. intros x ->%list_elem_of_singleton. by left. }
  destruct Hl as [Ha Hl]. apply NoDup_cons in Hnd as [Hn Hnd].
  cbn [length Nat.add]. apply loop_step; [done|by destruct Ha|apply Hs; left|].
  intros s1 HI1. rewrite (alias_reply _ _ _ Ha). cbn [app].
  rewrite filter_cons_True by set_solver. rewrite filter_nil.
  apply IH; [done|done|done|set_solver|]. intros s2 seen2 HI2 Hlast Hsub Hseen.
  apply HQ; [done|done|set_solver|]. intros x [->|Hx]%elem_of_cons; [set_solver|by apply Hseen].
Qed.

Lemma chain_result qname ns maxHops s r :
  I s -> linked (normalize qname) ns -> NoDup (normalize qname :: ns) ->
  Z.of_nat (length ns) < maxHops ->
  m_truncated (zone (chain_end (normalize qname) ns)) = false ->
  read_reply (blank (ap_addr addr)) (chain_end (normalize qname) ns) qtype
    (zone (chain_end (normalize qname) ns)) = Finished r ->
  (Chase addr qname qtype maxHops attempt udpSize s).1 = r.
Proof.
  intros HI Hl Hnd Hlen Htr Hr. unfold Chase.
  replace (Z.to_nat maxHops) with (length ns + S (Z.to_nat maxHops - length ns - 1))%nat by lia.
  apply (loop_chain ns (normalize qname) ∅ _ s (fun a _ => a = r)); [done|done|done|set_solver|].
  intros s' seen' HI' Hns _ _. apply loop_step; try done. intros s2 _. by rewrite Hr.
Qed.

Lemma chain_too_deep qname ns maxHops s :
  I s -> linked (normalize qname) ns -> NoDup (normalize qname :: ns) ->
  0 <= maxHops <= Z.of_nat (length ns) ->
  (Chase addr qname qtype maxHops attempt udpSize s).1 =
  fail_with (blank (ap_addr addr)) "cname-maxdepth".
Proof.
  intros HI Hl Hnd Hlen. unfold Chase. set (k := Z.to_nat maxHops).
  assert (length (take k ns) = k) as Hk by (rewrite length_take; lia).
  replace k with (length (take k ns) + 0)%nat by lia.
  apply (loop_chain (take k ns) (normalize qname) ∅ 0 s
    (fun a _ => a = fail_with (blank (ap_addr addr)) "cname-maxdepth")); try done.
  - by apply linked_take.
  - change (normalize qname :: take k ns) with (take (S k) (normalize qname :: ns)).
    eapply sublist_NoDup; [done|apply sublist_take].
  - intros s' seen' HI' Hns _ _. cbn [chase_loop]. apply runs_bind, observe_alive; [done|]. intros s1 _.
    by rewrite decide_False.
Qed.

Lemma chain_cycle qname ns maxHops s t :
  I s -> linked (normalize qname) ns -> NoDup (normalize qname :: ns) ->
  Z.of_nat (length ns) < maxHops ->
  alias (chain_end (normalize qname) ns) t -> t ∈ normalize qname :: ns ->
  (Chase addr qname qtype maxHops attempt udpSize s).1 =
  negative (blank (ap_addr addr)) StateNoData None.
Proof.
  intros HI Hl Hnd Hlen Ha Ht. unfold Chase.
  replace (Z.to_nat maxHops) with (length ns + S (Z.to_nat maxHops - length ns - 1))%nat by lia.
  apply (loop_chain ns (normalize qname) ∅ _ s
    (fun a _ => a = negative (blank (ap_addr addr)) StateNoData None)); [done|done|done|set_solver|].
  intros s' seen' HI' Hns _ Hseen. apply loop_step; try done; [by destruct Ha|]. intros s2 _.
  rewrite (alias_reply _ _ _ Ha). rewrite filter_cons_False.
  - rewrite filter_nil. destruct (Z.to_nat maxHops - length ns - 1)%nat; by apply runs_ret.
  - specialize (Hseen t Ht). set_solver.
Qed.
End Loop.
End Chains.

(** ** A world that answers from a zone *)

(** The context never expires and every query is answered, over either
    transport, by the zone's message for the name asked. *)
Definition zone_world (zone : string -> Msg) : World unit := {|
  ctx_Err w := (None, w);
  ctx_remaining w := (None, w);
  dns_Id w := (0, w);
  others_write t own w := (own, w);
  dns_Exchange cl q addr w :=
    (match m_question q with [qu] => Ok (zone (q_name qu)) | _ => Err false end, w);
|}.

Lemma lookup_zone `{GoUnicode} `{DnsLaws} zone addr qtype attempt udpSize cur s :
  0 < attempt -> m_truncated (zone cur) = false ->
  runs (lookup_name (H1 := zone_world zone) addr qtype attempt udpSize (blank (ap_addr addr)) cur) s
    (fun o _ => o = read_reply (blank (ap_addr addr)) cur qtype (zone cur)).
Proof.
  intros Hat Htr. destruct s as [c []]. unfold lookup_name. apply runs_bind.
  unfold runs, hopBudget, bind, ret, observe. cbn [ctx_remaining zone_world fst snd].
  replace (attempt <? 0) with false by lia. replace (attempt <=? 0) with false by lia.
  cbn [dns_Id zone_world]. unfold Exchange, bind, observe, ret. cbn [ctx_Err zone_world].
  unfold exchangeNet. cbn [others_write dns_Exchange zone_world]. rewrite Msg_Copy_id.
  destruct (query_asks qtype udpSize 0 cur) as [-> _].
  cbn. by rewrite Htr.
Qed.

Lemma lookup_zone_always `{GoUnicode} `{DnsLaws} zone addr qtype attempt udpSize :
  0 < attempt -> forall cur (s : Client * unit), True -> m_truncated (zone cur) = false ->
  runs (lookup_name (H1 := zone_world zone) addr qtype attempt udpSize (blank (ap_addr addr)) cur) s
    (fun o s' => o = read_reply (blank (ap_addr addr)) cur qtype (zone cur) /\ True).
Proof. intros Ha cur s _ Ht. eapply runs_mono; [by apply lookup_zone|]. by intros o s' ->. Qed.

(** ** The records of a reply *)

(** The addresses of the requested type with their TTLs. *)
Definition records (qtype : Z) (answer : list RR) : list (Addr * Z) :=
  omap (fun rr => if h_rrtype (Header rr) =? qtype then
                    let '(ip, ok) := rrAddr rr in
                    if ok : bool then Some (ip, h_ttl (Header rr)) else None
                  else None) answer.

Lemma records_cons qtype rr l :
  records qtype (rr :: l) =
  (if h_rrtype (Header rr) =? qtype then
     let '(ip, ok) := rrAddr rr in if ok : bool then [(ip, h_ttl (Header rr))] else []
   else []) ++ records qtype l.
Proof.
  unfold records. cbn. destruct (_ =? _); [|done]. by destruct (rrAddr rr) as [ip []].
Qed.

Lemma scan_addrs_addrs qtype l addrs ttl :
  (scan_addrs qtype l addrs ttl).1 = addrs ++ (records qtype l).*1.
Proof.
  revert addrs ttl. induction l as [|rr l IH]; intros addrs ttl; [cbn; by rewrite app_nil_r|].
  rewrite records_cons. cbn [scan_addrs]. destruct (_ =? _); cbn [negb]; [|by rewrite IH].
  destruct (rrAddr rr) as [ip []]; cbn [negb]; rewrite IH; cbn; by rewrite <-?app_assoc.
Qed.

(** With positive TTLs, the accumulator 0 means "none yet" and nothing
    else. *)
Lemma scan_addrs_ttl qtype l addrs ttl seen :
  Forall (fun t => 0 < t) seen -> Forall (fun t => 0 < t) (records qtype l).*2 ->
  (seen = [] /\ ttl = 0 \/ minimum_of seen ttl true) ->
  let ttl' := (scan_addrs qtype l addrs ttl).2 in
  seen ++ (records qtype l).*2 = [] /\ ttl' = 0 \/
  minimum_of (seen ++ (records qtype l).*2) ttl' true.
Proof.
  revert addrs ttl seen. induction l as [|rr l IH]; intros addrs ttl seen Hpos Hl Hs.
  { cbn. by rewrite app_nil_r. }
  rewrite records_cons in *. cbn [scan_addrs]. destruct (_ =? _); cbn [negb]; [|by apply IH].
  destruct (rrAddr rr) as [ip []]; cbn [negb]; [|by apply IH].
  cbn [app fmap list_fmap snd] in *. apply Forall_cons in Hl as [Ht Hl].
  change (seen ++ h_ttl (Header rr) :: ?k) with (seen ++ [h_ttl (Header rr)] ++ k).
  rewrite app_assoc. apply IH; [by apply Forall_app; split; [|apply Forall_singleton]|done|].
  right. cbn. destruct Hs as [[-> ->]|[Hin Hle]].
  - cbn. split; [left|]. by apply Forall_singleton.
  - assert (0 < ttl) by (rewrite Forall_forall in Hpos; auto).
    replace (ttl =? 0) with false by lia. cbn [orb].
    rewrite elem_of_app, Forall_app, Forall_singleton, list_elem_of_singleton.
    destruct (h_ttl (Header rr) <? ttl) eqn:E; bool_props; [|auto with lia].
    split; [auto|]. split; [|lia]. eapply Forall_impl; [exact Hle|]. cbn. lia.
Qed.

Section Replies.
Context `{GoUnicode} `{DnsLib}.

Lemma read_reply_answer res cur qtype resp r :
  r_state res = StateFailure ->
  read_reply res cur qtype resp = Finished r -> r_state r = StateAnswer ->
  m_rcode resp = RcodeSuccess /\ records qtype (m_answer resp) <> [] /\
  r_addrs r = dedupAddrs (records qtype (m_answer resp)).*1 /\
  r_minttl r = (scan_addrs qtype (m_answer resp) [] 0).2.
Proof.
  intros Hs. unfold read_reply. destruct (_ =? _) eqn:E; bool_props.
  - pose proof (scan_addrs_addrs qtype (m_answer resp) [] 0) as Ha.
    destruct (scan_addrs _ _ _ _) as [addrs ttl]. cbn [fst snd app] in Ha |- *. subst addrs.
    destruct (nonempty _) eqn:En.
    + intros [= <-] _. cbn. split; [done|]. split; [|done].
      intros Hn. by rewrite Hn in En.
    + destruct (negb _); [|done]. by intros [= <-].
  - destruct (_ =? _); by intros [= <-].
Qed.
End Replies.

(** ** A client shared by two exchanges

    [exchangeNet] assigns the client's [Timeout] and then sends with it; the
    client is shared by every goroutine that uses the upstream.  An event
    [(i, false)] is the assignment of exchange [i] and [(i, true)] its
    send. *)
Fixpoint run_shared (t : transport) (budget : nat -> Z) (sched : list (nat * bool))
    (c : Client) : list (nat * Z) :=
  match sched with
  | [] => []
  | (i, false) :: sched => run_shared t budget sched (set_timeout c t (budget i))
  | (i, true) :: sched => (i, c_timeout (client_of c t)) :: run_shared t budget sched c
  end.

(** Exchanges that do not overlap send with their own budgets. *)
Lemma run_serial t budget xs c :
  run_shared t budget (xs ≫= (fun i => [(i, false); (i, true)])) c =
  (fun i => (i, budget i)) <$> xs.
Proof.
  revert c. induction xs as [|i xs IH]; intros c; [done|].
  cbn. rewrite set_timeout_of. f_equal. apply IH.
Qed.

(** ** Theorems *)

Section Claims.
Context `{GoUnicode} `{DnsLib}.

(** C37: whatever the network does, the result of a chase is well formed: it
    names the upstream, has addresses (without repetition) exactly when it is
    an answer, an SOA only when it is NXDOMAIN or NODATA, and a failure
    category exactly when it is a failure. *)
Theorem Chase_result {W} `{World W} addr qname qtype maxHops attempt udpSize s :
  chase_ok (ap_addr addr) (Chase addr qname qtype maxHops attempt udpSize s).1.
Proof. apply Chase_ok. Qed.

(** C8: the traffic of a chase is bounded and never repeats a lookup.  What
    happens is a sequence of rounds, at most [maxHops] of them, for pairwise
    distinct names; the context may end after the last one.  A round asks how
    much time is left and, unless there is none, sends one question of the
    requested type over UDP, and over TCP if, and only if, the UDP reply is
    truncated and the context is alive.  For each of the two exchanges the
    round writes the same budget, positive and at most the attempt's time and
    the time left, so a truncated round may take it twice; an exchange waits
    for that budget or for what another goroutine has written to the shared
    client, which is at most [others]. *)
Theorem Chase_traffic `{!DnsLaws} {W} `{World W} others addr qname qtype maxHops attempt udpSize c w :
  others_within others -> client_ok c ->
  exists names rounds tail,
    (Chase addr qname qtype maxHops attempt udpSize (c, (w, []))).2.2.2 = concat rounds ++ tail /\
    Forall2 (round others addr qtype attempt udpSize) names rounds /\
    NoDup names /\ (length names <= Z.to_nat maxHops)%nat /\
    (tail = [] \/ exists e, tail = [Ended e]).
Proof.
  intros Ho Hc. unfold Chase.
  destruct (chase_loop_logged others Ho addr qtype attempt udpSize (blank (ap_addr addr))
    (Z.to_nat maxHops) ∅ [normalize qname] c (w, []) Hc)
    as (l & Hl & names & rounds & tail & -> & HF & Hnd & _ & Hlen & Ht).
  exists names, rounds, tail. by split_and!.
Qed.

(** C9: a CNAME chain of distinct names that fits the hop limit is followed
    to its end: the chase returns what the reply for the last name says. *)
Theorem Chase_chain `{!DnsLaws} zone addr qname qtype maxHops attempt udpSize c ns r :
  0 < attempt -> linked zone (normalize qname) ns -> NoDup (normalize qname :: ns) ->
  Z.of_nat (length ns) < maxHops ->
  m_truncated (zone (chain_end (normalize qname) ns)) = false ->
  read_reply (blank (ap_addr addr)) (chain_end (normalize qname) ns) qtype
    (zone (chain_end (normalize qname) ns)) = Finished r ->
  (Chase (H1 := zone_world zone) addr qname qtype maxHops attempt udpSize (c, ())).1 = r.
Proof. intros Ha. by apply (chain_result _ _ _ _ _ (fun _ => True)); [done|apply lookup_zone_always|]. Qed.

(** A chain longer than the hop limit fails with the category
    "cname-maxdepth", whatever is at its end. *)
Theorem Chase_too_deep `{!DnsLaws} zone addr qname qtype maxHops attempt udpSize c ns :
  0 < attempt -> linked zone (normalize qname) ns -> NoDup (normalize qname :: ns) ->
  0 <= maxHops <= Z.of_nat (length ns) ->
  (Chase (H1 := zone_world zone) addr qname qtype maxHops attempt udpSize (c, ())).1 =
  fail_with (blank (ap_addr addr)) "cname-maxdepth".
Proof. intros Ha. by apply (chain_too_deep _ _ _ _ _ (fun _ => True)); [done|apply lookup_zone_always|]. Qed.

(** A CNAME loop ends as NODATA without an SOA: the chase stops when the
    chain returns to a name it has already asked for. *)
Theorem Chase_cycle `{!DnsLaws} zone addr qname qtype maxHops attempt udpSize c ns t :
  0 < attempt -> linked zone (normalize qname) ns -> NoDup (normalize qname :: ns) ->
  Z.of_nat (length ns) < maxHops ->
  alias zone (chain_end (normalize qname) ns) t -> t ∈ normalize qname :: ns ->
  (Chase (H1 := zone_world zone) addr qname qtype maxHops attempt udpSize (c, ())).1 =
  negative (blank (ap_addr addr)) StateNoData None.
Proof. intros Ha. by apply (chain_cycle _ _ _ _ _ (fun _ => True)); [done|apply lookup_zone_always|]. Qed.

(** An answer carries exactly the addresses of the reply's records of the
    requested type, and, when their TTLs are positive, the least of them. *)
Theorem reply_answer server cur qtype resp r :
  read_reply (blank server) cur qtype resp = Finished r -> r_state r = StateAnswer ->
  (forall a, a ∈ r_addrs r <-> a ∈ (records qtype (m_answer resp)).*1) /\
  (Forall (fun t => 0 < t) (records qtype (m_answer resp)).*2 ->
   minimum_of (records qtype (m_answer resp)).*2 (r_minttl r) true).
Proof.
  intros Hr Hs. destruct (read_reply_answer (blank server) _ _ _ _ eq_refl Hr Hs) as (_ & Hne & -> & ->).
  split.
  - intros a. unfold dedupAddrs. rewrite elem_of_dedup_loop. set_solver.
  - intros Hpos. destruct (scan_addrs_ttl qtype (m_answer resp) [] 0 []) as [[E _]|Hm];
      [constructor|done|by left| |done].
    by destruct (records qtype (m_answer resp)).
Qed.

(** A zero TTL is lost when a larger one follows it: 0 is also the
    accumulator's "none yet", so a reply with the TTLs 0 and 300 gets the TTL
    300, and not the minimum. *)
Theorem zero_ttl_lost server name cur a b :
  let rr ttl v := RR_A (mkHdr name TypeA ClassINET ttl) (be_bytes 4 v) in
  let resp := set_answer new_Msg [rr 0 a; rr 300 b] in
  exists r, read_reply (blank server) cur TypeA resp = Finished r /\
    r_state r = StateAnswer /\ (records TypeA (m_answer resp)).*2 = [0; 300] /\
    r_minttl r = 300.
Proof.
  intros rr resp. eexists. split; [reflexivity|]. cbn. repeat split; reflexivity.
Qed.

(** A chase whose context has expired before it starts asks nothing and
    reports a failure of category "network", not "timeout" or "canceled":
    [Category] does not know the errors of a context. *)
Theorem expired_context_category {W} `{World W} addr qname qtype maxHops attempt udpSize c w e w' :
  ctx_Err w = (Some e, w') ->
  Chase addr qname qtype maxHops attempt udpSize (c, w) =
  (fail_with (blank (ap_addr addr)) "network", (c, w')).
Proof.
  intros He. unfold Chase. destruct (Z.to_nat maxHops); cbn [chase_loop];
    unfold bind, observe; by rewrite He.
Qed.
End Claims.

(** Two overlapping exchanges over one client can send with each other's
    timeout, although exchanges that follow one another always send with
    their own. *)
Theorem shared_timeout_race t b1 b2 c :
  let budget i := if (i =? 0)%nat then b1 else b2 in
  run_shared t budget [(0%nat, false); (0%nat, true); (1%nat, false); (1%nat, true)] c =
    [(0%nat, b1); (1%nat, b2)] /\
  run_shared t budget [(0%nat, false); (1%nat, false); (0%nat, true); (1%nat, true)] c =
    [(0%nat, b2); (1%nat, b2)].
Proof.
  intros budget. split; [apply (run_serial t budget [0%nat; 1%nat])|].
  cbn. by rewrite !set_timeout_of.
Qed.

(** ** Examples *)

Definition sample_addr : AddrPort := mkAddrPort (Addr4 134744072) 53.
Definition cname (n t : string) : RR := RR_CNAME (mkHdr n TypeCNAME ClassINET 60) t.
Definition a_record (n : string) (ttl v : Z) : RR :=
  RR_A (mkHdr n TypeA ClassINET ttl) (be_bytes 4 v).

(** "www." is an alias of "host.", which has an address; "x." and "y." are
    aliases of each other. *)
Definition sample_zone (n : string) : Msg :=
  if String.eqb n "www." then set_answer new_Msg [cname "WWW." "host."]
  else if String.eqb n "host." then set_answer new_Msg [a_record "host." 120 16777217]
  else if String.eqb n "x." then set_answer new_Msg [cname "x." "y."]
  else if String.eqb n "y." then set_answer new_Msg [cname "y." "X"]
  else set_rcode new_Msg RcodeNameError.

Definition sample_answer : Result :=
  mkResult (ap_addr sample_addr) false [Addr4 16777217] StateAnswer None 120 "".

Abbreviation sample_chase := (@Chase ascii_tables sample_dns unit (zone_world sample_zone) sample_addr).

Lemma alias_www : @alias ascii_tables sample_zone "www." "host.".
Proof. unfold alias. split; [reflexivity|]. split; [reflexivity|]. exists (mkHdr "WWW." TypeCNAME ClassINET 60), "host.". repeat split. Qed.
Lemma alias_x : @alias ascii_tables sample_zone "x." "y.".
Proof. unfold alias. split; [reflexivity|]. split; [reflexivity|]. exists (mkHdr "x." TypeCNAME ClassINET 60), "y.". repeat split. Qed.
Lemma alias_y : @alias ascii_tables sample_zone "y." "x.".
Proof. unfold alias. split; [reflexivity|]. split; [reflexivity|]. exists (mkHdr "y." TypeCNAME ClassINET 60), "X". repeat split. Qed.

(** The forwarder writes its 2500 ms to the client that the chase uses. *)
Definition busy_world (zone : string -> Msg) : World unit := {|
  ctx_Err w := (None, w);
  ctx_remaining w := (None, w);
  dns_Id w := (0, w);
  others_write t own w := (2500, w);
  dns_Exchange cl q addr w :=
    (match m_question q with [qu] => Ok (zone (q_name qu)) | _ => Err false end, w);
|}.

Lemma Chase_traffic_witness :
  exists names rounds tail,
    (@Chase ascii_tables sample_dns _ (@logged unit (busy_world sample_zone)) sample_addr "www"
       TypeA 10 1500 1232 (NewClient 1232, ((), []))).2.2.2 = concat rounds ++ tail /\
    Forall2 (@round sample_dns 2500 sample_addr TypeA 1500 1232) names rounds /\
    NoDup names /\ (length names <= 10)%nat /\ (tail = [] \/ exists e, tail = [Ended e]).
Proof.
  apply (@Chase_traffic ascii_tables sample_dns sample_dns_laws unit (busy_world sample_zone)
    2500 sample_addr "www" TypeA 10 1500 1232 (NewClient 1232) ()).
  - intros t own w. right. split; vm_compute; [reflexivity|discriminate].
  - split; reflexivity.
Defined.

Lemma Chase_chain_witness :
  (sample_chase "WWW" TypeA 10 1500 1232 (NewClient 1232, ())).1 = sample_answer.
Proof.
  apply (@Chase_chain ascii_tables sample_dns sample_dns_laws sample_zone sample_addr "WWW" TypeA
    10 1500 1232 (NewClient 1232) ["host."] sample_answer).
  - lia.
  - split; [exact alias_www|exact I].
  - apply (bool_decide_unpack _). vm_compute. exact I.
  - vm_compute. reflexivity.
  - reflexivity.
  - vm_compute. reflexivity.
Defined.

Lemma Chase_too_deep_witness :
  (sample_chase "WWW" TypeA 1 1500 1232 (NewClient 1232, ())).1 =
  fail_with (blank (ap_addr sample_addr)) "cname-maxdepth".
Proof.
  apply (@Chase_too_deep ascii_tables sample_dns sample_dns_laws sample_zone sample_addr "WWW" TypeA
    1 1500 1232 (NewClient 1232) ["host."]).
  - lia.
  - split; [exact alias_www|exact I].
  - apply (bool_decide_unpack _). vm_compute. exact I.
  - split; vm_compute; discriminate.
Defined.

Lemma Chase_cycle_witness :
  (sample_chase "x" TypeA 10 1500 1232 (NewClient 1232, ())).1 =
  negative (blank (ap_addr sample_addr)) StateNoData None.
Proof.
  apply (@Chase_cycle ascii_tables sample_dns sample_dns_laws sample_zone sample_addr "x" TypeA
    10 1500 1232 (NewClient 1232) ["y."] "x.").
  - lia.
  - split; [exact alias_x|exact I].
  - apply (bool_decide_unpack _). vm_compute. exact I.
  - vm_compute. reflexivity.
  - exact alias_y.
  - apply (bool_decide_unpack _). vm_compute. exact I.
Defined.

Lemma reply_answer_witness :
  minimum_of (records TypeA (m_answer (sample_zone "host."))).*2 (r_minttl sample_answer) true.
Proof.
  apply (proj2 (@reply_answer ascii_tables sample_dns (ap_addr sample_addr) "host." TypeA
    (sample_zone "host.") sample_answer eq_refl eq_refl)).
  vm_compute. repeat constructor.
Defined.

(** A world whose deadline has passed. *)
Definition expired_world : World unit := {|
  ctx_Err w := (Some DeadlineExceeded, w);
  ctx_remaining w := (Some (-1), w);
  dns_Id w := (0, w);
  others_write t own w := (own, w);
  dns_Exchange _ _ _ w := (Err true, w);
|}.

Lemma expired_context_category_witness :
  (@Chase ascii_tables sample_dns unit expired_world sample_addr "www" TypeA 10 1500 1232
     (NewClient 1232, ())).1 = fail_with (blank (ap_addr sample_addr)) "network".
Proof.
  rewrite (@expired_context_category ascii_tables sample_dns unit expired_world sample_addr "www"
    TypeA 10 1500 1232 (NewClient 1232) () DeadlineExceeded () eq_refl).
  reflexivity.
Defined.
