(* ===== verification/Engine.v ===== *)
(** * Engine: the fan-out of [internal/engine/engine.go]

    One resolution asks all upstreams concurrently and consumes their
    outcomes as they arrive.  Each upstream's goroutine is [worker]; what the
    goroutine of [Resolve] observes is the sequence of the cases its [select]
    takes, an [event] list, which fixes the interleaving: an outcome arrives
    or the query's context is done.  [receive] is its loop; it returns
    nothing when the sequence ends while it still waits. *)

From S2P Require Import Prelude Netip GoText China Overrides Dns Policy Upstream.

(** ** Data *)

Record Assets := mkAssets { as_china : Index; as_overrides : OverrideSet }.

Record EngineUpstream := mkUpstream { u_addr : AddrPort; u_china : bool }.

Record Engine := mkEngine {
  e_upstreams : list EngineUpstream;
  e_attemptTimeout : Z;
  e_maxHops : Z;
  e_udpSize : Z;
  e_assets : Assets;
}.

Record Report := mkReport {
  rp_server : Addr;
  rp_state : State;
  rp_latency : Z;
  rp_errcat : string;
}.

(** [engine.Result]. *)
Record EngineResult := mkEngineResult {
  er_policy : string;
  er_addrs : list Addr;
  er_rcode : Z;
  er_soa : option SOA;
  er_ttl : Z;
  er_complete : bool;
  er_reports : list Report;
}.

Record outcome := mkOutcome {
  o_result : Result;
  o_latency : Z;
  o_idx : nat;
}.

Inductive event :=
| EvOutcome (o : outcome)
| EvDone.

(** The arguments of the calls of [OnResult]. *)
Definition report_call : Type := nat * State * string.

Section Engine.
Context `{GoUnicode}.

(** ** Operations *)

Definition New (assets : Assets) (upstreams : list EngineUpstream)
    (attemptTimeout maxHops udpSize : Z) : Engine :=
  mkEngine upstreams attemptTimeout maxHops udpSize assets.

Definition UpdateAssets (e : Engine) (a : Assets) : Engine :=
  mkEngine (e_upstreams e) (e_attemptTimeout e) (e_maxHops e) (e_udpSize e) a.

(** The goroutine of one upstream; [latency] is the time it took. *)
Definition tag_result (u : EngineUpstream) (r : Result) : Result :=
  mkResult (ap_addr (u_addr u)) (u_china u) (r_addrs r) (r_state r) (r_soa r) (r_minttl r)
    (r_errcat r).
Definition worker `{DnsLib} {W} `{World W} (e : Engine) (qname : string) (qtype : Z)
    (i : nat) (u : EngineUpstream) (latency : Z) : M W outcome :=
  fun s =>
    let '(r, s) := Chase (u_addr u) qname qtype (e_maxHops e) (e_attemptTimeout e)
                     (e_udpSize e) s in
    (mkOutcome (tag_result u r) latency i, s).

(** The loops of [earlyStable], with its two flags. *)
Fixpoint stable_addrs (china : Index) (serverChina : bool) (addrs : list Addr)
    (cnChina ncNonChina : bool) : bool * bool :=
  match addrs with
  | [] => (cnChina, ncNonChina)
  | a :: addrs =>
      let isCN := Contains china a in
      stable_addrs china serverChina addrs
        (if serverChina && isCN then true else cnChina)
        (if negb serverChina && negb isCN then true else ncNonChina)
  end.
Fixpoint stable_results (china : Index) (results : list Result) (cnChina ncNonChina : bool)
    : bool * bool :=
  match results with
  | [] => (cnChina, ncNonChina)
  | r :: results =>
      if decide (r_state r <> StateAnswer) then stable_results china results cnChina ncNonChina
      else
        let '(cnChina, ncNonChina) :=
          stable_addrs china (r_china r) (r_addrs r) cnChina ncNonChina in
        stable_results china results cnChina ncNonChina
  end.
Definition earlyStable (assets : Assets) (qname : string) (results : list Result) : bool :=
  let '(cnChina, ncNonChina) := stable_results (as_china assets) results false false in
  cnChina && ncNonChina.

Fixpoint has_answer (results : list Result) : bool :=
  match results with
  | [] => false
  | r :: results => if decide (r_state r = StateAnswer) then true else has_answer results
  end.

Definition select (assets : Assets) (qname : string) (results : list Result) : SelectResult :=
  Select qname results (Contains (as_china assets)) (Match (as_overrides assets)).

Definition finalize (assets : Assets) (qname : string) (results : list Result)
    (reports : list Report) (complete : bool) : EngineResult :=
  if has_answer results then
    let sel := select assets qname results in
    mkEngineResult (s_policy sel) (s_addrs sel) RcodeSuccess None
      (SelectTTL (s_addrs sel) results).1 complete reports
  else
    let '(rcode, soa, ok) := FinalizeNegative results in
    if ok then mkEngineResult "" [] rcode soa 0 complete reports
    else mkEngineResult "" [] RcodeServerFailure None 0 complete reports.

Definition report_of (o : outcome) : Report :=
  mkReport (r_server (o_result o)) (r_state (o_result o)) (o_latency o) (r_errcat (o_result o)).
Definition call_of (o : outcome) : report_call :=
  (o_idx o, r_state (o_result o), r_errcat (o_result o)).

(** The receive loop; [calls] are the calls of [OnResult] so far. *)
Fixpoint receive (assets : Assets) (qname : string) (n : nat) (evs : list event)
    (results : list Result) (reports : list Report) (calls : list report_call) (received : nat)
    : option (EngineResult * list report_call) :=
  if (received <? n)%nat then
    match evs with
    | [] => None
    | EvOutcome o :: evs =>
        let calls := calls ++ [call_of o] in
        let results := results ++ [o_result o] in
        let reports := reports ++ [report_of o] in
        if (length results =? n)%nat then
          Some (finalize assets qname results reports true, calls)
        else if earlyStable assets qname results then
          Some (finalize assets qname results reports false, calls)
        else receive assets qname n evs results reports calls (S received)
    | EvDone :: _ => Some (finalize assets qname results reports false, calls)
    end
  else Some (finalize assets qname results reports true, calls).

Definition Resolve (e : Engine) (qname : string) (evs : list event)
    : option (EngineResult * list report_call) :=
  receive (e_assets e) qname (length (e_upstreams e)) evs [] [] [] 0.
End Engine.
