(* ===== verification/EngineProps.v ===== *)
(** * EngineProps: what a resolution returns

    Which outcomes a resolution consumes, that it returns, that returning
    early does not change the branch of the policy, that the order of
    arrival does not matter, and what the answer says about the prefixes the
    index was built from. *)

From S2P Require Import Prelude Netip GoText Intervals China Overrides Dns Policy Upstream Engine.

(** ** The early test *)

Lemma nonempty_filter l keep : nonempty (filter_addrs l keep) = existsb keep l.
Proof. induction l as [|a l IH]; cbn; [done|]. by destruct (keep a). Qed.

Lemma filter_addrs_app l k keep :
  filter_addrs (l ++ k) keep = filter_addrs l keep ++ filter_addrs k keep.
Proof. induction l as [|a l IH]; cbn; [done|]. rewrite IH. by destruct (keep a). Qed.

Lemma by_class_app b l k : by_class b (l ++ k) = by_class b l ++ by_class b k.
Proof. unfold by_class, addrs_of. apply bind_app. Qed.

Lemma stable_addrs_eq china sc addrs c n :
  stable_addrs china sc addrs c n =
  (c || (sc && existsb (Contains china) addrs),
   n || (negb sc && existsb (fun a => negb (Contains china a)) addrs)).
Proof.
  revert c n. induction addrs as [|a addrs IH]; intros c n; cbn [stable_addrs existsb].
  { by rewrite !andb_false_r, !orb_false_r. }
  rewrite IH. by destruct sc, (Contains china a), c, n; cbn; rewrite ?orb_true_r.
Qed.

Lemma by_class_cons b r results :
  by_class b (r :: results) =
  (if decide (r_state r = StateAnswer) then if Bool.eqb (r_china r) b then r_addrs r else []
   else []) ++ by_class b results.
Proof. done. Qed.

Lemma stable_results_eq china results c n :
  stable_results china results c n =
  (c || existsb (Contains china) (by_class true results),
   n || existsb (fun a => negb (Contains china a)) (by_class false results)).
Proof.
  revert c n. induction results as [|r results IH]; intros c n; cbn [stable_results].
  { cbn. by rewrite !orb_false_r. }
  rewrite !by_class_cons. destruct (decide (r_state r <> StateAnswer)) as [Hr|Hr].
  - rewrite !decide_False by done. apply IH.
  - apply dec_stable in Hr. rewrite !decide_True by done.
    rewrite stable_addrs_eq, IH, !existsb_app, !orb_assoc.
    by destruct (r_china r); cbn [andb negb Bool.eqb existsb]; rewrite ?orb_false_r.
Qed.

Lemma app_snoc {A} (l : list A) x k : (l ++ [x]) ++ k = l ++ x :: k.
Proof. by rewrite <-app_assoc. Qed.

Section EarlyStable.
Context `{GoUnicode} (assets : Assets) (qname : string).

Lemma earlyStable_guard results :
  earlyStable assets qname results =
  nonempty (filter_addrs (by_class true results) (Contains (as_china assets))) &&
  nonempty (filter_addrs (by_class false results) (fun a => negb (Contains (as_china assets) a))).
Proof. unfold earlyStable. by rewrite stable_results_eq, !nonempty_filter. Qed.

(** The choice of rule 1. *)
Definition first_rule (results : list Result) : SelectResult :=
  if Match (as_overrides assets) qname then
    mkSelect PolicyOverride
      (dedup (filter_addrs (by_class false results) (fun a => negb (Contains (as_china assets) a))))
  else
    mkSelect PolicyPreferChina
      (dedup (filter_addrs (by_class true results) (Contains (as_china assets)))).

Lemma earlyStable_select results :
  earlyStable assets qname results = true -> select assets qname results = first_rule results.
Proof.
  rewrite earlyStable_guard. intros Hg. unfold select, Select. rewrite collect_eq, !app_nil_l.
  by rewrite Hg.
Qed.

Lemma earlyStable_app results more :
  earlyStable assets qname results = true -> earlyStable assets qname (results ++ more) = true.
Proof.
  rewrite !earlyStable_guard, !nonempty_filter, !by_class_app, !existsb_app.
  intros [-> ->]%andb_true_iff. done.
Qed.

Lemma first_rule_app results more :
  s_policy (first_rule (results ++ more)) = s_policy (first_rule results) /\
  s_addrs (first_rule results) `prefix_of` s_addrs (first_rule (results ++ more)).
Proof.
  unfold first_rule, dedup. destruct (Match _ _); cbn; (split; [done|]);
    rewrite by_class_app, filter_addrs_app, dedup_loop_app; by eexists.
Qed.

(** ** The receive loop *)

Lemma has_answer_iff results :
  has_answer results = true <-> exists r, r ∈ results /\ r_state r = StateAnswer.
Proof.
  induction results as [|r results IH]; cbn [has_answer].
  - split; [done|]. by intros (? & ?%elem_of_nil & _).
  - destruct (decide _) as [Hr|Hr].
    + split; [intros _|done]. exists r. split; [left|done].
    + rewrite IH. setoid_rewrite elem_of_cons. naive_solver.
Qed.

(** How a run that consumed the outcomes [os] ended: with all of them in, on
    a stable branch, or at the deadline. *)
Definition ended (n : nat) (results : list Result) (os : list outcome) (rest : list event)
    (complete : bool) : Prop :=
  let all := results ++ (o_result <$> os) in
  if complete then length all = n
  else (length all < n)%nat /\
    ((os <> [] /\ earlyStable assets qname all = true) \/ exists rest', rest = EvDone :: rest').

Lemma receive_run n evs results reports calls received res calls' :
  length results = received -> (received <= n)%nat ->
  receive assets qname n evs results reports calls received = Some (res, calls') ->
  exists os rest complete,
    evs = (EvOutcome <$> os) ++ rest /\ calls' = calls ++ (call_of <$> os) /\
    res = finalize assets qname (results ++ (o_result <$> os)) (reports ++ (report_of <$> os)) complete /\
    ended n results os rest complete /\
    (forall k, (0 < k < length os)%nat ->
      earlyStable assets qname (results ++ (o_result <$> take k os)) = false).
Proof.
  revert results reports calls received.
  induction evs as [|ev evs IH]; intros results reports calls received Hlen Hle Hrun;
    cbn [receive] in Hrun; destruct (Nat.ltb_spec received n) as [Hlt|Hge]; try done.
  1, 3: injection Hrun as <- <-; eexists [], _, true; unfold ended; cbn; rewrite !app_nil_r;
    split_and!; try done; intros; lia.
  destruct ev as [o|].
  2: { injection Hrun as <- <-. exists [], (EvDone :: evs), false. unfold ended. cbn.
       rewrite !app_nil_r. split_and!; try done; [lia|by eauto|intros; lia]. }
  assert (length (results ++ [o_result o]) = S received) as Hl
    by (rewrite length_app; cbn; lia).
  destruct (Nat.eqb_spec (length (results ++ [o_result o])) n) as [En|En];
    [|destruct (earlyStable assets qname (results ++ [o_result o])) eqn:Es].
  - injection Hrun as <- <-. exists [o], evs, true. unfold ended. split_and!; try done.
    cbn. intros; lia.
  - injection Hrun as <- <-. exists [o], evs, false. unfold ended. cbn [fmap list_fmap].
    split_and!; try done; [lia|by left|cbn; intros; lia].
  - apply IH in Hrun as (os & rest & complete & -> & -> & -> & He & Hk); [|done|lia].
    exists (o :: os), rest, complete. unfold ended in *.
    cbn [fmap list_fmap] in *. rewrite !app_snoc. rewrite !app_snoc in He. split_and!; try done.
    + destruct complete; [done|]. destruct He as [? [[? ?]|?]]; auto.
    + intros [|[|k]] Hk0; [lia|exact Es|].
      specialize (Hk (S k)). rewrite app_snoc in Hk. apply Hk. cbn in Hk0. lia.
Qed.

Lemma receive_returns n evs results reports calls received :
  EvDone ∈ evs \/ (n <= received + length evs)%nat ->
  is_Some (receive assets qname n evs results reports calls received).
Proof.
  revert results reports calls received.
  induction evs as [|ev evs IH]; intros results reports calls received Hev; cbn [receive].
  - destruct Hev as [?%elem_of_nil|Hle]; [done|]. cbn in Hle.
    rewrite (proj2 (Nat.ltb_ge _ _)) by lia. by eexists.
  - destruct (received <? n)%nat; [|by eexists]. destruct ev as [o|]; [|by eexists].
    destruct (_ =? _)%nat; [by eexists|]. destruct (earlyStable _ _ _); [by eexists|].
    apply IH. rewrite elem_of_cons in Hev. cbn in Hev.
    destruct Hev as [[?|?]|?]; [done|by left|right; lia].
Qed.

(** ** Finalization *)

Lemma finalize_complete results reports c : er_complete (finalize assets qname results reports c) = c.
Proof. unfold finalize. destruct (has_answer _); [done|]. by destruct (FinalizeNegative _) as [[? ?] []]. Qed.

Lemma finalize_reports results reports c : er_reports (finalize assets qname results reports c) = reports.
Proof. unfold finalize. destruct (has_answer _); [done|]. by destruct (FinalizeNegative _) as [[? ?] []]. Qed.

(** The rcodes a negative decision can give. *)
Lemma FinalizeNegative_rcode results rcode soa ok :
  FinalizeNegative results = (rcode, soa, ok) ->
  ok = true /\ (rcode = RcodeNameError \/ rcode = RcodeSuccess) \/
  ok = false /\ rcode = RcodeServerFailure /\ soa = None.
Proof.
  rewrite FinalizeNegative_eq. cbn zeta.
  destruct (_ && _); [intros [= <- <- <-]; by auto|].
  destruct (_ && _); intros [= <- <- <-]; by auto.
Qed.

Lemma finalize_answer results reports c :
  has_answer results = true ->
  er_policy (finalize assets qname results reports c) = s_policy (select assets qname results) /\
  er_addrs (finalize assets qname results reports c) = s_addrs (select assets qname results) /\
  er_rcode (finalize assets qname results reports c) = RcodeSuccess.
Proof. intros Ha. unfold finalize. by rewrite Ha. Qed.

Lemma finalize_none results reports c :
  has_answer results = false ->
  er_policy (finalize assets qname results reports c) = "" /\
  er_addrs (finalize assets qname results reports c) = [] /\
  er_rcode (finalize assets qname results reports c) = (FinalizeNegative results).1.1.
Proof.
  intros Ha. unfold finalize. rewrite Ha.
  destruct (FinalizeNegative results) as [[rc soa] ok] eqn:E. 
  by destruct (FinalizeNegative_rcode _ _ _ _ E) as [[-> _]|(-> & -> & _)].
Qed.

Lemma has_answer_perm rs rs' : rs ≡ₚ rs' -> has_answer rs = has_answer rs'.
Proof.
  intros Hp. apply eq_true_iff_eq. rewrite !has_answer_iff. by setoid_rewrite Hp.
Qed.

Lemma nonempty_with_state_perm s rs rs' :
  rs ≡ₚ rs' -> nonempty (with_state s rs) = nonempty (with_state s rs').
Proof.
  intros Hp. apply eq_true_iff_eq. rewrite !nonempty_with_state. by setoid_rewrite Hp.
Qed.

Lemma FinalizeNegative_perm rs rs' :
  rs ≡ₚ rs' -> (FinalizeNegative rs).1.1 = (FinalizeNegative rs').1.1.
Proof.
  intros Hp. rewrite !FinalizeNegative_eq. cbn zeta.
  rewrite !(nonempty_with_state_perm _ _ _ Hp).
  destruct (_ && _); [done|]. by destruct (_ && _).
Qed.

Lemma finalize_perm rs rs' reports reports' c c' :
  rs ≡ₚ rs' ->
  let r := finalize assets qname rs reports c in
  let r' := finalize assets qname rs' reports' c' in
  er_rcode r = er_rcode r' /\ er_policy r = er_policy r' /\ er_addrs r ≡ₚ er_addrs r'.
Proof.
  intros Hp r r'. subst r r'. pose proof (has_answer_perm _ _ Hp) as Ha.
  destruct (has_answer rs) eqn:E; symmetry in Ha.
  - destruct (finalize_answer rs reports c E) as (-> & -> & ->).
    destruct (finalize_answer rs' reports' c' Ha) as (-> & -> & ->).
    by split; [|apply Select_perm].
  - destruct (finalize_none rs reports c E) as (-> & -> & ->).
    destruct (finalize_none rs' reports' c' Ha) as (-> & -> & ->).
    by rewrite (FinalizeNegative_perm _ _ Hp).
Qed.

(** The policy names tell the class of every chosen address. *)
Definition china_policy (p : string) : bool :=
  String.eqb p PolicyPreferChina || String.eqb p PolicyFallbackChina.

Lemma select_class results a :
  a ∈ s_addrs (select assets qname results) ->
  Contains (as_china assets) a = china_policy (s_policy (select assets qname results)).
Proof.
  unfold select. set (cn := Contains (as_china assets)). set (ov := Match _).
  destruct (Select_ok cn ov qname results) as (chosen & Hr & Hc & _).
  rewrite Hc. destruct Hr as [| |Hno|Hno| |]; try (by intros [_ ?]); intros Ha.
  all: apply not_true_iff_false; intros Hcn; apply Hno; exists a; split; [|done];
    (done || by exists false).
Qed.
End EarlyStable.

(** ** Theorems *)

(** An outcome of one of the engine's goroutines. *)
Definition from_worker `{GoUnicode} `{DnsLib} (e : Engine) (qname : string) (qtype : Z)
    (o : outcome) : Prop :=
  exists (W : Type) (_ : World W) i u latency s,
    e_upstreams e !! i = Some u /\ o = (worker e qname qtype i u latency s).1.

Lemma from_worker_addrs `{GoUnicode} `{DnsLib} e qname qtype o :
  from_worker e qname qtype o -> r_state (o_result o) = StateAnswer -> r_addrs (o_result o) <> [].
Proof.
  intros (W & HW & i & u & latency & s & Hu & ->). unfold worker.
  pose proof (Chase_ok (u_addr u) qname qtype (e_maxHops e) (e_attemptTimeout e) (e_udpSize e) s) as Hok.
  destruct (Chase _ _ _ _ _ _ s) as [r s']. cbn in *. apply Hok.
Qed.

Section Claims.
Context `{GoUnicode}.

(** A resolution returns.  Once every upstream has reported, or the
    context is done, at any point of the sequence of events, [Resolve] has a
    result. *)
Theorem Resolve_returns e qname evs :
  EvDone ∈ evs \/ (length (e_upstreams e) <= length evs)%nat ->
  is_Some (Resolve e qname evs).
Proof. intros Hev. by apply receive_returns. Qed.

(** C6: what a resolution consumes and when it returns.  It consumes a prefix
    of the outcomes, reports each of them once and in order, and finalizes
    exactly those; the result is marked complete exactly when all upstreams
    have reported, and otherwise the branch was stable (and had not been
    before) or the context was done. *)
Theorem Resolve_run e qname evs res calls :
  Resolve e qname evs = Some (res, calls) ->
  exists os rest,
    evs = (EvOutcome <$> os) ++ rest /\ calls = call_of <$> os /\
    res = finalize (e_assets e) qname (o_result <$> os) (report_of <$> os) (er_complete res) /\
    ended (e_assets e) qname (length (e_upstreams e)) [] os rest (er_complete res) /\
    (forall k, (0 < k < length os)%nat ->
      earlyStable (e_assets e) qname (o_result <$> take k os) = false).
Proof.
  intros Hr. apply receive_run in Hr as (os & rest & c & -> & -> & -> & He & Hk); [|done|lia].
  exists os, rest. cbn [app] in *. by rewrite finalize_complete.
Qed.

(** C5: returning early is safe.  When the branch is stable on what has
    arrived, it stays stable whatever arrives later: the policy of the full
    set is the same and its addresses begin with the ones returned early. *)
Theorem early_branch_stable assets qname results more :
  earlyStable assets qname results = true ->
  earlyStable assets qname (results ++ more) = true /\
  s_policy (select assets qname (results ++ more)) = s_policy (select assets qname results) /\
  s_addrs (select assets qname results) `prefix_of`
    s_addrs (select assets qname (results ++ more)).
Proof.
  intros Hs. pose proof (earlyStable_app _ _ _ more Hs) as Hs'.
  rewrite !earlyStable_select by done. split; [done|apply first_rule_app].
Qed.

(** C36: a complete answer does not depend on the order of arrival: two
    resolutions that received the same outcomes in different orders, and
    both waited for all of them, give the same rcode and policy and the same
    set of addresses. *)
Theorem complete_order_independent e qname os os' res res' calls calls' rest rest' :
  os ≡ₚ os' -> length os = length (e_upstreams e) ->
  Resolve e qname ((EvOutcome <$> os) ++ rest) = Some (res, calls) ->
  Resolve e qname ((EvOutcome <$> os') ++ rest') = Some (res', calls') ->
  er_complete res = true -> er_complete res' = true ->
  er_rcode res = er_rcode res' /\ er_policy res = er_policy res' /\
  er_addrs res ≡ₚ er_addrs res'.
Proof.
  intros Hp Hlen Hr Hr' Hc Hc'.
  assert (forall os rest res calls, length os = length (e_upstreams e) -> er_complete res = true ->
    Resolve e qname ((EvOutcome <$> os) ++ rest) = Some (res, calls) ->
    res = finalize (e_assets e) qname (o_result <$> os) (report_of <$> os) true) as Hfin.
  { clear. intros os rest res calls Hlen Hc Hr.
    apply receive_run in Hr as (os' & rest' & c & Hev & _ & -> & He & _); [|done|lia].
    rewrite finalize_complete in Hc. subst c. unfold ended in He. cbn in He.
    rewrite length_fmap in He. apply app_inj_1 in Hev as [Hev _]; [|by rewrite !length_fmap; congruence].
    assert (Inj eq eq EvOutcome) by (by intros ?? [= ->]).
    apply (inj (fmap EvOutcome)) in Hev as ->. done. }
  rewrite (Hfin _ _ _ _ Hlen Hc Hr).
  rewrite (Hfin os' rest' res' calls') by (done || by rewrite <-Hp).
  apply finalize_perm. by rewrite Hp.
Qed.

(** C18: a partial success is never turned into a failure.  If some upstream
    that was heard had an answer, the resolution has rcode NOERROR, a policy
    and at least one address, complete or not. *)
Theorem partial_success `{DnsLib} e qname qtype evs res calls :
  (forall o, EvOutcome o ∈ evs -> from_worker e qname qtype o) ->
  Resolve e qname evs = Some (res, calls) ->
  (exists rp, rp ∈ er_reports res /\ rp_state rp = StateAnswer) ->
  er_rcode res = RcodeSuccess /\ er_policy res <> "" /\ er_addrs res <> [].
Proof.
  intros Hw Hr (rp & Hrp & Hst).
  apply receive_run in Hr as (os & rest & c & -> & _ & -> & _); [|done|lia].
  rewrite finalize_reports in Hrp. cbn [app] in *.
  apply list_elem_of_fmap in Hrp as (o & -> & Ho). cbn in Hst.
  assert (has_answer (o_result <$> os) = true) as Ha.
  { apply has_answer_iff. exists (o_result o). split; [|done]. by apply list_elem_of_fmap_2. }
  destruct (finalize_answer (e_assets e) qname _ (report_of <$> os) c Ha) as (-> & -> & ->).
  split; [done|]. unfold select. split.
  - destruct (Select_ok (Contains (as_china (e_assets e))) (Match (as_overrides (e_assets e)))
      qname (o_result <$> os)) as (chosen & Hrule & _). by destruct Hrule.
  - apply Select_nonempty_iff.
    assert (r_addrs (o_result o) <> []) as Hne.
    { eapply (from_worker_addrs e qname qtype); [|done]. apply Hw, elem_of_app. left.
      by apply list_elem_of_fmap_2. }
    destruct (r_addrs (o_result o)) as [|a l] eqn:Ea; [done|].
    exists a, (r_china (o_result o)), (o_result o). rewrite Ea.
    split_and!; [by apply list_elem_of_fmap_2|done|done|left].
Qed.

Lemma one_side e qname evs res calls ps a :
  as_china (e_assets e) = Build ps ->
  Forall Prefix_ok ps -> Forall (fun p => tail_unmapped p = true) ps ->
  Resolve e qname evs = Some (res, calls) ->
  a ∈ er_addrs res -> Addr_ok a -> Zone a = "" ->
  existsb (fun p => Prefix_Contains p (Unmap a)) ps = china_policy (er_policy res).
Proof.
  intros HB Hok Ht Hr Ha Hao Hz.
  apply receive_run in Hr as (os & rest & c & -> & _ & -> & _); [|done|lia].
  cbn [app] in *. rewrite <-(Build_scan ps a) by done. rewrite <-HB.
  destruct (has_answer (o_result <$> os)) eqn:E.
  - destruct (finalize_answer (e_assets e) qname _ (report_of <$> os) c E) as (-> & Hs & _).
    rewrite Hs in Ha. by apply select_class.
  - destruct (finalize_none (e_assets e) qname _ (report_of <$> os) c E) as (_ & Hs & _).
    rewrite Hs in Ha. by apply elem_of_nil in Ha.
Qed.

(** The split-horizon guarantee.  With an index built from prefixes, the
    policy of an answer says on which side its addresses are: under
    "prefer_china" and "fallback_china" every address lies in one of the
    prefixes, under the two other policies none does. *)
Theorem answer_on_one_side e qname evs res calls ps a :
  as_china (e_assets e) = Build ps ->
  Forall Prefix_ok ps -> Forall (fun p => tail_unmapped p = true) ps ->
  Resolve e qname evs = Some (res, calls) ->
  a ∈ er_addrs res -> Addr_ok a -> Zone a = "" ->
  existsb (fun p => Prefix_Contains p (Unmap a)) ps = china_policy (er_policy res).
Proof. apply one_side. Qed.
End Claims.

(** ** Examples *)

Definition sample_assets : Assets :=
  mkAssets (Build sample_prefixes) (@Overrides.New ascii_tables [] ["apple.com"]).
Definition sample_upstreams : list EngineUpstream :=
  [mkUpstream (mkAddrPort (Addr4 (be_val [1; 0; 2; 53])) 53) true;
   mkUpstream (mkAddrPort (Addr4 (be_val [8; 8; 8; 8])) 53) false].
Definition sample_engine : Engine := New sample_assets sample_upstreams 1500 10 1232.

(** A network that answers every query with one address record. *)
Definition one_address (v : Z) : World unit := {|
  ctx_Err w := (None, w);
  ctx_remaining w := (None, w);
  dns_Id w := (7, w);
  others_write t own w := (own, w);
  dns_Exchange _ q _ w :=
    (Ok (set_answer new_Msg [RR_A (mkHdr "host." TypeA ClassINET 60) (be_bytes 4 v)]), w);
|}.

Definition china_ip : Z := be_val [1; 0; 3; 9].
Definition foreign_ip : Z := be_val [93; 184; 216; 34].
Definition sample_outcome (i : nat) (u : EngineUpstream) (v : Z) : outcome :=
  (@worker ascii_tables sample_dns unit (one_address v) sample_engine "host." TypeA i u 5
     (NewClient 1232, ())).1.
Definition sample_outcomes : list outcome :=
  [sample_outcome 0 (mkUpstream (mkAddrPort (Addr4 (be_val [1; 0; 2; 53])) 53) true) china_ip;
   sample_outcome 1 (mkUpstream (mkAddrPort (Addr4 (be_val [8; 8; 8; 8])) 53) false) foreign_ip].

Definition sample_resolution : EngineResult :=
  match @Resolve ascii_tables sample_engine "host." (EvOutcome <$> sample_outcomes) with
  | Some (r, _) => r
  | None => mkEngineResult "" [] 0 None 0 false []
  end.
Definition sample_calls : list report_call := call_of <$> sample_outcomes.

Lemma sample_run :
  @Resolve ascii_tables sample_engine "host." (EvOutcome <$> sample_outcomes) =
  Some (sample_resolution, sample_calls).
Proof. vm_compute. reflexivity. Qed.

Lemma Resolve_returns_witness :
  is_Some (@Resolve ascii_tables sample_engine "host." (EvOutcome <$> sample_outcomes)).
Proof. apply (@Resolve_returns ascii_tables). right. vm_compute. reflexivity. Defined.

Lemma Resolve_run_witness :
  exists os rest, EvOutcome <$> sample_outcomes = (EvOutcome <$> os) ++ rest /\
    sample_calls = call_of <$> os.
Proof.
  destruct (@Resolve_run ascii_tables sample_engine "host." _ _ _ sample_run)
    as (os & rest & Hev & Hc & _).
  exists os, rest. split; [exact Hev|exact Hc].
Defined.

Lemma early_branch_stable_witness :
  s_addrs (@select ascii_tables sample_assets "host." (o_result <$> sample_outcomes)) `prefix_of`
  s_addrs (@select ascii_tables sample_assets "host."
    ((o_result <$> sample_outcomes) ++ [sample_result true [cn_addr] 9])).
Proof.
  apply (@early_branch_stable ascii_tables sample_assets "host." (o_result <$> sample_outcomes)
    [sample_result true [cn_addr] 9]).
  vm_compute. reflexivity.
Defined.

Lemma complete_order_independent_witness :
  exists res calls,
    @Resolve ascii_tables sample_engine "host." ((EvOutcome <$> reverse sample_outcomes) ++ []) =
      Some (res, calls) /\
    er_policy sample_resolution = er_policy res /\ er_addrs sample_resolution ≡ₚ er_addrs res.
Proof.
  destruct (@Resolve ascii_tables sample_engine "host." ((EvOutcome <$> reverse sample_outcomes) ++ []))
    as [[res calls]|] eqn:E; [|vm_compute in E; discriminate E].
  exists res, calls. split; [reflexivity|].
  apply (@complete_order_independent ascii_tables sample_engine "host." sample_outcomes
    (reverse sample_outcomes) sample_resolution res sample_calls calls [] []).
  - symmetry. apply reverse_Permutation.
  - reflexivity.
  - rewrite app_nil_r. exact sample_run.
  - exact E.
  - vm_compute. reflexivity.
  - vm_compute in E. injection E as <- _. reflexivity.
Defined.

Lemma sample_from_worker o :
  EvOutcome o ∈ EvOutcome <$> sample_outcomes ->
  @from_worker ascii_tables sample_dns sample_engine "host." TypeA o.
Proof.
  intros Ho. apply list_elem_of_fmap in Ho as (o' & [= ->] & Ho).
  apply elem_of_cons in Ho as [->|Ho].
  - exists unit, (one_address china_ip), 0%nat. eexists _, 5, (NewClient 1232, ()). split; reflexivity.
  - apply list_elem_of_singleton in Ho as ->.
    exists unit, (one_address foreign_ip), 1%nat. eexists _, 5, (NewClient 1232, ()). split; reflexivity.
Qed.

Lemma partial_success_witness :
  er_rcode sample_resolution = RcodeSuccess /\ er_policy sample_resolution <> "" /\
  er_addrs sample_resolution <> [].
Proof.
  apply (@partial_success ascii_tables sample_dns sample_engine "host." TypeA
    (EvOutcome <$> sample_outcomes) sample_resolution sample_calls).
  - exact sample_from_worker.
  - exact sample_run.
  - vm_compute. eexists. split; [left|reflexivity].
Defined.

Lemma answer_on_one_side_witness :
  existsb (fun p => Prefix_Contains p (Unmap (Addr4 china_ip))) sample_prefixes =
  china_policy (er_policy sample_resolution).
Proof.
  apply (@answer_on_one_side ascii_tables sample_engine "host." (EvOutcome <$> sample_outcomes)
    sample_resolution sample_calls sample_prefixes (Addr4 china_ip)).
  - reflexivity.
  - unfold sample_prefixes. solve_concrete.
  - unfold sample_prefixes. solve_concrete.
  - exact sample_run.
  - apply (bool_decide_unpack _). vm_compute. exact I.
  - solve_concrete.
  - reflexivity.
Defined.
