(* ===== verification/Family.v ===== *)
(** * Family: addresses of the type that was asked for

    From the records of the upstreams' messages to the addresses a
    resolution returns: when the messages the network delivers have address
    records as the wire format has them, a query of type A yields IPv4
    addresses and a query of type AAAA IPv6 addresses without a zone, through
    the record scan, the chase, the fan-out and the selection. *)

From S2P Require Import Prelude Netip GoText China Overrides Dns Policy Upstream ChaseProps Engine EngineProps.

(** Addresses of the family a question asks for. *)
Definition addr_for (qtype : Z) (a : Addr) : Prop :=
  if qtype =? TypeA then exists v, a = Addr4 v /\ in_uint 32 v
  else exists v, a = Addr6 v "" /\ in_uint 128 v.

Lemma addr_for_ok qtype a : addr_for qtype a -> Addr_ok a /\ Zone a = "".
Proof. unfold addr_for. destruct (_ =? _); by intros (v & -> & ?). Qed.

(** An address record as it is unpacked from the wire: its header names its
    type and it has four or sixteen octets, or none when the record's length
    is zero. *)
Definition rr_ok (rr : RR) : Prop :=
  match rr with
  | RR_A h ip => h_rrtype h = TypeA /\ (length ip = 0%nat \/ length ip = 4%nat) /\ bytes_ok ip
  | RR_AAAA h ip => h_rrtype h = TypeAAAA /\ (length ip = 0%nat \/ length ip = 16%nat) /\ bytes_ok ip
  | _ => True
  end.

(** What the DNS library delivers has been unpacked by it. *)
Class WireLaws (W : Type) `{World W} := {
  wire_records cl q addr w resp w' :
    dns_Exchange cl q addr w = (Ok resp, w') -> Forall rr_ok (m_answer resp);
}.

#[export] Instance expired_wire : @WireLaws unit expired_world.
Proof. by constructor. Qed.

(** ** From the records to the result of a chase *)

Lemma be_val_in bs n : bytes_ok bs -> length bs = n -> 0 <= be_val bs < 256 ^ Z.of_nat n.
Proof.
  intros Hb <-. unfold be_val. rewrite <-length_reverse. by apply le_val_bounds, Forall_reverse.
Qed.

Lemma rrAddr_family rr ip :
  rr_ok rr -> rrAddr rr = (ip, true) -> addr_for (h_rrtype (Header rr)) ip.
Proof.
  destruct rr as [h bs|h bs| | | |]; cbn; try done; unfold AddrFromSlice;
    intros (-> & [Hl|Hl] & Hb); rewrite Hl; cbn; try done; intros [= <-]; eexists; (split; [done|]).
  - by apply (be_val_in bs 4).
  - by apply (be_val_in bs 16).
Qed.

Lemma scan_addrs_family qtype l : forall addrs ttl,
  Forall rr_ok l -> Forall (addr_for qtype) addrs ->
  Forall (addr_for qtype) (scan_addrs qtype l addrs ttl).1.
Proof.
  induction l as [|rr l IH]; intros addrs ttl Hl Ha; cbn [scan_addrs]; [done|].
  apply Forall_cons in Hl as [Hrr Hl].
  destruct (Z.eqb_spec (h_rrtype (Header rr)) qtype) as [<-|]; cbn [negb]; [|by apply IH].
  destruct (rrAddr rr) as [ip []] eqn:E; cbn [negb]; [|by apply IH].
  apply IH; [done|]. apply Forall_app_2; [done|]. constructor; [by apply rrAddr_family|constructor].
Qed.

Section Family.
Context `{GoUnicode} `{DnsLib}.

Lemma read_reply_family server cur qtype resp r :
  Forall rr_ok (m_answer resp) -> read_reply (blank server) cur qtype resp = Finished r ->
  Forall (addr_for qtype) (r_addrs r).
Proof.
  intros Hr. unfold read_reply. destruct (m_rcode resp =? RcodeSuccess).
  - pose proof (scan_addrs_family qtype (m_answer resp) [] 0 Hr (Forall_nil_2 _)) as Hf.
    destruct (scan_addrs _ _ _ _) as [addrs ttl]. cbn in Hf.
    destruct (nonempty addrs); [|destruct (negb _)]; intros [= <-]; cbn; [|constructor].
    apply Forall_forall. intros a Ha. rewrite Forall_forall in Hf. apply Hf.
    by apply (elem_of_dedup_loop ∅ addrs a).
  - destruct (_ =? _); intros [= <-]; constructor.
Qed.

Lemma Chase_addrs_family {W} `{WireLaws W} addr qname qtype maxHops attempt udpSize s :
  Forall (addr_for qtype) (r_addrs (Chase addr qname qtype maxHops attempt udpSize s).1).
Proof.
  apply (Chase_inv (fun r => Forall (addr_for qtype) (r_addrs r))); try by constructor.
  intros cur resp r (cl & q & w & w' & Hd). apply read_reply_family. by eapply wire_records.
Qed.

(** ** From the upstreams to the result of a resolution *)

(** The outcome is what the upstream's goroutine sends, over a network that
    keeps the wire format. *)
Definition from_wire (e : Engine) (qname : string) (qtype : Z) (o : outcome) : Prop :=
  exists (W : Type) (_ : World W) (_ : WireLaws W) i u latency s,
    e_upstreams e !! i = Some u /\ o = (worker e qname qtype i u latency s).1.

Lemma from_wire_worker e qname qtype o : from_wire e qname qtype o -> from_worker e qname qtype o.
Proof. intros (W & HW & _ & i & u & latency & s & ?). by exists W, HW, i, u, latency, s. Qed.

Lemma from_wire_family e qname qtype o :
  from_wire e qname qtype o -> Forall (addr_for qtype) (r_addrs (o_result o)).
Proof.
  intros (W & HW & HL & i & u & latency & s & _ & ->). unfold worker.
  pose proof (Chase_addrs_family (u_addr u) qname qtype (e_maxHops e) (e_attemptTimeout e) (e_udpSize e) s) as Hf.
  by destruct (Chase _ _ _ _ _ _ s).
Qed.

(** Each upstream can report, at the latest that its time is over, so that a
    resolution can end before its context does. *)
Lemma Resolve_can_end e qname qtype :
  exists evs, (forall o, EvOutcome o ∈ evs -> from_wire e qname qtype o) /\ ~ (EvDone ∈ evs) /\
    is_Some (Resolve e qname evs).
Proof.
  exists (EvOutcome <$> imap (fun i u => (worker (H1 := expired_world) e qname qtype i u 0
    (NewClient 0, ())).1) (e_upstreams e)). split_and!.
  - intros o (o' & [= ->] & Ho)%list_elem_of_fmap. apply elem_of_lookup_imap in Ho as (i & u & -> & Hu).
    by exists unit, expired_world, expired_wire, i, u, 0, (NewClient 0, ()).
  - by intros (o & [=] & _)%list_elem_of_fmap.
  - apply Resolve_returns. right. by rewrite length_fmap, length_imap.
Qed.

(** Every address of a resolution was given by an upstream in an answer. *)
Lemma Resolve_offered e qname evs res calls a :
  Resolve e qname evs = Some (res, calls) -> a ∈ er_addrs res ->
  exists o, EvOutcome o ∈ evs /\ r_state (o_result o) = StateAnswer /\ a ∈ r_addrs (o_result o).
Proof.
  intros Hr Ha. apply receive_run in Hr as (os & rest & c & -> & _ & -> & _); [|done|lia].
  cbn [app] in Ha. destruct (has_answer (o_result <$> os)) eqn:E.
  2: { destruct (finalize_none (e_assets e) qname _ (report_of <$> os) c E) as (_ & Hn & _).
       rewrite Hn in Ha. by apply elem_of_nil in Ha. }
  destruct (finalize_answer (e_assets e) qname _ (report_of <$> os) c E) as (_ & Hs & _).
  rewrite Hs in Ha. unfold select in Ha.
  destruct (Select_ok (Contains (as_china (e_assets e))) (Match (as_overrides (e_assets e))) qname
    (o_result <$> os)) as (ch & _ & _ & _ & Hsub).
  assert (a ∈ all_addrs (o_result <$> os)) as Hin
    by (eapply elem_of_submseteq; [exact Ha|by apply sublist_submseteq]).
  apply elem_of_all_addrs in Hin as (b & r & Hro & Hst & _ & Hra).
  apply list_elem_of_fmap in Hro as (o & -> & Ho). exists o. split; [|done].
  apply elem_of_app. left. by apply list_elem_of_fmap_2.
Qed.

Lemma Resolve_family e qname qtype evs res calls :
  (forall o, EvOutcome o ∈ evs -> from_wire e qname qtype o) ->
  Resolve e qname evs = Some (res, calls) -> Forall (addr_for qtype) (er_addrs res).
Proof.
  intros Hw Hr. apply Forall_forall. intros a Ha.
  destruct (Resolve_offered _ _ _ _ _ _ Hr Ha) as (o & Ho & _ & Hin).
  pose proof (from_wire_family _ _ _ _ (Hw o Ho)) as Hf. rewrite Forall_forall in Hf. by apply Hf.
Qed.
End Family.

(** ** Examples *)

#[export] Instance one_address_wire v : @WireLaws unit (one_address v).
Proof.
  constructor. intros cl q addr w resp w' [= <- _]. constructor; [|constructor].
  split; [done|]. split; [right; by rewrite length_be_bytes|]. unfold be_bytes.
  apply Forall_reverse, le_bytes_ok.
Qed.

Lemma sample_from_wire o :
  EvOutcome o ∈ EvOutcome <$> sample_outcomes ->
  @from_wire ascii_tables sample_dns sample_engine "host." TypeA o.
Proof.
  intros Ho. apply list_elem_of_fmap in Ho as (o' & [= ->] & Ho).
  apply elem_of_cons in Ho as [->|Ho].
  - exists unit, (one_address china_ip), _, 0%nat. eexists _, 5, (NewClient 1232, ()). split; reflexivity.
  - apply list_elem_of_singleton in Ho as ->.
    exists unit, (one_address foreign_ip), _, 1%nat. eexists _, 5, (NewClient 1232, ()). split; reflexivity.
Qed.
