(* ===== verification/Fanout.v ===== *)
(** * Fanout: the goroutines of a resolution

    [Engine.Resolve] of [internal/engine/engine.go] with its concurrency: a
    goroutine for every upstream that chases the name and sends its outcome
    into a channel, and the loop that receives from the channel or sees the
    context end.  [Engine.receive] is that loop over the events it sees; here
    the events come from the goroutines, in whatever order they finish. *)

From S2P Require Import Prelude Netip GoText China Overrides Dns Policy Upstream Engine EngineProps Family.

(** A goroutine: chasing, sending its outcome, and gone. *)
Inductive worker_state := Chasing | Sending (o : outcome) | Sent.

(** The loop with its variables, and its return. *)
Inductive receiver :=
| Looping (results : list Result) (reports : list Report) (calls : list report_call) (received : nat)
| Returned (res : EngineResult) (calls : list report_call).

(** [fn_heard] is the history of what the [select]s of the loop saw. *)
Record Fanout := mkFanout {
  fn_workers : list worker_state;
  fn_chan : list outcome;
  fn_done : bool;
  fn_receiver : receiver;
  fn_heard : list event;
}.

Section Fanout.
Context `{GoUnicode} `{DnsLib} (e : Engine) (qname : string) (qtype : Z).

Let n : nat := length (e_upstreams e).
Let assets : Assets := e_assets e.

(** ** The loop *)

(** The head of the loop. *)
Definition loop_head (results : list Result) (reports : list Report) (calls : list report_call)
    (received : nat) : receiver :=
  if (received <? n)%nat then Looping results reports calls received
  else Returned (finalize assets qname results reports true) calls.

(** An iteration whose [select] saw [ev]. *)
Definition iteration (ev : event) (results : list Result) (reports : list Report)
    (calls : list report_call) (received : nat) : receiver :=
  match ev with
  | EvOutcome o =>
      let calls := calls ++ [call_of o] in
      let results := results ++ [o_result o] in
      let reports := reports ++ [report_of o] in
      if (length results =? n)%nat then Returned (finalize assets qname results reports true) calls
      else if earlyStable assets qname results then
        Returned (finalize assets qname results reports false) calls
      else loop_head results reports calls (S received)
  | EvDone => Returned (finalize assets qname results reports false) calls
  end.

(** The start of the goroutines, with a channel of capacity [n]. *)
Definition fan_out : Fanout := mkFanout (replicate n Chasing) [] false (loop_head [] [] [] 0) [].

(** ** The steps *)

Definition set_worker (s : Fanout) (i : nat) (w : worker_state) : Fanout :=
  mkFanout (<[i := w]> (fn_workers s)) (fn_chan s) (fn_done s) (fn_receiver s) (fn_heard s).

(** [ch <- outcome]: the channel has room for [n]. *)
Definition send (s : Fanout) (i : nat) : option Fanout :=
  match fn_workers s !! i with
  | Some (Sending o) =>
      if (length (fn_chan s) <? n)%nat then
        Some (mkFanout (<[i := Sent]> (fn_workers s)) (fn_chan s ++ [o]) (fn_done s)
                (fn_receiver s) (fn_heard s))
      else None
  | _ => None
  end.

(** The two cases of the loop's [select]. *)
Definition select_outcome (s : Fanout) : option Fanout :=
  match fn_receiver s, fn_chan s with
  | Looping results reports calls received, o :: chan =>
      Some (mkFanout (fn_workers s) chan (fn_done s)
              (iteration (EvOutcome o) results reports calls received) (fn_heard s ++ [EvOutcome o]))
  | _, _ => None
  end.
Definition select_done (s : Fanout) : option Fanout :=
  match fn_receiver s with
  | Looping results reports calls received =>
      if fn_done s then
        Some (mkFanout (fn_workers s) (fn_chan s) true
                (iteration EvDone results reports calls received) (fn_heard s ++ [EvDone]))
      else None
  | Returned _ _ => None
  end.

(** What the goroutine of upstream [i] can come to, over a network that keeps
    the wire format. *)
Definition worker_outcome (i : nat) (o : outcome) : Prop :=
  exists (W : Type) (_ : World W) (_ : WireLaws W) u latency s,
    e_upstreams e !! i = Some u /\ o = (worker e qname qtype i u latency s).1.

Inductive fan_step : Fanout -> Fanout -> Prop :=
| fan_chased s i o :
    fn_workers s !! i = Some Chasing -> worker_outcome i o -> fan_step s (set_worker s i (Sending o))
| fan_send s i s' : send s i = Some s' -> fan_step s s'
| fan_outcome s s' : select_outcome s = Some s' -> fan_step s s'
| fan_done s s' : select_done s = Some s' -> fan_step s s'
| fan_cancel s :
    fan_step s (mkFanout (fn_workers s) (fn_chan s) true (fn_receiver s) (fn_heard s)).

Definition fan_steps : Fanout -> Fanout -> Prop := rtc fan_step.

(** ** The loop is [receive] *)

Lemma receive_iteration ev evs results reports calls received :
  (received < n)%nat ->
  receive assets qname n (ev :: evs) results reports calls received =
  match iteration ev results reports calls received with
  | Looping results reports calls received => receive assets qname n evs results reports calls received
  | Returned res calls => Some (res, calls)
  end.
Proof.
  intros Hr. cbn [receive]. rewrite (proj2 (Nat.ltb_lt _ _) Hr). destruct ev as [o|]; [|done]. cbn [iteration].
  destruct (_ =? n)%nat; [done|]. destruct (earlyStable _ _ _); [done|]. unfold loop_head.
  destruct (Nat.ltb_spec (S received) n) as [|Hge]; [done|].
  destruct evs; cbn [receive]; by rewrite (proj2 (Nat.ltb_ge _ _) Hge).
Qed.

(** What the loop was given so far leaves it where it is. *)
Definition heard_ok (evs : list event) (r : receiver) : Prop :=
  match r with
  | Looping results reports calls received => (received < n)%nat /\
      forall rest, receive assets qname n (evs ++ rest) [] [] [] 0 =
        receive assets qname n rest results reports calls received
  | Returned res calls => forall rest, receive assets qname n (evs ++ rest) [] [] [] 0 = Some (res, calls)
  end.

Lemma loop_head_ok evs results reports calls received :
  (forall rest, receive assets qname n (evs ++ rest) [] [] [] 0 =
     receive assets qname n rest results reports calls received) ->
  heard_ok evs (loop_head results reports calls received).
Proof.
  intros Hr. unfold loop_head. destruct (Nat.ltb_spec received n) as [|Hge]; [done|].
  intros rest. rewrite Hr. destruct rest; cbn [receive]; by rewrite (proj2 (Nat.ltb_ge _ _) Hge).
Qed.

Lemma iteration_ok evs ev results reports calls received :
  heard_ok evs (Looping results reports calls received) ->
  heard_ok (evs ++ [ev]) (iteration ev results reports calls received).
Proof.
  intros [Hlt Hr].
  assert (forall rest, receive assets qname n ((evs ++ [ev]) ++ rest) [] [] [] 0 =
    match iteration ev results reports calls received with
    | Looping results reports calls received => receive assets qname n rest results reports calls received
    | Returned res calls => Some (res, calls)
    end) as E by (intros rest; by rewrite app_snoc, Hr, receive_iteration).
  destruct (iteration _ _ _ _ _) as [rs rp cs k|res cs] eqn:Ei; [|exact E]. split; [|exact E].
  destruct ev as [o|]; [|discriminate Ei]. cbn [iteration] in Ei.
  destruct (_ =? n)%nat; [done|]. destruct (earlyStable _ _ _); [done|]. unfold loop_head in Ei.
  destruct (Nat.ltb_spec (S received) n); [|done]. injection Ei as _ _ _ <-. done.
Qed.

(** ** Invariant *)

Definition outcomes (evs : list event) : list outcome :=
  omap (fun ev => match ev with EvOutcome o => Some o | EvDone => None end) evs.

(** Everything that was sent, heard or still in the channel. *)
Definition sent (s : Fanout) : list outcome := outcomes (fn_heard s) ++ fn_chan s.

Record fan_ok (s : Fanout) : Prop := {
  fn_workers_n : length (fn_workers s) = n;
  fn_loop : heard_ok (fn_heard s) (fn_receiver s);
  fn_count : match fn_receiver s with
             | Looping _ _ _ received => received = length (outcomes (fn_heard s))
             | Returned _ _ => True
             end;
  fn_nodup : NoDup (o_idx <$> sent s);
  fn_sent : forall i, fn_workers s !! i = Some Sent <-> i ∈ o_idx <$> sent s;
  fn_from : forall o, o ∈ sent s -> worker_outcome (o_idx o) o;
  fn_sending : forall i o, fn_workers s !! i = Some (Sending o) -> o_idx o = i /\ worker_outcome i o;
  fn_ended : EvDone ∈ fn_heard s -> fn_done s = true;
}.

Lemma worker_outcome_idx i o : worker_outcome i o -> o_idx o = i.
Proof.
  intros (W & HW & HL & u & latency & s & _ & ->). unfold worker.
  by destruct (Chase _ _ _ _ _ _ s).
Qed.

Lemma worker_outcome_wire i o : worker_outcome i o -> from_wire e qname qtype o.
Proof. intros (W & HW & HL & u & latency & s & Hu & ->). by exists W, HW, HL, i, u, latency, s. Qed.

Lemma fan_out_ok : fan_ok fan_out.
Proof.
  split; cbn; try done.
  - by rewrite length_replicate.
  - by apply loop_head_ok.
  - unfold loop_head. by destruct (_ <? n)%nat.
  - constructor.
  - intros i. split; [intros [Hi _]%lookup_replicate; done|by intros ?%elem_of_nil].
  - by intros o ?%elem_of_nil.
  - by intros i o [? _]%lookup_replicate.
  - by intros ?%elem_of_nil.
Qed.

Lemma sent_idx_lt s i : fan_ok s -> i ∈ o_idx <$> sent s -> (i < n)%nat.
Proof. intros Hs Hi%(fn_sent s Hs). apply lookup_lt_Some in Hi. by rewrite (fn_workers_n s Hs) in Hi. Qed.

(** The channel has room for whoever sends: no goroutine is left blocked. *)
Lemma chan_room s i o :
  fan_ok s -> fn_workers s !! i = Some (Sending o) -> (length (fn_chan s) < n)%nat.
Proof.
  intros Hs Hi. assert (i ∉ o_idx <$> sent s) as Hni by (intros ?%(fn_sent s Hs); congruence).
  assert (length (i :: (o_idx <$> sent s)) <= length (seq 0 n))%nat as Hle.
  { apply submseteq_length, NoDup_submseteq; [by constructor; [|apply Hs]|].
    intros j Hj. apply elem_of_seq. apply elem_of_cons in Hj as [->|Hj].
    - apply lookup_lt_Some in Hi. rewrite (fn_workers_n s Hs) in Hi. lia.
    - apply (sent_idx_lt s j Hs) in Hj. lia. }
  rewrite length_seq in Hle. cbn in Hle. unfold sent in Hle. rewrite length_fmap, length_app in Hle. lia.
Qed.

(** ** Preservation *)

Lemma chased_ok s i o :
  fan_ok s -> fn_workers s !! i = Some Chasing -> worker_outcome i o -> fan_ok (set_worker s i (Sending o)).
Proof.
  intros Hs Hi Ho. split; cbn; try apply Hs.
  - rewrite length_insert. apply Hs.
  - intros j. rewrite <-(fn_sent s Hs). destruct (decide (i = j)) as [<-|Hne].
    + rewrite list_lookup_insert_eq by by eapply lookup_lt_Some. rewrite Hi. done.
    + by rewrite list_lookup_insert_ne.
  - intros j o'. destruct (decide (i = j)) as [<-|Hne].
    + rewrite list_lookup_insert_eq by by eapply lookup_lt_Some. intros [= <-].
      split; [by apply worker_outcome_idx|done].
    + rewrite list_lookup_insert_ne by done. apply Hs.
Qed.

Lemma send_ok s i s' : fan_ok s -> send s i = Some s' -> fan_ok s'.
Proof.
  intros Hs. unfold send. destruct (fn_workers s !! i) as [[|o|]|] eqn:Hi; try done.
  destruct (_ <? n)%nat; [|done]. intros [= <-].
  destruct (fn_sending s Hs i o Hi) as [Hidx Ho].
  assert (i ∉ o_idx <$> sent s) as Hni by (intros ?%(fn_sent s Hs); congruence).
  set (s' := mkFanout _ _ _ _ _).
  assert (sent s' = sent s ++ [o]) as Es by (unfold sent; by rewrite <-app_assoc).
  split; rewrite ?Es; try apply Hs; cbn [s' fn_workers].
  - rewrite length_insert. apply Hs.
  - rewrite fmap_app. apply NoDup_app. split; [apply Hs|]. cbn. rewrite Hidx.
    split; [|apply NoDup_singleton]. intros j Hj Hj'%list_elem_of_singleton. by subst.
  - intros j. rewrite fmap_app, elem_of_app, <-(fn_sent s Hs). cbn. rewrite Hidx, list_elem_of_singleton.
    destruct (decide (i = j)) as [<-|Hne].
    + rewrite list_lookup_insert_eq by by eapply lookup_lt_Some. naive_solver.
    + rewrite list_lookup_insert_ne by done. naive_solver.
  - intros o' [Ho'|Ho'%list_elem_of_singleton]%elem_of_app; [by apply (fn_from s Hs)|subst o'; by rewrite Hidx].
  - intros j o'. destruct (decide (i = j)) as [<-|Hne].
    + by rewrite list_lookup_insert_eq by by eapply lookup_lt_Some.
    + rewrite list_lookup_insert_ne by done. apply Hs.
Qed.

Lemma outcomes_snoc evs ev :
  outcomes (evs ++ [ev]) = outcomes evs ++ match ev with EvOutcome o => [o] | EvDone => [] end.
Proof. unfold outcomes. rewrite omap_app. by destruct ev. Qed.

Lemma iteration_received o results reports calls received :
  match iteration (EvOutcome o) results reports calls received with
  | Looping _ _ _ received' => received' = S received
  | Returned _ _ => True
  end.
Proof.
  cbn [iteration]. destruct (_ =? n)%nat; [done|]. destruct (earlyStable _ _ _); [done|].
  unfold loop_head. by destruct (_ <? n)%nat.
Qed.

Lemma select_outcome_ok s s' : fan_ok s -> select_outcome s = Some s' -> fan_ok s'.
Proof.
  intros Hs. unfold select_outcome.
  destruct (fn_receiver s) as [results reports calls received|] eqn:Er; [|done].
  destruct (fn_chan s) as [|o chan] eqn:Ec; [done|].
  pose proof (fn_loop s Hs) as Hl. pose proof (fn_count s Hs) as Hc. rewrite Er in Hl, Hc.
  apply (iteration_ok _ (EvOutcome o)) in Hl. pose proof (iteration_received o results reports calls received) as Hi.
  generalize dependent (iteration (EvOutcome o) results reports calls received). intros r Hl Hi [= <-].
  set (s' := mkFanout _ _ _ _ _).
  assert (sent s' = sent s) as Es by (unfold sent; cbn [s' fn_heard fn_chan]; by rewrite outcomes_snoc, app_snoc, Ec).
  split; rewrite ?Es; try apply Hs; cbn [s' fn_heard fn_receiver]; [done|..].
  - destruct r; [|done]. rewrite Hi, outcomes_snoc, length_app, Hc. cbn. lia.
  - intros [Hd|Hd%list_elem_of_singleton]%elem_of_app; [by apply Hs|done].
Qed.

Lemma select_done_ok s s' : fan_ok s -> select_done s = Some s' -> fan_ok s'.
Proof.
  intros Hs. unfold select_done.
  destruct (fn_receiver s) as [results reports calls received|] eqn:Er; [|done].
  destruct (fn_done s) eqn:Ed; [|done]. intros [= <-].
  pose proof (fn_loop s Hs) as Hl. rewrite Er in Hl.
  set (s' := mkFanout _ _ _ _ _).
  assert (sent s' = sent s) as Es by (unfold sent; cbn [s' fn_heard fn_chan]; by rewrite outcomes_snoc, app_nil_r).
  split; rewrite ?Es; try apply Hs; [|done|done]. by apply (iteration_ok _ EvDone) in Hl.
Qed.

Lemma fan_step_ok s s' : fan_step s s' -> fan_ok s -> fan_ok s'.
Proof.
  destruct 1; intros Hs.
  - by apply chased_ok.
  - by eapply send_ok.
  - by eapply select_outcome_ok.
  - by eapply select_done_ok.
  - split; cbn; try apply Hs. done.
Qed.

Lemma fan_reachable_ok s : fan_steps fan_out s -> fan_ok s.
Proof.
  intros Hr. pose proof fan_out_ok as Hi. revert Hi.
  induction Hr as [|s1 s2 s3 H12 _ IH]; [done|]. intros Hs. eauto using fan_step_ok.
Qed.

(** ** Progress *)

Definition chases_end : Prop :=
  forall i u, e_upstreams e !! i = Some u -> exists o, worker_outcome i o.

Lemma send_enabled s i o : fan_ok s -> fn_workers s !! i = Some (Sending o) -> is_Some (send s i).
Proof.
  intros Hs Hi. unfold send. rewrite Hi.
  by rewrite (proj2 (Nat.ltb_lt _ _) (chan_room s i o Hs Hi)).
Qed.

(** A goroutine that sends runs to its end. *)
Lemma sender_ends s i o :
  fan_ok s -> fn_workers s !! i = Some (Sending o) ->
  exists s', fan_steps s s' /\ fn_workers s' = <[i := Sent]> (fn_workers s) /\ fn_receiver s' = fn_receiver s.
Proof.
  intros Hs Hi. destruct (send_enabled s i o Hs Hi) as [s' E]. exists s'.
  split; [by apply rtc_once, fan_send with i|]. unfold send in E. rewrite Hi in E.
  destruct (_ <? n)%nat; [|done]. by injection E as <-.
Qed.

Lemma worker_ends s i :
  chases_end -> fan_ok s -> (i < n)%nat ->
  exists s', fan_steps s s' /\ fn_workers s' = <[i := Sent]> (fn_workers s) /\ fn_receiver s' = fn_receiver s.
Proof.
  intros Hend Hs Hi. rewrite <-(fn_workers_n s Hs) in Hi.
  destruct (lookup_lt_is_Some_2 _ _ Hi) as [w Hw]. destruct w as [|o|].
  - rewrite (fn_workers_n s Hs) in Hi. destruct (lookup_lt_is_Some_2 _ _ Hi) as [u Hu].
    destruct (Hend i u Hu) as [o Ho].
    destruct (sender_ends (set_worker s i (Sending o)) i o) as (s' & Hr & Hw' & Hrec).
    + by apply chased_ok.
    + cbn. apply list_lookup_insert_eq. by eapply lookup_lt_Some.
    + exists s'. split; [eapply rtc_l; [by eapply fan_chased|done]|].
      cbn in Hw'. rewrite list_insert_insert_eq in Hw'. done.
  - by apply (sender_ends s i o).
  - exists s. split; [constructor|]. by rewrite list_insert_id.
Qed.

Lemma fan_steps_ok s s' : fan_steps s s' -> fan_ok s -> fan_ok s'.
Proof. induction 1; eauto using fan_step_ok. Qed.

Lemma workers_end s k :
  chases_end -> fan_ok s -> (k <= n)%nat ->
  exists s', fan_steps s s' /\ fan_ok s' /\ fn_receiver s' = fn_receiver s /\
    forall i, (i < k)%nat -> fn_workers s' !! i = Some Sent.
Proof.
  intros Hend Hs. induction k as [|k IH]; intros Hk.
  { exists s. split_and!; [constructor|done|done|intros; lia]. }
  destruct IH as (s1 & H01 & Hs1 & Hr1 & Hw1); [lia|].
  destruct (worker_ends s1 k Hend Hs1) as (s2 & H12 & Hw2 & Hr2); [lia|].
  exists s2. split_and!; [by etrans|by eapply fan_steps_ok|congruence|]. intros i Hi. rewrite Hw2.
  destruct (decide (k = i)) as [<-|Hne].
  - apply list_lookup_insert_eq. rewrite (fn_workers_n s1 Hs1). lia.
  - rewrite list_lookup_insert_ne by done. apply Hw1. lia.
Qed.

(** When everything is sent, a loop that goes on has something to receive. *)
Lemma loop_fed s results reports calls received :
  fan_ok s -> (forall i, (i < n)%nat -> fn_workers s !! i = Some Sent) ->
  fn_receiver s = Looping results reports calls received ->
  length (fn_chan s) = (n - received)%nat /\ (received < n)%nat.
Proof.
  intros Hs Hw Hr. pose proof (fn_count s Hs) as Hc. pose proof (fn_loop s Hs) as Hl. rewrite Hr in Hc, Hl.
  destruct Hl as [Hlt _]. split; [|done].
  assert (o_idx <$> sent s ≡ₚ seq 0 n) as Hp.
  { apply NoDup_Permutation; [apply Hs|apply NoDup_seq|]. intros i. rewrite elem_of_seq. split.
    - intros Hi%(sent_idx_lt s i Hs). lia.
    - intros Hi. apply (fn_sent s Hs), Hw. lia. }
  apply Permutation_length in Hp. rewrite length_fmap, length_seq in Hp. unfold sent in Hp.
  rewrite length_app in Hp. lia.
Qed.

Lemma loop_ends k : forall s,
  fan_ok s -> (forall i, (i < n)%nat -> fn_workers s !! i = Some Sent) -> (length (fn_chan s) <= k)%nat ->
  exists s' res calls, fan_steps s s' /\ fn_receiver s' = Returned res calls /\ fn_workers s' = fn_workers s.
Proof.
  induction k as [|k IH]; intros s Hs Hw Hk;
    (destruct (fn_receiver s) as [results reports calls received|res calls] eqn:Er;
     [destruct (loop_fed s _ _ _ _ Hs Hw Er) as [Hlen Hlt]|exists s, res, calls; by split_and!; [constructor|..]]).
  { lia. }
  destruct (fn_chan s) as [|o chan] eqn:Ec; [cbn in Hlen; lia|].
  assert (is_Some (select_outcome s)) as [s1 E1] by (unfold select_outcome; rewrite Er, Ec; by eexists).
  assert (fn_workers s1 = fn_workers s /\ fn_chan s1 = chan) as [Hw1 Hc1].
  { unfold select_outcome in E1. rewrite Er, Ec in E1. by injection E1 as <-. }
  destruct (IH s1) as (s2 & res & cs & H12 & Hr2 & Hw2).
  - by eapply select_outcome_ok.
  - by rewrite Hw1.
  - rewrite Hc1. cbn in Hk. lia.
  - exists s2, res, cs. split; [eapply rtc_l; [by apply fan_outcome|done]|]. split; [done|congruence].
Qed.

(** ** Theorems *)

(** C7: the fan-out implements the loop over events.  However the goroutines,
    the channel and the end of the context interleave, what a resolution
    returns is what [Resolve] makes of a sequence of events in which every
    outcome is one of the goroutine of its upstream, no upstream reports
    twice, and the context is seen to end only if it did. *)
Theorem fan_out_refines s res calls :
  fan_steps fan_out s -> fn_receiver s = Returned res calls ->
  exists evs, Resolve e qname evs = Some (res, calls) /\
    (forall o, EvOutcome o ∈ evs -> worker_outcome (o_idx o) o /\ from_wire e qname qtype o) /\
    NoDup (o_idx <$> outcomes evs) /\ (EvDone ∈ evs -> fn_done s = true).
Proof.
  intros Hr Hret. pose proof (fan_reachable_ok s Hr) as Hs. exists (fn_heard s).
  pose proof (fn_loop s Hs) as Hl. rewrite Hret in Hl. specialize (Hl []). rewrite app_nil_r in Hl.
  split_and!; [exact Hl| | |apply Hs].
  - intros o Ho. assert (o ∈ sent s) as Hin.
    { unfold sent. apply elem_of_app. left. apply list_elem_of_omap. by exists (EvOutcome o). }
    apply (fn_from s Hs) in Hin. split; [done|]. by eapply worker_outcome_wire.
  - pose proof (fn_nodup s Hs) as Hn. unfold sent in Hn. rewrite fmap_app in Hn. by apply NoDup_app in Hn as [? _].
Qed.

(** C34: no goroutine is left behind.  At every moment, also after the
    resolution has returned early, a goroutine that has its outcome can send
    it, as the channel has room for all; and from every reachable state the
    remaining steps let every goroutine end and the resolution return. *)
Theorem no_goroutine_left s :
  chases_end -> fan_steps fan_out s ->
  (forall i o, fn_workers s !! i = Some (Sending o) -> is_Some (send s i)) /\
  exists s' res calls, fan_steps s s' /\ fn_receiver s' = Returned res calls /\
    (forall i, (i < length (e_upstreams e))%nat -> fn_workers s' !! i = Some Sent).
Proof.
  intros Hend Hr. pose proof (fan_reachable_ok s Hr) as Hs.
  split; [intros i o; by apply send_enabled|].
  destruct (workers_end s n Hend Hs) as (s1 & H01 & Hs1 & _ & Hw1); [done|].
  destruct (loop_ends (length (fn_chan s1)) s1 Hs1 Hw1) as (s2 & res & cs & H12 & Hr2 & Hw2); [done|].
  exists s2, res, cs. split_and!; [by etrans|done|]. intros i Hi. rewrite Hw2. by apply Hw1.
Qed.
End Fanout.

(** ** Example *)

(** The foreign upstream is faster. *)
Definition china_outcome : outcome := nth 0 sample_outcomes (mkOutcome (mkResult AddrZero false [] StateFailure None 0 "") 0 0).
Definition foreign_outcome : outcome := nth 1 sample_outcomes china_outcome.

Definition fan_start : Fanout := @fan_out ascii_tables sample_engine "host.".
Definition fan_chasing : Fanout := set_worker (set_worker fan_start 1 (Sending foreign_outcome)) 0 (Sending china_outcome).
Definition fan_one : Fanout := default fan_chasing (send sample_engine fan_chasing 1).
Definition fan_both : Fanout := default fan_one (send sample_engine fan_one 0).
Definition fan_heard : Fanout := default fan_both (@select_outcome ascii_tables sample_engine "host." fan_both).
Definition fan_returned : Fanout := default fan_heard (@select_outcome ascii_tables sample_engine "host." fan_heard).

Definition sample_fan_steps : Fanout -> Fanout -> Prop :=
  @fan_steps ascii_tables sample_dns sample_engine "host." TypeA.

Lemma fan_chasing_reachable : sample_fan_steps fan_start fan_chasing.
Proof.
  eapply rtc_l; [apply (fan_chased _ _ _ fan_start 1 foreign_outcome)|].
  - reflexivity.
  - exists unit, (one_address foreign_ip), _. eexists _, 5, (NewClient 1232, ()). split; reflexivity.
  - apply rtc_once. apply (fan_chased _ _ _ _ 0 china_outcome); [reflexivity|].
    exists unit, (one_address china_ip), _. eexists _, 5, (NewClient 1232, ()). split; reflexivity.
Qed.

Lemma fan_returned_reachable : sample_fan_steps fan_start fan_returned.
Proof.
  etrans; [apply fan_chasing_reachable|].
  eapply rtc_l; [apply (fan_send _ _ _ fan_chasing 1 fan_one); vm_compute; reflexivity|].
  eapply rtc_l; [apply (fan_send _ _ _ fan_one 0 fan_both); vm_compute; reflexivity|].
  eapply rtc_l; [apply (fan_outcome _ _ _ fan_both fan_heard); vm_compute; reflexivity|].
  apply rtc_once, (fan_outcome _ _ _ fan_heard fan_returned). vm_compute. reflexivity.
Qed.

Lemma sample_chases_end : @chases_end ascii_tables sample_dns sample_engine "host." TypeA.
Proof.
  intros i u Hu. eexists. exists unit, (one_address china_ip), _. eexists u, 5, (NewClient 1232, ()).
  split; [exact Hu|reflexivity].
Qed.

Lemma fan_out_refines_witness :
  exists evs res calls, fn_receiver fan_returned = Returned res calls /\
    @Resolve ascii_tables sample_engine "host." evs = Some (res, calls) /\ er_addrs res = [Addr4 china_ip].
Proof.
  destruct (fn_receiver fan_returned) as [rs rp cs k|res calls] eqn:E; [vm_compute in E; discriminate E|].
  destruct (@fan_out_refines ascii_tables sample_dns sample_engine "host." TypeA fan_returned res calls
    fan_returned_reachable E) as (evs & Hr & _).
  exists evs, res, calls. split; [reflexivity|]. split; [exact Hr|].
  vm_compute in E. injection E as <- <-. reflexivity.
Defined.

Lemma no_goroutine_left_witness :
  is_Some (send sample_engine fan_chasing 0) /\
  exists s' res calls, sample_fan_steps fan_chasing s' /\ fn_receiver s' = Returned res calls.
Proof.
  destruct (@no_goroutine_left ascii_tables sample_dns sample_engine "host." TypeA fan_chasing
    sample_chases_end fan_chasing_reachable) as (Hsend & s' & res & calls & Hr & Hret & _).
  split.
  - apply (Hsend 0%nat china_outcome). reflexivity.
  - exists s', res, calls. split; [exact Hr|exact Hret].
Defined.
