(* ===== verification/Cache.v ===== *)
(** * Cache: the LRU cache of [internal/cache/cache.go]

    The doubly linked list is a list of elements, most recently used first;
    an element is an identity (the address of its [list.Element]) and the
    entry it holds.  The index maps keys to identities, as the source's map
    holds pointers.  The clock is the injected function: its successive
    readings are [c_now 0], [c_now 1], ..., and [c_reads] counts them.

    Times are nanoseconds; a [time.Duration] is kept at 64 bits
    ([time.Time.Sub] saturates, other arithmetic wraps) and a TTL at 32.

    [lru] is the specification: an association list from which a key is
    looked up, to whose front it is moved, and from whose back victims are
    taken.  The operations refine it. *)

From S2P Require Import Prelude Netip Dns.

(** ** Data *)

Record Key := mkKey { k_name : string; k_qtype : Z }.

#[export] Instance Key_eq_dec : EqDecision Key.
Proof. solve_decision. Defined.
#[export] Instance Key_countable : Countable Key :=
  inj_countable' (fun k => (k_name k, k_qtype k)) (fun p => mkKey p.1 p.2) ltac:(by intros []).

Record Value := mkValue {
  v_rcode : Z;
  v_addrs : list Addr;
  v_soa : option SOA;
  v_ttl : Z;
  v_policy : string;
  v_expires : Z;
}.

#[export] Instance Value_eq_dec : EqDecision Value.
Proof. solve_decision. Defined.

Definition zero_Value : Value := mkValue 0 [] None 0 "" 0.

Definition IsNegative (v : Value) : bool :=
  (length (v_addrs v) =? 0)%nat && negb (v_rcode v =? RcodeServerFailure).

Record entry := mkEntry { en_key : Key; en_value : Value }.
Abbreviation element := (nat * entry)%type.

Record Cache := mkCache {
  c_max : Z;
  c_ll : list element;
  c_items : gmap Key nat;
  c_next : nat;
  c_now : nat -> Z;
  c_reads : nat;
  c_hits : Z;
  c_misses : Z;
  c_evictions : Z;
}.

(** ** Time *)

Definition max_duration : Z := 2 ^ 63 - 1.
Definition min_duration : Z := - 2 ^ 63.

(** [time.Time.Sub]. *)
Definition Sub (t u : Z) : Z := Z.max min_duration (Z.min max_duration (t - u)).

Definition with_ttl (v : Value) (ttl : Z) : Value :=
  mkValue (v_rcode v) (v_addrs v) (v_soa v) ttl (v_policy v) (v_expires v).
Definition with_expires (v : Value) (t : Z) : Value :=
  mkValue (v_rcode v) (v_addrs v) (v_soa v) (v_ttl v) (v_policy v) t.

(** The remaining lifetime, rounded up to whole seconds. *)
Definition ceil_seconds (remaining : Z) : Z :=
  uint32 (Z.quot (int64 (remaining + Second - 1)) Second).

(** ** Fields *)

Definition now (c : Cache) : Z := c_now c (c_reads c).
Definition tick (c : Cache) : Cache :=
  mkCache (c_max c) (c_ll c) (c_items c) (c_next c) (c_now c) (S (c_reads c))
    (c_hits c) (c_misses c) (c_evictions c).
Definition count (c : Cache) (hits misses evictions : Z) : Cache :=
  mkCache (c_max c) (c_ll c) (c_items c) (c_next c) (c_now c) (c_reads c)
    (int64 (c_hits c + hits)) (int64 (c_misses c + misses)) (int64 (c_evictions c + evictions)).
Definition set_ll (c : Cache) (l : list element) : Cache :=
  mkCache (c_max c) l (c_items c) (c_next c) (c_now c) (c_reads c)
    (c_hits c) (c_misses c) (c_evictions c).

(** ** The list operations of [container/list] *)

Definition drop_id (id : nat) (l : list element) : list element :=
  base.filter (fun el => el.1 <> id) l.
Definition find_id (id : nat) (l : list element) : option entry :=
  snd <$> List.find (fun el => (el.1 =? id)%nat) l.
Definition MoveToFront (id : nat) (l : list element) : list element :=
  match find_id id l with
  | Some e => (id, e) :: drop_id id l
  | None => l
  end.
Definition set_value (id : nat) (v : Value) (l : list element) : list element :=
  (fun el => if (el.1 =? id)%nat then (id, mkEntry (en_key el.2) v) else el) <$> l.

(** ** Operations *)

Definition New (maxEntries : Z) (clock : nat -> Z) : Cache :=
  mkCache maxEntries [] ∅ 0 clock 0 0 0 0.

(** [remove]: the entry's key leaves the map, the element the list. *)
Definition remove (c : Cache) (el : element) : Cache :=
  mkCache (c_max c) (drop_id el.1 (c_ll c)) (delete (en_key el.2) (c_items c)) (c_next c)
    (c_now c) (c_reads c) (c_hits c) (c_misses c) (c_evictions c).

Definition Get (c : Cache) (key : Key) : option Value * Cache :=
  match c_items c !! key with
  | None => (None, count c 0 1 0)
  | Some id =>
      match find_id id (c_ll c) with
      | None => (None, c)
      | Some e =>
          let v := en_value e in
          let remaining := Sub (v_expires v) (now c) in
          let c := tick c in
          if remaining <=? 0 then (None, count (remove c (id, e)) 0 1 1)
          else (Some (with_ttl v (ceil_seconds remaining)),
                count (set_ll c (MoveToFront id (c_ll c))) 1 0 0)
      end
  end.

(** The scan of [evictLocked] from the back, reading the clock at each
    element; [l] is reversed. *)
Fixpoint find_expired (l : list element) (clock : nat -> Z) (reads : nat)
    : option element * nat :=
  match l with
  | [] => (None, reads)
  | el :: l =>
      if v_expires (en_value el.2) <=? clock reads then (Some el, S reads)
      else find_expired l clock (S reads)
  end.

(** One iteration of [evictLocked]; [None] is the nil dereference of an empty
    list. *)
Definition evict_one (c : Cache) : option Cache :=
  let '(victim, reads) := find_expired (reverse (c_ll c)) (c_now c) (c_reads c) in
  let c := mkCache (c_max c) (c_ll c) (c_items c) (c_next c) (c_now c) reads
             (c_hits c) (c_misses c) (c_evictions c) in
  match victim with
  | Some el => Some (count (remove c el) 0 0 1)
  | None => match last (c_ll c) with
            | Some el => Some (count (remove c el) 0 0 1)
            | None => None
            end
  end.

(** The loop; an iteration removes an element, so the list's length bounds
    their number ([evict_enough]). *)
Fixpoint evict_loop (fuel : nat) (c : Cache) : option Cache :=
  if Z.of_nat (length (c_ll c)) >? c_max c then
    match fuel with
    | O => None
    | S fuel => match evict_one c with
                | Some c => evict_loop fuel c
                | None => None
                end
    end
  else Some c.
Definition evictLocked (c : Cache) : option Cache := evict_loop (length (c_ll c)) c.

Definition setLocked (c : Cache) (key : Key) (v : Value) : option Cache :=
  let v := with_expires v (now c + int64 (v_ttl v * Second)) in
  let c := tick c in
  match c_items c !! key with
  | Some id => Some (set_ll c (MoveToFront id (set_value id v (c_ll c))))
  | None =>
      let id := c_next c in
      evictLocked (mkCache (c_max c) ((id, mkEntry key v) :: c_ll c) (<[key := id]> (c_items c))
        (S id) (c_now c) (c_reads c) (c_hits c) (c_misses c) (c_evictions c))
  end.

Definition Set_ (c : Cache) (key : Key) (v : Value) (ttl : Z) : option Cache :=
  setLocked c key (with_ttl v ttl).

Definition Len (c : Cache) : nat := length (c_ll c).

Definition Flush (c : Cache) : Cache :=
  mkCache (c_max c) [] ∅ (c_next c) (c_now c) (c_reads c) (c_hits c) (c_misses c)
    (c_evictions c).

(** The loop of [sweep] from the back; [l] is the reversed list. *)
Fixpoint sweep_loop (l : list element) (t : Z) (c : Cache) : Cache :=
  match l with
  | [] => c
  | el :: l =>
      sweep_loop l t
        (if v_expires (en_value el.2) <=? t then count (remove c el) 0 0 1 else c)
  end.
Definition sweep (c : Cache) : Cache :=
  sweep_loop (reverse (c_ll c)) (now c) (tick c).

(** ** The invariant *)

Record well_linked (c : Cache) : Prop := {
  wl_ids : NoDup (c_ll c).*1;
  wl_next : forall el, el ∈ c_ll c -> (el.1 < c_next c)%nat;
  wl_items : forall k id, c_items c !! k = Some id <-> exists e, (id, e) ∈ c_ll c /\ en_key e = k;
}.

(** Well linked and within capacity. *)
Definition cache_ok (c : Cache) : Prop :=
  well_linked c /\ Z.of_nat (length (c_ll c)) <= c_max c.

Lemma ids_unique (l : list element) id e e' :
  NoDup l.*1 -> (id, e) ∈ l -> (id, e') ∈ l -> e = e'.
Proof.
  induction l as [|[i x] l IH]; cbn; [by intros _ ?%elem_of_nil|].
  rewrite NoDup_cons, !elem_of_cons. intros [Hi Hn] [E|H1] [E'|H2]; [congruence| | |by apply IH].
  - injection E as -> ->. destruct Hi. apply list_elem_of_fmap. by exists (i, e').
  - injection E' as -> ->. destruct Hi. apply list_elem_of_fmap. by exists (i, e).
Qed.

Lemma find_id_Some (l : list element) id e :
  NoDup l.*1 -> find_id id l = Some e <-> (id, e) ∈ l.
Proof.
  intros Hn. unfold find_id. split.
  - intros ([i x] & Hf & ->)%fmap_Some. apply find_some in Hf as [Hin Hi].
    apply Nat.eqb_eq in Hi. cbn in Hi. subst i. by apply list_elem_of_In.
  - intros Hin. destruct (List.find (fun el : element => (el.1 =? id)%nat) l) as [[i x]|] eqn:E; cbn.
    + apply find_some in E as [Hin' Hi]. apply Nat.eqb_eq in Hi. cbn in Hi. subst i.
      f_equal. eapply (ids_unique l id); [done|by apply list_elem_of_In|done].
    + apply list_elem_of_In in Hin. apply (find_none _ _ E) in Hin.
      apply Nat.eqb_neq in Hin. done.
Qed.

Lemma elem_of_drop_id id (l : list element) el : el ∈ drop_id id l <-> el ∈ l /\ el.1 <> id.
Proof. unfold drop_id. rewrite list_elem_of_filter. tauto. Qed.

Lemma drop_id_ids id (l : list element) : NoDup l.*1 -> NoDup (drop_id id l).*1.
Proof.
  intros Hn. eapply sublist_NoDup; [exact Hn|].
  clear Hn. unfold drop_id. induction l as [|el l IH]; [done|].
  rewrite filter_cons, fmap_cons. destruct (decide _); [rewrite fmap_cons|]; by constructor.
Qed.

Section Linked.
Context (c : Cache) (Hc : well_linked c).

Lemma items_find k id e :
  c_items c !! k = Some id -> find_id id (c_ll c) = Some e -> en_key e = k.
Proof.
  intros Hk He. apply find_id_Some in He; [|apply Hc]. apply Hc in Hk as (e' & He' & <-).
  f_equal. by eapply ids_unique; [apply Hc|..].
Qed.

Lemma items_is_find k id : c_items c !! k = Some id -> exists e, find_id id (c_ll c) = Some e /\ en_key e = k.
Proof.
  intros Hk. apply Hc in Hk as (e & He & <-). exists e. split; [|done].
  apply find_id_Some; [apply Hc|done].
Qed.

(** Elements with the same key are the same. *)
Lemma key_id id e id' e' :
  (id, e) ∈ c_ll c -> (id', e') ∈ c_ll c -> en_key e = en_key e' <-> id = id'.
Proof.
  intros He He'. split.
  - intros Hk. assert (c_items c !! en_key e = Some id) as H1 by (apply Hc; eauto).
    assert (c_items c !! en_key e' = Some id') as H2 by (apply Hc; eauto). congruence.
  - intros ->. f_equal. by eapply ids_unique; [apply Hc|..].
Qed.

Lemma remove_linked el : el ∈ c_ll c -> well_linked (remove c el).
Proof.
  destruct el as [id e]. intros Hel. unfold remove. split; cbn.
  - apply drop_id_ids, Hc.
  - intros el [? _]%elem_of_drop_id. by apply Hc.
  - intros k i. destruct (decide (k = en_key e)) as [->|Hk].
    + rewrite lookup_delete_eq. split; [done|]. intros (e' & [He' Hi]%elem_of_drop_id & Hk).
      destruct Hi. cbn. symmetry. by apply (key_id id e i e').
    + rewrite lookup_delete_ne by done. rewrite (wl_items c Hc). split.
      * intros (e' & He' & <-). exists e'. split; [|done]. apply elem_of_drop_id. split; [done|].
        cbn. intros ->. apply Hk. by apply (key_id id e' id e).
      * intros (e' & [He' _]%elem_of_drop_id & <-). eauto.
Qed.

Lemma count_linked h m e : well_linked (count c h m e).
Proof. split; apply Hc. Qed.

Lemma tick_linked : well_linked (tick c).
Proof. split; apply Hc. Qed.

(** Reordering the elements keeps the links. *)
Lemma reorder_linked l : l ≡ₚ c_ll c -> well_linked (set_ll c l).
Proof.
  intros Hp. unfold set_ll. split; cbn.
  - rewrite Hp. apply Hc.
  - intros el. rewrite Hp. apply Hc.
  - intros k id. rewrite (wl_items c Hc). by setoid_rewrite Hp.
Qed.
End Linked.

Lemma MoveToFront_perm id (l : list element) : NoDup l.*1 -> MoveToFront id l ≡ₚ l.
Proof.
  intros Hn. unfold MoveToFront. destruct (find_id id l) as [e|] eqn:E; [|done].
  apply find_id_Some in E; [|done]. unfold drop_id.
  induction l as [|[i x] l IH]; [by apply elem_of_nil in E|]. cbn in Hn.
  apply NoDup_cons in Hn as [Hi Hn]. rewrite filter_cons.
  apply elem_of_cons in E as [[= -> ->]|E].
  - rewrite decide_False by (cbn; tauto). constructor.
    clear IH Hn. induction l as [|[j y] l IH]; [done|]. cbn in Hi.
    apply not_elem_of_cons in Hi as [Hij Hi]. rewrite filter_cons_True by (cbn; congruence).
    constructor. by apply IH.
  - rewrite decide_True.
    + rewrite Permutation_swap. constructor. by apply IH.
    + cbn. intros ->. apply Hi. apply list_elem_of_fmap. by exists (id, e).
Qed.

Lemma set_value_ids id v (l : list element) : (set_value id v l).*1 = l.*1.
Proof.
  unfold set_value. rewrite <-list_fmap_compose. apply list_fmap_ext. intros i [j e] _. cbn.
  by destruct (Nat.eqb_spec j id) as [->|].
Qed.

Lemma set_value_linked c id v : well_linked c -> well_linked (set_ll c (set_value id v (c_ll c))).
Proof.
  intros Hc. split; cbn.
  - rewrite set_value_ids. apply Hc.
  - intros [j e] Hj. assert (j ∈ (set_value id v (c_ll c)).*1) as Hj'
      by (apply list_elem_of_fmap; by exists (j, e)).
    rewrite set_value_ids in Hj'. apply list_elem_of_fmap in Hj' as (el & -> & Hel). exact (wl_next c Hc el Hel).
  - intros k i. rewrite (wl_items c Hc). unfold set_value. split.
    + intros (e & He & <-).
      destruct (Nat.eqb_spec i id) as [->|Hi].
      * exists (mkEntry (en_key e) v). split; [|done]. apply list_elem_of_fmap.
        exists (id, e). split; [|done]. cbn. by rewrite Nat.eqb_refl.
      * exists e. split; [|done]. apply list_elem_of_fmap. exists (i, e). split; [|done].
        cbn. by rewrite (proj2 (Nat.eqb_neq _ _) Hi).
    + intros (e & He & <-). apply list_elem_of_fmap in He as ([j x] & E & Hx). cbn in E.
      destruct (Nat.eqb_spec j id) as [->|Hj]; injection E as -> ->; eauto.
Qed.

(** ** The specification *)

(** An association list, most recently used first, and the number of clock
    readings made. *)
Record lru := mkLru { l_list : list (Key * Value); l_reads : nat }.

Definition spec_drop (k : Key) (l : list (Key * Value)) : list (Key * Value) :=
  base.filter (fun p => p.1 <> k) l.
Fixpoint assoc (k : Key) (l : list (Key * Value)) : option Value :=
  match l with
  | [] => None
  | p :: l => if decide (p.1 = k) then Some p.2 else assoc k l
  end.

Section Spec.
Context (max : Z) (clock : nat -> Z).

(** A present key is dropped when it has expired, and otherwise moved to the
    front and returned with its remaining lifetime. *)
Definition spec_get (s : lru) (k : Key) : option Value * lru :=
  match assoc k (l_list s) with
  | None => (None, s)
  | Some v =>
      let remaining := Sub (v_expires v) (clock (l_reads s)) in
      if remaining <=? 0 then (None, mkLru (spec_drop k (l_list s)) (S (l_reads s)))
      else (Some (with_ttl v (ceil_seconds remaining)),
            mkLru ((k, v) :: spec_drop k (l_list s)) (S (l_reads s)))
  end.

(** The last expired key of the list ([l] is reversed). *)
Fixpoint spec_expired (l : list (Key * Value)) (reads : nat) : option Key * nat :=
  match l with
  | [] => (None, reads)
  | p :: l => if v_expires p.2 <=? clock reads then (Some p.1, S reads)
              else spec_expired l (S reads)
  end.

(** The victim is the least recently used expired key, or the least recently
    used one. *)
Definition spec_victim (s : lru) : option Key * nat :=
  let '(k, reads) := spec_expired (reverse (l_list s)) (l_reads s) in
  (match k with Some k => Some k | None => fst <$> last (l_list s) end, reads).

Definition spec_set (s : lru) (k : Key) (v : Value) (ttl : Z) : lru :=
  let v := with_expires (with_ttl v ttl) (clock (l_reads s) + int64 (ttl * Second)) in
  let s := mkLru (l_list s) (S (l_reads s)) in
  match assoc k (l_list s) with
  | Some _ => mkLru ((k, v) :: spec_drop k (l_list s)) (l_reads s)
  | None =>
      let s := mkLru ((k, v) :: l_list s) (l_reads s) in
      if Z.of_nat (length (l_list s)) >? max then
        match spec_victim s with
        | (Some victim, reads) => mkLru (spec_drop victim (l_list s)) reads
        | (None, reads) => mkLru (l_list s) reads
        end
      else s
  end.

Definition spec_sweep (s : lru) : lru :=
  mkLru (base.filter (fun p => clock (l_reads s) < v_expires p.2) (l_list s)) (S (l_reads s)).

Definition spec_flush (s : lru) : lru := mkLru [] (l_reads s).
End Spec.

(** ** Refinement *)

Definition abs_el (el : element) : Key * Value := (en_key el.2, en_value el.2).
Definition abs (c : Cache) : lru := mkLru (abs_el <$> c_ll c) (c_reads c).

Lemma abs_drop c el :
  well_linked c -> el ∈ c_ll c ->
  abs_el <$> drop_id el.1 (c_ll c) = spec_drop (en_key el.2) (abs_el <$> c_ll c).
Proof.
  intros Hc Hel. unfold drop_id, spec_drop.
  assert (forall x, x ∈ c_ll c -> x.1 <> el.1 <-> (abs_el x).1 <> en_key el.2) as Hx.
  { intros [i e] Hx. destruct el as [id e']. cbn. by rewrite (key_id c Hc i e id e'). }
  by apply fmap_filter_ext.
Qed.

Lemma assoc_elem k v l : assoc k l = Some v -> (k, v) ∈ l.
Proof.
  induction l as [|[k' v'] l IH]; cbn; [done|]. destruct (decide _) as [->|].
  - intros [= ->]. left.
  - intros ?%IH. by right.
Qed.

Lemma assoc_None k l : assoc k l = None <-> k ∉ l.*1.
Proof.
  induction l as [|[k' v'] l IH]; cbn; [by split; [intros _ ?%elem_of_nil|]|].
  rewrite not_elem_of_cons. destruct (decide _) as [->|]; naive_solver.
Qed.

Lemma assoc_items c k :
  well_linked c ->
  assoc k (abs_el <$> c_ll c) =
  match c_items c !! k with
  | Some id => en_value <$> find_id id (c_ll c)
  | None => None
  end.
Proof.
  intros Hc. destruct (assoc k (abs_el <$> c_ll c)) as [v|] eqn:E.
  - apply assoc_elem, list_elem_of_fmap in E as ([id e] & [= -> ->] & He).
    assert (c_items c !! en_key e = Some id) as -> by (apply Hc; eauto).
    by rewrite (proj2 (find_id_Some _ _ _ (wl_ids c Hc)) He).
  - destruct (c_items c !! k) as [id|] eqn:Ek; [|done].
    apply Hc in Ek as (e & He & <-). apply assoc_None in E. destruct E.
    apply list_elem_of_fmap. exists (abs_el (id, e)). split; [done|].
    by apply list_elem_of_fmap_2.
Qed.

Lemma find_expired_abs clock l reads :
  spec_expired clock (abs_el <$> l) reads =
  ((fun el => en_key el.2) <$> (find_expired l clock reads).1, (find_expired l clock reads).2).
Proof.
  revert reads. induction l as [|el l IH]; intros reads; [done|]. cbn.
  destruct (_ <=? _); [done|]. apply IH.
Qed.

Lemma find_expired_elem clock l reads el r :
  find_expired l clock reads = (Some el, r) -> el ∈ l.
Proof.
  revert reads. induction l as [|x l IH]; intros reads; cbn; [done|].
  destruct (_ <=? _); [intros [= -> _]; left|]. intros ?%IH. by right.
Qed.

(** What an operation must establish: the invariant, the clock and capacity
    unchanged, and the abstract state of the specification. *)
Definition simulates (c c' : Cache) (s : lru) : Prop :=
  cache_ok c' /\ c_now c' = c_now c /\ c_max c' = c_max c /\ abs c' = s.

Lemma length_drop_id id (l : list element) : (length (drop_id id l) <= length l)%nat.
Proof. apply length_filter. Qed.

Lemma length_drop_id_lt el (l : list element) :
  el ∈ l -> (length (drop_id el.1 l) < length l)%nat.
Proof.
  unfold drop_id. induction l as [|x l IH]; [by intros ?%elem_of_nil|].
  pose proof (length_filter (fun y : element => y.1 <> el.1) l).
  rewrite filter_cons. intros [->|Hin]%elem_of_cons.
  - rewrite decide_False by tauto. cbn. lia.
  - specialize (IH Hin). destruct (decide _); cbn; lia.
Qed.

Lemma abs_MoveToFront c id e :
  well_linked c -> (id, e) ∈ c_ll c ->
  abs_el <$> MoveToFront id (c_ll c) =
  (en_key e, en_value e) :: spec_drop (en_key e) (abs_el <$> c_ll c).
Proof.
  intros Hc He. unfold MoveToFront.
  rewrite (proj2 (find_id_Some _ _ _ (wl_ids c Hc)) He).
  rewrite fmap_cons. f_equal. exact (abs_drop c (id, e) Hc He).
Qed.

Lemma Get_simulates c k :
  cache_ok c ->
  (Get c k).1 = (spec_get (c_now c) (abs c) k).1 /\
  simulates c (Get c k).2 (spec_get (c_now c) (abs c) k).2.
Proof.
  intros [Hc Hs]. unfold simulates, cache_ok, Get, spec_get. cbn [l_list abs]. rewrite (assoc_items c k Hc).
  destruct (c_items c !! k) as [id|] eqn:Ek; cbn.
  2: { split; [done|]. split_and!; [by apply count_linked|done..]. }
  destruct (items_is_find c Hc k id Ek) as (e & He & <-). rewrite He. cbn.
  apply find_id_Some in He; [|apply Hc]. unfold now.
  destruct (_ <=? 0); cbn; (split; [done|]).
  - split_and!; cbn; try done.
    + apply count_linked, (remove_linked (tick c)); [by apply tick_linked|done].
    + etrans; [|exact Hs]. apply inj_le, length_drop_id.
    + unfold abs. cbn. f_equal. exact (abs_drop c (id, e) Hc He).
  - split_and!; cbn; try done.
    + apply count_linked, (reorder_linked (tick c)); [by apply tick_linked|].
      apply MoveToFront_perm, Hc.
    + by rewrite MoveToFront_perm by apply Hc.
    + unfold abs. cbn. f_equal. by apply abs_MoveToFront.
Qed.

Lemma evict_one_abs c :
  well_linked c -> c_ll c <> [] ->
  exists c' victim, evict_one c = Some c' /\ well_linked c' /\
    (length (c_ll c') < length (c_ll c))%nat /\ c_now c' = c_now c /\ c_max c' = c_max c /\
    spec_victim (c_now c) (abs c) = (Some victim, c_reads c') /\
    (abs c').(l_list) = spec_drop victim (abs c).(l_list).
Proof.
  intros Hc Hne. unfold evict_one, spec_victim. cbn [l_list l_reads abs].
  rewrite <-fmap_reverse, find_expired_abs.
  destruct (find_expired (reverse (c_ll c)) (c_now c) (c_reads c)) as [victim reads] eqn:E.
  cbn [fst snd].
  assert (exists el, el ∈ c_ll c /\ (match victim with Some el => Some el | None => last (c_ll c) end) = Some el)
    as (el & Hel & Hv).
  { destruct victim as [el|].
    - exists el. split; [|done]. apply find_expired_elem in E. by apply elem_of_reverse.
    - destruct (last (c_ll c)) as [el|] eqn:El; [|by apply last_None in El].
      exists el. split; [|done]. by apply last_Some_elem_of. }
  set (c1 := mkCache _ _ _ _ _ reads _ _ _).
  assert (well_linked c1) as H1 by (split; apply Hc).
  exists (count (remove c1 el) 0 0 1), (en_key el.2).
  split; [destruct victim; [congruence|by cbn [c1 c_ll]; rewrite Hv]|].
  split_and!; try done.
  - by apply count_linked, remove_linked.
  - by apply length_drop_id_lt.
  - cbn. f_equal. destruct victim as [el'|]; [by injection Hv as ->|]. cbn.
    by rewrite fmap_last, Hv.
  - exact (abs_drop c1 el H1 Hel).
Qed.

Lemma insert_linked c k v :
  well_linked c -> c_items c !! k = None ->
  well_linked (mkCache (c_max c) ((c_next c, mkEntry k v) :: c_ll c)
    (<[k := c_next c]> (c_items c)) (S (c_next c)) (c_now c) (c_reads c)
    (c_hits c) (c_misses c) (c_evictions c)).
Proof.
  intros Hc Hk. split; cbn.
  - apply NoDup_cons. split; [|apply Hc]. intros Hin.
    apply list_elem_of_fmap in Hin as (el & E & Hel). apply (wl_next c Hc) in Hel. lia.
  - intros el [->|Hel]%elem_of_cons; cbn; [lia|]. apply (wl_next c Hc) in Hel. lia.
  - intros k' id. destruct (decide (k' = k)) as [->|Hne].
    + rewrite lookup_insert_eq. split.
      * intros [= <-]. eexists. split; [left|done].
      * intros (e & [[= -> ->]|He]%elem_of_cons & He'); [done|].
        assert (c_items c !! k = Some id) by (apply Hc; eauto). congruence.
    + rewrite lookup_insert_ne by done. rewrite (wl_items c Hc). split.
      * intros (e & He & <-). exists e. split; [by right|done].
      * intros (e & [[= -> ->]|He]%elem_of_cons & He'); [by cbn in He'|eauto].
Qed.

Lemma drop_set_value id v (l : list element) : drop_id id (set_value id v l) = drop_id id l.
Proof.
  unfold drop_id, set_value. induction l as [|[j e] l IH]; [done|].
  rewrite fmap_cons, !filter_cons, IH. cbn.
  destruct (Nat.eqb_spec j id) as [->|Hj]; cbn.
  - by rewrite !decide_False by tauto.
  - by rewrite !decide_True by done.
Qed.

Lemma elem_of_set_value id v e (l : list element) :
  (id, e) ∈ l -> (id, mkEntry (en_key e) v) ∈ set_value id v l.
Proof.
  intros He. unfold set_value. apply list_elem_of_fmap. exists (id, e).
  split; [|done]. cbn. by rewrite Nat.eqb_refl.
Qed.

Lemma abs_replace c id e v :
  well_linked c -> (id, e) ∈ c_ll c ->
  abs_el <$> MoveToFront id (set_value id v (c_ll c)) =
  (en_key e, v) :: spec_drop (en_key e) (abs_el <$> c_ll c).
Proof.
  intros Hc He. unfold MoveToFront.
  rewrite (proj2 (find_id_Some (set_value id v (c_ll c)) id (mkEntry (en_key e) v) ltac:(by rewrite set_value_ids; apply Hc)))
    by by apply elem_of_set_value.
  rewrite drop_set_value, fmap_cons. f_equal. exact (abs_drop c (id, e) Hc He).
Qed.

Lemma evict_loop_fits fuel c :
  Z.of_nat (length (c_ll c)) <= c_max c -> evict_loop fuel c = Some c.
Proof.
  intros Hl. apply Z.ltb_ge in Hl. rewrite <-Z.gtb_ltb in Hl. destruct fuel; cbn; by rewrite Hl.
Qed.

Lemma setLocked_simulates c k v :
  cache_ok c -> 0 <= c_max c ->
  exists c', setLocked c k v = Some c' /\
    simulates c c' (spec_set (c_max c) (c_now c) (abs c) k v (v_ttl v)).
Proof.
  intros [Hc Hs] Hmax. unfold setLocked, spec_set, simulates, cache_ok.
  replace (with_ttl v (v_ttl v)) with v by by destruct v.
  unfold now. set (v' := with_expires v _). cbn [l_list l_reads abs c_items tick].
  rewrite (assoc_items c k Hc). destruct (c_items c !! k) as [id|] eqn:Ek.
  - destruct (items_is_find c Hc k id Ek) as (e & He & <-). rewrite He. cbn.
    apply find_id_Some in He; [|apply Hc]. eexists. split; [done|]. split_and!; cbn; try done.
    + apply (reorder_linked (set_ll (tick c) (set_value id v' (c_ll c)))).
      * by apply (set_value_linked (tick c)), tick_linked.
      * apply MoveToFront_perm. cbn. rewrite set_value_ids. apply Hc.
    + rewrite (MoveToFront_perm id (set_value id v' (c_ll c)))
        by (rewrite set_value_ids; apply Hc).
      unfold set_value. by rewrite length_fmap.
    + unfold abs. cbn. f_equal. by apply abs_replace.
  - pose proof (insert_linked (tick c) k v' (tick_linked c Hc) Ek) as H1. cbn in H1 |- *.
    set (c1 := mkCache _ (_ :: _) _ _ _ _ _ _ _) in *. unfold evictLocked.
    change (S (length (abs_el <$> c_ll c))) with (length (abs_el <$> c_ll c1)).
    rewrite length_fmap.
    destruct (Z.of_nat (length (c_ll c1)) >? c_max c) eqn:Eg; rewrite Z.gtb_ltb in Eg; bool_props.
    + destruct (evict_one_abs c1 H1 ltac:(done)) as
        (c' & victim & Hev & Hl & Hlen & Hn & Hm & Hvic & Habs).
      assert (Z.of_nat (length (c_ll c')) <= c_max c') as Hfit.
      { rewrite Hm. cbn in *. lia. }
      exists c'. split.
      { change (length (c_ll c1)) with (S (length (c_ll c))). cbn [evict_loop].
        change (c_max c1) with (c_max c). rewrite Z.gtb_ltb, (proj2 (Z.ltb_lt _ _)) by done.
        rewrite Hev. by apply evict_loop_fits. }
      change (mkLru ((k, v') :: (abs_el <$> c_ll c)) (S (c_reads c))) with (abs c1).
      change (c_now c1) with (c_now c) in *. rewrite Hvic.
      split_and!; try done. unfold abs in *. cbn in *. by rewrite Habs.
    + exists c1. split; [exact (evict_loop_fits (length (c_ll c1)) c1 Eg)|]. by split_and!.
Qed.

Definition dead (t : Z) (el : element) : Prop := v_expires (en_value el.2) <= t.
#[export] Instance dead_dec t el : Decision (dead t el).
Proof. unfold dead. apply _. Defined.

Lemma drop_id_filter id (ids : list nat) (l : list element) :
  base.filter (fun el => el.1 ∉ ids) (drop_id id l) = base.filter (fun el => el.1 ∉ id :: ids) l.
Proof.
  unfold drop_id. rewrite list_filter_filter. apply list_filter_iff. intros el.
  rewrite not_elem_of_cons. tauto.
Qed.

Lemma sweep_loop_ll t l c :
  well_linked c -> (forall el, el ∈ l -> el ∈ c_ll c) -> NoDup l.*1 ->
  let c' := sweep_loop l t c in
  well_linked c' /\ c_now c' = c_now c /\ c_max c' = c_max c /\ c_reads c' = c_reads c /\
  c_ll c' = base.filter (fun el => el.1 ∉ (base.filter (dead t) l).*1) (c_ll c).
Proof.
  revert c. induction l as [|el l IH]; intros c Hc Hin Hnd; cbn [sweep_loop].
  { cbn zeta. split_and!; try done. clear. induction (c_ll c) as [|x l IH]; [done|].
    rewrite filter_cons_True by (intros ?%elem_of_nil; done). by rewrite <-IH. }
  rewrite fmap_cons in Hnd. apply NoDup_cons in Hnd as [Hel Hnd].
  destruct (_ <=? t) eqn:E; bool_props.
  - set (c1 := count (remove c el) 0 0 1).
    destruct (IH c1) as (? & -> & -> & -> & ->); try done.
    + apply count_linked, remove_linked; [done|]. apply Hin. left.
    + intros x Hx. apply elem_of_drop_id. split; [apply Hin; by right|].
      intros Ex. apply Hel. rewrite <-Ex. by apply list_elem_of_fmap_2.
    + cbn zeta. split_and!; try done. rewrite filter_cons_True by done.
      rewrite fmap_cons. apply drop_id_filter.
  - destruct (IH c) as (? & -> & -> & -> & ->); try done.
    + intros x Hx. apply Hin. by right.
    + cbn zeta. split_and!; try done. rewrite (filter_cons_False _ el l); [done|].
      unfold dead. lia.
Qed.

Lemma sweep_simulates c : cache_ok c -> simulates c (sweep c) (spec_sweep (c_now c) (abs c)).
Proof.
  intros [Hc Hs]. unfold simulates, cache_ok, sweep, spec_sweep.
  destruct (sweep_loop_ll (now c) (reverse (c_ll c)) (tick c)) as (Hl & -> & -> & Hr & Hll).
  { by apply tick_linked. }
  { intros el. by rewrite elem_of_reverse. }
  { rewrite fmap_reverse, reverse_Permutation. apply Hc. }
  split_and!; try done.
  - rewrite Hll. cbn. etrans; [|exact Hs]. apply inj_le, length_filter.
  - unfold abs. rewrite Hr, Hll. cbn [c_ll tick l_list l_reads]. f_equal.
    apply fmap_filter_ext. intros [id e] He. cbn. rewrite list_elem_of_fmap. split.
    + intros Hne. apply Z.nle_gt. intros Hle. apply Hne. exists (id, e). split; [done|].
      apply list_elem_of_filter. split; [exact Hle|]. by apply elem_of_reverse.
    + intros Hlt ([id' e'] & E & [Hd Hin]%list_elem_of_filter). cbn in E. subst id'.
      rewrite elem_of_reverse in Hin.
      rewrite (ids_unique _ _ _ _ (wl_ids c Hc) He Hin) in Hlt. unfold dead in Hd.
      cbn in Hd. unfold now in Hd. lia.
Qed.

Lemma Flush_simulates c :
  cache_ok c -> 0 <= c_max c -> simulates c (Flush c) (spec_flush (abs c)).
Proof.
  intros [Hc Hs] Hm. unfold simulates, cache_ok. split_and!; try done. split; cbn; try constructor.
  - by intros el ?%elem_of_nil.
  - by rewrite lookup_empty.
  - by intros (e & ?%elem_of_nil & _).
Qed.
