(* ===== verification/CacheProps.v ===== *)
(** * CacheProps: what the cache promises

    Every sequence of operations on the linked-list cache behaves as on the
    association list of the specification; a stored value is served until it
    expires, with its remaining lifetime; and the victim of an eviction is the
    least recently used expired entry or, when none has expired, the least
    recently used one. *)

From S2P Require Import Prelude Netip Dns Cache.

(** ** Sequences of operations *)

Inductive op :=
| OpGet (k : Key)
| OpSet (k : Key) (v : Value) (ttl : Z)
| OpLen
| OpFlush
| OpSweep.

Inductive output :=
| OutValue (v : option Value)
| OutLen (n : nat)
| OutNone.

Definition step_op (c : Cache) (o : op) : option (output * Cache) :=
  match o with
  | OpGet k => let '(v, c) := Get c k in Some (OutValue v, c)
  | OpSet k v ttl => match Set_ c k v ttl with Some c => Some (OutNone, c) | None => None end
  | OpLen => Some (OutLen (Len c), c)
  | OpFlush => Some (OutNone, Flush c)
  | OpSweep => Some (OutNone, sweep c)
  end.

Fixpoint run_ops (c : Cache) (os : list op) : option (list output * Cache) :=
  match os with
  | [] => Some ([], c)
  | o :: os =>
      match step_op c o with
      | None => None
      | Some (out, c) => match run_ops c os with
                         | None => None
                         | Some (outs, c) => Some (out :: outs, c)
                         end
      end
  end.

Section Spec.
Context (max : Z) (clock : nat -> Z).

Definition spec_step (s : lru) (o : op) : output * lru :=
  match o with
  | OpGet k => let '(v, s) := spec_get clock s k in (OutValue v, s)
  | OpSet k v ttl => (OutNone, spec_set max clock s k v ttl)
  | OpLen => (OutLen (length (l_list s)), s)
  | OpFlush => (OutNone, spec_flush s)
  | OpSweep => (OutNone, spec_sweep clock s)
  end.

Fixpoint spec_ops (s : lru) (os : list op) : list output * lru :=
  match os with
  | [] => ([], s)
  | o :: os => let '(out, s) := spec_step s o in
               let '(outs, s) := spec_ops s os in
               (out :: outs, s)
  end.
End Spec.

Lemma step_simulates c o :
  cache_ok c -> 0 <= c_max c ->
  exists out c', step_op c o = Some (out, c') /\
    out = (spec_step (c_max c) (c_now c) (abs c) o).1 /\
    simulates c c' (spec_step (c_max c) (c_now c) (abs c) o).2.
Proof.
  intros Hc Hm. destruct o as [k|k v ttl| | |]; cbn [step_op spec_step].
  - pose proof (Get_simulates c k Hc) as [Ho Hs].
    destruct (Get c k) as [v c'], (spec_get _ _ k) as [v' s']. cbn in *. subst. eauto.
  - destruct (setLocked_simulates c k (with_ttl v ttl) Hc Hm) as (c' & E & Hs).
    unfold Set_. rewrite E. eauto.
  - eexists _, c. split; [done|]. cbn. rewrite length_fmap. by destruct Hc.
  - eexists _, _. split; [done|]. split; [done|]. by apply Flush_simulates.
  - eexists _, _. split; [done|]. split; [done|]. by apply sweep_simulates.
Qed.

Lemma run_simulates os : forall c,
  cache_ok c -> 0 <= c_max c ->
  exists c', run_ops c os = Some ((spec_ops (c_max c) (c_now c) (abs c) os).1, c') /\
    simulates c c' (spec_ops (c_max c) (c_now c) (abs c) os).2.
Proof.
  induction os as [|o os IH]; intros c Hc Hm; cbn [run_ops spec_ops].
  { exists c. split; [done|]. by destruct Hc. }
  destruct (step_simulates c o Hc Hm) as (out & c1 & -> & -> & Hc1 & Hn & Hmx & Ha).
  destruct (spec_step _ _ _ o) as [out s1]. cbn in *. subst s1.
  destruct (IH c1 Hc1) as (c2 & -> & Hc2 & Hn2 & Hm2 & Ha2); [lia|].
  rewrite Hn, Hmx in *. destruct (spec_ops _ _ _ os) as [outs s2]. cbn in *.
  exists c2. split; [done|]. split_and!; congruence || done.
Qed.

Lemma New_ok max clock : 0 <= max -> cache_ok (New max clock).
Proof.
  intros Hm. split; [|done]. split; cbn.
  - constructor.
  - by intros el ?%elem_of_nil.
  - intros k id. rewrite lookup_empty. split; [done|]. by intros (e & ?%elem_of_nil & _).
Qed.

(** ** Lifetimes *)

Lemma ceil_seconds_spec d ttl :
  0 < d <= ttl * Second -> ttl < 2 ^ 32 ->
  1 <= ceil_seconds d <= ttl /\ (ceil_seconds d - 1) * Second < d <= ceil_seconds d * Second.
Proof.
  intros Hd Ht. unfold ceil_seconds.
  assert (Z.quot (int64 (d + Second - 1)) Second = (d + Second - 1) / Second) as ->.
  { rewrite int64_id by (unfold in_int64, Second in *; lia).
    apply Z.quot_div_nonneg; unfold Second in *; lia. }
  assert (1 <= (d + Second - 1) / Second <= ttl) as Hq.
  { unfold Second in *. Z.to_euclidean_division_equations; lia. }
  rewrite uint32_id by (unfold in_uint; lia).
  split; [done|]. unfold Second in *. Z.to_euclidean_division_equations; lia.
Qed.

(** A clock that never goes back. *)
Definition monotone (clock : nat -> Z) : Prop :=
  forall i j, (i <= j)%nat -> clock i <= clock j.

Lemma spec_expired_Some clock l reads k r :
  spec_expired clock l reads = (Some k, r) ->
  (reads < r)%nat /\ exists p, p ∈ l /\ p.1 = k /\ v_expires p.2 <= clock (r - 1)%nat.
Proof.
  revert reads. induction l as [|p l IH]; intros reads; cbn; [done|].
  destruct (_ <=? _) eqn:E; bool_props.
  - intros [= <- <-]. split; [lia|]. exists p. split; [left|]. split; [done|].
    by replace (S reads - 1)%nat with reads by lia.
  - intros (Hr & q & Hq & ? & ?)%IH. split; [lia|]. exists q. split; [by right|done].
Qed.

Lemma spec_expired_reads clock l reads : (reads <= (spec_expired clock l reads).2)%nat.
Proof.
  revert reads. induction l as [|p l IH]; intros reads; cbn; [lia|].
  destruct (_ <=? _); cbn; [lia|]. specialize (IH (S reads)). lia.
Qed.

(** ** What the cache holds *)

Definition held (c : Cache) (k : Key) (v : Value) : Prop := (k, v) ∈ l_list (abs c).

Lemma held_drop k k' v l : (k, v) ∈ spec_drop k' l -> (k, v) ∈ l.
Proof. unfold spec_drop. by intros [_ ?]%list_elem_of_filter. Qed.

Lemma Get_held c k :
  cache_ok c -> let c' := (Get c k).2 in
  (forall k' v, held c' k' v -> held c k' v) /\ (c_reads c <= c_reads c')%nat /\
  forall v, (Get c k).1 = Some v -> exists w, held c k w /\ 0 < Sub (v_expires w) (now c) /\
    v = with_ttl w (ceil_seconds (Sub (v_expires w) (now c))).
Proof.
  intros Hc c'. destruct (Get_simulates c k Hc) as [Hv (_ & _ & _ & Ha)]. fold c' in Ha.
  change (c_reads c') with (l_reads (abs c')). unfold held. rewrite Hv, Ha. clear Hv Ha. unfold spec_get.
  destruct (assoc k (l_list (abs c))) as [w|] eqn:Ek; [|by split_and!].
  apply assoc_elem in Ek. change (c_now c (l_reads (abs c))) with (now c).
  destruct (_ <=? 0) eqn:E; bool_props; cbn [fst snd l_list l_reads]; (split; [|split; [cbn; lia|]]).
  - intros k' v. apply held_drop.
  - done.
  - intros k' v [[= -> ->]|Hin]%elem_of_cons; [done|by eapply held_drop].
  - intros v [= <-]. exists w. by split_and!.
Qed.

Lemma setLocked_held c k v c' :
  cache_ok c -> 0 <= c_max c -> setLocked c k v = Some c' ->
  (c_reads c < c_reads c')%nat /\
  forall k' w, held c' k' w ->
    held c k' w \/ k' = k /\ w = with_expires v (now c + int64 (v_ttl v * Second)).
Proof.
  intros Hc Hm Hs. destruct (setLocked_simulates c k v Hc Hm) as (c1 & E & _ & _ & _ & Ha).
  rewrite Hs in E. injection E as <-. change (c_reads c') with (l_reads (abs c')).
  unfold held. rewrite Ha. clear Ha. unfold spec_set. cbn [l_list l_reads].
  replace (with_ttl v (v_ttl v)) with v by by destruct v.
  change (c_now c (l_reads (abs c))) with (now c).
  set (v' := with_expires v _). assert (forall l k' w, (k', w) ∈ (k, v') :: l ->
    (k', w) ∈ l \/ k' = k /\ w = v') as Hcons.
  { intros l k' w [[= -> ->]|?]%elem_of_cons; auto. }
  destruct (assoc k (l_list (abs c))); cbn [l_list l_reads].
  { split; [cbn; lia|]. intros k' w [Hin|?]%Hcons; [left; by eapply held_drop|by right]. }
  destruct (_ >? _); cbn [l_list l_reads]; [|split; [cbn; lia|apply Hcons]].
  unfold spec_victim. cbn [l_list l_reads].
  pose proof (spec_expired_reads (c_now c) (reverse ((k, v') :: l_list (abs c))) (S (l_reads (abs c)))) as Hr.
  destruct (spec_expired _ _ _) as [[x|] reads]; [|destruct (last _)];
    cbn [fst snd l_reads l_list fmap option_fmap option_map] in Hr |- *;
    (split; [cbn in Hr |- *; lia|]); intros k' w Hin; apply Hcons;
    (exact Hin || by eapply held_drop).
Qed.

Lemma sweep_held c :
  cache_ok c -> (forall k v, held (sweep c) k v -> held c k v) /\ (c_reads c <= c_reads (sweep c))%nat.
Proof.
  intros Hc. destruct (sweep_simulates c Hc) as (_ & _ & _ & Ha).
  change (c_reads (sweep c)) with (l_reads (abs (sweep c))). unfold held. rewrite Ha. cbn. split; [|lia].
  by intros k v [_ ?]%list_elem_of_filter.
Qed.

Lemma Flush_held c k v : ~ held (Flush c) k v.
Proof. by intros ?%elem_of_nil. Qed.

Lemma assoc_drop_eq k l : assoc k (spec_drop k l) = None.
Proof.
  apply assoc_None. unfold spec_drop. intros Hk. apply list_elem_of_fmap in Hk as (p & -> & Hp).
  apply list_elem_of_filter in Hp as [Hne _]. done.
Qed.

Lemma assoc_drop_ne k k' l : k <> k' -> assoc k (spec_drop k' l) = assoc k l.
Proof.
  intros Hne. unfold spec_drop. induction l as [|p l IH]; [done|].
  rewrite filter_cons. cbn [assoc]. destruct (decide (p.1 <> k')) as [Hp|Hp]; cbn [assoc].
  - by rewrite IH.
  - rewrite IH. apply dec_stable in Hp. by rewrite decide_False by congruence.
Qed.

(** After a store the key has the new value, unless it was already seen to
    have expired. *)
Lemma spec_set_assoc max clock s k v ttl :
  1 <= max ->
  let e := clock (l_reads s) + int64 (ttl * Second) in
  let s' := spec_set max clock s k v ttl in
  (l_reads s < l_reads s')%nat /\
  (assoc k (l_list s') = Some (with_expires (with_ttl v ttl) e) \/
   assoc k (l_list s') = None /\ exists r, (r < l_reads s')%nat /\ e <= clock r).
Proof.
  intros Hm e s'. subst s'. unfold spec_set. cbn [l_list l_reads].
  set (v' := with_expires _ _). destruct (assoc k (l_list s)) as [w|] eqn:Ek.
  { cbn. rewrite decide_True by done. auto. }
  set (s1 := mkLru ((k, v') :: l_list s) (S (l_reads s))).
  assert (assoc k (l_list s1) = Some v') as H1 by (cbn; by rewrite decide_True).
  destruct (_ >? _) eqn:Eg; [|cbn; auto]. rewrite Z.gtb_ltb in Eg. bool_props.
  unfold spec_victim. destruct (spec_expired clock (reverse (l_list s1)) (l_reads s1)) as [o r] eqn:E.
  pose proof (spec_expired_reads clock (reverse (l_list s1)) (l_reads s1)) as Hr.
  rewrite E in Hr. cbn [snd] in Hr. cbn [l_reads s1] in Hr.
  assert (l_list s <> []) as Hne by (intros E0; rewrite E0 in Eg; cbn in Eg; lia).
  destruct o as [victim|].
  - cbn [l_list l_reads]. split; [lia|]. destruct (decide (k = victim)) as [<-|Hv];
      [|left; by rewrite assoc_drop_ne].
    right. split; [apply assoc_drop_eq|].
    apply spec_expired_Some in E as (Hlt & p & Hp & Hpk & Hexp).
    exists (r - 1)%nat. split; [lia|]. rewrite elem_of_reverse in Hp.
    apply elem_of_cons in Hp as [->|Hp]; [exact Hexp|]. exfalso.
    apply assoc_None in Ek. apply Ek. rewrite <-Hpk. by apply list_elem_of_fmap_2.
  - cbn [l_list s1]. rewrite last_cons. destruct (last (l_list s)) as [p|] eqn:El;
      [|by apply last_None in El]. cbn [fmap option_fmap option_map l_list l_reads].
    split; [lia|]. left. rewrite assoc_drop_ne; [exact H1|]. intros Hk.
    apply assoc_None in Ek. apply Ek. rewrite Hk. apply list_elem_of_fmap_2.
    by apply last_Some_elem_of.
Qed.

(** ** Victims *)

Lemma abs_keys c : well_linked c -> NoDup (l_list (abs c)).*1.
Proof.
  intros Hc. cbn. rewrite <-list_fmap_compose. apply NoDup_fmap_2_strong.
  - intros [i e] [j e'] Hi Hj Hk. cbn in Hk. apply (key_id c Hc i e j e' Hi Hj) in Hk as ->.
    f_equal. by eapply ids_unique; [apply Hc|..].
  - eapply NoDup_fmap_1, Hc.
Qed.

Lemma spec_drop_middle p A B :
  NoDup (A ++ p :: B).*1 -> spec_drop p.1 (A ++ p :: B) = A ++ B.
Proof.
  intros Hn. unfold spec_drop. rewrite filter_app, filter_cons_False by tauto.
  rewrite fmap_app, fmap_cons in Hn. apply NoDup_app in Hn as (_ & HA & HB).
  apply NoDup_cons in HB as [HB _].
  assert (forall l : list (Key * Value), (forall q, q ∈ l -> q.1 <> p.1) ->
    base.filter (fun q : Key * Value => q.1 <> p.1) l = l) as Hid.
  { clear. induction l as [|q l IH]; intros Hq; [done|]. rewrite filter_cons_True by (apply Hq; left).
    f_equal. apply IH. intros; apply Hq; by right. }
  f_equal; apply Hid; intros q Hq E.
  - apply (HA q.1); [by apply list_elem_of_fmap_2|]. rewrite E. left.
  - apply HB. rewrite <-E. by apply list_elem_of_fmap_2.
Qed.

Definition alive (t : Z) (p : Key * Value) : Prop := t < v_expires p.2.

(** With a clock that stands still, the scan finds the last expired pair. *)
Lemma spec_expired_const clock t l reads :
  (forall i, (reads <= i < reads + length l)%nat -> clock i = t) ->
  match spec_expired clock l reads with
  | (Some k, _) => exists A p B, l = A ++ p :: B /\ p.1 = k /\ v_expires p.2 <= t /\ Forall (alive t) A
  | (None, _) => Forall (alive t) l
  end.
Proof.
  revert reads. induction l as [|p l IH]; intros reads Hcl; cbn; [constructor|].
  cbn in Hcl. rewrite Hcl by lia. destruct (_ <=? t) eqn:E; bool_props.
  - exists [], p, l. split; [done|]. split; [done|]. split; [done|constructor].
  - specialize (IH (S reads) ltac:(intros; apply Hcl; lia)).
    destruct (spec_expired clock l (S reads)) as [[k|] r].
    + destruct IH as (A & q & B & -> & ? & ? & ?). exists (p :: A), q, B. by repeat constructor.
    + by constructor.
Qed.

(** The victim among the pairs of a list with distinct keys whose newest one
    is alive. *)
Lemma spec_victim_const clock t s k v l :
  l_list s = (k, v) :: l -> t < v_expires v -> NoDup (l_list s).*1 -> l <> [] ->
  (forall i, (l_reads s <= i < l_reads s + length (l_list s))%nat -> clock i = t) ->
  exists newer p older reads, spec_victim clock s = (Some p.1, reads) /\
    l = newer ++ p :: older /\ spec_drop p.1 (l_list s) = (k, v) :: newer ++ older /\
    (v_expires p.2 <= t /\ Forall (alive t) older \/ older = [] /\ Forall (alive t) l).
Proof.
  intros Hl Hv Hnd Hne Hcl. unfold spec_victim.
  pose proof (spec_expired_const clock t (reverse (l_list s)) (l_reads s)
    ltac:(intros i Hi; rewrite length_reverse in Hi; by apply Hcl)) as Hex.
  destruct (spec_expired _ _ _) as [[victim|] reads].
  - destruct Hex as (A & p & B & E & <- & Hp & HA).
    apply (f_equal reverse) in E. rewrite reverse_involutive, reverse_app, reverse_cons, <-app_assoc in E.
    rewrite Hl in E. destruct (reverse B) as [|b B'] eqn:EB; cbn in E.
    + injection E as E1 E2. subst p. cbn in Hp. lia.
    + injection E as <- E2. exists B', p, (reverse A), reads. split; [done|]. split; [done|].
      split; [|left; split; [done|by apply Forall_reverse]].
      rewrite Hl, E2 in Hnd |- *.
      change ((k, v) :: B' ++ p :: reverse A) with (((k, v) :: B') ++ p :: reverse A) in *.
      by rewrite spec_drop_middle.
  - destruct (last l) as [p|] eqn:El; [|by apply last_None in El].
    apply last_Some in El as [newer ->]. exists newer, p, [], reads.
    rewrite Hl, app_comm_cons, last_snoc in *. split; [done|]. split; [done|].
    split; [rewrite spec_drop_middle by done; by rewrite !app_nil_r|].
    right. split; [done|]. rewrite Forall_reverse in Hex.
    apply Forall_app in Hex as [[_ HA]%Forall_cons HB]. by apply Forall_app.
Qed.

(** ** Storing and looking up *)

Lemma lookup_after_store c k v ttl :
  cache_ok c -> 1 <= c_max c -> monotone (c_now c) -> 0 <= ttl < 2 ^ 32 ->
  let expires := now c + ttl * Second in
  exists c', Set_ c k v ttl = Some c' /\
    (Get c' k).1 =
      (if now c' <? expires then
         Some (with_ttl (with_expires v expires) (ceil_seconds (expires - now c')))
       else None) /\
    (now c' < expires -> 1 <= ceil_seconds (expires - now c') <= ttl /\
      (ceil_seconds (expires - now c') - 1) * Second < expires - now c'
        <= ceil_seconds (expires - now c') * Second).
Proof.
  intros Hc Hm Hmono Httl expires.
  destruct (setLocked_simulates c k (with_ttl v ttl) Hc ltac:(lia)) as (c' & Hset & Hc' & Hn & _ & Ha).
  exists c'. split; [exact Hset|].
  assert (int64 (ttl * Second) = ttl * Second) as Hi
    by (apply int64_id; unfold in_int64, Second; lia).
  pose proof (spec_set_assoc (c_max c) (c_now c) (abs c) k (with_ttl v ttl) ttl Hm) as [Hr Has].
  cbn [v_ttl with_ttl] in Ha. cbn zeta in Hr, Has. rewrite <-Ha, Hi in *.
  change (c_now c (l_reads (abs c)) + ttl * Second) with expires in *.
  change (l_reads (abs c')) with (c_reads c') in *. change (l_reads (abs c)) with (c_reads c) in *.
  assert (now c <= now c') as Hle by (unfold now; rewrite Hn; apply Hmono; lia).
  assert (0 <= expires - now c' -> Sub expires (now c') = expires - now c') as Hsub.
  { unfold Sub, max_duration, min_duration. subst expires. unfold Second. lia. }
  pose proof (Get_simulates c' k Hc') as [-> _]. unfold spec_get. rewrite Hn.
  change (c_now c (l_reads (abs c'))) with (c_now c (c_reads c')). rewrite <-Hn.
  change (c_now c' (c_reads c')) with (now c').
  split.
  - destruct Has as [-> | [-> (r & Hr' & Hexp)]].
    + cbn [v_expires with_expires]. destruct (Z.ltb_spec (now c') expires).
      * rewrite Hsub by lia. by rewrite (proj2 (Z.leb_gt _ _)) by lia.
      * rewrite (proj2 (Z.leb_le _ _)); [done|]. unfold Sub, min_duration, max_duration. lia.
    + rewrite (proj2 (Z.ltb_ge _ _)); [done|]. etrans; [exact Hexp|]. unfold now. rewrite Hn.
      apply Hmono. lia.
  - intros Hlt. apply ceil_seconds_spec; [|lia]. subst expires. lia.
Qed.

(** ** Theorems *)

(** C4: the cache refines the association list.  From an empty cache of any
    capacity that is not negative, every sequence of operations runs without
    a nil dereference and returns exactly what the specification returns; it
    ends in a state that represents the specification's, is well linked (the
    map and the list hold the same entries, one per key) and within
    capacity. *)
Theorem cache_refines_lru max clock os :
  0 <= max ->
  exists c, run_ops (New max clock) os = Some ((spec_ops max clock (mkLru [] 0) os).1, c) /\
    cache_ok c /\ c_max c = max /\ abs c = (spec_ops max clock (mkLru [] 0) os).2.
Proof.
  intros Hm. destruct (run_simulates os (New max clock) (New_ok max clock Hm) Hm)
    as (c & Hr & Hc & _ & Hmx & Ha). by exists c.
Qed.

(** A stored value is served until it expires and not after.  With a clock
    that does not go back, a lookup after a store returns the value, with the
    remaining lifetime rounded up to seconds (at least 1 and at most the TTL
    given), when its reading is before the expiry, and nothing otherwise. *)
Theorem store_then_lookup c k v ttl :
  cache_ok c -> 1 <= c_max c -> monotone (c_now c) -> 0 <= ttl < 2 ^ 32 ->
  let expires := now c + ttl * Second in
  exists c', Set_ c k v ttl = Some c' /\
    (Get c' k).1 =
      (if now c' <? expires then
         Some (with_ttl (with_expires v expires) (ceil_seconds (expires - now c')))
       else None) /\
    (now c' < expires -> 1 <= ceil_seconds (expires - now c') <= ttl /\
      (ceil_seconds (expires - now c') - 1) * Second < expires - now c'
        <= ceil_seconds (expires - now c') * Second).
Proof. apply lookup_after_store. Qed.

(** Which entry a full cache gives up.  Storing a new key in a full cache
    (the clock standing still at [t] meanwhile) removes exactly one entry: the
    least recently used of those that have expired or, when none has, the
    least recently used one; the new entry comes first and the others keep
    their order. *)
Theorem eviction_choice c k v ttl t :
  cache_ok c -> 1 <= c_max c -> Z.of_nat (Len c) = c_max c -> c_items c !! k = None ->
  0 < ttl < 2 ^ 32 ->
  (forall i, (c_reads c <= i <= c_reads c + S (Len c))%nat -> c_now c i = t) ->
  exists c' newer victim older,
    Set_ c k v ttl = Some c' /\
    l_list (abs c) = newer ++ victim :: older /\
    l_list (abs c') =
      (k, with_expires (with_ttl v ttl) (t + ttl * Second)) :: newer ++ older /\
    (v_expires victim.2 <= t /\ Forall (alive t) older \/
     older = [] /\ Forall (alive t) (l_list (abs c))).
Proof.
  intros Hc Hm Hfull Hk Httl Hcl.
  destruct (setLocked_simulates c k (with_ttl v ttl) Hc ltac:(lia)) as (c' & Hset & _ & _ & _ & Ha).
  exists c'. cbn [v_ttl with_ttl] in Ha. unfold spec_set in Ha. cbn [l_list l_reads abs] in Ha.
  destruct Hc as [Hl Hs]. rewrite (assoc_items c k Hl), Hk in Ha.
  rewrite int64_id in Ha by (unfold in_int64, Second; lia).
  rewrite (Hcl (c_reads c)) in Ha by lia.
  set (v' := with_expires _ _) in *. replace (with_ttl (with_ttl v ttl) ttl) with (with_ttl v ttl) in v' by done.
  set (s1 := mkLru ((k, v') :: (abs_el <$> c_ll c)) (S (c_reads c))) in *.
  unfold Len in *. replace (Z.of_nat (length ((k, v') :: (abs_el <$> c_ll c))) >? c_max c) with true in Ha
    by (rewrite Z.gtb_ltb; symmetry; apply Z.ltb_lt; cbn; rewrite length_fmap; lia).
  destruct (spec_victim_const (c_now c) t s1 k v' (abs_el <$> c_ll c)) as
    (newer & p & older & reads & Hvic & Hls & Hd & Hor).
  - done.
  - cbn. unfold Second. lia.
  - cbn. apply NoDup_cons. split; [|by apply abs_keys].
    apply assoc_None. by rewrite (assoc_items c k Hl), Hk.
  - destruct (c_ll c); [cbn in *; lia|done].
  - cbn. rewrite length_fmap. intros i Hi. apply Hcl. lia.
  - rewrite Hvic in Ha. exists newer, p, older. split; [exact Hset|]. split; [exact Hls|].
    rewrite Ha. cbn [l_list]. split; [exact Hd|exact Hor].
Qed.

(** ** Examples *)

Definition key_a : Key := mkKey "a" TypeA.
Definition key_b : Key := mkKey "b" TypeA.
Definition key_c : Key := mkKey "c" TypeAAAA.
Definition sample_value : Value := mkValue RcodeSuccess [Addr4 16777217] None 0 "p" 0.

(** A clock that advances half a second per reading, and a cache of two
    entries filled with "a" (again looked up) and "b". *)
Definition half_seconds (i : nat) : Z := Z.of_nat i * 500000000.
Definition sample_ops : list op :=
  [OpSet key_a sample_value 60; OpSet key_b sample_value 30; OpGet key_a].

Lemma cache_refines_lru_witness :
  exists c, run_ops (New 2 half_seconds) sample_ops =
      Some ([OutNone; OutNone; OutValue (Some (with_ttl (with_expires sample_value 60000000000) 59))], c) /\
    cache_ok c.
Proof.
  destruct (cache_refines_lru 2 half_seconds sample_ops ltac:(lia)) as (c & Hr & Hc & _).
  exists c. split; [|exact Hc]. rewrite Hr. vm_compute. reflexivity.
Defined.

(** The same cache at a standing clock. *)
Definition filled : Cache :=
  match run_ops (New 2 (fun _ => 0)) sample_ops with Some (_, c) => c | None => New 2 (fun _ => 0) end.

Lemma filled_ok : cache_ok filled.
Proof.
  destruct (run_simulates sample_ops (New 2 (fun _ => 0)) (New_ok 2 (fun _ => 0) ltac:(lia)) ltac:(cbn; lia))
    as (c & Hr & Hc & _). unfold filled. by rewrite Hr.
Qed.

Lemma store_then_lookup_witness :
  exists c', Set_ filled key_c sample_value 5 = Some c' /\
    (Get c' key_c).1 = Some (with_ttl (with_expires sample_value 5000000000) 5).
Proof.
  destruct (store_then_lookup filled key_c sample_value 5 filled_ok) as (c' & Hs & Hg & _).
  - vm_compute. discriminate.
  - intros i j Hij. unfold filled. vm_compute. discriminate.
  - lia.
  - exists c'. split; [exact Hs|]. rewrite Hg. vm_compute in Hs. injection Hs as <-.
    vm_compute. reflexivity.
Defined.

Lemma eviction_choice_witness :
  exists c' newer victim older,
    Set_ filled key_c sample_value 5 = Some c' /\
    l_list (abs filled) = newer ++ victim :: older.
Proof.
  destruct (eviction_choice filled key_c sample_value 5 0 filled_ok)
    as (c' & newer & victim & older & Hs & Hl & _).
  - vm_compute. discriminate.
  - reflexivity.
  - reflexivity.
  - lia.
  - intros i _. reflexivity.
  - exists c', newer, victim, older. split; [exact Hs|exact Hl].
Defined.
