(* ===== verification/Janitor.v ===== *)
(** * Janitor: the sweeping loop of [internal/cache/cache.go]

    [RunJanitor] over the events its [select] sees: a tick of its ticker or
    the end of its context.  The theorem says what sweeping does to the cache
    and that no lookup can tell. *)

From S2P Require Import Prelude Netip Dns Cache CacheProps.

Inductive janitor_event := Tick | CtxDone.

(** [time.NewTicker] panics unless the interval is positive. *)
Definition NewTicker_ok (interval : Z) : bool := 0 <? interval.

(** The loop: the cache when it returns or when the events end, and whether
    it has returned. *)
Fixpoint janitor_loop (c : Cache) (evs : list janitor_event) : Cache * bool :=
  match evs with
  | [] => (c, false)
  | CtxDone :: _ => (c, true)
  | Tick :: evs => janitor_loop (sweep c) evs
  end.

(** [None] is the panic. *)
Definition RunJanitor (c : Cache) (interval : Z) (evs : list janitor_event) : option (Cache * bool) :=
  if NewTicker_ok interval then Some (janitor_loop c evs) else None.

(** ** Lemmas *)

Lemma Sub_expired e t : (Sub e t <=? 0) = (e <=? t).
Proof.
  unfold Sub, min_duration, max_duration. apply eq_true_iff_eq. rewrite !Z.leb_le. lia.
Qed.

Lemma sweep_loop_evictions t l c :
  in_int64 (c_evictions c) ->
  c_evictions (sweep_loop l t c) = int64 (c_evictions c + Z.of_nat (length (base.filter (dead t) l))).
Proof.
  revert c. induction l as [|el l IH]; intros c Hc; cbn [sweep_loop].
  { rewrite int64_id; cbn; [|rewrite Z.add_0_r]; by rewrite ?Z.add_0_r. }
  rewrite filter_cons. destruct (_ <=? t) eqn:E; bool_props.
  - rewrite IH by apply int64_range. rewrite decide_True by done.
    cbn [c_evictions count remove length]. rewrite int64_add. f_equal. lia.
  - rewrite IH by done. rewrite decide_False; [done|]. unfold dead. lia.
Qed.

(** Dropping what has expired does not change what is found. *)
Lemma assoc_alive t k l :
  NoDup l.*1 ->
  assoc k (base.filter (fun p : Key * Value => t < v_expires p.2) l) =
  match assoc k l with Some v => if v_expires v <=? t then None else Some v | None => None end.
Proof.
  induction l as [|[k' v] l IH]; intros Hn; [done|]. rewrite filter_cons. cbn [assoc fst snd].
  rewrite fmap_cons in Hn. apply NoDup_cons in Hn as [Hk Hn]. specialize (IH Hn). cbn in Hk.
  destruct (decide (t < v_expires v)) as [Hv|Hv]; cbn [assoc fst snd].
  - destruct (decide (k' = k)); [|done]. by rewrite (proj2 (Z.leb_gt _ _)).
  - rewrite IH. destruct (decide (k' = k)) as [->|]; [|done].
    apply assoc_None in Hk. rewrite Hk. by rewrite (proj2 (Z.leb_le _ _)) by lia.
Qed.

Lemma sweep_Get c k :
  cache_ok c -> monotone (c_now c) -> (Get (sweep c) k).1 = (Get (tick c) k).1.
Proof.
  intros Hc Hm. destruct (sweep_simulates c Hc) as (Hs & Hn & _ & Ha).
  assert (cache_ok (tick c)) as Ht by (destruct Hc; split; [by apply tick_linked|done]).
  rewrite (proj1 (Get_simulates _ k Hs)), (proj1 (Get_simulates _ k Ht)), Hn, Ha.
  unfold spec_get, spec_sweep. cbn [l_list l_reads abs].
  rewrite assoc_alive by apply (abs_keys c), Hc. cbn [c_ll tick c_now c_reads].
  destruct (assoc k (abs_el <$> c_ll c)) as [v|]; [|done].
  destruct (Z.leb_spec (v_expires v) (c_now c (c_reads c))) as [Hv|Hv];
    [|by destruct (_ <=? 0)].
  pose proof (Hm (c_reads c) (S (c_reads c)) ltac:(lia)). by rewrite Sub_expired, (proj2 (Z.leb_le _ _)) by lia.
Qed.

Lemma dead_or_alive t (l : list element) :
  Z.of_nat (length (base.filter (dead t) l)) =
  Z.of_nat (length l) - Z.of_nat (length (base.filter (fun p : Key * Value => t < v_expires p.2) (abs_el <$> l))).
Proof.
  induction l as [|el l IH]; [done|]. rewrite fmap_cons, !filter_cons. cbn [abs_el snd length].
  unfold dead at 1. destruct (decide (_ <= t)), (decide (t < _)); cbn [length]; lia.
Qed.

(** ** Theorems *)

(** C22: what a sweep does.  Exactly the entries that have expired at the time
    of the sweep are gone, each counted as an eviction; the others keep their
    values and their order of use; and no lookup can tell: it returns what it
    would have returned without the sweep. *)
Theorem sweep_spec c :
  cache_ok c -> monotone (c_now c) -> in_int64 (c_evictions c) ->
  let c' := sweep c in
  cache_ok c' /\
  l_list (abs c') = base.filter (fun p => now c < v_expires p.2) (l_list (abs c)) /\
  c_evictions c' = int64 (c_evictions c + (Z.of_nat (Len c) - Z.of_nat (Len c'))) /\
  forall k, (Get c' k).1 = (Get (tick c) k).1.
Proof.
  intros Hc Hm He c'. destruct (sweep_simulates c Hc) as (Hs & _ & _ & Ha). fold c' in Hs, Ha.
  assert (l_list (abs c') = base.filter (fun p => now c < v_expires p.2) (l_list (abs c))) as Hl
    by by rewrite Ha.
  split_and!; [done..| |intros k; by apply sweep_Get].
  unfold c', sweep. rewrite sweep_loop_evictions by done. cbn [c_evictions tick]. do 2 f_equal.
  change (Len (sweep_loop _ _ _)) with (Len c').
  assert (length (base.filter (dead (now c)) (reverse (c_ll c))) =
    length (base.filter (dead (now c)) (c_ll c))) as -> by by rewrite reverse_Permutation.
  rewrite dead_or_alive.
  replace (Len c') with (length (l_list (abs c'))) by apply length_fmap.
  rewrite Hl. unfold Len. cbn [l_list abs]. lia.
Qed.

(** The loop sweeps once per tick until its context is done, and then
    returns. *)
Theorem janitor_runs c interval n evs :
  0 < interval ->
  RunJanitor c interval (replicate n Tick ++ CtxDone :: evs) = Some (Nat.iter n sweep c, true).
Proof.
  intros Hi. unfold RunJanitor, NewTicker_ok. rewrite (proj2 (Z.ltb_lt _ _)) by done. f_equal.
  revert c. induction n as [|n IH]; intros c; [done|]. cbn [replicate app janitor_loop].
  rewrite IH. f_equal. by rewrite Nat.iter_succ_r.
Qed.

(** ** Example *)

Lemma sweep_spec_witness :
  l_list (abs (sweep filled)) = base.filter (fun p => 0 < v_expires p.2) (l_list (abs filled)).
Proof.
  destruct (sweep_spec filled filled_ok) as (_ & Hl & _).
  - intros i j _. vm_compute. discriminate.
  - vm_compute. split; [discriminate|reflexivity].
  - exact Hl.
Defined.

Lemma janitor_runs_witness : exists c, RunJanitor filled 30 [Tick; Tick; CtxDone] = Some (c, true).
Proof. eexists. apply (janitor_runs filled 30 2 []). lia. Defined.
