(* ===== verification/Flight.v ===== *)
(** * Flight: the coalescing of [internal/cache/flight.go]

    [Do] as a state machine.  A caller enters with the lock held and either
    joins the flight of its key or starts one and leads it; a leader runs its
    function without the lock, then takes it again to publish the value,
    forget the flight and store the value, and closes the flight's channel
    after releasing it; a waiter returns when the channel is closed or when
    its own context is done.  Each step is what happens in one critical
    section or one channel operation, so an execution of any number of
    goroutines is a sequence of steps.  The cache's other operations (lookups,
    stores, sweeps and flushes) may happen in between. *)

From S2P Require Import Prelude Netip Dns Upstream Cache CacheProps.

Record flight := mkFlight { f_done : bool; f_v : Value }.

(** Where a caller of [Do] is; [Returned] remembers its flight. *)
Inductive phase :=
| Waiting (key : Key) (f : nat)
| Leading (key : Key) (f : nat)
| Closing (key : Key) (f : nat) (v : Value)
| Returned (f : nat) (r : result ctx_error Value).

Record System := mkSystem {
  s_cache : Cache;
  s_flights : gmap Key nat;
  s_store : gmap nat flight;
  s_next : nat;
  s_callers : gmap nat phase;
}.

Definition init (c : Cache) : System := mkSystem c ∅ ∅ 0 ∅.

(** ** The steps of [Do] *)

(** The first critical section, for a new caller [i]. *)
Definition Do_enter (s : System) (i : nat) (key : Key) : System :=
  match s_flights s !! key with
  | Some f =>
      mkSystem (s_cache s) (s_flights s) (s_store s) (s_next s)
        (<[i := Waiting key f]> (s_callers s))
  | None =>
      let f := s_next s in
      mkSystem (s_cache s) (<[key := f]> (s_flights s))
        (<[f := mkFlight false zero_Value]> (s_store s)) (S f)
        (<[i := Leading key f]> (s_callers s))
  end.

(** The second critical section, when the leader's function has returned
    [v] and [cacheable]. *)
Definition Do_finish (s : System) (i : nat) (v : Value) (cacheable : bool) : option System :=
  match s_callers s !! i with
  | Some (Leading key f) =>
      let store := alter (fun fl => mkFlight (f_done fl) v) f (s_store s) in
      let flights := delete key (s_flights s) in
      match (if cacheable then setLocked (s_cache s) key v else Some (s_cache s)) with
      | Some c =>
          Some (mkSystem c flights store (s_next s) (<[i := Closing key f v]> (s_callers s)))
      | None => None
      end
  | _ => None
  end.

(** [close(f.done)] and the leader's return. *)
Definition Do_close (s : System) (i : nat) : option System :=
  match s_callers s !! i with
  | Some (Closing _ f v) =>
      Some (mkSystem (s_cache s) (s_flights s)
        (alter (fun fl => mkFlight true (f_v fl)) f (s_store s)) (s_next s)
        (<[i := Returned f (Ok v)]> (s_callers s)))
  | _ => None
  end.

(** A waiter's [select]: the flight's channel is closed, or its own context
    is done. *)
Definition Do_wake (s : System) (i : nat) : option System :=
  match s_callers s !! i with
  | Some (Waiting _ f) =>
      match s_store s !! f with
      | Some fl =>
          if f_done fl then
            Some (mkSystem (s_cache s) (s_flights s) (s_store s) (s_next s)
              (<[i := Returned f (Ok (f_v fl))]> (s_callers s)))
          else None
      | None => None
      end
  | _ => None
  end.
Definition Do_cancel (s : System) (i : nat) (e : ctx_error) : option System :=
  match s_callers s !! i with
  | Some (Waiting _ f) =>
      Some (mkSystem (s_cache s) (s_flights s) (s_store s) (s_next s)
        (<[i := Returned f (Err e)]> (s_callers s)))
  | _ => None
  end.

Definition with_cache (s : System) (c : Cache) : System :=
  mkSystem c (s_flights s) (s_store s) (s_next s) (s_callers s).

Inductive step : System -> System -> Prop :=
| step_enter s i key : s_callers s !! i = None -> step s (Do_enter s i key)
| step_finish s i v cacheable s' : Do_finish s i v cacheable = Some s' -> step s s'
| step_close s i s' : Do_close s i = Some s' -> step s s'
| step_wake s i s' : Do_wake s i = Some s' -> step s s'
| step_cancel s i e s' : Do_cancel s i e = Some s' -> step s s'
| step_cache s o out c : step_op (s_cache s) o = Some (out, c) -> step s (with_cache s c).

Definition steps : System -> System -> Prop := rtc step.

(** ** The invariant *)

Definition owns (p : phase) (f : nat) : Prop :=
  match p with
  | Leading _ g | Closing _ g _ => g = f
  | _ => False
  end.

(** What a caller's phase says about its flight. *)
Definition phase_ok (s : System) (p : phase) : Prop :=
  match p with
  | Waiting _ f => exists fl, s_store s !! f = Some fl /\
      (f_done fl = true \/ exists j q, s_callers s !! j = Some q /\ owns q f)
  | Leading key f => s_flights s !! key = Some f /\
      exists fl, s_store s !! f = Some fl /\ f_done fl = false
  | Closing _ f v => s_store s !! f = Some (mkFlight false v)
  | Returned f (Ok v) => s_store s !! f = Some (mkFlight true v)
  | Returned _ (Err _) => True
  end.

Record flights_ok (s : System) : Prop := {
  fo_phase : forall i p, s_callers s !! i = Some p -> phase_ok s p;
  fo_leader : forall key f, s_flights s !! key = Some f ->
    exists i, s_callers s !! i = Some (Leading key f);
  fo_owner : forall i j p q f, s_callers s !! i = Some p -> s_callers s !! j = Some q ->
    owns p f -> owns q f -> i = j;
  fo_next : forall f, (s_next s <= f)%nat -> s_store s !! f = None;
  fo_cache : cache_ok (s_cache s) /\ 0 <= c_max (s_cache s);
}.

(** Replacing the phase of one caller by one that owns the same flights. *)
Lemma callers_cases (m : gmap nat phase) i p j q :
  <[i := p]> m !! j = Some q -> j = i /\ q = p \/ j <> i /\ m !! j = Some q.
Proof.
  destruct (decide (i = j)) as [->|Hne].
  - rewrite lookup_insert_eq. intros [= ->]. auto.
  - rewrite lookup_insert_ne by done. auto.
Qed.

Lemma owner_kept (m : gmap nat phase) i p f :
  (forall q, m !! i = Some q -> owns q f -> owns p f) ->
  (exists j q, m !! j = Some q /\ owns q f) ->
  exists j q, <[i := p]> m !! j = Some q /\ owns q f.
Proof.
  intros Hp (j & q & Hj & Hq). destruct (decide (i = j)) as [->|Hne].
  - exists j, p. rewrite lookup_insert_eq. eauto.
  - exists j, q. by rewrite lookup_insert_ne.
Qed.

Section Preservation.
Context (s : System) (Hs : flights_ok s).

(** A caller that finds a flight waits for it. *)
Lemma enter_waits i key f : s_callers s !! i = None -> s_flights s !! key = Some f ->
  flights_ok (Do_enter s i key).
Proof.
  intros Hi Ef. unfold Do_enter. rewrite Ef.
  assert (forall g, (exists j q, s_callers s !! j = Some q /\ owns q g) ->
    exists j q, <[i := Waiting key f]> (s_callers s) !! j = Some q /\ owns q g) as Hown
    by (intros g; apply owner_kept; by rewrite Hi).
  split; cbn.
  - intros j p [[-> ->]|[Hne Hj]]%callers_cases.
    + destruct (fo_leader s Hs key f Ef) as [l Hl].
      destruct (fo_phase s Hs l _ Hl) as (_ & fl & Hfl & _). exists fl. split; [done|].
      right. apply Hown. exists l, (Leading key f). done.
    + pose proof (fo_phase s Hs j p Hj) as Hp. destruct p as [k g|k g|k g v|g [v|e]]; try done.
      destruct Hp as (fl & Hfl & [Hd|Ho]); exists fl; cbn; auto.
  - intros k g (j & Hj)%(fo_leader s Hs). exists j. rewrite lookup_insert_ne; [done|].
    intros ->. congruence.
  - intros j l p q g [[-> ->]|[_ Hj]]%callers_cases [[-> ->]|[_ Hl]]%callers_cases Hp Hq;
      try done. by eapply (fo_owner s Hs).
  - apply Hs.
  - apply Hs.
Qed.

(** A caller that finds none starts one. *)
Lemma enter_leads i key : s_callers s !! i = None -> s_flights s !! key = None ->
  flights_ok (Do_enter s i key).
Proof.
  intros Hi Ef. unfold Do_enter. rewrite Ef.
  set (f := s_next s). assert (s_store s !! f = None) as Hnew by (apply Hs; unfold f; lia).
  assert (forall g, is_Some (s_store s !! g) -> g <> f) as Hold by (intros g [? ?] ->; congruence).
  split; cbn.
  - intros j p [[-> ->]|[Hne Hj]]%callers_cases.
    + cbn. rewrite lookup_insert_eq. split; [done|]. eexists. by rewrite lookup_insert_eq.
    + pose proof (fo_phase s Hs j p Hj) as Hp. destruct p as [k g|k g|k g v|g [v|e]]; try done; cbn in *.
      * destruct Hp as (fl & Hfl & Ho). exists fl. rewrite lookup_insert_ne by (symmetry; eauto).
         split; [done|]. destruct Ho as [|Ho]; [by left|right]. apply owner_kept; [by rewrite Hi|done].
      * destruct Hp as (Hk & fl & Hfl & Hd). rewrite lookup_insert_ne by (intros ->; congruence).
         split; [done|]. exists fl. rewrite lookup_insert_ne by (symmetry; eauto). done.
      * rewrite lookup_insert_ne by (symmetry; eauto). done.
      * rewrite lookup_insert_ne by (symmetry; eauto). done.
  - intros k g. destruct (decide (k = key)) as [->|Hk].
    + rewrite lookup_insert_eq. intros [= <-]. exists i. by rewrite lookup_insert_eq.
    + rewrite lookup_insert_ne by done. intros (j & Hj)%(fo_leader s Hs). exists j.
      rewrite lookup_insert_ne; [done|]. intros ->. congruence.
  - intros j l p q g [[-> ->]|[_ Hj]]%callers_cases [[-> ->]|[_ Hl]]%callers_cases Hp Hq.
    + done.
    + cbn in Hp. subst g. exfalso. eapply (Hold f); [|done].
      pose proof (fo_phase s Hs l q Hl) as Hph.
      destruct q as [| | |]; cbn in Hq, Hph; try done; subst; naive_solver.
    + cbn in Hq. subst g. exfalso. eapply (Hold f); [|done].
      pose proof (fo_phase s Hs j p Hj) as Hph.
      destruct p as [| | |]; cbn in Hp, Hph; try done; subst; naive_solver.
    + by eapply (fo_owner s Hs).
  - intros g Hg. rewrite lookup_insert_ne by lia. apply Hs. lia.
  - apply Hs.
Qed.

Lemma enter_ok i key : s_callers s !! i = None -> flights_ok (Do_enter s i key).
Proof.
  intros Hi. destruct (s_flights s !! key) as [f|] eqn:Ef; [by eapply enter_waits|by apply enter_leads].
Qed.

(** A flight that has an owner is not owned by another caller, and no caller
    has returned from it. *)
Lemma other_flight i j p q f g :
  s_callers s !! i = Some p -> owns p f -> s_callers s !! j = Some q -> owns q g -> j <> i -> g <> f.
Proof. intros Hi Hp Hj Hq Hne ->. apply Hne. by eapply (fo_owner s Hs). Qed.

Lemma finish_ok i v cacheable s' : Do_finish s i v cacheable = Some s' -> flights_ok s'.
Proof.
  unfold Do_finish. destruct (s_callers s !! i) as [[| key f| |]|] eqn:Hi; try done.
  destruct (fo_phase s Hs i _ Hi) as (Hkey & fl & Hfl & Hd).
  assert (exists c, (if cacheable then setLocked (s_cache s) key v else Some (s_cache s)) = Some c /\
    cache_ok c /\ 0 <= c_max c) as (c & -> & Hc).
  { destruct (fo_cache s Hs) as [Hok Hm]. destruct cacheable; [|eauto].
    destruct (setLocked_simulates (s_cache s) key v Hok Hm) as (c & ? & ? & _ & ? & _).
    exists c. split_and!; [done|done|lia]. }
  intros [= <-]. split; cbn.
  - intros j p [[-> ->]|[Hne Hj]]%callers_cases.
    { cbn. rewrite lookup_alter_eq, Hfl. cbn. by rewrite Hd. }
    pose proof (fo_phase s Hs j p Hj) as Hp.
    pose proof (fun g H => other_flight i j _ p f g Hi eq_refl Hj H Hne) as Hof.
    destruct p as [k g|k g|k g w|g [w|e]]; try done; cbn in *.
    + destruct Hp as (gl & Hgl & Ho).
      assert (f_done gl = true \/ exists j q, <[i:=Closing key f v]> (s_callers s) !! j = Some q /\ owns q g)
        as Ho'. { destruct Ho as [|Ho]; [by left|right]. apply owner_kept; [|done]. rewrite Hi. by intros q [= <-]. }
      destruct (decide (g = f)) as [->|Hg].
      * rewrite lookup_alter_eq, Hgl. cbn. eexists. split; [done|]. done.
      * rewrite lookup_alter_ne by done. eauto.
    + destruct Hp as (Hk & gl & Hgl & Hgd). specialize (Hof g eq_refl).
      rewrite lookup_delete_ne by (intros ->; congruence). rewrite lookup_alter_ne by done. eauto.
    + specialize (Hof g eq_refl). by rewrite lookup_alter_ne.
    + rewrite lookup_alter_ne; [done|]. intros ->. rewrite Hfl in Hp. injection Hp as ->. done.
  - intros k g Hk. destruct (decide (k = key)) as [->|Hne]; [by rewrite lookup_delete_eq in Hk|].
    rewrite lookup_delete_ne in Hk by done. apply (fo_leader s Hs) in Hk as [j Hj]. exists j.
    rewrite lookup_insert_ne; [done|]. intros ->. congruence.
  - intros j l p q g [[-> ->]|[Hn1 Hj]]%callers_cases [[-> ->]|[Hn2 Hl]]%callers_cases Hp Hq.
    + done.
    + exfalso. cbn in Hp. subst g. by eapply (other_flight i l (Leading key f) q f f).
    + exfalso. cbn in Hq. subst g. by eapply (other_flight i j (Leading key f) p f f).
    + by eapply (fo_owner s Hs).
  - intros g Hg. destruct (decide (f = g)) as [->|]; [|rewrite lookup_alter_ne by done; by apply Hs].
    rewrite (fo_next s Hs) in Hfl by done. done.
  - done.
Qed.

Lemma close_ok i s' : Do_close s i = Some s' -> flights_ok s'.
Proof.
  unfold Do_close. destruct (s_callers s !! i) as [[| |key f v|]|] eqn:Hi; try done.
  pose proof (fo_phase s Hs i _ Hi) as Hfl. cbn in Hfl. intros [= <-]. split; cbn.
  - intros j p [[-> ->]|[Hne Hj]]%callers_cases.
    { cbn. by rewrite lookup_alter_eq, Hfl. }
    pose proof (fo_phase s Hs j p Hj) as Hp.
    pose proof (fun g H => other_flight i j _ p f g Hi eq_refl Hj H Hne) as Hof.
    destruct p as [k g|k g|k g w|g [w|e]]; try done; cbn in *.
    + destruct Hp as (gl & Hgl & Ho). destruct (decide (g = f)) as [->|Hg].
      * rewrite lookup_alter_eq, Hgl. cbn. eexists. split; [done|]. by left.
      * rewrite lookup_alter_ne by done. exists gl. split; [done|].
        destruct Ho as [|Ho]; [by left|right]. apply owner_kept; [|done].
        rewrite Hi. intros q [= <-] E. cbn in E. congruence.
    + destruct Hp as (Hk & gl & Hgl & Hgd). specialize (Hof g eq_refl).
      rewrite lookup_alter_ne by done. eauto.
    + specialize (Hof g eq_refl). by rewrite lookup_alter_ne.
    + rewrite lookup_alter_ne; [done|]. intros ->. congruence.
  - intros k g (j & Hj)%(fo_leader s Hs). exists j.
    rewrite lookup_insert_ne; [done|]. intros ->. congruence.
  - intros j l p q g [[-> ->]|[Hn1 Hj]]%callers_cases [[-> ->]|[Hn2 Hl]]%callers_cases Hp Hq;
      try done. by eapply (fo_owner s Hs).
  - intros g Hg. destruct (decide (f = g)) as [->|]; [|rewrite lookup_alter_ne by done; by apply Hs].
    rewrite (fo_next s Hs) in Hfl by done. done.
  - apply Hs.
Qed.

(** A waiter's return changes no flight. *)
Lemma return_ok i k f r :
  s_callers s !! i = Some (Waiting k f) ->
  match r with Ok v => s_store s !! f = Some (mkFlight true v) | Err _ => True end ->
  flights_ok (mkSystem (s_cache s) (s_flights s) (s_store s) (s_next s)
    (<[i := Returned f r]> (s_callers s))).
Proof.
  intros Hi Hr. split; cbn.
  - intros j p [[-> ->]|[Hne Hj]]%callers_cases; [by destruct r|].
    pose proof (fo_phase s Hs j p Hj) as Hp. destruct p as [k' g|k' g|k' g v|g [v|e]]; try done.
    destruct Hp as (fl & Hfl & [Hd|Ho]); exists fl; cbn; [by auto|]. split; [done|]. right.
    apply owner_kept; [|done]. rewrite Hi. by intros q [= <-].
  - intros k' g (j & Hj)%(fo_leader s Hs). exists j. rewrite lookup_insert_ne; [done|].
    intros ->. congruence.
  - intros j l p q g [[-> ->]|[Hn1 Hj]]%callers_cases [[-> ->]|[Hn2 Hl]]%callers_cases Hp Hq;
      try done. by eapply (fo_owner s Hs).
  - apply Hs.
  - apply Hs.
Qed.

Lemma with_cache_ok c : cache_ok c -> 0 <= c_max c -> flights_ok (with_cache s c).
Proof.
  intros Hc Hm. split; cbn; [|apply Hs..|done].
  intros i p Hp. by apply (fo_phase s Hs) in Hp; destruct p as [| | |? []].
Qed.
End Preservation.

Lemma step_ok s s' : step s s' -> flights_ok s -> flights_ok s'.
Proof.
  destruct 1 as [s i key Hi|s i v b s' Hf|s i s' Hc|s i s' Hw|s i e s' Hc|s o out c Ho]; intros Hs.
  - by apply enter_ok.
  - by eapply finish_ok.
  - by eapply close_ok.
  - unfold Do_wake in Hw. destruct (s_callers s !! i) as [[k f| | |]|] eqn:Hi; try done.
    destruct (s_store s !! f) as [[[] v]|] eqn:Hf; try done. injection Hw as <-.
    by eapply return_ok.
  - unfold Do_cancel in Hc. destruct (s_callers s !! i) as [[k f| | |]|] eqn:Hi; try done.
    injection Hc as <-. by eapply return_ok.
  - destruct (fo_cache s Hs) as [Hok Hm].
    destruct (step_simulates _ o Hok Hm) as (out' & c' & E & _ & Hc' & _ & Hmx & _).
    rewrite E in Ho. injection Ho as -> ->. apply with_cache_ok; [done|done|lia].
Qed.

Lemma init_ok max clock : 0 <= max -> flights_ok (init (New max clock)).
Proof.
  intros Hm. split; cbn; try by intros; simplify_map_eq.
  split; [by apply New_ok|done].
Qed.

Lemma reachable_ok max clock s : 0 <= max -> steps (init (New max clock)) s -> flights_ok s.
Proof.
  intros Hm Hr. assert (flights_ok (init (New max clock))) as Hi by by apply init_ok.
  revert Hi. induction Hr as [|s1 s2 s3 H12 _ IH]; [done|]. intros H1. eauto using step_ok.
Qed.

(** What remains for a waiter when its flight is closed, and when its leader
    has published its value. *)
Lemma wake_enabled s i key f w :
  s_callers s !! i = Some (Waiting key f) -> s_store s !! f = Some (mkFlight true w) ->
  exists s', step s s' /\ s_callers s' !! i = Some (Returned f (Ok w)).
Proof.
  intros Hi Hf. eexists. split.
  - apply (step_wake _ i). unfold Do_wake. rewrite Hi, Hf. cbn. reflexivity.
  - cbn. by rewrite lookup_insert_eq.
Qed.

Lemma close_enabled s i j key k f w :
  s_callers s !! i = Some (Waiting key f) -> s_callers s !! j = Some (Closing k f w) ->
  s_store s !! f = Some (mkFlight false w) ->
  exists s', steps s s' /\ s_callers s' !! i = Some (Returned f (Ok w)).
Proof.
  intros Hi Hj Hf. set (s1 := mkSystem (s_cache s) (s_flights s)
    (alter (fun fl => mkFlight true (f_v fl)) f (s_store s)) (s_next s)
    (<[j := Returned f (Ok w)]> (s_callers s))).
  destruct (wake_enabled s1 i key f w) as (s2 & H2 & ?); cbn.
  - rewrite lookup_insert_ne; [done|]. intros ->. congruence.
  - by rewrite lookup_alter_eq, Hf.
  - exists s2. split; [|done]. eapply rtc_l; [|by apply rtc_once].
    apply (step_close _ j). unfold Do_close. by rewrite Hj.
Qed.

(** ** Theorems *)

(** C11: one resolution per key at a time.  In every reachable state at most
    one caller is running its function for a given key. *)
Theorem single_leader max clock s i j key f g :
  0 <= max -> steps (init (New max clock)) s ->
  s_callers s !! i = Some (Leading key f) -> s_callers s !! j = Some (Leading key g) -> i = j.
Proof.
  intros Hm Hr Hi Hj. pose proof (reachable_ok _ _ _ Hm Hr) as Hs.
  destruct (fo_phase s Hs i _ Hi) as [Hf _]. destruct (fo_phase s Hs j _ Hj) as [Hg _].
  assert (f = g) as <- by congruence. by eapply (fo_owner s Hs).
Qed.

(** Callers that took part in one flight agree: the leader and every
    waiter that returns a value return the same value, whether or not it was
    stored in the cache. *)
Theorem flight_agreement max clock s i j f v w :
  0 <= max -> steps (init (New max clock)) s ->
  s_callers s !! i = Some (Returned f (Ok v)) -> s_callers s !! j = Some (Returned f (Ok w)) ->
  v = w.
Proof.
  intros Hm Hr Hi Hj. pose proof (reachable_ok _ _ _ Hm Hr) as Hs.
  apply (fo_phase s Hs) in Hi, Hj. cbn in *. congruence.
Qed.

(** C10: no waiter is left behind.  From every reachable state in which a
    caller waits, its flight is closed or its leader is still there: for any
    value the leader's function may return, the remaining steps of the leader
    and the wake-up of the waiter are enabled and give the waiter a value. *)
Theorem waiter_served max clock s i key f v :
  0 <= max -> steps (init (New max clock)) s ->
  s_callers s !! i = Some (Waiting key f) ->
  exists s' w, steps s s' /\ s_callers s' !! i = Some (Returned f (Ok w)) /\
    ((exists j k, s_callers s !! j = Some (Leading k f)) -> w = v).
Proof.
  intros Hm Hr Hi. pose proof (reachable_ok _ _ _ Hm Hr) as Hs.
  destruct (fo_phase s Hs i _ Hi) as (fl & Hfl & [Hd|(j & q & Hj & Hq)]).
  - destruct fl as [[] w]; [|done]. destruct (wake_enabled s i key f w Hi Hfl) as (s' & H1 & H2).
    exists s', w. split; [by apply rtc_once|]. split; [done|]. intros (j & k & Hj).
    destruct (fo_phase s Hs j _ Hj) as (_ & fl & Hfl' & Hd'). by simplify_eq.
  - destruct q as [| k g|k g w|]; cbn in Hq; try done; subst g.
    + destruct (fo_phase s Hs j _ Hj) as (_ & fl' & Hfl' & Hd').
      set (s1 := mkSystem (s_cache s) (delete k (s_flights s))
        (alter (fun fl => mkFlight (f_done fl) v) f (s_store s)) (s_next s)
        (<[j := Closing k f v]> (s_callers s))).
      destruct (close_enabled s1 i j key k f v) as (s2 & H2 & H3); cbn.
      * rewrite lookup_insert_ne; [done|]. intros ->. congruence.
      * by rewrite lookup_insert_eq.
      * rewrite lookup_alter_eq, Hfl'. cbn. by rewrite Hd'.
      * exists s2, v. split; [|done]. eapply rtc_l; [|exact H2].
        apply (step_finish _ j v false). unfold Do_finish. by rewrite Hj.
    + pose proof (fo_phase s Hs j _ Hj) as Hw. cbn in Hw.
      destruct (close_enabled s i j key k f w Hi Hj Hw) as (s' & H1 & H2). exists s', w. split; [done|].
      split; [done|]. intros (l & k' & Hl).
      assert (l = j) as -> by by eapply (fo_owner s Hs l j). congruence.
Qed.

(** A flush does not reach a resolution that is under way.  If the cache
    is flushed (as after a reload of the prefix files) while a leader runs
    its function, a cacheable value it returns, computed from the old assets,
    is stored and is in the cache afterwards. *)
Theorem flush_misses_flight max clock s i key f v :
  1 <= max -> steps (init (New max clock)) s ->
  s_callers s !! i = Some (Leading key f) -> c_max (s_cache s) = max ->
  exists s', Do_finish (with_cache s (Flush (s_cache s))) i v true = Some s' /\
    exists v', l_list (abs (s_cache s')) = [(key, v')] /\
      v_addrs v' = v_addrs v /\ v_policy v' = v_policy v /\ v_ttl v' = v_ttl v.
Proof.
  intros Hm Hr Hi Hmax. pose proof (reachable_ok max clock s ltac:(lia) Hr) as Hs.
  destruct (fo_cache s Hs) as [Hok Hc].
  destruct (Flush_simulates _ Hok Hc) as (Hok' & Hn & Hmx & Ha).
  destruct (setLocked_simulates (Flush (s_cache s)) key v Hok' ltac:(lia)) as (c & Hset & _ & _ & _ & Hc').
  unfold Do_finish, with_cache. cbn [s_callers s_cache]. rewrite Hi, Hset.
  eexists. split; [done|]. cbn [s_cache]. rewrite Hc', Ha. unfold spec_set, spec_flush.
  cbn [l_list l_reads assoc]. rewrite Hmx, Hmax.
  replace (Z.of_nat (length _) >? max) with false
    by (rewrite Z.gtb_ltb; symmetry; apply Z.ltb_ge; cbn; lia).
  eexists. split; [done|]. done.
Qed.

(** ** Examples *)

Definition sample_init : System := init (New 2 (fun _ => 0)).
(** Caller 0 leads and caller 1 waits for it. *)
Definition two_callers : System := Do_enter (Do_enter sample_init 0 key_a) 1 key_a.
Definition published : System :=
  match Do_finish two_callers 0 (with_ttl sample_value 30) true with
  | Some s => s
  | None => two_callers
  end.
Definition closed : System := match Do_close published 0 with Some s => s | None => published end.
Definition woken : System := match Do_wake closed 1 with Some s => s | None => closed end.

Lemma two_callers_reachable : steps sample_init two_callers.
Proof.
  eapply rtc_l; [apply (step_enter _ 0 key_a); reflexivity|].
  apply rtc_once. apply step_enter. reflexivity.
Qed.

Lemma woken_reachable : steps sample_init woken.
Proof.
  etrans; [apply two_callers_reachable|].
  eapply rtc_l; [by apply (step_finish two_callers 0 (with_ttl sample_value 30) true published)|].
  eapply rtc_l; [by apply (step_close published 0 closed)|].
  apply rtc_once. by apply (step_wake closed 1 woken).
Qed.

Lemma single_leader_witness :
  s_callers two_callers !! 0%nat = Some (Leading key_a 0) /\ 0%nat = 0%nat.
Proof.
  split; [reflexivity|].
  apply (single_leader 2 (fun _ => 0) two_callers 0 0 key_a 0 0 ltac:(lia) two_callers_reachable);
    reflexivity.
Defined.

Lemma flight_agreement_witness :
  s_callers woken !! 1%nat = Some (Returned 0 (Ok (with_ttl sample_value 30))) /\
  with_ttl sample_value 30 = with_ttl sample_value 30.
Proof.
  split; [vm_compute; reflexivity|].
  apply (flight_agreement 2 (fun _ => 0) woken 0 1 0 (with_ttl sample_value 30)
    (with_ttl sample_value 30) ltac:(lia) woken_reachable); vm_compute; reflexivity.
Defined.

Lemma waiter_served_witness :
  exists s' w, steps two_callers s' /\ s_callers s' !! 1%nat = Some (Returned 0 (Ok w)).
Proof.
  destruct (waiter_served 2 (fun _ => 0) two_callers 1 key_a 0 sample_value ltac:(lia)
    two_callers_reachable) as (s' & w & Hs & Hw & _).
  - reflexivity.
  - exists s', w. split; [exact Hs|exact Hw].
Defined.

Lemma flush_misses_flight_witness :
  exists s', Do_finish (with_cache two_callers (Flush (s_cache two_callers))) 0
    (with_ttl sample_value 30) true = Some s'.
Proof.
  destruct (flush_misses_flight 2 (fun _ => 0) two_callers 0 key_a 0 (with_ttl sample_value 30)
    ltac:(lia) two_callers_reachable) as (s' & Hs & _).
  - reflexivity.
  - reflexivity.
  - exists s'. exact Hs.
Defined.
