(* ===== verification/Resolve.v ===== *)
(** * Resolve: the facade of [internal/resolve/service.go]

    One lookup goes through the cache and, on a miss, through a coalesced
    run of the engine whose result is stored when it is complete and
    authoritative.  The engine's result is an argument here: it is what
    [Engine.Resolve] returns in the caller's context. *)

From S2P Require Import Prelude Netip GoText Overrides Dns Policy Upstream Engine Cache CacheProps Flight.

(** The settings of [resolve.Service]; the engine and the cache are passed
    to the operations. *)
Record Service := mkService {
  sv_cacheOn : bool;
  sv_minTTL : Z;
  sv_maxTTL : Z;
  sv_negMinTTL : Z;
  sv_negMaxTTL : Z;
}.

Section Resolve.
Context `{GoUnicode}.

Definition clamp (v lo hi : Z) : Z :=
  if v <? lo then lo else if v >? hi then hi else v.

Definition normalizeName (name : string) : string :=
  let n := ToLower (TrimSuffix (TrimSpace name) ".") in
  if String.eqb n "" then "." else n.

Definition fromEngine (res : EngineResult) : Value :=
  mkValue (er_rcode res) (er_addrs res) (er_soa res) (er_ttl res) (er_policy res) 0.

(** The value of an engine result and whether it may be cached. *)
Definition resolve (s : Service) (res : EngineResult) : Value * bool :=
  if negb (er_complete res) || (er_rcode res =? RcodeServerFailure) then (fromEngine res, false)
  else if nonempty (er_addrs res) then
    (with_ttl (fromEngine res) (clamp (er_ttl res) (sv_minTTL s) (sv_maxTTL s)), true)
  else match er_soa res with
  | Some soa =>
      let neg := h_ttl (soa_hdr soa) in
      let neg := if soa_minttl soa <? neg then soa_minttl soa else neg in
      (with_ttl (fromEngine res) (clamp neg (sv_negMinTTL s) (sv_negMaxTTL s)), true)
  | None => (fromEngine res, false)
  end.

Definition key_of (qname : string) (qtype : Z) : Key := mkKey (normalizeName qname) qtype.

(** The cache's part of [Lookup]: a hit is served unless it has at most a
    second left, which is counted as a miss. *)
Definition lookup_cached (c : Cache) (key : Key) : option Value * Cache :=
  match Get c key with
  | (Some v, c) => if v_ttl v <=? 1 then (None, count c 0 1 0) else (Some v, c)
  | (None, c) => (None, c)
  end.

(** [Cache.Do] of a caller that finds no flight for its key. *)
Definition Do_alone (c : Cache) (key : Key) (r : Value * bool) : option (Value * Cache) :=
  match Do_finish (Do_enter (init c) 0 key) 0 r.1 r.2 with
  | Some s => match Do_close s 0 with
              | Some s => match s_callers s !! 0%nat with
                          | Some (Returned _ (Ok v)) => Some (v, s_cache s)
                          | _ => None
                          end
              | None => None
              end
  | None => None
  end.

Definition Lookup (s : Service) (c : Cache) (qname : string) (qtype : Z) (res : EngineResult)
    : option (Value * Cache) :=
  let key := key_of qname qtype in
  if negb (sv_cacheOn s) then Some ((resolve s res).1, c)
  else
    match lookup_cached c key with
    | (Some v, c) => Some (v, c)
    | (None, c) => Do_alone c key (resolve s res)
    end.

(** ** Lemmas *)

Lemma Do_alone_eq c key r :
  Do_alone c key r =
  match (if r.2 then setLocked c key r.1 else Some c) with
  | Some c => Some (r.1, c)
  | None => None
  end.
Proof.
  unfold Do_alone, Do_enter, init, Do_finish. cbn [s_flights s_callers s_cache].
  rewrite lookup_empty. cbn [s_callers s_cache s_store s_flights]. rewrite lookup_insert_eq.
  destruct (if r.2 then setLocked c key r.1 else Some c) as [c'|]; [|done].
  unfold Do_close. cbn [s_callers]. rewrite lookup_insert_eq. cbn [s_callers].
  by rewrite lookup_insert_eq.
Qed.

Lemma clamp_bounds v lo hi :
  lo <= hi -> lo <= clamp v lo hi <= hi /\ (lo <= v <= hi -> clamp v lo hi = v).
Proof. intros Hlh. unfold clamp. rewrite Z.gtb_ltb. repeat case_match; bool_props; lia. Qed.

(** When a result may be stored. *)
Definition authoritative (res : EngineResult) : Prop :=
  er_complete res = true /\ er_rcode res <> RcodeServerFailure /\
  (er_addrs res <> [] \/ er_soa res <> None).

Lemma resolve_cases s res :
  (resolve s res).2 = true <-> authoritative res.
Proof.
  unfold resolve, authoritative. destruct (er_complete res); cbn [negb orb]; [|naive_solver].
  destruct (er_rcode res =? RcodeServerFailure) eqn:E; bool_props; [naive_solver|].
  destruct (er_addrs res) as [|a l], (er_soa res) as [soa|]; cbn; naive_solver.
Qed.

Lemma resolve_value s res :
  let v := (resolve s res).1 in
  v_rcode v = er_rcode res /\ v_addrs v = er_addrs res /\ v_soa v = er_soa res /\
  v_policy v = er_policy res.
Proof.
  unfold resolve. destruct (_ || _); [done|]. destruct (nonempty _); [done|].
  by destruct (er_soa res) as [soa|] eqn:E; cbn; rewrite ?E.
Qed.

Lemma resolve_ttl s res :
  sv_minTTL s <= sv_maxTTL s -> sv_negMinTTL s <= sv_negMaxTTL s ->
  (resolve s res).2 = true ->
  if nonempty (er_addrs res) then sv_minTTL s <= v_ttl (resolve s res).1 <= sv_maxTTL s
  else sv_negMinTTL s <= v_ttl (resolve s res).1 <= sv_negMaxTTL s.
Proof.
  intros Hp Hn. unfold resolve. destruct (_ || _); [done|].
  destruct (nonempty _); cbn; [intros _; by apply clamp_bounds|].
  destruct (er_soa res); cbn; [intros _; by apply clamp_bounds|done].
Qed.

Lemma normalizeName_eq q :
  normalizeName q =
  if String.eqb (Overrides.normalize q) "" then "." else Overrides.normalize q.
Proof. done. Qed.

Lemma lookup_cached_ok c key :
  cache_ok c -> let c' := (lookup_cached c key).2 in
  cache_ok c' /\ c_now c' = c_now c /\ c_max c' = c_max c.
Proof.
  intros Hc. pose proof (Get_simulates c key Hc) as [_ (Hok & Hn & Hm & _)].
  unfold lookup_cached. destruct (Get c key) as [[v|] c']; cbn in *; [|done].
  destruct (_ <=? 1); cbn; [|done]. split; [|done]. destruct Hok as [Hl Hs].
  split; [by apply count_linked|done].
Qed.

Lemma ceil_seconds_gt_1 d ttl :
  Second < d <= ttl * Second -> ttl < 2 ^ 32 -> 1 < ceil_seconds d.
Proof.
  intros Hd Ht. destruct (ceil_seconds_spec d ttl) as [Hb Hc]; [unfold Second in *; lia|done|].
  unfold Second in *. lia.
Qed.

(** ** Theorems *)

(** C21: only complete, authoritative results are stored: the value of an
    engine result is cacheable exactly when every upstream was heard, the
    result is not SERVFAIL and it has addresses or an SOA; its TTL is then
    within the limits configured for answers or for negative answers. *)
Theorem stores_only_authoritative s res :
  sv_minTTL s <= sv_maxTTL s -> sv_negMinTTL s <= sv_negMaxTTL s ->
  ((resolve s res).2 = true <-> authoritative res) /\
  ((resolve s res).2 = true ->
   if nonempty (er_addrs res) then sv_minTTL s <= v_ttl (resolve s res).1 <= sv_maxTTL s
   else sv_negMinTTL s <= v_ttl (resolve s res).1 <= sv_negMaxTTL s).
Proof. intros Hp Hn. split; [apply resolve_cases|by apply resolve_ttl]. Qed.

(** A result that is not authoritative leaves the cache as the lookup's
    own miss left it, and is returned to the caller as it is. *)
Theorem not_authoritative_not_stored s c qname qtype res :
  sv_cacheOn s = true -> ~ authoritative res ->
  (lookup_cached c (key_of qname qtype)).1 = None ->
  exists v, Lookup s c qname qtype res = Some (v, (lookup_cached c (key_of qname qtype)).2) /\
    v_rcode v = er_rcode res /\ v_addrs v = er_addrs res /\ v_soa v = er_soa res.
Proof.
  intros Hon Hna Hmiss. unfold Lookup. rewrite Hon. cbn [negb].
  destruct (lookup_cached _ _) as [[v|] c']; cbn in Hmiss |- *; [done|].
  rewrite Do_alone_eq. rewrite <-(resolve_cases s), not_true_iff_false in Hna. rewrite Hna.
  exists (resolve s res).1. split; [done|].
  by destruct (resolve_value s res) as (? & ? & ? & _).
Qed.

(** An answer is reused.  After a lookup that missed and stored its
    result, a lookup of the same key, with more than a second of the lifetime
    left, returns the stored rcode, addresses, SOA and policy, whatever the
    engine would say now. *)
Theorem answer_reused s c qname qname' qtype res res' v c1 :
  cache_ok c -> 1 <= c_max c -> monotone (c_now c) -> sv_cacheOn s = true ->
  authoritative res -> 0 <= v_ttl (resolve s res).1 < 2 ^ 32 ->
  key_of qname' qtype = key_of qname qtype ->
  (lookup_cached c (key_of qname qtype)).1 = None ->
  Lookup s c qname qtype res = Some (v, c1) ->
  now c1 + Second < now (lookup_cached c (key_of qname qtype)).2 + v_ttl v * Second ->
  exists v2 c2, Lookup s c1 qname' qtype res' = Some (v2, c2) /\
    v_rcode v2 = v_rcode v /\ v_addrs v2 = v_addrs v /\ v_soa v2 = v_soa v /\
    v_policy v2 = v_policy v /\ 1 < v_ttl v2 <= v_ttl v.
Proof.
  intros Hc Hm Hmono Hon Hau Httl Hkey Hmiss Hl Hleft.
  pose proof (lookup_cached_ok c (key_of qname qtype) Hc) as (Hc0 & Hn0 & Hm0).
  unfold Lookup in *. rewrite Hon, Hkey in *. cbn [negb] in *.
  destruct (lookup_cached c (key_of qname qtype)) as [o c0]. cbn [fst snd] in *. subst o.
  rewrite Do_alone_eq in Hl. apply (resolve_cases s) in Hau. rewrite Hau in Hl.
  set (r := (resolve s res).1) in *.
  destruct (lookup_after_store c0 (key_of qname qtype) r (v_ttl r) Hc0 ltac:(lia)
    ltac:(by rewrite Hn0) Httl) as (c' & Hset & Hget & Hceil).
  unfold Set_ in Hset. replace (with_ttl r (v_ttl r)) with r in Hset by by destruct r.
  rewrite Hset in Hl. injection Hl as <- <-.
  assert (now c' < now c0 + v_ttl r * Second) as Hlt by (unfold Second in *; lia).
  rewrite (proj2 (Z.ltb_lt _ _)) in Hget by done.
  unfold lookup_cached. destruct (Get c' (key_of qname qtype)) as [g c2]. cbn in Hget. subst g.
  assert (1 < ceil_seconds (now c0 + v_ttl r * Second - now c')) as Hgt.
  { apply (ceil_seconds_gt_1 _ (v_ttl r)); [|lia]. specialize (Hceil Hlt).
    unfold Second in *. lia. }
  cbn [v_ttl with_ttl]. rewrite (proj2 (Z.leb_gt _ _)) by done.
  eexists _, c2. split; [done|]. cbn. specialize (Hceil Hlt). split_and!; try done; lia.
Qed.

(** Case and one trailing dot do not matter for the key under which an
    answer is kept. *)
Theorem key_presentation q qtype :
  visible q = true -> HasSuffix q "." = false ->
  key_of (q +:+ ".") qtype = key_of q qtype /\ key_of (ToLower q) qtype = key_of q qtype.
Proof.
  intros Hv Hd. unfold key_of. rewrite !normalizeName_eq.
  by rewrite normalize_dot, normalize_ToLower, normalize_visible by auto using visible_ascii.
Qed.

(** The key of the root is ".", not the empty string that the comments on
    [normalizeName] and on [cache.Key] announce. *)
Theorem root_key qtype : key_of "." qtype = mkKey "." qtype.
Proof. done. Qed.

(** A hit with at most a second left is counted as a hit and as a miss. *)
Lemma leftover_counted_twice c key v c' :
  Get c key = (Some v, c') -> v_ttl v <= 1 ->
  lookup_cached c key = (None, count c' 0 1 0).
Proof. intros Hg Hv. unfold lookup_cached. by rewrite Hg, (proj2 (Z.leb_le _ _)). Qed.
End Resolve.

(** ** Examples *)

(** The default limits. *)
Definition sample_service : Service := mkService true 30 3600 60 600.
Definition sample_engine_result (complete : bool) : EngineResult :=
  mkEngineResult PolicyPreferChina [Addr4 16777217] RcodeSuccess None 10 complete [].
Definition empty_cache : Cache := New 4 half_seconds.

Lemma stores_only_authoritative_witness :
  30 <= v_ttl (resolve sample_service (sample_engine_result true)).1 <= 3600.
Proof.
  apply (proj2 (stores_only_authoritative sample_service (sample_engine_result true)
    ltac:(cbn; lia) ltac:(cbn; lia)) eq_refl).
Defined.

Lemma not_authoritative_not_stored_witness :
  exists v, @Lookup ascii_tables sample_service empty_cache "a." TypeA (sample_engine_result false) =
    Some (v, (lookup_cached empty_cache (@key_of ascii_tables "a." TypeA)).2).
Proof.
  destruct (@not_authoritative_not_stored ascii_tables sample_service empty_cache "a." TypeA
    (sample_engine_result false) eq_refl) as (v & Hv & _).
  - intros [Hc _]. discriminate Hc.
  - reflexivity.
  - exists v. exact Hv.
Defined.

Lemma answer_reused_witness :
  exists v c1 v2 c2,
    @Lookup ascii_tables sample_service empty_cache "A." TypeA (sample_engine_result true) = Some (v, c1) /\
    @Lookup ascii_tables sample_service c1 "a" TypeA (sample_engine_result false) = Some (v2, c2) /\
    v_addrs v2 = v_addrs v.
Proof.
  destruct (@Lookup ascii_tables sample_service empty_cache "A." TypeA (sample_engine_result true))
    as [[v c1]|] eqn:E; [|vm_compute in E; discriminate E].
  pose proof E as E'. vm_compute in E'. injection E' as Ev Ec.
  destruct (@answer_reused ascii_tables sample_service empty_cache "A." "a" TypeA
    (sample_engine_result true) (sample_engine_result false) v c1)
    as (v2 & c2 & Hl & _ & Ha & _).
  - apply New_ok. lia.
  - vm_compute. discriminate.
  - intros i j Hij. cbn. unfold half_seconds. lia.
  - reflexivity.
  - split; [reflexivity|]. split; [discriminate|]. left. discriminate.
  - vm_compute. split; [discriminate|reflexivity].
  - reflexivity.
  - reflexivity.
  - exact E.
  - rewrite <-Ev, <-Ec. vm_compute. reflexivity.
  - exists v, c1, v2, c2. split; [reflexivity|]. split; [exact Hl|exact Ha].
Defined.

Lemma key_presentation_witness :
  @key_of ascii_tables ("Example.COM" +:+ ".") TypeA = @key_of ascii_tables "Example.COM" TypeA.
Proof. apply (@key_presentation ascii_tables "Example.COM" TypeA); reflexivity. Defined.
