(* ===== verification/Callers.v ===== *)
(** * Callers: [Service.Lookup] with any number of callers

    [Lookup] of [internal/resolve/service.go] as it runs in the server, where
    every request has its own goroutine: a caller looks the key up in the
    cache, and on a miss goes through the coalescing [Do] of [Flight], whose
    function is a run of the engine.  The cache's janitor and a reload's flush
    interleave.  A waiter returns its context's error only once its context has
    ended.  What the engine's runs can return is the relation [ran]. *)

From S2P Require Import Prelude Netip GoText Overrides Dns Policy Upstream Engine Cache CacheProps Flight Resolve.

(** Where a call of [Lookup] is: past a cache miss, inside [Do] ([Flight] says
    where), running the engine without a cache, or answered. *)
Inductive call :=
| Missed (qname : string) (qtype : Z)
| Entered (qname : string) (qtype : Z)
| Direct (qname : string) (qtype : Z)
| Answered (qname : string) (qtype : Z) (v : Value).

(** [cs_ended] holds the callers whose contexts have ended, and how. *)
Record Callers := mkCallers {
  cs_sys : Flight.System;
  cs_calls : gmap nat call;
  cs_ended : gmap nat ctx_error;
}.

Definition start (c : Cache) : Callers := mkCallers (init c) ∅ ∅.

(** What a caller asked for. *)
Definition asked (s : Callers) (i : nat) : option (string * Z) :=
  match cs_calls s !! i with
  | Some (Missed q t) | Some (Entered q t) | Some (Direct q t) | Some (Answered q t _) => Some (q, t)
  | None => None
  end.

Section Callers.
Context `{GoUnicode} (sv : Service).

(** ** The steps of [Lookup] *)

(** The part before [Do]: the key, and the cache unless it is off. *)
Definition Lookup_begin (s : Callers) (i : nat) (qname : string) (qtype : Z) : Callers :=
  let key := key_of qname qtype in
  if negb (sv_cacheOn sv) then mkCallers (cs_sys s) (<[i := Direct qname qtype]> (cs_calls s)) (cs_ended s)
  else
    match lookup_cached (s_cache (cs_sys s)) key with
    | (Some v, c) =>
        mkCallers (with_cache (cs_sys s) c) (<[i := Answered qname qtype v]> (cs_calls s)) (cs_ended s)
    | (None, c) =>
        mkCallers (with_cache (cs_sys s) c) (<[i := Missed qname qtype]> (cs_calls s)) (cs_ended s)
    end.

Definition Lookup_enter (s : Callers) (i : nat) : option Callers :=
  match cs_calls s !! i with
  | Some (Missed qname qtype) =>
      Some (mkCallers (Do_enter (cs_sys s) i (key_of qname qtype))
              (<[i := Entered qname qtype]> (cs_calls s)) (cs_ended s))
  | _ => None
  end.

(** The engine's run of caller [i] returned [res]. *)
Definition Lookup_resolved (s : Callers) (i : nat) (res : EngineResult) : option Callers :=
  match cs_calls s !! i with
  | Some (Direct qname qtype) =>
      Some (mkCallers (cs_sys s) (<[i := Answered qname qtype (resolve sv res).1]> (cs_calls s))
              (cs_ended s))
  | Some (Entered _ _) =>
      match Do_finish (cs_sys s) i (resolve sv res).1 (resolve sv res).2 with
      | Some sys => Some (mkCallers sys (cs_calls s) (cs_ended s))
      | None => None
      end
  | _ => None
  end.

(** A step of [Do] that does not involve the service. *)
Definition within (s : Callers) (sys : option Flight.System) : option Callers :=
  match sys with Some sys => Some (mkCallers sys (cs_calls s) (cs_ended s)) | None => None end.

(** What [Lookup] returned to caller [i], if it has. *)
Definition Lookup_result (s : Callers) (i : nat) : option (result ctx_error Value) :=
  match cs_calls s !! i with
  | Some (Answered _ _ v) => Some (Ok v)
  | Some (Entered _ _) =>
      match s_callers (cs_sys s) !! i with
      | Some (Returned _ r) => Some r
      | _ => None
      end
  | _ => None
  end.

(** The part of a run an invariant is about: the callers whose results it
    constrains, the keys it watches and the first flight it counts.  A window
    that opens in the middle of a run says nothing of the callers and flights
    there were before. *)
Record window := mkWindow {
  w_mine : nat -> Prop;
  w_key : Key -> Prop;
  w_first : nat;
}.
Definition everything : window := mkWindow (fun _ => True) (fun _ => True) 0.

(** The context of caller [i] is canceled or passes its deadline. *)
Definition end_context (s : Callers) (i : nat) (e : ctx_error) : Callers :=
  mkCallers (cs_sys s) (cs_calls s) (<[i := e]> (cs_ended s)).

(** A step of a caller, of its context or of the janitor that involves
    neither an engine's result nor a reload. *)
Inductive move : Callers -> Callers -> Prop :=
| move_begin s i qname qtype :
    cs_calls s !! i = None -> move s (Lookup_begin s i qname qtype)
| move_enter s i s' : Lookup_enter s i = Some s' -> move s s'
| move_close s i s' : within s (Do_close (cs_sys s) i) = Some s' -> move s s'
| move_wake s i s' : within s (Do_wake (cs_sys s) i) = Some s' -> move s s'
| move_cancel s i e s' :
    cs_ended s !! i = Some e -> within s (Do_cancel (cs_sys s) i e) = Some s' -> move s s'
| move_end s i e : cs_ended s !! i = None -> move s (end_context s i e)
| move_janitor s :
    move s (mkCallers (with_cache (cs_sys s) (sweep (s_cache (cs_sys s)))) (cs_calls s)
      (cs_ended s)).

(** The reload's [Flush]. *)
Definition flush (s : Callers) : Callers :=
  mkCallers (with_cache (cs_sys s) (Flush (s_cache (cs_sys s)))) (cs_calls s) (cs_ended s).

Section Steps.
Context (ran : string -> Z -> EngineResult -> Prop).

(** A step of the lookups, the end of a run included. *)
Inductive advance : Callers -> Callers -> Prop :=
| advance_move s s' : move s s' -> advance s s'
| advance_resolved s i qname qtype res s' :
    asked s i = Some (qname, qtype) -> ran qname qtype res ->
    Lookup_resolved s i res = Some s' -> advance s s'.

Inductive step : Callers -> Callers -> Prop :=
| step_advance s s' : advance s s' -> step s s'
| step_flush s : step s (flush s).

Definition steps : Callers -> Callers -> Prop := rtc step.

(** ** Where values come from *)

(** The value of a run for a name with this key. *)
Definition fresh (key : Key) (v : Value) : Prop :=
  exists qname qtype res, key_of qname qtype = key /\ ran qname qtype res /\ v = (resolve sv res).1.

(** A value that may be cached, as it is in the cache: with the expiry
    computed from a reading of the clock in the past. *)
Definition stored (c : Cache) (key : Key) (v : Value) : Prop :=
  exists qname qtype res r, key_of qname qtype = key /\ ran qname qtype res /\
    (resolve sv res).2 = true /\ (r < c_reads c)%nat /\
    v = with_expires (resolve sv res).1 (c_now c r + int64 (v_ttl (resolve sv res).1 * Second)).

Definition same_content (v w : Value) : Prop :=
  v_rcode v = v_rcode w /\ v_addrs v = v_addrs w /\ v_soa v = v_soa w /\ v_policy v = v_policy w.

(** What a caller may be given: the value of a run for its key, or one that
    was stored, with more than a second and at most the stored lifetime left
    (on a clock that does not go back). *)
Definition served (c : Cache) (key : Key) (v : Value) : Prop :=
  exists qname qtype res, key_of qname qtype = key /\ ran qname qtype res /\
    (v = (resolve sv res).1 \/
     (resolve sv res).2 = true /\ same_content v (resolve sv res).1 /\ 1 < v_ttl v /\
     (monotone (c_now c) -> 0 <= v_ttl (resolve sv res).1 < 2 ^ 32 ->
      v_ttl v <= v_ttl (resolve sv res).1)).

Section Window.
Context (w : window).

Definition live (key : Key) (f : nat) : Prop := w_key w key /\ (w_first w <= f)%nat.

(** The key and flight a caller is at. *)
Definition at_flight (p : phase) (key : Key) (f : nat) : Prop :=
  match p with
  | Waiting k g | Leading k g | Closing k g _ => k = key /\ g = f
  | Returned _ _ => False
  end.

Definition phase_key (key : Key) (p : phase) : Prop :=
  match p with
  | Waiting k _ | Leading k _ => k = key
  | Closing k f v => k = key /\ (live key f -> fresh key v)
  | Returned f (Ok v) => live key f -> fresh key v
  | Returned _ (Err _) => True
  end.

Definition flight_of (p : phase) : nat :=
  match p with
  | Waiting _ f | Leading _ f | Closing _ f _ | Returned f _ => f
  end.

(** A caller of the window is at a flight of the window. *)
Definition at_live (i : nat) (key : Key) (p : phase) : Prop :=
  w_mine w i -> w_key w key -> (w_first w <= flight_of p)%nat.

Record callers_ok (clock : nat -> Z) (s : Callers) : Prop := {
  ca_sys : flights_ok (cs_sys s);
  ca_clock : c_now (s_cache (cs_sys s)) = clock;
  ca_first : (w_first w <= s_next (cs_sys s))%nat;
  ca_open : forall k f, s_flights (cs_sys s) !! k = Some f -> w_key w k -> (w_first w <= f)%nat;
  ca_held : forall k v, held (s_cache (cs_sys s)) k v -> w_key w k -> stored (s_cache (cs_sys s)) k v;
  ca_entered : forall i p, s_callers (cs_sys s) !! i = Some p ->
    exists q t, cs_calls s !! i = Some (Entered q t) /\ phase_key (key_of q t) p /\
      at_live i (key_of q t) p;
  ca_inside : forall i q t, cs_calls s !! i = Some (Entered q t) ->
    is_Some (s_callers (cs_sys s) !! i);
  ca_flight : forall i j p q k k' f, s_callers (cs_sys s) !! i = Some p ->
    s_callers (cs_sys s) !! j = Some q -> at_flight p k f -> at_flight q k' f -> k = k';
  ca_done : forall f v i p k, s_store (cs_sys s) !! f = Some (mkFlight true v) ->
    s_callers (cs_sys s) !! i = Some p -> at_flight p k f -> live k f -> fresh k v;
  ca_answered : forall i q t v, cs_calls s !! i = Some (Answered q t v) ->
    w_mine w i -> w_key w (key_of q t) -> served (s_cache (cs_sys s)) (key_of q t) v;
  ca_canceled : forall i f e, s_callers (cs_sys s) !! i = Some (Returned f (Err e)) ->
    cs_ended s !! i = Some e;
}.

Lemma callers_start_ok max clock : w_first w = 0%nat -> 0 <= max -> callers_ok clock (start (New max clock)).
Proof.
  intros Hw Hm. split; cbn; try (intros *; by rewrite lookup_empty); [by apply init_ok|done|lia|].
  by intros k v ?%elem_of_nil.
Qed.

Lemma stored_mono c c' k v :
  c_now c' = c_now c -> (c_reads c <= c_reads c')%nat -> stored c k v -> stored c' k v.
Proof.
  intros Hn Hr (q & t & res & r & ? & ? & ? & ? & ?). exists q, t, res, r. rewrite Hn.
  split_and!; (done || lia).
Qed.

Lemma served_clock c c' k v : c_now c' = c_now c -> served c k v -> served c' k v.
Proof. unfold served. by intros ->. Qed.

Lemma fresh_served c k v : fresh k v -> served c k v.
Proof. intros (q & t & res & ? & ? & ?). exists q, t, res. auto. Qed.

(** ** The cache's part *)

Lemma lookup_cached_held c key :
  cache_ok c -> let c' := (lookup_cached c key).2 in
  (forall k v, held c' k v -> held c k v) /\ (c_reads c <= c_reads c')%nat.
Proof.
  intros Hc. destruct (Get_held c key Hc) as (Hh & Hr & _). unfold lookup_cached.
  destruct (Get c key) as [[v|] c']; cbn in *; [|done]. by destruct (v_ttl v <=? 1).
Qed.

Lemma hit_served c key v c' :
  cache_ok c -> (forall v, held c key v -> stored c key v) ->
  lookup_cached c key = (Some v, c') -> served c key v.
Proof.
  intros Hc Hst Hl. destruct (Get_held c key Hc) as (_ & _ & Hg). unfold lookup_cached in Hl.
  destruct (Get c key) as [[g|] c1]; [|done]. destruct (Z.leb_spec (v_ttl g) 1) as [|Httl]; [done|].
  injection Hl as -> ->. destruct (Hg v eq_refl) as (x & Hx & Hpos & Ev). clear Hg.
  destruct (Hst _ Hx) as (q & t & res & r & Hk & Hran & Hok & Hr & Ew).
  exists q, t, res. split_and!; [done..|]. right.
  split_and!; [done|by rewrite Ev, Ew|done|]. intros Hmono Hrange.
  rewrite Ev. cbn [with_ttl v_ttl]. set (ttl := v_ttl (resolve sv res).1) in *.
  assert (c_now c r <= now c) as Hle by (apply Hmono; lia).
  assert (v_expires x = c_now c r + ttl * Second) as Ee.
  { rewrite Ew. cbn [with_expires v_expires]. fold ttl. by rewrite int64_id by (unfold in_int64, Second; lia). }
  apply (ceil_seconds_spec _ ttl); [|lia]. rewrite Ee in *. unfold Sub, min_duration, max_duration in *. lia.
Qed.

(** ** Preservation *)

Section Preservation.
Context (clock : nat -> Z) (s : Callers) (Hs : callers_ok clock s).

Lemma not_inside i :
  (forall q t, cs_calls s !! i <> Some (Entered q t)) -> s_callers (cs_sys s) !! i = None.
Proof.
  intros Hi. destruct (s_callers (cs_sys s) !! i) as [p|] eqn:E; [|done].
  destruct (ca_entered clock s Hs i p E) as (q & t & Hq & _). by apply Hi in Hq.
Qed.

Lemma cache_replaced c :
  cache_ok c -> c_max c = c_max (s_cache (cs_sys s)) -> c_now c = c_now (s_cache (cs_sys s)) ->
  (c_reads (s_cache (cs_sys s)) <= c_reads c)%nat ->
  (forall k v, held c k v -> held (s_cache (cs_sys s)) k v) ->
  callers_ok clock (mkCallers (with_cache (cs_sys s) c) (cs_calls s) (cs_ended s)).
Proof.
  intros Hc Hm Hn Hr Hh. pose proof (ca_sys clock s Hs) as Hsys. split; cbn; try apply Hs.
  - apply with_cache_ok; [done..|]. rewrite Hm. apply Hsys.
  - rewrite Hn. apply Hs.
  - intros k v Hv%Hh Hk. eapply stored_mono; [done..|]. by apply (ca_held clock s Hs).
  - intros i q t v Hv Hi Hk. eapply served_clock; [done|]. by apply (ca_answered clock s Hs i).
Qed.

Lemma call_replaced i x :
  s_callers (cs_sys s) !! i = None ->
  (forall q t, x <> Entered q t) ->
  (forall q t v, x = Answered q t v -> w_mine w i -> w_key w (key_of q t) ->
    served (s_cache (cs_sys s)) (key_of q t) v) ->
  callers_ok clock (mkCallers (cs_sys s) (<[i := x]> (cs_calls s)) (cs_ended s)).
Proof.
  intros Hi He Hx. split; cbn; try apply Hs.
  - intros j p Hj. destruct (ca_entered clock s Hs j p Hj) as (q & t & Hq & Hp). exists q, t.
    rewrite lookup_insert_ne; [done|]. intros ->. congruence.
  - intros j q t. destruct (decide (i = j)) as [->|Hne].
    + rewrite lookup_insert_eq. intros [= E]. by apply He in E.
    + rewrite lookup_insert_ne by done. apply Hs.
  - intros j q t v. destruct (decide (i = j)) as [->|Hne].
    + rewrite lookup_insert_eq. intros [= ->]. by apply Hx.
    + rewrite lookup_insert_ne by done. apply Hs.
Qed.
End Preservation.

Lemma begin_ok clock s i qname qtype :
  callers_ok clock s -> cs_calls s !! i = None -> callers_ok clock (Lookup_begin s i qname qtype).
Proof.
  intros Hs Hi. assert (s_callers (cs_sys s) !! i = None) as Hout
    by (apply (not_inside clock s Hs); by rewrite Hi).
  unfold Lookup_begin. destruct (negb _).
  { by apply call_replaced. }
  destruct (fo_cache _ (ca_sys clock s Hs)) as [Hc _].
  pose proof (lookup_cached_ok (s_cache (cs_sys s)) (key_of qname qtype) Hc) as (Hc' & Hn & Hm).
  pose proof (lookup_cached_held (s_cache (cs_sys s)) (key_of qname qtype) Hc) as (Hh & Hr).
  destruct (lookup_cached _ _) as [[v|] c'] eqn:E; cbn in Hc', Hn, Hm, Hh, Hr;
    (eapply (call_replaced clock (mkCallers (with_cache (cs_sys s) c') (cs_calls s) (cs_ended s)));
     [by apply cache_replaced|done|done|]); [|done].
  intros q t x [= <- <- <-] _ Hk. cbn. eapply served_clock; [exact Hn|].
  eapply hit_served; [done| |done]. intros u Hu. by apply (ca_held clock s Hs).
Qed.

Lemma flight_exists sys i p k f :
  flights_ok sys -> s_callers sys !! i = Some p -> at_flight p k f -> is_Some (s_store sys !! f).
Proof.
  intros Hs Hi Hp. pose proof (fo_phase sys Hs i p Hi) as Ho.
  destruct p as [k' g|k' g|k' g v|]; cbn in Hp, Ho; [destruct Hp as [_ ->].. |done].
  - destruct Ho as (fl & -> & _). done.
  - destruct Ho as (_ & fl & -> & _). done.
  - by rewrite Ho.
Qed.

(** What entering does: the new caller waits in the flight of its key, or
    leads a new one; no other flight is at hand under another key. *)
Lemma Do_enter_phase clock s i key :
  callers_ok clock s ->
  let sys := cs_sys s in let sys' := Do_enter sys i key in
  exists p f, at_flight p key f /\ phase_key key p /\ s_callers sys' = <[i := p]> (s_callers sys) /\
    s_cache sys' = s_cache sys /\ (s_next sys <= s_next sys')%nat /\
    (w_key w key -> (w_first w <= flight_of p)%nat) /\
    (forall k g, s_flights sys' !! k = Some g -> w_key w k -> (w_first w <= g)%nat) /\
    (forall g v, s_store sys' !! g = Some (mkFlight true v) -> s_store sys !! g = Some (mkFlight true v)) /\
    (forall j r k, s_callers sys !! j = Some r -> at_flight r k f -> k = key) /\
    ((exists j, s_callers sys !! j = Some (Leading key f)) \/ s_store sys !! f = None).
Proof.
  intros Hs. pose proof (ca_sys clock s Hs) as Hsys. cbn zeta. unfold Do_enter.
  destruct (s_flights (cs_sys s) !! key) as [f|] eqn:Ef.
  - destruct (fo_leader _ Hsys key f Ef) as [l Hl]. exists (Waiting key f), f.
    split_and!; try done; [|by apply (ca_open clock s Hs)| |by eauto].
    { by apply (ca_open clock s Hs). }
    intros j r k Hj Hr. by eapply (ca_flight clock s Hs j l).
  - exists (Leading key (s_next (cs_sys s))), (s_next (cs_sys s)). cbn. pose proof (ca_first clock s Hs) as Hfst.
    split_and!; try done; [lia|..].
    + intros k g. destruct (decide (key = k)) as [<-|Hne];
        [rewrite lookup_insert_eq; by intros [= <-]|rewrite lookup_insert_ne by done; apply Hs].
    + intros g v. destruct (decide (s_next (cs_sys s) = g)) as [<-|Hne];
        [by rewrite lookup_insert_eq|by rewrite lookup_insert_ne].
    + intros j r k Hj Hr. destruct (flight_exists _ j r k _ Hsys Hj Hr) as [fl Hfl].
      by rewrite (fo_next _ Hsys) in Hfl.
    + right. by apply (fo_next _ Hsys).
Qed.

Lemma at_flight_eq p k f k' f' : at_flight p k f -> at_flight p k' f' -> k' = k /\ f' = f.
Proof. destruct p; cbn; naive_solver. Qed.

Lemma enter_callers_ok clock s i s' :
  callers_ok clock s -> Lookup_enter s i = Some s' -> callers_ok clock s'.
Proof.
  intros Hs He. unfold Lookup_enter in He.
  destruct (cs_calls s !! i) as [[q t| | |]|] eqn:Hi; try done. injection He as <-.
  assert (s_callers (cs_sys s) !! i = None) as Hout
    by (apply (not_inside clock s Hs); by rewrite Hi).
  pose proof (enter_ok _ (ca_sys clock s Hs) i (key_of q t) Hout) as Hsys'.
  destruct (Do_enter_phase clock s i (key_of q t) Hs) as (p & f & Hp & Hpk & Hcs & Hca & Hnx & Hfl & Hop & Hst & Hag & Hold).
  split; cbn; rewrite ?Hca; try apply Hs; try done; [|rewrite Hcs..| |rewrite Hcs].
  - pose proof (ca_first clock s Hs). lia.
  - intros j r [[-> ->]|[Hne Hj]]%callers_cases.
    + exists q, t. rewrite lookup_insert_eq. split_and!; try done. by intros _.
    + rewrite lookup_insert_ne by done. by apply (ca_entered clock s Hs).
  - intros j q' t'. destruct (decide (i = j)) as [->|Hne]; [rewrite !lookup_insert_eq; by eexists|].
    rewrite !lookup_insert_ne by done. apply (ca_inside clock s Hs).
  - intros j l r u k k' g [[-> ->]|[Hn1 Hj]]%callers_cases [[-> ->]|[Hn2 Hl]]%callers_cases Hr Hu.
    + by destruct (at_flight_eq _ _ _ _ _ Hr Hu).
    + destruct (at_flight_eq _ _ _ _ _ Hp Hr) as [-> ->]. symmetry. by eapply Hag.
    + destruct (at_flight_eq _ _ _ _ _ Hp Hu) as [-> ->]. by eapply Hag.
    + by eapply (ca_flight clock s Hs j l).
  - intros g v j r k Hg%Hst [[-> ->]|[Hne Hj]]%callers_cases Hr Hlive; [|by eapply (ca_done clock s Hs)].
    destruct (at_flight_eq _ _ _ _ _ Hp Hr) as [-> ->]. destruct Hold as [[j Hj]|]; [|congruence].
    by eapply (ca_done clock s Hs f v j).
  - intros j q' t' v. destruct (decide (i = j)) as [->|Hne]; [by rewrite lookup_insert_eq|].
    rewrite lookup_insert_ne by done. apply Hs.
  - intros j g e [[-> <-]|[_ Hj]]%callers_cases; [done|by eapply (ca_canceled clock s Hs)].
Qed.

(** A step of [Do] that moves one caller inside its flight. *)
Lemma phase_replaced clock s i p q t p' sys' :
  callers_ok clock s -> flights_ok sys' ->
  s_callers (cs_sys s) !! i = Some p -> s_callers sys' = <[i := p']> (s_callers (cs_sys s)) ->
  cs_calls s !! i = Some (Entered q t) -> phase_key (key_of q t) p' -> flight_of p' = flight_of p ->
  s_next sys' = s_next (cs_sys s) ->
  (forall k f, s_flights sys' !! k = Some f -> s_flights (cs_sys s) !! k = Some f) ->
  (forall k f, at_flight p' k f -> at_flight p k f) ->
  (forall f e, p' = Returned f (Err e) -> cs_ended s !! i = Some e) ->
  (forall f v j r k, s_store sys' !! f = Some (mkFlight true v) ->
    s_callers (cs_sys s) !! j = Some r -> at_flight r k f -> live k f ->
    s_store (cs_sys s) !! f = Some (mkFlight true v) \/ fresh k v) ->
  c_now (s_cache sys') = c_now (s_cache (cs_sys s)) ->
  (forall k v, held (s_cache sys') k v -> w_key w k -> stored (s_cache sys') k v) ->
  callers_ok clock (mkCallers sys' (cs_calls s) (cs_ended s)).
Proof.
  intros Hs Hsys Hi Hcs Hq Hpk Hfl Hnx Hop Hat Hcan Hst Hn Hh. split; cbn; try done.
  - rewrite Hn. apply Hs.
  - rewrite Hnx. apply Hs.
  - intros k f Hf%Hop. by apply (ca_open clock s Hs).
  - rewrite Hcs. intros j r [[-> ->]|[Hne Hj]]%callers_cases; [|by apply (ca_entered clock s Hs)].
    exists q, t. split_and!; [done..|]. destruct (ca_entered clock s Hs i p Hi) as (q' & t' & Hq' & _ & Hl).
    rewrite Hq in Hq'. injection Hq' as <- <-. unfold at_live. by rewrite Hfl.
  - rewrite Hcs. intros j q' t' Hj. destruct (decide (i = j)) as [->|Hne]; [by rewrite lookup_insert_eq|].
    rewrite lookup_insert_ne by done. by eapply (ca_inside clock s Hs).
  - rewrite Hcs. intros j l r u k k' g [[-> ->]|[Hn1 Hj]]%callers_cases
      [[-> ->]|[Hn2 Hl]]%callers_cases Hr Hu.
    + by destruct (at_flight_eq _ _ _ _ _ Hr Hu).
    + by eapply (ca_flight clock s Hs i l p u); [..|apply Hat|].
    + by eapply (ca_flight clock s Hs j i r p); [..|apply Hat].
    + by eapply (ca_flight clock s Hs j l).
  - rewrite Hcs. intros g v j r k Hg Hj Hr Hlive. assert (exists r', s_callers (cs_sys s) !! j = Some r' /\ at_flight r' k g)
      as (r' & Hj' & Hr').
    { apply callers_cases in Hj as [[-> ->]|[Hne Hj]]; eauto. }
    destruct (Hst g v j r' k Hg Hj' Hr' Hlive) as [Hd|]; [|done]. by eapply (ca_done clock s Hs).
  - intros j q' t' v Hv Hj Hk. eapply served_clock; [done|]. by apply (ca_answered clock s Hs j).
  - rewrite Hcs. intros j f e [[-> E]|[_ Hj]]%callers_cases; [by eapply Hcan|by eapply (ca_canceled clock s Hs)].
Qed.

(** ** The steps of [Do] *)

Lemma phase_of clock s i p :
  callers_ok clock s -> s_callers (cs_sys s) !! i = Some p ->
  exists q t, cs_calls s !! i = Some (Entered q t) /\ phase_key (key_of q t) p /\ at_live i (key_of q t) p.
Proof. intros Hs. apply Hs. Qed.

Lemma close_callers_ok clock s i s' :
  callers_ok clock s -> within s (Do_close (cs_sys s) i) = Some s' -> callers_ok clock s'.
Proof.
  intros Hs Hc. pose proof (ca_sys clock s Hs) as Hsys. unfold within in Hc.
  destruct (Do_close (cs_sys s) i) as [sys'|] eqn:E; [|done]. injection Hc as <-.
  pose proof (close_ok _ Hsys i sys' E) as Hsys'. unfold Do_close in E.
  destruct (s_callers (cs_sys s) !! i) as [[| |key f v|]|] eqn:Hi; try done. injection E as <-.
  destruct (phase_of clock s i _ Hs Hi) as (q & t & Hq & (-> & Hv) & _).
  eapply (phase_replaced clock s i _ q t); try done; [|apply Hs]. cbn. intros g x j r k Hg Hj Hr Hlive.
  destruct (decide (f = g)) as [<-|Hne]; [right|left; by rewrite lookup_alter_ne in Hg].
  pose proof (fo_phase _ Hsys i _ Hi) as Hfl. cbn in Hfl. rewrite lookup_alter_eq, Hfl in Hg.
  injection Hg as <-. rewrite (ca_flight clock s Hs j i r _ k (key_of q t) f Hj Hi Hr ltac:(done)) in *. auto.
Qed.

Lemma wake_callers_ok clock s i s' :
  callers_ok clock s -> within s (Do_wake (cs_sys s) i) = Some s' -> callers_ok clock s'.
Proof.
  intros Hs Hc. unfold within, Do_wake in Hc.
  destruct (s_callers (cs_sys s) !! i) as [[key f| | |]|] eqn:Hi; try done.
  destruct (s_store (cs_sys s) !! f) as [[[] v]|] eqn:Hf; try done. injection Hc as <-.
  destruct (phase_of clock s i _ Hs Hi) as (q & t & Hq & -> & _).
  eapply (phase_replaced clock s i _ q t); try done; [| |by auto|apply Hs].
  - by eapply return_ok; [apply Hs|..].
  - intros Hlive. by eapply (ca_done clock s Hs f v i).
Qed.

Lemma cancel_callers_ok clock s i e s' :
  callers_ok clock s -> cs_ended s !! i = Some e -> within s (Do_cancel (cs_sys s) i e) = Some s' -> callers_ok clock s'.
Proof.
  intros Hs He Hc. unfold within, Do_cancel in Hc.
  destruct (s_callers (cs_sys s) !! i) as [[key f| | |]|] eqn:Hi; try done. injection Hc as <-.
  destruct (phase_of clock s i _ Hs Hi) as (q & t & Hq & -> & _).
  eapply (phase_replaced clock s i _ q t); try done; [|by intros ? ? [= _ <-]|by auto|apply Hs].
  by eapply return_ok; [apply Hs|..].
Qed.

Lemma end_context_callers_ok clock s i e :
  callers_ok clock s -> cs_ended s !! i = None -> callers_ok clock (end_context s i e).
Proof.
  intros Hs Hi. split; cbn; try apply Hs. intros j f e' Hj. rewrite lookup_insert_ne.
  - by eapply (ca_canceled clock s Hs).
  - intros ->. pose proof (ca_canceled clock s Hs j f e' Hj). congruence.
Qed.

(** A run that matters to the window: of a caller of the window without a
    cache, or of the leader of a flight of the window. *)
Definition relevant (s : Callers) (i : nat) : Prop :=
  match cs_calls s !! i with
  | Some (Direct q t) => w_mine w i /\ w_key w (key_of q t)
  | Some (Entered q t) => exists f, s_callers (cs_sys s) !! i = Some (Leading (key_of q t) f) /\ live (key_of q t) f
  | _ => False
  end.

Lemma resolved_callers_ok clock s i q t res s' :
  callers_ok clock s -> asked s i = Some (q, t) -> (relevant s i -> ran q t res) ->
  Lookup_resolved s i res = Some s' -> callers_ok clock s'.
Proof.
  intros Hs Hask Hran Hr. unfold Lookup_resolved, asked, relevant in *.
  assert (ran q t res -> fresh (key_of q t) (resolve sv res).1) as Hfresh by (intros ?; by exists q, t, res).
  destruct (cs_calls s !! i) as [[|q' t'|q' t'|]|] eqn:Hq; try done; injection Hask as -> ->.
  2: { injection Hr as <-. apply call_replaced; [done| |done|].
       - apply (not_inside clock s Hs). by rewrite Hq.
       - intros q' t' v [= <- <- <-] ? ?. by apply fresh_served, Hfresh, Hran. }
  pose proof (ca_sys clock s Hs) as Hsys. destruct (fo_cache _ Hsys) as [Hc Hm].
  destruct (Do_finish _ _ _ _) as [sys'|] eqn:E; [|done]. injection Hr as <-.
  pose proof (finish_ok _ Hsys _ _ _ _ E) as Hsys'. unfold Do_finish in E.
  destruct (s_callers (cs_sys s) !! i) as [[|key f| |]|] eqn:Hi; try done.
  destruct (phase_of clock s i _ Hs Hi) as (q' & t' & Hq' & Hk & _). cbn in Hk.
  rewrite Hq in Hq'. injection Hq' as <- <-. subst key.
  assert (live (key_of q t) f -> ran q t res) as Hrun by (intros Hlive; apply Hran; by exists f).
  assert (w_key w (key_of q t) -> live (key_of q t) f) as Hlv
    by (intros Hk; split; [done|apply (ca_open clock s Hs (key_of q t)); [|done]; by apply (fo_phase _ Hsys i _ Hi)]).
  assert (exists c, (if (resolve sv res).2 then setLocked (s_cache (cs_sys s)) (key_of q t) (resolve sv res).1
    else Some (s_cache (cs_sys s))) = Some c /\ c_now c = c_now (s_cache (cs_sys s)) /\
    (forall k v, held c k v -> w_key w k -> stored c k v)) as (c & Ec & Hn & Hh).
  { destruct (resolve sv res).2 eqn:Eok; [|exists (s_cache (cs_sys s)); split_and!; try done; apply Hs].
    destruct (setLocked_simulates _ (key_of q t) (resolve sv res).1 Hc Hm) as (c & Ec & _ & Hn & _).
    destruct (setLocked_held _ _ _ _ Hc Hm Ec) as (Hrd & Hh). exists c. split_and!; [done..|].
    intros k v [Hv|[-> ->]]%Hh Hk.
    - eapply stored_mono; [done| |by apply (ca_held clock s Hs)]. lia.
    - exists q, t, res, (c_reads (s_cache (cs_sys s))). rewrite Hn. split_and!; try done. by apply Hrun, Hlv. }
  rewrite Ec in E. injection E as <-.
  eapply (phase_replaced clock s i _ q t); try done; cbn.
  { split; [done|]. intros ?. by apply Hfresh, Hrun. }
  { by intros k g [_ Hg]%lookup_delete_Some. }
  intros g x j r k Hg _ _ _. left. destruct (decide (f = g)) as [<-|Hne]; [|by rewrite lookup_alter_ne in Hg].
  destruct (fo_phase _ Hsys i _ Hi) as (_ & fl & Hfl & Hd).
  rewrite lookup_alter_eq, Hfl in Hg. injection Hg as Hg. congruence.
Qed.

Lemma move_callers_ok clock s s' : move s s' -> callers_ok clock s -> callers_ok clock s'.
Proof.
  destruct 1; intros Hs.
  - by apply begin_ok.
  - by eapply enter_callers_ok.
  - by eapply close_callers_ok.
  - by eapply wake_callers_ok.
  - by eapply cancel_callers_ok.
  - by apply end_context_callers_ok.
  - destruct (fo_cache _ (ca_sys clock s Hs)) as [Hc Hm].
    destruct (sweep_simulates _ Hc) as (? & ? & ? & _), (sweep_held _ Hc). by apply cache_replaced.
Qed.

Lemma flush_callers_ok clock s : callers_ok clock s -> callers_ok clock (flush s).
Proof.
  intros Hs. destruct (fo_cache _ (ca_sys clock s Hs)) as [Hc Hm].
  destruct (Flush_simulates _ Hc Hm) as (? & ? & ? & _). apply cache_replaced; try done.
  by intros k v ?%Flush_held.
Qed.

Lemma advance_callers_ok clock s s' : advance s s' -> callers_ok clock s -> callers_ok clock s'.
Proof. destruct 1; intros Hs; [by eapply move_callers_ok|by eapply resolved_callers_ok]. Qed.

Lemma step_callers_ok clock s s' : step s s' -> callers_ok clock s -> callers_ok clock s'.
Proof. destruct 1; intros Hs; [by eapply advance_callers_ok|by apply flush_callers_ok]. Qed.

Lemma reachable_callers_ok max clock s :
  w_first w = 0%nat -> 0 <= max -> steps (start (New max clock)) s -> callers_ok clock s.
Proof.
  intros Hw Hm Hr. pose proof (callers_start_ok max clock Hw Hm) as Hi. revert Hi.
  induction Hr as [|s1 s2 s3 H12 _ IH]; [done|]. intros H1. eauto using step_callers_ok.
Qed.

(** What a caller of the window was given for a key it watches. *)
Lemma window_served clock s i q t v :
  callers_ok clock s -> asked s i = Some (q, t) -> Lookup_result s i = Some (Ok v) ->
  w_mine w i -> w_key w (key_of q t) -> served (s_cache (cs_sys s)) (key_of q t) v.
Proof.
  intros Hs Ha Hl Hmine Hkey. unfold asked, Lookup_result in *.
  destruct (cs_calls s !! i) as [[q' t'|q' t'|q' t'|q' t' x]|] eqn:Hc; try done; injection Ha as -> ->.
  - destruct (s_callers (cs_sys s) !! i) as [[| | |f r]|] eqn:Hi; try done. injection Hl as ->.
    destruct (phase_of clock s i _ Hs Hi) as (q' & t' & Hq & Hp & Hlive).
    rewrite Hc in Hq. injection Hq as <- <-. apply fresh_served, Hp. split; [done|]. by apply Hlive.
  - injection Hl as ->. by apply (ca_answered clock s Hs i).
Qed.
End Window.

(** The run behind a value. *)
Definition from_run (qname : string) (qtype : Z) (v : Value) : Prop :=
  exists qname' res, key_of qname' qtype = key_of qname qtype /\ ran qname' qtype res /\
    (v = (resolve sv res).1 \/
     authoritative res /\ same_content v (resolve sv res).1 /\ 1 < v_ttl v /\
     (0 <= v_ttl (resolve sv res).1 < 2 ^ 32 -> v_ttl v <= v_ttl (resolve sv res).1)).

Lemma served_from_run c qname qtype v :
  monotone (c_now c) -> served c (key_of qname qtype) v -> from_run qname qtype v.
Proof.
  intros Hmono (q' & t' & res & Hk & Hran & Hv).
  assert (t' = qtype) as -> by (unfold key_of in Hk; congruence).
  exists q', res. split_and!; [done..|]. destruct Hv as [?|(Hok & ? & ? & Httl)]; [by left|right].
  split_and!; try done; [by apply (resolve_cases sv)|]. intros ?. by apply Httl.
Qed.

Lemma provenance max clock s i qname qtype v :
  0 <= max -> monotone clock -> steps (start (New max clock)) s ->
  asked s i = Some (qname, qtype) -> Lookup_result s i = Some (Ok v) -> from_run qname qtype v.
Proof.
  intros Hm Hmono Hr Ha Hl. pose proof (reachable_callers_ok everything max clock s eq_refl Hm Hr) as Hs.
  apply (served_from_run (s_cache (cs_sys s))); [by rewrite (ca_clock _ clock s Hs)|].
  by apply (window_served everything clock s i).
Qed.

(** ** Theorems *)

(** C12: Whatever other callers, the janitor and flushes do, an answer comes from
    the engine.  A value that a lookup returned is that of an engine run for
    a name with the same cache key; or it was stored by such a run, whose
    result was authoritative, and has its rcode, addresses, SOA and policy,
    with more than a second and at most the stored lifetime left. *)
Theorem lookup_provenance max clock s i qname qtype v :
  0 <= max -> monotone clock -> steps (start (New max clock)) s ->
  asked s i = Some (qname, qtype) -> Lookup_result s i = Some (Ok v) ->
  exists qname' res, key_of qname' qtype = key_of qname qtype /\ ran qname' qtype res /\
    (v = (resolve sv res).1 \/
     authoritative res /\ same_content v (resolve sv res).1 /\ 1 < v_ttl v /\
     (0 <= v_ttl (resolve sv res).1 < 2 ^ 32 -> v_ttl v <= v_ttl (resolve sv res).1)).
Proof. apply provenance. Qed.

(** [Resolve.Lookup] is the run of a caller that meets no other: the steps of
    one caller, from any cache, end in its value and its cache. *)
Theorem lookup_alone c qname qtype res v c' :
  ran qname qtype res -> Lookup sv c qname qtype res = Some (v, c') ->
  exists s', steps (start c) s' /\ Lookup_result s' 0 = Some (Ok v) /\ s_cache (cs_sys s') = c'.
Proof.
  intros Hran Hl. unfold Lookup in Hl.
  assert (step (start c) (Lookup_begin (start c) 0 qname qtype)) as H1 by by apply step_advance, advance_move, move_begin.
  unfold Lookup_begin in H1. destruct (negb _) eqn:Eon.
  { injection Hl as <- <-. eexists (mkCallers _ _ _). split; [|split].
    - eapply rtc_l; [exact H1|]. apply rtc_once.
      eapply step_advance, (advance_resolved _ 0 qname qtype res); [done|done|]. reflexivity.
    - done.
    - done. }
  change (s_cache (cs_sys (start c))) with c in H1.
  destruct (lookup_cached c _) as [[w|] c1]; cbn in H1.
  { injection Hl as <- <-. eexists. split; [by apply rtc_once|]. done. }
  rewrite Do_alone_eq in Hl.
  destruct (if (resolve sv res).2 then _ else _) as [c2|] eqn:E; [|done]. injection Hl as <- <-.
  set (key := key_of qname qtype) in *. set (v0 := (resolve sv res).1) in *.
  assert (Do_finish (Do_enter (with_cache (init c) c1) 0 key) 0 v0 (resolve sv res).2 =
    Some (mkSystem c2 (delete key {[key := 0%nat]}) {[0%nat := mkFlight false v0]} 1
      {[0%nat := Closing key 0 v0]})) as Hf.
  { change (Do_enter (with_cache (init c) c1) 0 key) with (mkSystem c1 {[key := 0%nat]}
      {[0%nat := mkFlight false zero_Value]} 1 {[0%nat := Leading key 0]}).
    unfold Do_finish. cbn [s_callers s_cache s_flights s_store s_next].
    rewrite lookup_singleton_eq, E. reflexivity. }
  eexists. split; [|split].
  - eapply rtc_l; [exact H1|]. eapply rtc_l; [by apply step_advance, advance_move, (move_enter _ 0)|].
    eapply rtc_l; [eapply step_advance, (advance_resolved _ 0 qname qtype res); [done|done|]|].
    { unfold Lookup_resolved. cbn [cs_calls cs_sys]. rewrite lookup_insert_eq. fold key v0. rewrite Hf. reflexivity. }
    apply rtc_once, step_advance, advance_move, (move_close _ 0). reflexivity.
  - reflexivity.
  - reflexivity.
Qed.
End Steps.
End Callers.

(** ** Examples *)

(** Caller 0 resolves "A." and caller 1 finds the answer in the cache under
    "a". *)
Definition sample_ran (q : string) (t : Z) (res : EngineResult) : Prop :=
  res = sample_engine_result true.
Definition sample_start : Callers := start (Cache.New 4 half_seconds).
Definition one_missed : Callers := @Lookup_begin ascii_tables sample_service sample_start 0 "A." TypeA.
Definition one_entered : Callers := default one_missed (@Lookup_enter ascii_tables one_missed 0).
Definition one_resolved : Callers :=
  default one_entered (Lookup_resolved sample_service one_entered 0 (sample_engine_result true)).
Definition one_answered : Callers :=
  default one_resolved (within one_resolved (Do_close (cs_sys one_resolved) 0)).
Definition two_answered : Callers := @Lookup_begin ascii_tables sample_service one_answered 1 "a" TypeA.

Lemma one_entered_reachable :
  @steps ascii_tables sample_service sample_ran sample_start one_entered.
Proof.
  eapply rtc_l; [apply step_advance, advance_move, (move_begin _ sample_start 0 "A." TypeA); reflexivity|].
  apply rtc_once, step_advance, advance_move, (move_enter _ one_missed 0). vm_compute. reflexivity.
Qed.

Lemma two_answered_reachable :
  @steps ascii_tables sample_service sample_ran sample_start two_answered.
Proof.
  etrans; [apply one_entered_reachable|].
  eapply rtc_l; [apply step_advance, (advance_resolved _ _ one_entered 0 "A." TypeA (sample_engine_result true) one_resolved);
    vm_compute; reflexivity|].
  eapply rtc_l; [apply step_advance, advance_move, (move_close _ one_resolved 0 one_answered); vm_compute; reflexivity|].
  apply rtc_once, step_advance, advance_move, (move_begin _ one_answered 1 "a" TypeA). vm_compute. reflexivity.
Qed.

Lemma half_seconds_monotone : monotone half_seconds.
Proof. intros i j Hij. unfold half_seconds. lia. Qed.

Lemma lookup_provenance_witness :
  exists v, Lookup_result two_answered 1 = Some (Ok v) /\ v_addrs v = [Addr4 16777217] /\ 1 < v_ttl v.
Proof.
  destruct (Lookup_result two_answered 1) as [[v|e]|] eqn:E; [|vm_compute in E; discriminate E..].
  exists v. split; [reflexivity|].
  destruct (@lookup_provenance ascii_tables sample_service sample_ran 4 half_seconds two_answered 1 "a" TypeA v
    ltac:(lia) half_seconds_monotone two_answered_reachable) as (q & res & _ & -> & Hv).
  - reflexivity.
  - exact E.
  - destruct Hv as [->|(_ & (_ & Ha & _) & Ht & _)].
    + vm_compute. split; reflexivity.
    + rewrite Ha. split; [reflexivity|exact Ht].
Defined.

Lemma lookup_alone_witness :
  exists s', @steps ascii_tables sample_service sample_ran (start empty_cache) s' /\
    exists v, Lookup_result s' 0 = Some (Ok v).
Proof.
  destruct (@Lookup ascii_tables sample_service empty_cache "A." TypeA (sample_engine_result true))
    as [[v c]|] eqn:E; [|vm_compute in E; discriminate E].
  destruct (@lookup_alone ascii_tables sample_service sample_ran empty_cache "A." TypeA
    (sample_engine_result true) v c eq_refl E) as (s' & Hs & Hr & _).
  exists s'. split; [exact Hs|]. exists v. exact Hr.
Defined.
