(* ===== verification/Metrics.v ===== *)
(** * Metrics: the counters of [internal/metrics/metrics.go]

    Atomic counters are 64-bit integers; the lazily created named counters of
    an upstream are a map from names to counts. *)

From S2P Require Import Prelude Policy.

Record UpstreamMetrics := mkUpstreamMetrics {
  um_addr : string;
  um_results : gmap string Z;
  um_failures : gmap string Z;
}.

(** The plain counters, by their field names. *)
Inductive counter_name :=
| QueriesUDP | QueriesTCP | Resolved | Forwarded | FormErr | DroppedOverload | ParseError
| AnswersNOERROR | AnswersNXDomain | AnswersNODATA | AnswersSERVFAIL.

#[export] Instance counter_name_eq_dec : EqDecision counter_name.
Proof. solve_decision. Defined.

Record Metrics := mkMetrics {
  mt_start : Z;
  mt_counts : counter_name -> Z;
  mt_policies : gmap string Z;
  mt_inflight : Z;
  mt_upstreams : list UpstreamMetrics;
}.

Definition policy_names : list string :=
  [PolicyOverride; PolicyPreferChina; PolicyAllNonChina; PolicyFallbackChina].

Fixpoint register_policies (ps : list string) (m : gmap string Z) : gmap string Z :=
  match ps with
  | [] => m
  | p :: ps => register_policies ps (<[p := 0]> m)
  end.

(** [now] is the time of the call. *)
Definition New (upstreamAddrs : list string) (now : Z) : Metrics :=
  mkMetrics now (fun _ => 0) (register_policies policy_names ∅) 0
    ((fun a => mkUpstreamMetrics a ∅ ∅) <$> upstreamAddrs).

(** [m.X.Add(1)]. *)
Definition incr (n : counter_name) (m : Metrics) : Metrics :=
  mkMetrics (mt_start m) (fun k => if decide (k = n) then uint64 (mt_counts m k + 1) else mt_counts m k)
    (mt_policies m) (mt_inflight m) (mt_upstreams m).
Definition add_inflight (d : Z) (m : Metrics) : Metrics :=
  mkMetrics (mt_start m) (mt_counts m) (mt_policies m) (int64 (mt_inflight m + d)) (mt_upstreams m).

(** [counter(dst, name).Add(1)]: the counter is created at 0 when missing. *)
Definition bump (dst : gmap string Z) (name : string) : gmap string Z :=
  <[name := uint64 (default 0 (dst !! name) + 1)]> dst.

Definition RecordUpstreamResult (m : Metrics) (idx : Z) (state : string) : Metrics :=
  if (idx <? 0) || (idx >=? Z.of_nat (length (mt_upstreams m))) then m
  else mkMetrics (mt_start m) (mt_counts m) (mt_policies m) (mt_inflight m)
    (alter (fun u => mkUpstreamMetrics (um_addr u) (bump (um_results u) state) (um_failures u))
       (Z.to_nat idx) (mt_upstreams m)).

Definition RecordUpstreamFailure (m : Metrics) (idx : Z) (category : string) : Metrics :=
  if (idx <? 0) || (idx >=? Z.of_nat (length (mt_upstreams m))) then m
  else mkMetrics (mt_start m) (mt_counts m) (mt_policies m) (mt_inflight m)
    (alter (fun u => mkUpstreamMetrics (um_addr u) (um_results u) (bump (um_failures u) category))
       (Z.to_nat idx) (mt_upstreams m)).

Definition RecordPolicy (m : Metrics) (name : string) : Metrics :=
  match mt_policies m !! name with
  | Some n => mkMetrics (mt_start m) (mt_counts m) (<[name := uint64 (n + 1)]> (mt_policies m))
                (mt_inflight m) (mt_upstreams m)
  | None => m
  end.

(** ** Lemmas *)

Lemma incr_count n k m :
  mt_counts (incr n m) k = if decide (k = n) then uint64 (mt_counts m k + 1) else mt_counts m k.
Proof. done. Qed.

Lemma RecordUpstreamResult_counts m i s : mt_counts (RecordUpstreamResult m i s) = mt_counts m.
Proof. unfold RecordUpstreamResult. by destruct (_ || _). Qed.

Lemma RecordUpstreamFailure_counts m i s : mt_counts (RecordUpstreamFailure m i s) = mt_counts m.
Proof. unfold RecordUpstreamFailure. by destruct (_ || _). Qed.

Lemma RecordPolicy_counts m p : mt_counts (RecordPolicy m p) = mt_counts m.
Proof. unfold RecordPolicy. by destruct (mt_policies m !! p). Qed.

#[export] Hint Rewrite RecordUpstreamResult_counts RecordUpstreamFailure_counts
  RecordPolicy_counts incr_count : chn_simp.
