(* ===== verification/Exposition.v ===== *)
(** * Exposition: the metrics page of [internal/metrics/metrics.go]

    [Metrics.Write] as the text it prints, a reader for the Prometheus text
    format, and the proof that reading the page gives back every counter. *)

From S2P Require Import Prelude Netip GoText NetipParse GoTime GoFormat GoAddrText Policy Metrics.
From Stdlib Require Import Ascii.
#[local] Open Scope Z_scope.

(** ** The page *)

Definition literal (s : string) : string := String quote_char (s +:+ String quote_char "").

(** A sample with one label, the label's text given with its quotes. *)
Definition sample1 (name key text : string) (n : Z) : string :=
  name +:+ "{" +:+ key +:+ "=" +:+ text +:+ "} " +:+ Itoa n.
Definition sample2 (name key text key' text' : string) (n : Z) : string :=
  name +:+ "{" +:+ key +:+ "=" +:+ text +:+ "," +:+ key' +:+ "=" +:+ text' +:+ "} " +:+ Itoa n.
Definition type_line (name kind : string) : string := "# TYPE " +:+ name +:+ " " +:+ kind.

Definition queries_total : string := "chn_resolver_queries_total".
Definition outcomes_total : string := "chn_resolver_outcomes_total".
Definition answers_total : string := "chn_resolver_answers_total".
Definition policy_total : string := "chn_resolver_policy_total".
Definition results_total : string := "chn_resolver_upstream_results_total".
Definition failures_total : string := "chn_resolver_upstream_failures_total".
Definition inflight_gauge : string := "chn_resolver_inflight".
Definition uptime_gauge : string := "chn_resolver_uptime_seconds".

Section Write.
Context `{GoQuote}.
(** The order in which the [i]-th [range] over a map visits it. *)
Context (order : nat -> gmap string Z -> list (string * Z)).

(** [None] when [m.Policies] has no counter for a name: [Load] of nil. *)
Fixpoint policy_lines (m : Metrics) (ps : list string) : option (list string) :=
  match ps with
  | [] => Some []
  | p :: ps =>
      match mt_policies m !! p with
      | None => None
      | Some n =>
          match policy_lines m ps with
          | None => None
          | Some ls => Some (sample1 policy_total "policy" (Quote p) n :: ls)
          end
      end
  end.

Definition upstream_lines (i : nat) (u : UpstreamMetrics) : list string :=
  ((fun k => sample2 results_total "upstream" (Quote (um_addr u)) "state" (Quote k.1) k.2)
     <$> order (2 * i) (um_results u)) ++
  ((fun k => sample2 failures_total "upstream" (Quote (um_addr u)) "category" (Quote k.1) k.2)
     <$> order (2 * i + 1) (um_failures u)).

Fixpoint upstreams_lines (i : nat) (us : list UpstreamMetrics) : list string :=
  match us with
  | [] => []
  | u :: us => upstream_lines i u ++ upstreams_lines (S i) us
  end.

(** The lines printed at time [now]. *)
Definition write_lines (m : Metrics) (now : Z) : option (list string) :=
  let c := mt_counts m in
  match policy_lines m policy_names with
  | None => None
  | Some policies => Some (
      [type_line queries_total "counter";
       sample1 queries_total "transport" (literal "udp") (c QueriesUDP);
       sample1 queries_total "transport" (literal "tcp") (c QueriesTCP);
       type_line outcomes_total "counter";
       sample1 outcomes_total "outcome" (literal "resolved") (c Resolved);
       sample1 outcomes_total "outcome" (literal "forwarded") (c Forwarded);
       sample1 outcomes_total "outcome" (literal "formerr") (c FormErr);
       sample1 outcomes_total "outcome" (literal "dropped_overload") (c DroppedOverload);
       sample1 outcomes_total "outcome" (literal "parse_error") (c ParseError);
       type_line answers_total "counter";
       sample1 answers_total "rcode" (literal "noerror") (c AnswersNOERROR);
       sample1 answers_total "rcode" (literal "nxdomain") (c AnswersNXDomain);
       sample1 answers_total "rcode" (literal "nodata") (c AnswersNODATA);
       sample1 answers_total "rcode" (literal "servfail") (c AnswersSERVFAIL);
       type_line policy_total "counter"] ++
      policies ++
      [type_line results_total "counter"] ++
      upstreams_lines 0 (mt_upstreams m) ++
      [type_line inflight_gauge "gauge";
       inflight_gauge +:+ " " +:+ Itoa (mt_inflight m);
       type_line uptime_gauge "gauge";
       uptime_gauge +:+ " " +:+ float0 (Seconds (now - mt_start m))])
  end.

Definition Write (m : Metrics) (now : Z) : option string := unlines <$> write_lines m now.
End Write.

(** ** Reading it back *)

(** A series: its name and its labels. *)
Definition Series : Type := string * list (string * string).

Definition hex_read (c : ascii) : Z :=
  let n := code c in if n <? 58 then n - 48 else n - 87.
Definition unescape (c : ascii) : ascii :=
  if Ascii.eqb c "a" then char 7 else if Ascii.eqb c "b" then char 8
  else if Ascii.eqb c "f" then char 12 else if Ascii.eqb c "n" then char 10
  else if Ascii.eqb c "r" then char 13 else if Ascii.eqb c "t" then char 9
  else if Ascii.eqb c "v" then char 11 else c.

(** The text up to the closing quote, and what follows it. *)
Fixpoint read_quoted (s : string) : option (string * string) :=
  match s with
  | EmptyString => None
  | String c s =>
      if Ascii.eqb c quote_char then Some ("", s)
      else if Ascii.eqb c backslash then
        match s with
        | String "x" (String a (String b s)) =>
            match read_quoted s with
            | Some (t, r) => Some (String (ascii_of_N (Z.to_N (16 * hex_read a + hex_read b))) t, r)
            | None => None
            end
        | String e s =>
            match read_quoted s with Some (t, r) => Some (String (unescape e) t, r) | None => None end
        | EmptyString => None
        end
      else match read_quoted s with Some (t, r) => Some (String c t, r) | None => None end
  end.

(** The text before the first of some characters, and the rest from it on. *)
Fixpoint span_until (stop : ascii -> bool) (s : string) : string * string :=
  match s with
  | EmptyString => ("", "")
  | String c t => if stop c then ("", s)
                  else let '(a, b) := span_until stop t in (String c a, b)
  end.

(** Labels up to the closing brace; every one takes a step. *)
Fixpoint read_labels (fuel : nat) (s : string) : option (list (string * string) * string) :=
  match fuel with
  | O => None
  | S fuel =>
      let '(key, s) := span_until (fun c => Ascii.eqb c "=") s in
      match s with
      | String _ (String q s) =>
          if negb (Ascii.eqb q quote_char) then None
          else match read_quoted s with
               | Some (v, String "," s) =>
                   match read_labels fuel s with
                   | Some (ls, s) => Some ((key, v) :: ls, s)
                   | None => None
                   end
               | Some (v, String "}" s) => Some ([(key, v)], s)
               | _ => None
               end
      | _ => None
      end
  end.

Definition read_int (s : string) : option Z :=
  match s with
  | String "-" t => Z.opp <$> Atoi_digits t
  | _ => Atoi_digits s
  end.

(** A line: [Some None] for a comment. *)
Definition read_line (s : string) : option (option (Series * Z)) :=
  match s with
  | String "#" _ => Some None
  | _ =>
      let '(name, s) := span_until (fun c => Ascii.eqb c "{" || Ascii.eqb c " ") s in
      match s with
      | String "{" s =>
          match read_labels (String.length s) s with
          | Some (ls, String " " s) => (fun n => Some ((name, ls), n)) <$> read_int s
          | _ => None
          end
      | String " " s => (fun n => Some ((name, []), n)) <$> read_int s
      | _ => None
      end
  end.

Fixpoint read_all (ls : list string) : option (list (Series * Z)) :=
  match ls with
  | [] => Some []
  | l :: ls =>
      match read_line l, read_all ls with
      | Some (Some x), Some xs => Some (x :: xs)
      | Some None, Some xs => Some xs
      | _, _ => None
      end
  end.

Definition scrape (text : string) : option (list (Series * Z)) :=
  read_all (drop_last_empty (split_newlines text)).

(** ** Quoted strings are read back *)

Lemma read_quoted_char c u :
  is_ascii_char c = true ->
  read_quoted (quote_ascii c +:+ u) =
  match read_quoted u with Some (t, r) => Some (String c t, r) | None => None end.
Proof. by destruct c as [[] [] [] [] [] [] [] []]. Qed.

Lemma read_quoted_body s t :
  is_ascii s = true -> read_quoted (quote_body s +:+ String quote_char t) = Some (s, t).
Proof.
  induction s as [|c s IH]; [done|]. cbn [is_ascii quote_body]. rewrite andb_true_iff. intros [Hc Hs].
  by rewrite str_app_assoc, read_quoted_char, IH.
Qed.

(** No newline in a quoted ASCII string. *)
Lemma quote_char_line c : is_ascii_char c = true -> all_chars line_char (quote_ascii c) = true.
Proof. by destruct c as [[] [] [] [] [] [] [] []]. Qed.

Lemma quote_body_line s : is_ascii s = true -> all_chars line_char (quote_body s) = true.
Proof.
  induction s as [|c s IH]; [done|]. cbn [is_ascii quote_body]. rewrite andb_true_iff. intros [Hc Hs].
  by rewrite all_chars_app, quote_char_line, IH.
Qed.

Section Quoted.
Context `{GoQuote}.

Lemma Quote_ascii s t : is_ascii s = true ->
  Quote s +:+ t = String quote_char (quote_body s +:+ String quote_char t).
Proof.
  intros Hs. unfold Quote. rewrite Hs.
  change (String quote_char (quote_body s +:+ String quote_char "") +:+ t) with
    (String quote_char ((quote_body s +:+ String quote_char "") +:+ t)). by rewrite str_app_assoc.
Qed.

Lemma Quote_line s : is_ascii s = true -> all_chars line_char (Quote s) = true.
Proof.
  intros Hs. unfold Quote. rewrite Hs. cbn [all_chars]. by rewrite all_chars_app, quote_body_line.
Qed.
End Quoted.

(** ** Numbers are read back *)

Lemma read_int_Itoa n : read_int (Itoa n) = Some n.
Proof.
  destruct (Z_lt_le_dec n 0) as [Hn|Hn].
  - destruct n as [|p|p]; try lia. change (Itoa (Zneg p)) with (String "-" (Itoa (Zpos p))).
    cbn [read_int]. by rewrite Atoi_Itoa.
  - pose proof (Itoa_digits n Hn) as Hd. pose proof (Atoi_Itoa n Hn) as Ha.
    destruct (Itoa n) as [|c s]; [done|]. cbn in Hd. apply andb_true_iff in Hd as [Hc _].
    unfold read_int. destruct c as [[] [] [] [] [] [] [] []]; done || by vm_compute in Hc.
Qed.

Lemma Itoa_line n : all_chars line_char (Itoa n) = true.
Proof.
  assert (forall s, all_chars is_digit s = true -> all_chars line_char s = true) as Hl.
  { induction s as [|c s IH]; [done|]. cbn [all_chars]. rewrite !andb_true_iff. intros [Hc Hs].
    split; [|auto]. unfold line_char. apply negb_true_iff.
    destruct (Ascii.eqb_spec c newline) as [->|]; [by vm_compute in Hc|done]. }
  destruct (Z_lt_le_dec n 0) as [Hn|Hn]; [|by apply Hl, Itoa_digits].
  destruct n as [|p|p]; try lia. change (Itoa (Zneg p)) with (String "-" (Itoa (Zpos p))).
  cbn [all_chars]. by rewrite Hl by by apply Itoa_digits.
Qed.

(** ** Lines are read back *)

(** A character of metric names and label keys. *)
Definition name_char (c : ascii) : bool := letter c || Ascii.eqb c "_".
Definition plain_name (s : string) : bool := negb (String.eqb s "") && all_chars name_char s.

Lemma span_until_app stop s c t :
  all_chars (fun c => negb (stop c)) s = true -> stop c = true ->
  span_until stop (s +:+ String c t) = (s, String c t).
Proof.
  intros Hs Hc. induction s as [|c' s IH].
  - change ("" +:+ String c t) with (String c t). cbn [span_until]. by rewrite Hc.
  - cbn [all_chars] in Hs. apply andb_true_iff in Hs as [Hc' Hs]. apply negb_true_iff in Hc'.
    change (String c' s +:+ String c t) with (String c' (s +:+ String c t)). cbn [span_until].
    by rewrite Hc', IH.
Qed.

Lemma name_char_not c d : name_char c = true -> name_char d = false -> Ascii.eqb c d = false.
Proof. intros Hc Hd. destruct (Ascii.eqb_spec c d) as [->|]; [congruence|done]. Qed.

Lemma name_stops (stop : ascii -> bool) s :
  (forall c, stop c = true -> name_char c = false) -> plain_name s = true ->
  all_chars (fun c => negb (stop c)) s = true.
Proof.
  intros Hs. unfold plain_name. rewrite andb_true_iff. intros [_ Hn].
  induction s as [|c s IH]; [done|]. cbn [all_chars] in *. apply andb_true_iff in Hn as [Hc Hn].
  rewrite IH by done. destruct (stop c) eqn:E; [|done]. apply Hs in E. congruence.
Qed.

Lemma plain_line s : plain_name s = true -> all_chars line_char s = true.
Proof.
  intros Hs. apply (name_stops (fun c => Ascii.eqb c newline)); [|done].
  intros c Hc. by apply Ascii.eqb_eq in Hc as ->.
Qed.

(** A name at the start of a line is not a comment. *)
Lemma read_line_name name c t : plain_name name = true ->
  Ascii.eqb c "{" || Ascii.eqb c " " = true ->
  read_line (name +:+ String c t) =
  match String c t with
  | String "{" s =>
      match read_labels (String.length s) s with
      | Some (ls, String " " s) => (fun n => Some ((name, ls), n)) <$> read_int s
      | _ => None
      end
  | String " " s => (fun n => Some ((name, []), n)) <$> read_int s
  | _ => None
  end.
Proof.
  intros Hn Hc. unfold read_line.
  rewrite span_until_app; [|apply name_stops; [|done]|done].
  - destruct name as [|c' s]; [done|]. change (String c' s +:+ String c t) with (String c' (s +:+ String c t)).
    unfold plain_name in Hn. cbn [all_chars] in Hn. rewrite !andb_true_iff in Hn. destruct Hn as (_ & Hc' & _).
    destruct c' as [[] [] [] [] [] [] [] []]; done || by vm_compute in Hc'.
  - intros d Hd. apply orb_true_iff in Hd as [Hd|Hd]; by apply Ascii.eqb_eq in Hd as ->.
Qed.

Section Lines.
Context `{GoQuote}.

Lemma read_labels_step fuel key v t : plain_name key = true -> is_ascii v = true ->
  read_labels (S fuel) (key +:+ "=" +:+ Quote v +:+ t) =
  match t with
  | String "," s =>
      match read_labels fuel s with Some (ls, s) => Some ((key, v) :: ls, s) | None => None end
  | String "}" s => Some ([(key, v)], s)
  | _ => None
  end.
Proof.
  intros Hk Hv. rewrite Quote_ascii by done. cbn [read_labels].
  change ("=" +:+ String quote_char (quote_body v +:+ String quote_char t)) with
    (String "=" (String quote_char (quote_body v +:+ String quote_char t))).
  rewrite span_until_app; [|apply name_stops; [|done]|done].
  - change (Ascii.eqb quote_char quote_char) with true. cbn [negb]. by rewrite read_quoted_body.
  - intros c Hc. by apply Ascii.eqb_eq in Hc as ->.
Qed.

Lemma read_sample1 name key v n :
  plain_name name = true -> plain_name key = true -> is_ascii v = true ->
  read_line (sample1 name key (Quote v) n) = Some (Some ((name, [(key, v)]), n)).
Proof.
  intros Hn Hk Hv. unfold sample1.
  change ("{" +:+ key +:+ "=" +:+ Quote v +:+ "} " +:+ Itoa n) with
    (String "{" (key +:+ "=" +:+ Quote v +:+ "} " +:+ Itoa n)).
  rewrite read_line_name by done. cbv match.
  destruct (String.length _) as [|fuel] eqn:El.
  { destruct key; [done|discriminate El]. }
  rewrite read_labels_step by done.
  change ("} " +:+ Itoa n) with (String "}" (String " " (Itoa n))). cbv match.
  by rewrite read_int_Itoa.
Qed.

Lemma read_sample2 name key v key' v' n :
  plain_name name = true -> plain_name key = true -> is_ascii v = true ->
  plain_name key' = true -> is_ascii v' = true ->
  read_line (sample2 name key (Quote v) key' (Quote v') n) =
  Some (Some ((name, [(key, v); (key', v')]), n)).
Proof.
  intros Hn Hk Hv Hk' Hv'. unfold sample2.
  change ("{" +:+ key +:+ "=" +:+ Quote v +:+ "," +:+ key' +:+ "=" +:+ Quote v' +:+ "} " +:+ Itoa n) with
    (String "{" (key +:+ "=" +:+ Quote v +:+ "," +:+ key' +:+ "=" +:+ Quote v' +:+ "} " +:+ Itoa n)).
  rewrite read_line_name by done. cbv match.
  destruct (String.length _) as [|[|fuel]] eqn:El.
  { destruct key; [done|discriminate El]. }
  { destruct key as [|? []]; [done|discriminate El..]. }
  rewrite read_labels_step by done.
  change ("," +:+ key' +:+ "=" +:+ Quote v' +:+ "} " +:+ Itoa n) with
    (String "," (key' +:+ "=" +:+ Quote v' +:+ "} " +:+ Itoa n)). cbv match.
  rewrite read_labels_step by done.
  change ("} " +:+ Itoa n) with (String "}" (String " " (Itoa n))). cbv match.
  by rewrite read_int_Itoa.
Qed.

Lemma read_gauge name n :
  plain_name name = true -> read_line (name +:+ " " +:+ Itoa n) = Some (Some ((name, []), n)).
Proof.
  intros Hn. change (" " +:+ Itoa n) with (String " " (Itoa n)). rewrite read_line_name by done.
  cbv match. by rewrite read_int_Itoa.
Qed.

(** A line of the page with what it says. *)
Definition says (l : string) (x : option (Series * Z)) : Prop :=
  all_chars line_char l = true /\ read_line l = Some x.

Lemma sample1_says name key v n :
  plain_name name = true -> plain_name key = true -> is_ascii v = true ->
  says (sample1 name key (Quote v) n) (Some ((name, [(key, v)]), n)).
Proof.
  intros Hn Hk Hv. split; [|by apply read_sample1]. unfold sample1.
  by rewrite !all_chars_app, (plain_line name), (plain_line key), Quote_line, Itoa_line.
Qed.

Lemma sample2_says name key v key' v' n :
  plain_name name = true -> plain_name key = true -> is_ascii v = true ->
  plain_name key' = true -> is_ascii v' = true ->
  says (sample2 name key (Quote v) key' (Quote v') n) (Some ((name, [(key, v); (key', v')]), n)).
Proof.
  intros Hn Hk Hv Hk' Hv'. split; [|by apply read_sample2]. unfold sample2.
  by rewrite !all_chars_app, (plain_line name), (plain_line key), (plain_line key'), !Quote_line, Itoa_line.
Qed.

Lemma gauge_says name n : plain_name name = true -> says (name +:+ " " +:+ Itoa n) (Some ((name, []), n)).
Proof.
  intros Hn. split; [|by apply read_gauge]. by rewrite !all_chars_app, (plain_line name), Itoa_line.
Qed.

(** Reading lines that say something. *)
Lemma read_all_says ls xs : Forall2 says ls xs -> read_all ls = Some (omap id xs).
Proof.
  induction 1 as [|l x ls xs [_ Hl] _ IH]; [done|]. cbn [read_all]. rewrite Hl, IH. by destruct x.
Qed.

Lemma scrape_says ls xs : Forall2 says ls xs -> scrape (unlines ls) = Some (omap id xs).
Proof.
  intros Hs. unfold scrape. rewrite split_newlines_unlines; [by apply read_all_says|].
  induction Hs as [|l x ls xs [Hl _] _ IH]; by constructor.
Qed.
End Lines.

(** ** What the page says *)

Definition result_series (u s : string) : Series := (results_total, [("upstream", u); ("state", s)]).
Definition failure_series (u s : string) : Series := (failures_total, [("upstream", u); ("category", s)]).
Definition policy_series (p : string) : Series := (policy_total, [("policy", p)]).

(** The plain counters with their series. *)
Definition counter_series (k : counter_name) : Series :=
  match k with
  | QueriesUDP => (queries_total, [("transport", "udp")])
  | QueriesTCP => (queries_total, [("transport", "tcp")])
  | Resolved => (outcomes_total, [("outcome", "resolved")])
  | Forwarded => (outcomes_total, [("outcome", "forwarded")])
  | FormErr => (outcomes_total, [("outcome", "formerr")])
  | DroppedOverload => (outcomes_total, [("outcome", "dropped_overload")])
  | ParseError => (outcomes_total, [("outcome", "parse_error")])
  | AnswersNOERROR => (answers_total, [("rcode", "noerror")])
  | AnswersNXDomain => (answers_total, [("rcode", "nxdomain")])
  | AnswersNODATA => (answers_total, [("rcode", "nodata")])
  | AnswersSERVFAIL => (answers_total, [("rcode", "servfail")])
  end.
Definition counters : list counter_name :=
  [QueriesUDP; QueriesTCP; Resolved; Forwarded; FormErr; DroppedOverload; ParseError;
   AnswersNOERROR; AnswersNXDomain; AnswersNODATA; AnswersSERVFAIL].

(** Names that print as they are. *)
Definition um_ok (u : UpstreamMetrics) : Prop :=
  is_ascii (um_addr u) = true /\
  map_Forall (fun s _ => is_ascii s = true) (um_results u) /\
  map_Forall (fun s _ => is_ascii s = true) (um_failures u).

Record metrics_ok (m : Metrics) : Prop := {
  mo_policies : Forall (fun p => is_Some (mt_policies m !! p)) policy_names;
  mo_upstreams : Forall um_ok (mt_upstreams m);
}.

Section Page.
Context `{GoQuote} (order : nat -> gmap string Z -> list (string * Z)).
Context (Horder : forall i g, order i g ≡ₚ map_to_list g).

Definition upstream_page (i : nat) (u : UpstreamMetrics) : list (Series * Z) :=
  ((fun k => (result_series (um_addr u) k.1, k.2)) <$> order (2 * i) (um_results u)) ++
  ((fun k => (failure_series (um_addr u) k.1, k.2)) <$> order (2 * i + 1) (um_failures u)).
Fixpoint upstreams_page (i : nat) (us : list UpstreamMetrics) : list (Series * Z) :=
  match us with
  | [] => []
  | u :: us => upstream_page i u ++ upstreams_page (S i) us
  end.

Definition head_page (m : Metrics) : list (Series * Z) :=
  ((fun k => (counter_series k, mt_counts m k)) <$> counters) ++
  ((fun p => (policy_series p, default 0 (mt_policies m !! p))) <$> policy_names).
Definition tail_page (m : Metrics) (now : Z) : list (Series * Z) :=
  [((inflight_gauge, []), mt_inflight m); ((uptime_gauge, []), round_even (Seconds (now - mt_start m)))].
Definition page (m : Metrics) (now : Z) : list (Series * Z) :=
  head_page m ++ upstreams_page 0 (mt_upstreams m) ++ tail_page m now.

Lemma order_elem i g k n : (k, n) ∈ order i g <-> g !! k = Some n.
Proof. by rewrite Horder, elem_of_map_to_list. Qed.

Lemma order_names i g : NoDup (order i g).*1.
Proof. rewrite Horder. apply NoDup_fst_map_to_list. Qed.

(** *** The lines say what the page holds *)

Lemma upstream_lines_say i u : um_ok u -> Forall2 says (upstream_lines order i u) (Some <$> upstream_page i u).
Proof.
  intros (Ha & Hr & Hf). unfold upstream_lines, upstream_page. rewrite fmap_app. apply Forall2_app.
  - rewrite <-list_fmap_compose. apply Forall2_fmap, Forall_Forall2_diag, Forall_forall.
    intros [s n] Hin. apply order_elem in Hin. apply sample2_says; try done. by apply (Hr s n).
  - rewrite <-list_fmap_compose. apply Forall2_fmap, Forall_Forall2_diag, Forall_forall.
    intros [s n] Hin. apply order_elem in Hin. apply sample2_says; try done. by apply (Hf s n).
Qed.

Lemma upstreams_lines_say us i :
  Forall um_ok us -> Forall2 says (upstreams_lines order i us) (Some <$> upstreams_page i us).
Proof.
  intros Hus. revert i. induction Hus as [|u us Hu _ IH]; intros i; [constructor|].
  cbn [upstreams_lines upstreams_page]. rewrite fmap_app. apply Forall2_app; [by apply upstream_lines_say|apply IH].
Qed.

Lemma policy_lines_say m ps :
  Forall (fun p => is_Some (mt_policies m !! p)) ps -> Forall (fun p => is_ascii p = true) ps ->
  exists ls, policy_lines m ps = Some ls /\
    Forall2 says ls (Some <$> ((fun p => (policy_series p, default 0 (mt_policies m !! p))) <$> ps)).
Proof.
  induction 1 as [|p ps [n Hn] _ IH]; intros Ha; [by exists []; split; [|constructor]|].
  inversion Ha as [|? ? Hp Ha']; subst. destruct (IH Ha') as (ls & El & Hs).
  cbn [policy_lines]. rewrite Hn, El. eexists. split; [reflexivity|]. cbn. rewrite Hn.
  constructor; [|done]. by apply sample1_says.
Qed.

Lemma type_line_says name kind :
  all_chars line_char (type_line name kind) = true -> says (type_line name kind) None.
Proof. by split. Qed.

(** The lines of the page; [None] for the comments. *)
Lemma write_lines_say m now : metrics_ok m ->
  exists ls xs, write_lines order m now = Some ls /\ Forall2 says ls xs /\ omap id xs = page m now.
Proof.
  intros [Hp Hu]. unfold write_lines.
  destruct (policy_lines_say m policy_names Hp ltac:(by repeat constructor)) as (ps & -> & Hps).
  pose proof (upstreams_lines_say _ 0 Hu) as Hus. eexists.
  exists ([None; Some (counter_series QueriesUDP, mt_counts m QueriesUDP);
    Some (counter_series QueriesTCP, mt_counts m QueriesTCP); None;
    Some (counter_series Resolved, mt_counts m Resolved); Some (counter_series Forwarded, mt_counts m Forwarded);
    Some (counter_series FormErr, mt_counts m FormErr);
    Some (counter_series DroppedOverload, mt_counts m DroppedOverload);
    Some (counter_series ParseError, mt_counts m ParseError); None;
    Some (counter_series AnswersNOERROR, mt_counts m AnswersNOERROR);
    Some (counter_series AnswersNXDomain, mt_counts m AnswersNXDomain);
    Some (counter_series AnswersNODATA, mt_counts m AnswersNODATA);
    Some (counter_series AnswersSERVFAIL, mt_counts m AnswersSERVFAIL); None] ++
    (Some <$> ((fun p => (policy_series p, default 0 (mt_policies m !! p))) <$> policy_names)) ++
    [None] ++ (Some <$> upstreams_page 0 (mt_upstreams m)) ++
    [None; Some ((inflight_gauge, []), mt_inflight m); None;
     Some ((uptime_gauge, []), round_even (Seconds (now - mt_start m)))]).
  split; [reflexivity|]. split.
  - apply Forall2_app.
    { repeat match goal with
      | |- Forall2 _ (type_line _ _ :: _) _ => apply Forall2_cons; split; [by apply type_line_says|]
      | |- Forall2 _ (sample1 _ _ (literal ?v) _ :: _) _ =>
          apply Forall2_cons; split; [by apply (sample1_says _ _ v)|]
      end. constructor. }
    apply Forall2_app; [done|]. apply Forall2_app; [constructor; [by apply type_line_says|constructor]|].
    apply Forall2_app; [done|].
    apply Forall2_cons; split; [by apply type_line_says|].
    apply Forall2_cons; split; [by apply gauge_says|].
    apply Forall2_cons; split; [by apply type_line_says|].
    apply Forall2_cons; split; [by apply gauge_says|constructor].
  - unfold page, head_page. rewrite !omap_app.
    assert (forall l : list (Series * Z), omap id (Some <$> l) = l) as Hid
      by (induction l as [|x l IH]; [done|cbn; by rewrite IH]).
    by rewrite !Hid, <-!app_assoc.
Qed.

(** *** The series are distinct *)

Lemma upstream_page_elem i u x :
  x ∈ upstream_page i u <->
  (exists s n, um_results u !! s = Some n /\ x = (result_series (um_addr u) s, n)) \/
  (exists s n, um_failures u !! s = Some n /\ x = (failure_series (um_addr u) s, n)).
Proof.
  unfold upstream_page. rewrite elem_of_app, !list_elem_of_fmap. split.
  - intros [([s n] & -> & Hin)|([s n] & -> & Hin)]; apply order_elem in Hin; [left|right]; by exists s, n.
  - intros [(s & n & Hin & ->)|(s & n & Hin & ->)]; [left|right]; exists (s, n);
      (split; [done|by apply order_elem]).
Qed.

Lemma upstreams_page_elem us i x :
  x ∈ upstreams_page i us <-> exists j u, us !! j = Some u /\ x ∈ upstream_page (i + j) u.
Proof.
  revert i. induction us as [|u us IH]; intros i; cbn [upstreams_page].
  { split; [by intros ?%elem_of_nil|by intros (j & u & ? & _)]. }
  rewrite elem_of_app, IH. split.
  - intros [Hx|(j & v & Hv & Hx)]; [exists 0%nat, u|exists (S j), v]; (split; [done|]).
    + by rewrite Nat.add_0_r.
    + by rewrite Nat.add_succ_r.
  - intros ([|j] & v & Hv & Hx).
    + injection Hv as <-. left. by rewrite Nat.add_0_r in Hx.
    + right. exists j, v. split; [done|]. by rewrite Nat.add_succ_r in Hx.
Qed.

Lemma upstream_page_NoDup i u : NoDup (upstream_page i u).*1.
Proof.
  unfold upstream_page. rewrite fmap_app, <-!list_fmap_compose. apply NoDup_app. split_and!.
  - change (fst ∘ _) with (result_series (um_addr u) ∘ @fst string Z). rewrite list_fmap_compose.
    apply NoDup_fmap; [|apply order_names]. by intros s t [= ->].
  - intros x. rewrite !list_elem_of_fmap. by intros (k & -> & _) (k' & E & _).
  - change (fst ∘ _) with (failure_series (um_addr u) ∘ @fst string Z). rewrite list_fmap_compose.
    apply NoDup_fmap; [|apply order_names]. by intros s t [= ->].
Qed.

(** The upstream a series of the page is about. *)
Definition labelled (a : string) (x : Series) : Prop :=
  exists s, x = result_series a s \/ x = failure_series a s.

Lemma upstream_page_labelled i u x : x ∈ (upstream_page i u).*1 -> labelled (um_addr u) x.
Proof.
  intros (y & -> & Hy)%list_elem_of_fmap. apply upstream_page_elem in Hy.
  destruct Hy as [(s & n & _ & ->)|(s & n & _ & ->)]; exists s; auto.
Qed.

Lemma labelled_inj a b x : labelled a x -> labelled b x -> a = b.
Proof. intros (s & [->| ->]) (t & [E|E]); by injection E. Qed.

Lemma upstreams_page_NoDup us i : NoDup (um_addr <$> us) -> NoDup (upstreams_page i us).*1.
Proof.
  revert i. induction us as [|u us IH]; intros i Hnd; [constructor|]. cbn in Hnd.
  apply NoDup_cons in Hnd as [Hu Hnd]. cbn [upstreams_page]. rewrite fmap_app. apply NoDup_app.
  split_and!; [apply upstream_page_NoDup| |by apply IH].
  intros x Hx%upstream_page_labelled (y & -> & Hy)%list_elem_of_fmap.
  apply upstreams_page_elem in Hy as (j & v & Hv & Hy). apply Hu.
  rewrite (labelled_inj _ (um_addr v) _ Hx); [|eapply upstream_page_labelled, list_elem_of_fmap; eauto].
  apply list_elem_of_fmap. exists v. split; [done|]. by eapply list_elem_of_lookup_2.
Qed.

(** Names of the series that come before and after those of the upstreams. *)
Lemma frame_series m now x :
  x ∈ (head_page m).*1 \/ x ∈ (tail_page m now).*1 -> x.1 <> results_total /\ x.1 <> failures_total.
Proof.
  assert (Forall (fun x : Series => x.1 <> results_total /\ x.1 <> failures_total)
    ((head_page m).*1 ++ (tail_page m now).*1)) as Hf by (repeat constructor; discriminate).
  rewrite Forall_forall in Hf. intros Hx. by apply Hf, elem_of_app.
Qed.

Lemma upstream_series us i x :
  x ∈ (upstreams_page i us).*1 -> x.1 = results_total \/ x.1 = failures_total.
Proof.
  intros (y & -> & Hy)%list_elem_of_fmap. apply upstreams_page_elem in Hy as (j & u & _ & Hy).
  apply upstream_page_elem in Hy. destruct Hy as [(s & n & _ & ->)|(s & n & _ & ->)]; auto.
Qed.

Lemma page_NoDup m now : NoDup (um_addr <$> mt_upstreams m) -> NoDup (page m now).*1.
Proof.
  intros Hnd. unfold page. rewrite !fmap_app. apply NoDup_app. split_and!.
  - change (NoDup ((counter_series <$> counters) ++ (policy_series <$> policy_names))).
    apply (bool_decide_unpack _). vm_compute. exact I.
  - intros x Hx Hin. pose proof (frame_series m now x (or_introl Hx)) as [Hr Hf].
    apply elem_of_app in Hin as [Hin|Hin]; [by apply upstream_series in Hin as []|].
    assert (forall y, y ∈ (head_page m).*1 -> y.2 <> []) as Hl.
    { intros y Hy. assert (Forall (fun x : Series => x.2 <> []) (head_page m).*1) as HF
        by (repeat constructor; discriminate).
      rewrite Forall_forall in HF. by apply HF. }
    apply (Hl x Hx). cbn in Hin. rewrite !elem_of_cons, elem_of_nil in Hin. by destruct Hin as [->|[->|[]]].
  - apply NoDup_app. split_and!; [by apply upstreams_page_NoDup| |].
    + intros x Hx%upstream_series Hin. pose proof (frame_series m now x (or_intror Hin)) as [? ?]. by destruct Hx.
    + apply (bool_decide_unpack _). vm_compute. exact I.
Qed.

(** A series of an upstream is on the page exactly when it is among the
    upstream's own. *)
Lemma series_on_page m now i u x n :
  NoDup (um_addr <$> mt_upstreams m) -> u ∈ mt_upstreams m -> labelled (um_addr u) x ->
  (x, n) ∈ page m now <-> (x, n) ∈ upstream_page i u.
Proof.
  intros Hnd Hu Hx. apply list_elem_of_lookup_1 in Hu as [j Hj].
  assert (x.1 = results_total \/ x.1 = failures_total) as Hname by (destruct Hx as (s & [->| ->]); auto).
  assert (forall l, (x, n) ∈ l -> x ∈ l.*1) as Hl
    by (intros l Hin; apply list_elem_of_fmap; by exists (x, n)).
  unfold page. rewrite !elem_of_app, upstreams_page_elem, upstream_page_elem. split.
  - intros [Hin|[(k & v & Hv & Hin)|Hin]].
    + apply Hl in Hin. pose proof (frame_series m now x (or_introl Hin)) as [? ?]. by destruct Hname.
    + pose proof (upstream_page_labelled _ _ x (Hl _ Hin)) as Ha.
      assert (v = u) as ->; [|by apply upstream_page_elem in Hin].
      assert (j = k) as ->; [|by simplify_eq].
      eapply (NoDup_lookup _ j k); [exact Hnd|by rewrite list_lookup_fmap, Hj|].
      rewrite list_lookup_fmap, Hv. cbn. by rewrite (labelled_inj _ _ x Ha Hx).
    + apply Hl in Hin. pose proof (frame_series m now x (or_intror Hin)) as [? ?]. by destruct Hname.
  - intros Hin. right. left. exists j, u. split; [done|]. by apply upstream_page_elem.
Qed.

Lemma result_on_page m now u s n :
  NoDup (um_addr <$> mt_upstreams m) -> u ∈ mt_upstreams m ->
  (result_series (um_addr u) s, n) ∈ page m now <-> um_results u !! s = Some n.
Proof.
  intros Hnd Hu. assert (labelled (um_addr u) (result_series (um_addr u) s)) as Hl by (by exists s; left).
  rewrite (series_on_page m now 0 u _ n Hnd Hu Hl), upstream_page_elem.
  split; [intros [(t & n' & Hn & E)|(t & n' & _ & E)]; [injection E; intros; by subst|discriminate E]|].
  intros Hn. left. by exists s, n.
Qed.

Lemma failure_on_page m now u s n :
  NoDup (um_addr <$> mt_upstreams m) -> u ∈ mt_upstreams m ->
  (failure_series (um_addr u) s, n) ∈ page m now <-> um_failures u !! s = Some n.
Proof.
  intros Hnd Hu. assert (labelled (um_addr u) (failure_series (um_addr u) s)) as Hl by (by exists s; right).
  rewrite (series_on_page m now 0 u _ n Hnd Hu Hl), upstream_page_elem.
  split; [intros [(t & n' & _ & E)|(t & n' & Hn & E)]; [discriminate E|injection E; intros; by subst]|].
  intros Hn. right. by exists s, n.
Qed.

(** The text is printed and reads as the page. *)
Lemma Write_page m now : metrics_ok m ->
  exists text, Write order m now = Some text /\ scrape text = Some (page m now).
Proof.
  intros Hm. destruct (write_lines_say m now Hm) as (ls & xs & El & Hs & <-).
  unfold Write. rewrite El. eexists. split; [reflexivity|]. by apply scrape_says.
Qed.
End Page.
