(* ===== verification/Accounts.v ===== *)
(** * Accounts: what the counters of the metrics page count

    The calls that change a counter as a sequence, the number of calls of each
    kind as the specification of every counter, and the page of [Exposition]
    read against it. *)

From S2P Require Import Prelude GoText GoTime GoFormat Policy Metrics Exposition.
#[local] Open Scope Z_scope.

(** ** The counters count *)

(** The calls that change the counters, from every goroutine; each is atomic,
    so that a run of the program is a sequence of them. *)
Inductive record_call :=
| Bump (k : counter_name)
| Inflight (d : Z)
| UpstreamResult (idx : Z) (state : string)
| UpstreamFailure (idx : Z) (category : string)
| Policy (name : string).

#[export] Instance record_call_eq_dec : EqDecision record_call.
Proof. solve_decision. Defined.

Definition record (m : Metrics) (c : record_call) : Metrics :=
  match c with
  | Bump k => incr k m
  | Inflight d => add_inflight d m
  | UpstreamResult idx state => RecordUpstreamResult m idx state
  | UpstreamFailure idx category => RecordUpstreamFailure m idx category
  | Policy name => RecordPolicy m name
  end.
Definition records (m : Metrics) (cs : list record_call) : Metrics := foldl record m cs.

Definition count (c : record_call) (cs : list record_call) : nat := length (filter (eq c) cs).
Definition inflight (cs : list record_call) : Z :=
  foldr (fun c n => match c with Inflight d => d + n | _ => n end) 0 cs.

(** A named counter exists from its first use on. *)
Definition counted (n : nat) : option Z :=
  match n with O => None | S _ => Some (uint64 (Z.of_nat n)) end.

Definition names_ascii (c : record_call) : Prop :=
  match c with
  | UpstreamResult _ s | UpstreamFailure _ s => is_ascii s = true
  | _ => True
  end.

(** The counters after some calls. *)
Record counts (labels : list string) (start : Z) (cs : list record_call) (m : Metrics) : Prop := {
  cn_start : mt_start m = start;
  cn_counts : forall k, mt_counts m k = uint64 (Z.of_nat (count (Bump k) cs));
  cn_policies : forall p, p ∈ policy_names ->
    mt_policies m !! p = Some (uint64 (Z.of_nat (count (Policy p) cs)));
  cn_inflight : mt_inflight m = int64 (inflight cs);
  cn_labels : um_addr <$> mt_upstreams m = labels;
  cn_upstreams : forall i u, mt_upstreams m !! i = Some u -> forall s,
    um_results u !! s = counted (count (UpstreamResult (Z.of_nat i) s) cs) /\
    um_failures u !! s = counted (count (UpstreamFailure (Z.of_nat i) s) cs);
}.

Lemma count_snoc c cs d : count c (cs ++ [d]) = (count c cs + if decide (c = d) then 1 else 0)%nat.
Proof. unfold count. rewrite filter_app, length_app. f_equal. cbn. by destruct (decide (c = d)). Qed.

Lemma count_other c cs d : c <> d -> count c (cs ++ [d]) = count c cs.
Proof. intros Hc. rewrite count_snoc, decide_False by done. lia. Qed.

Lemma inflight_snoc cs d :
  inflight (cs ++ [d]) = inflight cs + match d with Inflight x => x | _ => 0 end.
Proof. unfold inflight. induction cs as [|c cs IH]; [destruct d; cbn; lia|]. cbn. destruct c; lia. Qed.

Lemma uint64_succ n : uint64 (uint64 (Z.of_nat n) + 1) = uint64 (Z.of_nat (n + 1)).
Proof. unfold uint64. rewrite Zplus_mod_idemp_l. f_equal. lia. Qed.

Lemma bump_counted (g : gmap string Z) s t n :
  g !! t = counted n -> bump g s !! t = counted (n + if decide (t = s) then 1 else 0).
Proof.
  intros Hg. unfold bump. destruct (decide (t = s)) as [->|Hne].
  - rewrite lookup_insert_eq, Hg. replace (n + 1)%nat with (S n) by lia. cbn [counted].
    f_equal. rewrite <-Nat.add_1_r, <-uint64_succ. by destruct n.
  - rewrite lookup_insert_ne, Nat.add_0_r by done. done.
Qed.

Lemma New_counts labels start : counts labels start [] (New labels start).
Proof.
  constructor; try done.
  - intros p Hp. cbn [New mt_policies]. unfold policy_names in Hp. rewrite !elem_of_cons, elem_of_nil in Hp.
    destruct Hp as [->|[->|[->|[->|[]]]]]; by vm_compute.
  - cbn. rewrite <-list_fmap_compose. apply list_fmap_id.
  - cbn. intros i u Hu s. apply list_lookup_fmap_Some in Hu as (a & -> & _). cbn. by rewrite lookup_empty.
Qed.

(** What a call on an upstream does to the upstream with index [i]. *)
Lemma upstream_altered (f : UpstreamMetrics -> UpstreamMetrics) us idx i u' :
  (if (idx <? 0) || (idx >=? Z.of_nat (length us)) then us else alter f (Z.to_nat idx) us) !! i = Some u' ->
  exists u, us !! i = Some u /\ u' = if decide (Z.of_nat i = idx) then f u else u.
Proof.
  intros Hu. destruct ((idx <? 0) || (idx >=? Z.of_nat (length us))) eqn:E.
  - exists u'. split; [done|]. rewrite decide_False; [done|]. intros <-.
    apply lookup_lt_Some in Hu. rewrite Z.geb_leb in E. bool_props. lia.
  - rewrite Z.geb_leb in E. apply orb_false_iff in E as [E _]. apply Z.ltb_ge in E.
    destruct (decide (Z.of_nat i = idx)) as [<-|Hne].
    + rewrite Nat2Z.id, list_lookup_alter_eq in Hu.
      destruct (us !! i) as [u|]; [|done]. injection Hu as <-. by exists u.
    + rewrite list_lookup_alter_ne in Hu by lia. by exists u'.
Qed.

Lemma altered_labels (f : UpstreamMetrics -> UpstreamMetrics) (us : list UpstreamMetrics) (b : bool) (i : nat) :
  (forall u, um_addr (f u) = um_addr u) ->
  um_addr <$> (if b then us else alter f i us) = um_addr <$> us.
Proof.
  intros Hf. destruct b; [done|]. revert i. induction us as [|u us IH]; intros [|i]; cbn; try done.
  - by rewrite Hf.
  - f_equal. apply IH.
Qed.

Lemma record_upstreams m c :
  mt_upstreams (record m c) =
  match c with
  | UpstreamResult idx s =>
      if (idx <? 0) || (idx >=? Z.of_nat (length (mt_upstreams m))) then mt_upstreams m
      else alter (fun u => mkUpstreamMetrics (um_addr u) (bump (um_results u) s) (um_failures u))
             (Z.to_nat idx) (mt_upstreams m)
  | UpstreamFailure idx s =>
      if (idx <? 0) || (idx >=? Z.of_nat (length (mt_upstreams m))) then mt_upstreams m
      else alter (fun u => mkUpstreamMetrics (um_addr u) (um_results u) (bump (um_failures u) s))
             (Z.to_nat idx) (mt_upstreams m)
  | _ => mt_upstreams m
  end.
Proof.
  destruct c; cbn; try done; unfold RecordUpstreamResult, RecordUpstreamFailure, RecordPolicy.
  - by destruct (_ || _).
  - by destruct (_ || _).
  - by destruct (mt_policies m !! name).
Qed.

Lemma record_rest m c :
  mt_start (record m c) = mt_start m /\
  (forall k, mt_counts (record m c) k =
     if decide (c = Bump k) then uint64 (mt_counts m k + 1) else mt_counts m k) /\
  (forall p, mt_policies (record m c) !! p =
     if decide (c = Policy p) then (fun n => uint64 (n + 1)) <$> mt_policies m !! p
     else mt_policies m !! p) /\
  mt_inflight (record m c) = match c with Inflight d => int64 (mt_inflight m + d) | _ => mt_inflight m end.
Proof.
  destruct c as [k'|d|i s|i s|p']; cbn [record].
  - split_and!; try done. intros k. rewrite incr_count. do 2 case_decide; congruence.
  - by split_and!.
  - unfold RecordUpstreamResult. by destruct (_ || _); split_and!.
  - unfold RecordUpstreamFailure. by destruct (_ || _); split_and!.
  - unfold RecordPolicy. destruct (mt_policies m !! p') as [n|] eqn:E; split_and!; try done; intros p;
      (case_decide as Hp; [injection Hp as ->|]); cbn.
    + by rewrite lookup_insert_eq, E.
    + rewrite lookup_insert_ne; [done|congruence].
    + by rewrite E.
    + done.
Qed.

Lemma record_counts labels start cs m c :
  counts labels start cs m -> counts labels start (cs ++ [c]) (record m c).
Proof.
  intros [Hs Hc Hp Hi Hl Hu]. destruct (record_rest m c) as (Es & Ec & Ep & Ei). constructor.
  - by rewrite Es.
  - intros k. rewrite Ec, Hc, count_snoc. case_decide as E; case_decide; try congruence.
    + by rewrite uint64_succ.
    + by rewrite Nat.add_0_r.
  - intros p Hin. rewrite Ep, Hp, count_snoc by done. case_decide as E; case_decide; try congruence; cbn.
    + by rewrite uint64_succ.
    + by rewrite Nat.add_0_r.
  - rewrite Ei, Hi, inflight_snoc. destruct c; rewrite ?Z.add_0_r; try done. apply int64_add.
  - rewrite record_upstreams. destruct c; try done; by rewrite altered_labels.
  - intros i u' Hu' t. rewrite record_upstreams in Hu'.
    destruct c as [k|d|idx s|idx s|p];
      try (destruct (Hu i u' Hu' t) as [Hr Hf]; rewrite !count_other by done; by split).
    all: apply upstream_altered in Hu' as (u & Hiu & ->); destruct (Hu i u Hiu t) as [Hr Hf];
      rewrite !count_snoc; case_decide as E.
    + rewrite (decide_False (P := UpstreamFailure _ _ = _)), Nat.add_0_r by done. split; [|done]. cbn [um_results].
      rewrite (bump_counted _ s t _ Hr). do 2 f_equal. do 2 case_decide; congruence.
    + rewrite !decide_False, !Nat.add_0_r by congruence. by split.
    + rewrite (decide_False (P := UpstreamResult _ _ = _)), Nat.add_0_r by done. split; [done|]. cbn [um_failures].
      rewrite (bump_counted _ s t _ Hf). do 2 f_equal. do 2 case_decide; congruence.
    + rewrite !decide_False, !Nat.add_0_r by congruence. by split.
Qed.

Lemma records_counts labels start cs : counts labels start cs (records (New labels start) cs).
Proof.
  induction cs as [|c cs IH] using rev_ind; [apply New_counts|].
  unfold records. rewrite foldl_app. by apply record_counts.
Qed.

Lemma counted_positive c cs : counted (count c cs) <> None -> c ∈ cs.
Proof.
  unfold count. destruct (filter (eq c) cs) as [|d l] eqn:E; [done|]. intros _.
  assert (d ∈ filter (eq c) cs) as Hin by (rewrite E; by left).
  by apply list_elem_of_filter in Hin as [-> Hin].
Qed.

(** The page can be printed after any calls with names in ASCII. *)
Lemma counts_ok labels start cs m :
  Forall (fun a => is_ascii a = true) labels -> Forall names_ascii cs ->
  counts labels start cs m -> metrics_ok m.
Proof.
  intros Ha Hcs [_ _ Hp _ Hl Hu]. rewrite Forall_forall in Hcs. constructor.
  - apply Forall_forall. intros p Hin. rewrite Hp by done. by eexists.
  - apply Forall_lookup. intros i u Hi. split_and!.
    + rewrite Forall_lookup in Ha. apply (Ha i). by rewrite <-Hl, list_lookup_fmap, Hi.
    + intros s n Hn. destruct (Hu i u Hi s) as [Hr _]. rewrite Hr in Hn.
      by apply (Hcs (UpstreamResult (Z.of_nat i) s)), counted_positive; rewrite Hn.
    + intros s n Hn. destruct (Hu i u Hi s) as [_ Hf]. rewrite Hf in Hn.
      by apply (Hcs (UpstreamFailure (Z.of_nat i) s)), counted_positive; rewrite Hn.
Qed.

(** ** Theorem *)

Lemma page_elem m now order x :
  x ∈ head_page m \/ x ∈ tail_page m now -> x ∈ page order m now.
Proof. unfold page. rewrite !elem_of_app. naive_solver. Qed.

(** The metrics page tells what happened.  After any sequence of calls
    that record something, printing does not fail whatever the order maps are
    visited in, the text reads as samples of pairwise distinct series, and
    they give the number of calls of each kind, modulo 2^64: every plain
    counter and every policy, the requests in flight, and for every upstream
    each result state and failure category that was recorded at least once,
    and no other. *)
Theorem page_reads `{GoQuote} order labels start cs now :
  (forall i g, order i g ≡ₚ map_to_list g) ->
  Forall (fun a => is_ascii a = true) labels -> NoDup labels -> Forall names_ascii cs ->
  exists text ss, Write order (records (New labels start) cs) now = Some text /\
    scrape text = Some ss /\ NoDup ss.*1 /\
    (forall k, (counter_series k, uint64 (Z.of_nat (count (Bump k) cs))) ∈ ss) /\
    (forall p, p ∈ policy_names -> (policy_series p, uint64 (Z.of_nat (count (Policy p) cs))) ∈ ss) /\
    ((inflight_gauge, []), int64 (inflight cs)) ∈ ss /\
    forall i a s n, labels !! i = Some a ->
      ((result_series a s, n) ∈ ss <-> counted (count (UpstreamResult (Z.of_nat i) s) cs) = Some n) /\
      ((failure_series a s, n) ∈ ss <-> counted (count (UpstreamFailure (Z.of_nat i) s) cs) = Some n).
Proof.
  intros Ho Ha Hnd Hcs. pose proof (records_counts labels start cs) as Hc.
  set (m := records (New labels start) cs) in *.
  destruct (Write_page order Ho m now (counts_ok _ _ _ _ Ha Hcs Hc)) as (text & Ht & Hr).
  destruct Hc as [_ Hk Hp Hi Hl Hu]. rewrite <-Hl in Hnd. exists text, (page order m now).
  split_and!; try done.
  - by apply page_NoDup.
  - intros k. apply page_elem. left. rewrite <-Hk. unfold head_page. apply elem_of_app. left.
    apply list_elem_of_fmap. exists k. split; [done|]. destruct k; unfold counters; set_solver.
  - intros p Hin. apply page_elem. left. unfold head_page. apply elem_of_app. right.
    apply list_elem_of_fmap. exists p. by rewrite (Hp p Hin).
  - apply page_elem. right. rewrite <-Hi. by left.
  - intros i a s n Hia. rewrite <-Hl, list_lookup_fmap in Hia.
    destruct (mt_upstreams m !! i) as [u|] eqn:E; [|done]. injection Hia as <-.
    destruct (Hu i u E s) as [<- <-]. assert (u ∈ mt_upstreams m) by by eapply list_elem_of_lookup_2.
    split; [by apply result_on_page|by apply failure_on_page].
Qed.

(** ** Examples *)

(** Texts that are not ASCII do not occur. *)
Definition plain_quotes : GoQuote := {| unicode_Quote := fun s => s |}.
Definition sample_labels : list string := ["223.5.5.5:53"; "[2001:4860::8888]:53"].
Definition sample_records : list record_call :=
  [Bump QueriesUDP; Inflight 1; UpstreamResult 1 "answer"; UpstreamResult 0 "failure";
   UpstreamFailure 0 "timeout"; Policy PolicyOverride; Bump Resolved; Inflight (-1);
   UpstreamResult 1 "answer"; UpstreamResult 7 "answer"].

Example sample_page :
  (fun text => hd "" (List.skipn 20 (split_newlines text))) <$>
    Write (H := plain_quotes) (fun _ => map_to_list) (records (New sample_labels 0) sample_records) (3 * Second) =
  Some (sample2 results_total "upstream" (literal "223.5.5.5:53") "state" (literal "failure") 1).
Proof. vm_compute. reflexivity. Qed.

Lemma page_reads_witness : exists text ss,
  Write (H := plain_quotes) (fun _ => map_to_list) (records (New sample_labels 0) sample_records) (3 * Second) =
    Some text /\ scrape text = Some ss /\
  (result_series "[2001:4860::8888]:53" "answer", 2) ∈ ss /\
  (counter_series Resolved, 1) ∈ ss /\ ((inflight_gauge, []), 0) ∈ ss.
Proof.
  destruct (@page_reads plain_quotes (fun _ => map_to_list) sample_labels 0 sample_records (3 * Second))
    as (text & ss & Hw & Hs & _ & Hk & _ & Hi & Hu).
  - reflexivity.
  - repeat constructor.
  - apply (bool_decide_unpack _). vm_compute. exact I.
  - repeat constructor.
  - exists text, ss. split; [exact Hw|]. split; [exact Hs|]. split; [|split].
    + apply (Hu 1%nat "[2001:4860::8888]:53" "answer" 2 eq_refl). vm_compute. reflexivity.
    + exact (Hk Resolved).
    + exact Hi.
Defined.
