(* ===== verification/MetricsPage.v ===== *)
(** * MetricsPage: the HTTP server of the metrics page

    [serveMetrics] of [cmd/chn-resolver/main.go]: the [ServeMux] with its one
    pattern, the handler that prints the page, and the life of the server,
    from its start over the requests to the end of the context or a failure
    to listen.  Requests are seen by their decoded path. *)

From S2P Require Import Prelude GoText GoTime GoFormat Policy Metrics Exposition Accounts.
From Stdlib Require Import Ascii.
#[local] Open Scope Z_scope.

(** ** [net/http.ServeMux] with the pattern "/metrics" *)

(** The parts of a path between slashes. *)
Fixpoint segments (s : string) : string * list string :=
  match s with
  | EmptyString => ("", [])
  | String c s =>
      let '(seg, segs) := segments s in
      if Ascii.eqb c "/" then ("", seg :: segs) else (String c seg, segs)
  end.

(** [path.Clean] of a path that begins with a slash; [acc] is reversed. *)
Fixpoint clean_segments (acc segs : list string) : list string :=
  match segs with
  | [] => rev acc
  | seg :: segs =>
      if String.eqb seg "" || String.eqb seg "." then clean_segments acc segs
      else if String.eqb seg ".." then clean_segments (tail acc) segs
      else clean_segments (seg :: acc) segs
  end.
Fixpoint join (segs : list string) : string :=
  match segs with [] => "" | seg :: segs => "/" +:+ seg +:+ join segs end.
Definition Clean (p : string) : string :=
  match join (clean_segments [] (segments p).2) with "" => "/" | q => q end.

Definition rooted (p : string) : string :=
  match p with "" => "/" | String "/" _ => p | _ => "/" +:+ p end.
Definition last_char (p : string) : string := String.substring (String.length p - 1) 1 p.
Definition cleanPath (p : string) : string :=
  let p := rooted p in
  let np := Clean p in
  if String.eqb (last_char p) "/" && negb (String.eqb np "/") then np +:+ "/" else np.

Inductive route := ToHandler | ToPath (p : string) | NoRoute.

Definition mux (p : string) : route :=
  let np := cleanPath p in
  if negb (String.eqb np p) then ToPath np
  else if String.eqb np "/metrics" then ToHandler
  else NoRoute.

(** ** The server *)

Inductive response :=
| Page (text : string)
| MovedPermanently (p : string)
| NotFound
| ConnectionAborted.

(** What happens to the server: a request, with the counters and the time
    when it is handled; the end of the context, on which the other goroutine
    closes the server; or an error of [ListenAndServe] that is its own. *)
Inductive page_event :=
| Request (path : string) (m : Metrics) (now : Z)
| ContextDone
| ListenError (err : string).

Section MetricsPage.
Context `{GoQuote} (order : nat -> gmap string Z -> list (string * Z)).

(** A panic of the handler ends its connection only. *)
Definition serve_request (path : string) (m : Metrics) (now : Z) : response :=
  match mux path with
  | ToHandler => match Write order m now with Some text => Page text | None => ConnectionAborted end
  | ToPath p => MovedPermanently p
  | NoRoute => NotFound
  end.

(** The responses, and the error that is logged when [ListenAndServe] returns
    one other than [ErrServerClosed]. *)
Fixpoint serveMetrics (evs : list page_event) : list response * option string :=
  match evs with
  | [] => ([], None)
  | Request path m now :: evs =>
      let '(rs, e) := serveMetrics evs in (serve_request path m now :: rs, e)
  | ContextDone :: _ => ([], None)
  | ListenError err :: _ => ([], Some err)
  end.

(** ** Theorems *)

(** Only the path itself is the page; other spellings of it are redirected
    to it. *)
Lemma mux_page p : mux p = ToHandler <-> p = "/metrics".
Proof.
  unfold mux. split.
  - destruct (String.eqb_spec (cleanPath p) p) as [E|]; [|done]. cbn [negb].
    destruct (String.eqb_spec (cleanPath p) "/metrics"); [congruence|done].
  - by intros ->.
Qed.

Lemma mux_redirects p : mux p = ToPath "/metrics" <-> cleanPath p = "/metrics" /\ p <> "/metrics".
Proof.
  unfold mux. destruct (String.eqb_spec (cleanPath p) p) as [E|Hne]; cbn [negb].
  - destruct (String.eqb_spec (cleanPath p) "/metrics"); split; [done|intros []; congruence|done|intros []; congruence].
  - split; [intros [= Hp]; split; congruence|by intros [-> _]].
Qed.

(** The server answers the requests that come before its end, in order; a
    request for the page gets the counters of that moment, whatever was
    counted before; and only a failure to listen is logged. *)
Theorem metrics_served labels start reqs rest :
  (forall i g, order i g ≡ₚ map_to_list g) ->
  Forall (fun a => is_ascii a = true) labels -> NoDup labels ->
  Forall (fun '(_, cs, _) => Forall names_ascii cs) reqs ->
  let ask := fun '(path, cs, now) => Request path (records (New labels start) cs) now in
  exists rs, length rs = length reqs /\
    serveMetrics ((ask <$> reqs) ++ ContextDone :: rest) = (rs, None) /\
    (forall err, serveMetrics ((ask <$> reqs) ++ ListenError err :: rest) = (rs, Some err)) /\
    forall i path cs now, reqs !! i = Some (path, cs, now) -> path = "/metrics" ->
      exists text ss, rs !! i = Some (Page text) /\ scrape text = Some ss /\
        forall k, (counter_series k, uint64 (Z.of_nat (count (Bump k) cs))) ∈ ss.
Proof.
  intros Ho Ha Hnd Hcs ask. induction Hcs as [|[[path cs] now] reqs Hc _ IH].
  { exists []. split_and!; try done. }
  destruct IH as (rs & Hlen & Hd & He & Hi).
  exists (serve_request path (records (New labels start) cs) now :: rs).
  split_and!; [cbn; lia|by cbn; rewrite Hd|by intros err; cbn; rewrite He|].
  intros [|i] path' cs' now' Hr Hp; [|by eapply Hi]. injection Hr as <- <- <-. subst path.
  destruct (page_reads order labels start cs now Ho Ha Hnd Hc) as (text & ss & Hw & Hs & _ & Hk & _).
  exists text, ss. split_and!; try done. cbn. unfold serve_request.
  by rewrite (proj2 (mux_page "/metrics") eq_refl), Hw.
Qed.
End MetricsPage.

(** ** Examples *)

Example mux_examples :
  mux "/metrics" = ToHandler /\ mux "//x/../metrics" = ToPath "/metrics" /\
  mux "/metrics/" = NoRoute /\ mux "" = ToPath "/".
Proof. vm_compute. by split_and!. Qed.

Lemma metrics_served_witness : exists rs text,
  serveMetrics (H := plain_quotes) (fun _ => map_to_list)
    [Request "/metrics" (records (New sample_labels 0) sample_records) Second; ContextDone] = (rs, None) /\
  rs !! 0%nat = Some (Page text).
Proof.
  destruct (@metrics_served plain_quotes (fun _ => map_to_list) sample_labels 0
    [("/metrics", sample_records, Second)] []) as (rs & _ & Hd & _ & Hi).
  - reflexivity.
  - repeat constructor.
  - apply (bool_decide_unpack _). vm_compute. exact I.
  - repeat constructor.
  - destruct (Hi 0%nat _ _ _ eq_refl eq_refl) as (text & ss & Ht & _).
    exists rs, text. split; [exact Hd|exact Ht].
Defined.
