(* ===== verification/Testdns.v ===== *)
(** * Testdns: the fake upstream of [internal/testdns/fake.go]

    The programmable zone the tests run the resolver against: its handler,
    with delays, truncation and silence on UDP, and a [World] in which the
    network is a client talking to that handler and time is what the handler
    sleeps or a client waits; nobody else writes to the client.  The theorems
    say what a chase against such a zone returns, for every zone. *)

From S2P Require Import Prelude Netip GoText Dns Policy Upstream ChaseProps.

(** ** The zone *)

(** The inner maps are keyed by query type; a name whose map is missing and
    one that is not listed look the same to the handler. *)
Record Zone := mkZone {
  Records : gmap string (gmap Z (list RR));
  Delay : Z;
  DelayNames : gmap string Z;
  TruncateUDP : bool;
  DropUDP : bool;
}.

Section Zone.
Context `{GoUnicode} `{DnsLib} (z : Zone).

Definition delayFor (name : string) : Z :=
  match DelayNames z !! ToLower name with
  | Some d => d
  | None => Delay z
  end.

Definition soa (name : string) : SOA :=
  mkSOA (mkHdr "example." TypeSOA ClassINET 3600) "ns1.example." "hostmaster.example."
    1 7200 3600 1209600 300.

(** The handler: how long it sleeps, and the message it writes, if any.  The
    counter of hits is the caller's. *)
Definition Handler (isUDP : bool) (r : Msg) : Z * option Msg :=
  match m_question r with
  | [q] =>
      let name := ToLower (q_name q) in
      let d := delayFor name in
      let slept := if d >? 0 then d else 0 in
      if isUDP && DropUDP z then (slept, None)
      else
        let m := SetReply new_Msg r in
        if isUDP && TruncateUDP z then (slept, Some (set_truncated m true))
        else
          match Records z !! name with
          | None =>
              let m := set_rcode m RcodeNameError in
              (slept, Some (set_ns m (m_ns m ++ [RR_SOA (soa name)])))
          | Some byType =>
              match byType !! q_qtype q with
              | Some rrs => (slept, Some (set_answer m (m_answer m ++ rrs)))
              | None => (slept, Some (set_ns m (m_ns m ++ [RR_SOA (soa name)])))
              end
          end
  | _ => (0, Some (set_rcode (SetReply new_Msg r) RcodeServerFailure))
  end.

(** ** A client of the zone *)

(** The handler's hits, and the time that has passed. *)
Record Fake := mkFake { Hits : Z; elapsed : Z }.

(** A client waits for the reply for at most its timeout.  The query's
    context has no deadline. *)
Definition fake_exchange (cl : dnsClient) (q : Msg) (addr : AddrPort) (w : Fake)
    : result bool Msg * Fake :=
  let isUDP := bool_decide (c_net cl = UDP) in
  let '(slept, reply) := Handler isUDP q in
  let hits := int64 (Hits w + 1) in
  match reply with
  | Some m =>
      if slept <? c_timeout cl then (Ok m, mkFake hits (elapsed w + slept))
      else (Err true, mkFake hits (elapsed w + c_timeout cl))
  | None => (Err true, mkFake hits (elapsed w + c_timeout cl))
  end.

#[local] Instance fake_world : World Fake := {|
  ctx_Err w := (None, w);
  ctx_remaining w := (None, w);
  dns_Id w := (0, w);
  others_write t own w := (own, w);
  dns_Exchange := fake_exchange;
|}.

(** ** What a query gets *)

(** The sections of the message for a name, the header apart. *)
Definition zone_reply (qtype : Z) (n : string) (m : Msg) : Prop :=
  m_truncated m = false /\
  match Records z !! ToLower n with
  | None => m_rcode m = RcodeNameError /\ m_answer m = [] /\ m_ns m = [RR_SOA (soa n)]
  | Some byType =>
      m_rcode m = RcodeSuccess /\
      match byType !! qtype with
      | Some rrs => m_answer m = rrs /\ m_ns m = []
      | None => m_answer m = [] /\ m_ns m = [RR_SOA (soa n)]
      end
  end.

Definition sleeps (n : string) : Z := Z.max 0 (delayFor (ToLower n)).

Lemma Handler_query `{!DnsLaws} q n qtype :
  m_question q = [mkQuestion n qtype ClassINET] ->
  exists m, zone_reply qtype n m /\ forall isUDP, Handler isUDP q =
    (sleeps n,
     if isUDP && DropUDP z then None
     else if isUDP && TruncateUDP z then Some (set_truncated (SetReply new_Msg q) true)
     else Some m).
Proof.
  intros Hq. unfold Handler. rewrite Hq. cbn [q_name q_qtype].
  replace (if delayFor (ToLower n) >? 0 then delayFor (ToLower n) else 0) with (sleeps n)
    by (unfold sleeps; rewrite Z.gtb_ltb; destruct (Z.ltb_spec 0 (delayFor (ToLower n))); lia).
  rewrite SetReply_new. unfold zone_reply.
  destruct (Records z !! ToLower n) as [byType|]; [destruct (byType !! qtype) as [rrs|]|];
    (eexists; split; [|intros isUDP; by destruct (isUDP && DropUDP z), (isUDP && TruncateUDP z)]);
    by split_and!.
Qed.

Section Chases.
Context `{!DnsLaws} (addr : AddrPort) (qtype attempt udpSize : Z).

(** A message of the zone for a name, as it is sent over TCP. *)
Definition zone_msg (n : string) : Msg :=
  default new_Msg (Handler false (query 0 n qtype udpSize)).2.

Lemma zone_msg_spec n :
  zone_reply qtype n (zone_msg n) /\ forall isUDP, Handler isUDP (query 0 n qtype udpSize) =
    (sleeps n,
     if isUDP && DropUDP z then None
     else if isUDP && TruncateUDP z
          then Some (set_truncated (SetReply new_Msg (query 0 n qtype udpSize)) true)
     else Some (zone_msg n)).
Proof.
  destruct (query_asks qtype udpSize 0 n) as [Hq _].
  destruct (Handler_query _ n qtype Hq) as (m & Hm & Hh).
  assert (zone_msg n = m) as -> by (unfold zone_msg; by rewrite Hh). done.
Qed.

(** One exchange. *)
Lemma fake_exchangeNet t q budget c w :
  client_ok c ->
  exchangeNet (H1 := fake_world) t addr q budget (c, w) =
  let '(slept, reply) := Handler (bool_decide (t = UDP)) q in
  let ok := match reply with Some _ => slept <? budget | None => false end in
  (match reply with
   | Some m => if slept <? budget then Ok m else Err ErrTimeout
   | None => Err ErrTimeout
   end,
   (set_timeout c t budget, mkFake (int64 (Hits w + 1)) (elapsed w + (if ok then slept else budget)))).
Proof.
  intros Hc. unfold exchangeNet. cbn [others_write dns_Exchange fake_world]. rewrite set_timeout_twice, Msg_Copy_id. unfold fake_exchange.
  rewrite set_timeout_of, (client_ok_net _ t) by by apply set_timeout_ok.
  destruct (Handler _ q) as [slept [m|]]; [|done]. by destruct (slept <? budget).
Qed.

Definition tries : Z := if TruncateUDP z then 2 else 1.

(** A query is answered after one or, when UDP answers are truncated, two
    rounds of the handler. *)
Lemma fake_Exchange n budget c w :
  client_ok c -> DropUDP z = false -> sleeps n < budget ->
  exists c', Exchange (H1 := fake_world) addr (query 0 n qtype udpSize) budget (c, w) =
    (Ok (zone_msg n), (c', mkFake (Nat.iter (Z.to_nat tries) (fun h => int64 (h + 1)) (Hits w))
      (elapsed w + tries * sleeps n))) /\ client_ok c'.
Proof.
  intros Hc Hd Hs. destruct (zone_msg_spec n) as [[Htr _] Hh].
  unfold Exchange, bind, observe, ret. cbn [ctx_Err fake_world].
  rewrite fake_exchangeNet by done. rewrite Hh, Hd, bool_decide_true by done. cbn [andb].
  unfold tries. rewrite (proj2 (Z.ltb_lt _ _)) by done. destruct (TruncateUDP z) eqn:Et.
  - cbn [m_truncated set_truncated]. rewrite fake_exchangeNet by by apply set_timeout_ok.
    rewrite Hh, bool_decide_false by done. cbn [andb]. rewrite (proj2 (Z.ltb_lt _ _)) by done.
    eexists. split; [|by apply set_timeout_ok, set_timeout_ok]. cbn [Hits elapsed].
    do 3 f_equal. lia.
  - rewrite Htr. eexists. split; [|by apply set_timeout_ok]. do 3 f_equal. lia.
Qed.

(** Looking a name up reads the zone's message for it. *)
Lemma fake_lookup :
  DropUDP z = false -> 0 < attempt -> (forall n, sleeps n < attempt) ->
  forall cur (s : Client * Fake), client_ok s.1 -> m_truncated (zone_msg cur) = false ->
  runs (lookup_name (H1 := fake_world) addr qtype attempt udpSize (blank (ap_addr addr)) cur) s
    (fun o s' => o = read_reply (blank (ap_addr addr)) cur qtype (zone_msg cur) /\ client_ok s'.1).
Proof.
  intros Hd Hat Hs cur [c w] Hc _. unfold runs, lookup_name, bind, hopBudget, observe, bind, ret.
  cbn [ctx_remaining fake_world]. replace (attempt <? 0) with false by lia.
  replace (attempt <=? 0) with false by lia. cbn [dns_Id fake_world].
  destruct (fake_Exchange cur attempt c w Hc Hd (Hs cur)) as (c' & -> & Hc'). by split.
Qed.

(** ** Chains in the zone *)

(** [n] is stored as an alias of [t], under the type asked for. *)
Definition zone_alias (n t : string) : Prop :=
  exists byType hdr target, Records z !! ToLower n = Some byType /\
    byType !! qtype = Some [RR_CNAME hdr target] /\ EqualFold (h_name hdr) n = true /\
    Upstream.normalize target = t.

Fixpoint zone_linked (n : string) (ns : list string) : Prop :=
  match ns with
  | [] => True
  | t :: ns => zone_alias n t /\ zone_linked t ns
  end.

Lemma zone_alias_alias n t : zone_alias n t -> alias zone_msg n t.
Proof.
  intros (byType & hdr & target & Hn & Hq & He & Ht). destruct (zone_msg_spec n) as [[Htr Hm] _].
  rewrite Hn, Hq in Hm. destruct Hm as (Hrc & Ha & _). split_and!; try done. by exists hdr, target.
Qed.

Lemma zone_linked_linked n ns : zone_linked n ns -> linked zone_msg n ns.
Proof.
  revert n. induction ns as [|t ns IH]; intros n; [done|]. intros [Ha Hl].
  split; [by apply zone_alias_alias|by apply IH].
Qed.

(** What the zone says about a name, as the outcome of a chase. *)
Definition zone_result (n : string) : Result -> Prop := fun r =>
  match Records z !! ToLower n with
  | None => r = negative (blank (ap_addr addr)) StateNXDomain (Some (soa n))
  | Some byType =>
      match byType !! qtype with
      | None => r = negative (blank (ap_addr addr)) StateNoData (Some (soa n))
      | Some rrs => records qtype rrs <> [] ->
          r_state r = StateAnswer /\ r_addrs r = dedupAddrs (records qtype rrs).*1 /\
          r_minttl r = (scan_addrs qtype rrs [] 0).2
      end
  end.

Definition answers (n : string) : Prop :=
  forall byType rrs, Records z !! ToLower n = Some byType -> byType !! qtype = Some rrs ->
  records qtype rrs <> [].

Lemma zone_read n :
  answers n -> exists r, read_reply (blank (ap_addr addr)) n qtype (zone_msg n) = Finished r /\
    zone_result n r.
Proof.
  intros Han. destruct (zone_msg_spec n) as [[_ Hm] _]. unfold zone_result, answers in *.
  unfold read_reply, extractSOA.
  destruct (Records z !! ToLower n) as [byType|]; [destruct Hm as [-> Hm]|destruct Hm as (-> & -> & ->)].
  - rewrite Z.eqb_refl. destruct (byType !! qtype) as [rrs|] eqn:Eq.
    + destruct Hm as [-> _]. specialize (Han byType rrs eq_refl Eq).
      pose proof (scan_addrs_addrs qtype rrs [] 0) as Ha. destruct (scan_addrs qtype rrs [] 0) as [addrs ttl].
      cbn [fst app] in Ha. rewrite Ha in *. destruct (records qtype rrs) as [|x l]; [done|].
      cbn [fmap list_fmap nonempty]. eexists. split; [reflexivity|]. done.
    + destruct Hm as [-> ->]. eexists. split; [reflexivity|]. done.
  - eexists. split; [reflexivity|]. done.
Qed.

(** C23: a chase against a zone returns what the zone says.  Suppose that the
    zone does not drop UDP queries, that it sleeps for less than an attempt's
    time before every answer, that the client is not used by anyone else, that
    the names from the one asked for along stored aliases are distinct, with
    fewer aliases than the hop limit, and that what the last name has of the
    type asked for, if anything, includes an address record.  Then the chase
    ends with the stored addresses of the last name, without repetition and
    with the TTL the scan finds (the least, when they are positive), with
    NXDOMAIN and the zone's SOA when the name in
    lower case is not a key of the zone, and with NODATA and the SOA when it
    has nothing of the type, whether UDP answers are truncated or not. *)
Theorem zone_chase qname ns maxHops s :
  DropUDP z = false -> 0 < attempt -> (forall n, sleeps n < attempt) -> client_ok s.1 ->
  zone_linked (Upstream.normalize qname) ns -> NoDup (Upstream.normalize qname :: ns) ->
  Z.of_nat (length ns) < maxHops -> answers (chain_end (Upstream.normalize qname) ns) ->
  zone_result (chain_end (Upstream.normalize qname) ns)
    (Chase (H1 := fake_world) addr qname qtype maxHops attempt udpSize s).1.
Proof.
  intros Hd Hat Hs Hc Hl Hnd Hlen Han.
  destruct (zone_read _ Han) as (r & Hr & Hz).
  rewrite (chain_result zone_msg addr qtype attempt udpSize (fun s => client_ok s.1)
    ltac:(done) (fake_lookup Hd Hat Hs) qname ns maxHops s r); try done.
  - by apply zone_linked_linked.
  - by destruct (zone_msg_spec (chain_end (Upstream.normalize qname) ns)) as [[? _] _].
Qed.

(** A zone that drops UDP queries, or sleeps at least as long as an attempt
    may take, makes a chase fail with a timeout after one attempt's time. *)
Theorem zone_timeout qname maxHops s :
  0 < maxHops -> 0 < attempt -> client_ok s.1 ->
  DropUDP z = true \/ attempt <= sleeps (Upstream.normalize qname) ->
  let '(r, s') := Chase (H1 := fake_world) addr qname qtype maxHops attempt udpSize s in
  r = fail_with (blank (ap_addr addr)) "timeout" /\ elapsed s'.2 = elapsed s.2 + attempt.
Proof.
  intros Hmax Hat Hc Hlate. destruct s as [c w]. unfold Chase. fold (blank (ap_addr addr)).
  destruct (Z.to_nat maxHops) as [|hops] eqn:Eh; [lia|]. cbn [chase_loop]. unfold bind at 1, observe at 1.
  cbn [ctx_Err fake_world]. rewrite decide_False by set_solver.
  unfold bind at 1, lookup_name, bind at 1, hopBudget, bind at 1, observe at 1, ret at 1.
  cbn [ctx_remaining fake_world]. replace (attempt <? 0) with false by lia.
  replace (attempt <=? 0) with false by lia. unfold bind at 1, observe at 1. cbn [dns_Id fake_world].
  destruct (zone_msg_spec (Upstream.normalize qname)) as [_ Hh].
  unfold Exchange, bind, observe, ret. cbn [ctx_Err fake_world].
  rewrite fake_exchangeNet by done. rewrite Hh, bool_decide_true by done. cbn [andb].
  destruct (DropUDP z); [done|]. destruct Hlate as [?|Hlate]; [done|].
  rewrite (proj2 (Z.ltb_ge _ _)) by done. by destruct (TruncateUDP z).
Qed.
End Chases.
End Zone.

(** ** Examples *)

(** The chain of the chase tests, with truncated UDP answers. *)
Definition chain_zone : Zone := mkZone
  (<["foo.example." := {[TypeA := [cname "foo.example." "alias1.example."]]}]>
   (<["alias1.example." := {[TypeA := [cname "alias1.example." "alias2.example."]]}]>
    {["alias2.example." := {[TypeA := [a_record "alias2.example." 300 (be_val [1; 1; 1; 9])]]}]}))
  5 ∅ true false.

Lemma chain_first : @zone_alias ascii_tables chain_zone TypeA
  (@Upstream.normalize ascii_tables "foo.example") "alias1.example.".
Proof.
  exists {[TypeA := [cname "foo.example." "alias1.example."]]}, (mkHdr "foo.example." TypeCNAME ClassINET 60),
    "alias1.example.". split_and!; vm_compute; reflexivity.
Qed.

Lemma chain_second : @zone_alias ascii_tables chain_zone TypeA "alias1.example." "alias2.example.".
Proof.
  exists {[TypeA := [cname "alias1.example." "alias2.example."]]}, (mkHdr "alias1.example." TypeCNAME ClassINET 60),
    "alias2.example.". split_and!; vm_compute; reflexivity.
Qed.

Lemma zone_chase_witness :
  r_addrs (@Chase ascii_tables sample_dns Fake (@fake_world ascii_tables sample_dns chain_zone)
    sample_addr "foo.example" TypeA 10 1000 1232 (NewClient 1232, mkFake 0 0)).1 =
  [Addr4 (be_val [1; 1; 1; 9])].
Proof.
  pose proof (@zone_chase ascii_tables sample_dns chain_zone sample_dns_laws sample_addr TypeA 1000 1232
    "foo.example" ["alias1.example."; "alias2.example."] 10 (NewClient 1232, mkFake 0 0)) as Hz.
  unfold zone_result in Hz.
  replace (Records chain_zone !! _) with
    (Some ({[TypeA := [a_record "alias2.example." 300 (be_val [1; 1; 1; 9])]]} : gmap Z (list RR)))
    in Hz by (vm_compute; reflexivity).
  rewrite lookup_singleton_eq in Hz.
  destruct Hz as (_ & Ha & _).
  - reflexivity.
  - lia.
  - intros n. unfold sleeps, delayFor. cbn [DelayNames Delay chain_zone]. rewrite lookup_empty. lia.
  - split; reflexivity.
  - cbn [zone_linked]. split; [exact chain_first|split; [exact chain_second|exact I]].
  - apply (bool_decide_unpack _). vm_compute. exact I.
  - cbn. lia.
  - intros byType rrs Hb Hr. vm_compute in Hb. injection Hb as <-. vm_compute in Hr. injection Hr as <-.
    vm_compute. discriminate.
  - vm_compute. discriminate.
  - etransitivity; [exact Ha|]. vm_compute. reflexivity.
Defined.

(** A name that is stored with an upper-case letter does not exist for the
    handler, which looks names up in lower case. *)
Definition upper_zone : Zone := mkZone
  {["WWW.example." := {[TypeA := [a_record "WWW.example." 300 1]]}]} 0 ∅ false false.

Lemma upper_case_name_lost :
  (fun m => (m_rcode m, m_answer m)) <$>
    (@Handler ascii_tables sample_dns upper_zone true
      (@query sample_dns 0 "WWW.example." TypeA 1232)).2 = Some (RcodeNameError, []).
Proof. vm_compute. reflexivity. Qed.

Lemma zone_timeout_witness :
  (@Chase ascii_tables sample_dns Fake (@fake_world ascii_tables sample_dns (mkZone ∅ 2000 ∅ false false))
    sample_addr "www.example" TypeA 10 200 1232 (NewClient 1232, mkFake 0 0)).1 =
  fail_with (blank (ap_addr sample_addr)) "timeout".
Proof.
  pose proof (@zone_timeout ascii_tables sample_dns (mkZone ∅ 2000 ∅ false false) sample_dns_laws sample_addr
    TypeA 200 1232 "www.example" 10 (NewClient 1232, mkFake 0 0) ltac:(lia) ltac:(lia)) as Hz.
  destruct (Chase _ _ _ _ _ _ _) as [r s']. apply Hz.
  - split; reflexivity.
  - right. vm_compute. discriminate.
Defined.
