(* ===== verification/Server.v ===== *)
(** * Server: requests and replies

    [internal/server/handler.go] (dispatch and response synthesis),
    [internal/server/forward.go] (relaying what is not an address query) and
    the per-message parts of [internal/server/server.go] (UDP truncation, the
    TCP framing loop).

    What the handler needs of the resolution service is the class
    [LookupService], an interface that [Resolve.Lookup] implements. *)

From S2P Require Import Prelude Netip GoText Dns Policy Upstream Engine Cache Metrics.

Definition maxUDPPayload : Z := 1232.

(** What the handler calls: [Service.Lookup] in the query's context. *)
Class LookupService (W : Type) := {
  svc_Lookup : string -> Z -> W -> result ctx_error Value * W;
}.

(** The settings and upstreams of [server.Server] that requests use. *)
Record ServerConfig := mkServerConfig { sc_forwardTimeout : Z }.

Section Server.
Context `{GoUnicode} `{DnsLib} {W : Type} `{World W} `{LookupService W}.
Context (cfg : ServerConfig).

(** ** Responses *)

Definition rcodeReply (req : Msg) (rcode : Z) : Msg :=
  set_rcode (SetReply new_Msg req) rcode.

Definition address_record (q : Question) (ttl : Z) (a : Addr) : RR :=
  let hdr := mkHdr (q_name q) (q_qtype q) ClassINET ttl in
  if q_qtype q =? TypeA then RR_A hdr (AsSlice a) else RR_AAAA hdr (AsSlice a).

Fixpoint append_records (q : Question) (ttl : Z) (addrs : list Addr) (resp : Msg) : Msg :=
  match addrs with
  | [] => resp
  | a :: addrs =>
      append_records q ttl addrs (set_answer resp (m_answer resp ++ [address_record q ttl a]))
  end.

Definition buildPositive (req : Msg) (q : Question) (addrs : list Addr) (ttl : Z) : Msg :=
  append_records q ttl addrs (set_compress (set_ra (SetReply new_Msg req) true) true).

Definition with_hdr_ttl (s : SOA) (ttl : Z) : SOA :=
  mkSOA (mkHdr (h_name (soa_hdr s)) (h_rrtype (soa_hdr s)) (h_class (soa_hdr s)) ttl)
    (soa_ns s) (soa_mbox s) (soa_serial s) (soa_refresh s) (soa_retry s) (soa_expire s)
    (soa_minttl s).

Definition buildNegative (req : Msg) (rcode : Z) (soa : option SOA) (ttl : Z) : Msg :=
  let resp := set_rcode (set_ra (SetReply new_Msg req) true) rcode in
  match soa with
  | Some s => set_ns resp (m_ns resp ++ [RR_SOA (with_hdr_ttl (Copy_SOA s) ttl)])
  | None => resp
  end.

Definition applyEDNS (req resp : Msg) : Msg :=
  match IsEdns0 req with
  | None => resp
  | Some opt =>
      match IsEdns0 resp with
      | Some _ => resp
      | None =>
          let size := OPT_UDPSize opt in
          let size := if size >? maxUDPPayload then maxUDPPayload else size in
          let size := if size <? MinMsgSize then MinMsgSize else size in
          SetEdns0 resp (uint16 size) false
      end
  end.

Definition synthesize (req : Msg) (q : Question) (v : Value) (m : Metrics) : Msg * Metrics :=
  let '(resp, m) :=
    if nonempty (v_addrs v) then
      (buildPositive req q (v_addrs v) (v_ttl v),
       incr AnswersNOERROR (RecordPolicy m (v_policy v)))
    else if v_rcode v =? RcodeNameError then
      (buildNegative req RcodeNameError (v_soa v) (v_ttl v), incr AnswersNXDomain m)
    else if v_rcode v =? RcodeSuccess then
      (buildNegative req RcodeSuccess (v_soa v) (v_ttl v), incr AnswersNODATA m)
    else (rcodeReply req RcodeServerFailure, incr AnswersSERVFAIL m) in
  (applyEDNS req resp, m).

(** ** Forwarding *)

(** The loop over the upstreams, from index [i].  Each upstream comes with
    its client; the upstreams not reached are left as they are. *)
Fixpoint forward_loop (req : Msg) (i : Z) (ups : list (EngineUpstream * Client)) (w : W)
    (m : Metrics) : option Msg * list (EngineUpstream * Client) * W * Metrics :=
  match ups with
  | [] => (None, [], w, m)
  | (u, cl) :: ups =>
      let '(err, w) := ctx_Err w in
      match err with
      | Some _ => (None, (u, cl) :: ups, w, m)
      | None =>
          let '(d, w) := ctx_remaining w in
          let budget := sc_forwardTimeout cfg in
          let budget := match d with
                        | Some rem => if rem <? budget then rem else budget
                        | None => budget
                        end in
          if budget <=? 0 then (None, (u, cl) :: ups, w, m)
          else
            let '(id, w) := dns_Id w in
            let q := set_id (Msg_Copy req) id in
            let '(r, (cl, w)) := Exchange (u_addr u) q budget (cl, w) in
            match r with
            | Err err =>
                let m := RecordUpstreamFailure m i (Category err) in
                let '(o, ups, w, m) := forward_loop req (i + 1) ups w m in
                (o, (u, cl) :: ups, w, m)
            | Ok resp =>
                let m := RecordUpstreamResult m i "forwarded" in
                (Some (set_id resp (m_id req)), (u, cl) :: ups, w, m)
            end
      end
  end.

Definition forward (req : Msg) (ups : list (EngineUpstream * Client)) (w : W) (m : Metrics)
    : Msg * list (EngineUpstream * Client) * W * Metrics :=
  let '(o, ups, w, m) := forward_loop req 0 ups w m in
  match o with
  | Some resp => (resp, ups, w, m)
  | None => (rcodeReply req RcodeServerFailure, ups, w, incr AnswersSERVFAIL m)
  end.

(** ** Dispatch *)

(** A single question of class IN for an address type, in a standard
    query. *)
Definition address_query (req : Msg) (q : Question) : bool :=
  negb (negb (length (m_question req) =? 1)%nat || negb (q_qclass q =? ClassINET) ||
        negb (m_opcode req =? OpcodeQuery) ||
        (negb (q_qtype q =? TypeA) && negb (q_qtype q =? TypeAAAA))).

Definition handleRequest (req : Msg) (ups : list (EngineUpstream * Client)) (w : W)
    (m : Metrics) : Msg * list (EngineUpstream * Client) * W * Metrics :=
  match m_question req with
  | [] => (rcodeReply req RcodeFormatError, ups, w, incr FormErr m)
  | q :: _ =>
      let bad_version := match IsEdns0 req with
                         | Some opt => negb (OPT_Version opt =? 0)
                         | None => false
                         end in
      if bad_version then
        (SetEdns0 (rcodeReply req RcodeBadVers) maxUDPPayload false, ups, w, m)
      else if negb (address_query req q) then forward req ups w (incr Forwarded m)
      else
        let '(r, w) := svc_Lookup (q_name q) (q_qtype q) w in
        match r with
        | Err _ => (rcodeReply req RcodeServerFailure, ups, w, incr AnswersSERVFAIL m)
        | Ok v =>
            let '(resp, m) := synthesize req q v (incr Resolved m) in
            (resp, ups, w, m)
        end
  end.

(** ** UDP *)

Definition truncate_size (req : Msg) (maxPayload : Z) : Z :=
  match IsEdns0 req with
  | Some opt =>
      let s := OPT_UDPSize opt in
      if (s >=? MinMsgSize) && (s <=? maxPayload) then s
      else if s >? maxPayload then maxPayload
      else MinMsgSize
  | None => MinMsgSize
  end.
Definition truncateForUDP (req resp : Msg) (maxPayload : Z) : Msg :=
  Truncate resp (truncate_size req maxPayload).

(** The datagram written for a request, if it can be packed. *)
Definition handleDatagram (req : Msg) (ups : list (EngineUpstream * Client)) (w : W)
    (m : Metrics) : option (list Z) * list (EngineUpstream * Client) * W * Metrics :=
  let m := add_inflight 1 m in
  let '(resp, ups, w, m) := handleRequest req ups w m in
  (Pack (truncateForUDP req resp maxUDPPayload), ups, w, add_inflight (-1) m).

(** ** TCP *)

(** The frame of a message: its length in two octets, then its octets. *)
Definition frame (wire : list Z) : list Z :=
  be_bytes 2 (uint16 (Z.of_nat (length wire))) ++ wire.

(** [io.ReadFull] of [n] octets from what the peer sends before the
    connection ends or idles out. *)
Definition ReadFull (n : nat) (input : list Z) : option (list Z * list Z) :=
  if (n <=? length input)%nat then Some (take n input, drop n input) else None.

Definition read_frame (input : list Z) : option (list Z * list Z) :=
  match ReadFull 2 input with
  | Some (lb, input) => ReadFull (Z.to_nat (be_val lb)) input
  | None => None
  end.

(** The connection loop; [wok k] says whether the write of the [k]th reply
    succeeds.  Every iteration reads at least two octets, so the length of
    the input bounds their number. *)
Fixpoint handleTCPConn (fuel : nat) (wok : nat -> bool) (k : nat) (input : list Z)
    (ups : list (EngineUpstream * Client)) (w : W) (m : Metrics)
    : list (list Z) * list (EngineUpstream * Client) * W * Metrics :=
  match fuel with
  | O => ([], ups, w, m)
  | S fuel =>
      match read_frame input with
      | None => ([], ups, w, m)
      | Some (data, input) =>
          match Unpack data with
          | None => ([], ups, w, m)
          | Some req =>
              let '(resp, ups, w, m) := handleRequest req ups w (add_inflight 1 m) in
              let m := add_inflight (-1) m in
              match Pack resp with
              | None => ([], ups, w, m)
              | Some wire =>
                  if wok k then
                    let '(out, ups, w, m) := handleTCPConn fuel wok (S k) input ups w m in
                    (frame wire :: out, ups, w, m)
                  else ([], ups, w, m)
              end
          end
      end
  end.
End Server.
