(* ===== verification/ServerProps.v ===== *)
(** * ServerProps: what a client sees

    Replies carry the request's identifier, the records that were chosen and
    an OPT record of the right size; requests that are not address queries
    are relayed to the first upstream that answers, whatever the world does; a
    TCP connection answers its frames in order. *)

From S2P Require Import Prelude Netip GoText Dns Policy Upstream ChaseProps Engine EngineProps Family Cache Metrics Server.

Section Replies.
Context `{GoUnicode} `{DnsLaws} {W : Type} `{World W} `{LookupService W}.
Context (cfg : ServerConfig).

(** ** Responses *)

Lemma append_records_eq q ttl addrs resp :
  append_records q ttl addrs resp =
  set_answer resp (m_answer resp ++ (address_record q ttl <$> addrs)).
Proof.
  revert resp. induction addrs as [|a addrs IH]; intros resp; cbn [append_records].
  - cbn. rewrite app_nil_r. by destruct resp.
  - rewrite IH. unfold set_answer. cbn. by rewrite <-app_assoc.
Qed.

(** The parts of a reply that come from the request. *)
Definition replies_to (req resp : Msg) : Prop :=
  m_id resp = m_id req /\ m_response resp = true /\ m_opcode resp = m_opcode req /\
  m_question resp = take 1 (m_question req).

Lemma SetEdns0_fields m size :
  in_uint 16 size ->
  exists opt, h_rrtype (Header opt) = TypeOPT /\ OPT_UDPSize opt = size /\ OPT_Version opt = 0 /\
    m_extra (SetEdns0 m size false) = m_extra m ++ [opt] /\
    m_id (SetEdns0 m size false) = m_id m /\ m_response (SetEdns0 m size false) = m_response m /\
    m_opcode (SetEdns0 m size false) = m_opcode m /\
    m_question (SetEdns0 m size false) = m_question m /\
    m_rcode (SetEdns0 m size false) = m_rcode m /\ m_answer (SetEdns0 m size false) = m_answer m /\
    m_ns (SetEdns0 m size false) = m_ns m.
Proof.
  intros Hs. destruct (SetEdns0_spec m size false) as (opt & -> & ? & ? & ?).
  exists opt. split_and!; auto.
Qed.

(** The size a reply advertises. *)
Definition edns_size (opt : RR) : Z := Z.max MinMsgSize (Z.min maxUDPPayload (OPT_UDPSize opt)).

Lemma edns_size_range opt : 512 <= edns_size opt <= 1232.
Proof. unfold edns_size, MinMsgSize, maxUDPPayload. lia. Qed.

(** What [applyEDNS] does to a reply without an OPT record. *)
Definition edns_reply (req resp resp' : Msg) : Prop :=
  m_id resp' = m_id resp /\ m_response resp' = m_response resp /\ m_opcode resp' = m_opcode resp /\
  m_question resp' = m_question resp /\ m_rcode resp' = m_rcode resp /\
  m_answer resp' = m_answer resp /\ m_ns resp' = m_ns resp /\
  match IsEdns0 req with
  | None => m_extra resp' = []
  | Some opt => exists opt', m_extra resp' = [opt'] /\ IsEdns0 resp' = Some opt' /\
      OPT_UDPSize opt' = edns_size opt /\ OPT_Version opt' = 0
  end.

Lemma applyEDNS_reply req resp : m_extra resp = [] -> edns_reply req resp (applyEDNS req resp).
Proof.
  intros Hx. unfold edns_reply, applyEDNS. destruct (IsEdns0 req) as [opt|]; [|by split_and!].
  rewrite (IsEdns0_none resp) by (rewrite Hx; constructor).
  rewrite Z.gtb_ltb. set (size := if _ <? _ then _ else _).
  assert (size = edns_size opt) as ->.
  { subst size. unfold edns_size. pose proof (OPT_UDPSize_range opt). unfold MinMsgSize, maxUDPPayload.
    repeat case_match; bool_props; lia. }
  pose proof (edns_size_range opt) as Hr. assert (in_uint 16 (edns_size opt)) as Hu
    by (unfold in_uint; lia). rewrite uint16_id by done.
  destruct (SetEdns0_fields resp (edns_size opt) Hu) as
    (opt' & Ht & Hsz & Hv & He & -> & -> & -> & -> & -> & -> & ->).
  split_and!; try done. exists opt'. rewrite He, Hx. split_and!; try done.
  apply IsEdns0_app; [done|]. by rewrite He, last_snoc.
Qed.

Lemma rcodeReply_eq req rcode :
  rcodeReply req rcode =
  mkMsg (m_id req) true (m_opcode req) false false
    (if m_opcode req =? OpcodeQuery then m_rd req else false) false false false
    (if m_opcode req =? OpcodeQuery then m_cd req else false) rcode false
    (take 1 (m_question req)) [] [] [].
Proof. unfold rcodeReply. by rewrite SetReply_new. Qed.

Lemma rcodeReply_ok req rcode : replies_to req (rcodeReply req rcode).
Proof. rewrite rcodeReply_eq. done. Qed.

(** ** Synthesis *)

(** The class of an answer, as the counters have it. *)
Definition answer_class (v : Value) : counter_name :=
  if nonempty (v_addrs v) then AnswersNOERROR
  else if v_rcode v =? RcodeNameError then AnswersNXDomain
  else if v_rcode v =? RcodeSuccess then AnswersNODATA
  else AnswersSERVFAIL.

(** The contents of a reply to an address query. *)
Definition answer_of (q : Question) (v : Value) (resp : Msg) : Prop :=
  match answer_class v with
  | AnswersNOERROR => m_rcode resp = RcodeSuccess /\
      m_answer resp = address_record q (v_ttl v) <$> v_addrs v /\ m_ns resp = []
  | AnswersNXDomain => m_rcode resp = RcodeNameError /\ m_answer resp = [] /\
      m_ns resp = match v_soa v with Some s => [RR_SOA (with_hdr_ttl s (v_ttl v))] | None => [] end
  | AnswersNODATA => m_rcode resp = RcodeSuccess /\ m_answer resp = [] /\
      m_ns resp = match v_soa v with Some s => [RR_SOA (with_hdr_ttl s (v_ttl v))] | None => [] end
  | _ => m_rcode resp = RcodeServerFailure /\ m_answer resp = [] /\ m_ns resp = []
  end.

Lemma synthesize_ok req q v m :
  let '(resp, m') := synthesize req q v m in
  replies_to req resp /\ answer_of q v resp /\
  (forall k, mt_counts m' k = mt_counts (incr (answer_class v) m) k) /\
  match IsEdns0 req with
  | None => m_extra resp = []
  | Some opt => exists opt', m_extra resp = [opt'] /\ IsEdns0 resp = Some opt' /\
      OPT_UDPSize opt' = edns_size opt /\ OPT_Version opt' = 0
  end.
Proof.
  unfold synthesize. set (p := if nonempty _ then _ else _).
  assert (m_extra p.1 = [] /\ replies_to req p.1 /\ answer_of q v p.1 /\
    forall k, mt_counts p.2 k = mt_counts (incr (answer_class v) m) k) as (Hx & Hr & Ha & Hm).
  { subst p. unfold answer_of, answer_class, rcodeReply, buildPositive, buildNegative, replies_to.
    destruct (nonempty (v_addrs v)); [|destruct (_ =? _); [|destruct (_ =? _)]]; cbn.
    - rewrite append_records_eq, SetReply_new. cbn. split_and!; try done.
      intros k. by rewrite RecordPolicy_counts.
    - rewrite SetReply_new. destruct (v_soa v); cbn; rewrite ?Copy_SOA_id; by split_and!.
    - rewrite SetReply_new. destruct (v_soa v); cbn; rewrite ?Copy_SOA_id; by split_and!.
    - rewrite SetReply_new. by split_and!. }
  destruct p as [resp m']. cbn in *.
  destruct (applyEDNS_reply req resp Hx) as (E1 & E2 & E3 & E4 & E5 & E6 & E7 & E8).
  unfold replies_to, answer_of in *. rewrite E1, E2, E3, E4, E5, E6, E7.
  split; [exact Hr|]. split; [exact Ha|]. split; [exact Hm|exact E8].
Qed.

(** ** Dispatch *)

Lemma forward_loop_id req : forall i ups w m o ups' w' m',
  forward_loop cfg req i ups w m = (o, ups', w', m') ->
  forall resp, o = Some resp -> m_id resp = m_id req.
Proof.
  intros i ups. revert i. induction ups as [|[u cl] ups IH]; intros i w m o ups' w' m' Hf resp Ho;
    cbn [forward_loop] in Hf; [congruence|].
  destruct (ctx_Err w) as [[e|] w1]; [congruence|].
  destruct (ctx_remaining w1) as [d w2]. destruct (_ <=? 0); [congruence|].
  destruct (dns_Id w2) as [id w3]. destruct (Exchange _ _ _ _) as [[r|e] [cl' w4]].
  - injection Hf as <- _ _ _. by injection Ho as <-.
  - destruct (forward_loop _ _ _ _ _ _) as [[[o1 ups1] w5] m1] eqn:E.
    injection Hf as -> _ _ _. by eapply IH.
Qed.

Lemma forward_id req ups w m : m_id (forward cfg req ups w m).1.1.1 = m_id req.
Proof.
  unfold forward. destruct (forward_loop _ _ _ _ _ _) as [[[[resp|] ups'] w'] m'] eqn:E; cbn.
  - by eapply forward_loop_id.
  - by destruct (rcodeReply_ok req RcodeServerFailure).
Qed.

Lemma handleRequest_id req ups w m : m_id (handleRequest cfg req ups w m).1.1.1 = m_id req.
Proof.
  unfold handleRequest. destruct (m_question req) as [|q qs] eqn:Eq.
  { by destruct (rcodeReply_ok req RcodeFormatError). }
  destruct (match IsEdns0 req with Some _ => _ | None => _ end).
  { destruct (SetEdns0_fields (rcodeReply req RcodeBadVers) maxUDPPayload) as
      (opt & _ & _ & _ & _ & E & _); [unfold in_uint, maxUDPPayload; lia|]. cbn [fst].
    rewrite E. by destruct (rcodeReply_ok req RcodeBadVers). }
  destruct (negb _); [apply forward_id|].
  destruct (svc_Lookup _ _ w) as [[v|e] w'].
  - pose proof (synthesize_ok req q v (incr Resolved m)) as Hs.
    destruct (synthesize _ _ _ _) as [resp m']. by destruct Hs as [[? _] _].
  - by destruct (rcodeReply_ok req RcodeServerFailure).
Qed.
End Replies.

(** ** The records of a positive reply *)

Lemma rrAddr_address_record q ttl a :
  q_qtype q = TypeA \/ q_qtype q = TypeAAAA -> addr_for (q_qtype q) a ->
  rrAddr (address_record q ttl a) = (a, true) /\
  h_rrtype (Header (address_record q ttl a)) = q_qtype q /\
  h_ttl (Header (address_record q ttl a)) = ttl.
Proof.
  intros Hq Ha. unfold address_record, addr_for in *.
  destruct (q_qtype q =? TypeA) eqn:E; bool_props; destruct Ha as (v & -> & Hv).
  - cbn [rrAddr AsSlice]. unfold AddrFromSlice. rewrite length_be_bytes. cbn [Nat.eqb].
    rewrite be_val_bytes. rewrite Z.mod_small by exact Hv. done.
  - cbn [rrAddr AsSlice]. unfold AddrFromSlice. rewrite length_be_bytes. cbn [Nat.eqb].
    unfold AddrFrom16. rewrite be_val_bytes. rewrite Z.mod_small by exact Hv. done.
Qed.

Lemma records_address_records q ttl addrs :
  q_qtype q = TypeA \/ q_qtype q = TypeAAAA -> Forall (addr_for (q_qtype q)) addrs ->
  records (q_qtype q) (address_record q ttl <$> addrs) = (fun a => (a, ttl)) <$> addrs.
Proof.
  intros Hq. induction 1 as [|a addrs Ha _ IH]; [done|].
  rewrite !fmap_cons, records_cons. destruct (rrAddr_address_record q ttl a Hq Ha) as (-> & -> & ->).
  rewrite Z.eqb_refl. cbn. by rewrite IH.
Qed.

(** ** Frames *)

Lemma read_frame_frame wire rest :
  Z.of_nat (length wire) < 65536 -> read_frame (frame wire ++ rest) = Some (wire, rest).
Proof.
  intros Hl. unfold read_frame, frame, ReadFull. set (n := uint16 _).
  assert (n = Z.of_nat (length wire)) as Hn by (apply uint16_id; unfold in_uint; lia).
  rewrite <-app_assoc, length_app, length_be_bytes. cbn [Nat.leb Nat.add].
  rewrite take_app_length', drop_app_length' by by rewrite length_be_bytes.
  rewrite be_val_bytes, Z.mod_small by lia. rewrite Hn, Nat2Z.id, length_app.
  rewrite (proj2 (Nat.leb_le _ _)) by lia. by rewrite take_app_length, drop_app_length.
Qed.

(** ** A world with fixed answers *)

(** The context never expires and each upstream always gives the same
    outcome. *)
Definition fixed_world (answers : AddrPort -> result bool Msg) : World unit := {|
  ctx_Err w := (None, w);
  ctx_remaining w := (None, w);
  dns_Id w := (0, w);
  others_write t own w := (own, w);
  dns_Exchange _ _ addr w := (answers addr, w);
|}.

(** ** What forwarding does

    In the world that records what happens, an attempt to have [req] answered
    by [u] asks how much time is left and sends the request, under an
    identifier of its own, within the forwarder's timeout and that time. *)

Section Forward.
Context `{DnsLib} `{!DnsLaws} {W : Type} `{World W} (cfg : ServerConfig).
Context (others : Z) (Hothers : others_within others) (req : Msg).

Definition attempted (u : EngineUpstream) (es : list net_event) (r : result error Msg) : Prop :=
  exists d id ex, es = Left d :: ex /\ 0 < within (sc_forwardTimeout cfg) d /\
    exchanged others (u_addr u) (set_id req id) (within (sc_forwardTimeout cfg) d) ex r.

(** How a request ends that the upstreams before the [i]th have failed: the
    rest of the upstreams, what happens then, the reply and the counters. *)
Inductive ending (i : Z) (m : Metrics) : list EngineUpstream -> list net_event -> Msg -> Metrics -> Prop :=
| ending_reply u us es resp :
    attempted u es (Ok resp) ->
    ending i m (u :: us) es (set_id resp (m_id req)) (RecordUpstreamResult m i "forwarded")
| ending_failed : ending i m [] [] (rcodeReply req RcodeServerFailure) (incr AnswersSERVFAIL m)
| ending_ended u us e :
    ending i m (u :: us) [Ended e] (rcodeReply req RcodeServerFailure) (incr AnswersSERVFAIL m)
| ending_late u us d :
    within (sc_forwardTimeout cfg) d <= 0 ->
    ending i m (u :: us) [Left d] (rcodeReply req RcodeServerFailure) (incr AnswersSERVFAIL m).

Fixpoint record_failures (i : Z) (errs : list error) (m : Metrics) : Metrics :=
  match errs with
  | [] => m
  | err :: errs => record_failures (i + 1) errs (RecordUpstreamFailure m i (Category err))
  end.

(** The failed upstreams in order, each tried once, and then an ending. *)
Definition forwarding (i : Z) (m : Metrics) (us : list EngineUpstream) (l : list net_event)
    (resp : Msg) (m' : Metrics) : Prop :=
  exists failed rest blocks errs tail, us = failed ++ rest /\
    Forall3 (fun u es err => attempted u es (Err err)) failed blocks errs /\
    l = concat blocks ++ tail /\
    ending (i + Z.of_nat (length failed)) (record_failures i errs m) rest tail resp m'.

Lemma forwarding_ending i m us l resp m' :
  ending i m us l resp m' -> forwarding i m us l resp m'.
Proof.
  intros He. exists [], us, [], [], l. split_and!; [done|constructor|done|].
  cbn [length record_failures]. by replace (i + Z.of_nat 0) with i by lia.
Qed.

Lemma forwarding_failed i m u es err us l resp m' :
  attempted u es (Err err) ->
  forwarding (i + 1) (RecordUpstreamFailure m i (Category err)) us l resp m' ->
  forwarding i m (u :: us) (es ++ l) resp m'.
Proof.
  intros Ha (failed & rest & blocks & errs & tail & -> & Hf & -> & He).
  exists (u :: failed), rest, (es :: blocks), (err :: errs), tail. split_and!.
  - done.
  - by constructor.
  - cbn [concat]. by rewrite app_assoc.
  - cbn [length record_failures]. by replace (i + Z.of_nat (S (length failed)))
      with (i + 1 + Z.of_nat (length failed)) by lia.
Qed.

Lemma within_budget d :
  match d with
  | Some rem => if rem <? sc_forwardTimeout cfg then rem else sc_forwardTimeout cfg
  | None => sc_forwardTimeout cfg
  end = within (sc_forwardTimeout cfg) d.
Proof. unfold within. destruct d as [rem|]; [|done]. destruct (rem <? _) eqn:E; bool_props; lia. Qed.

Lemma forward_loop_logged : forall i ups w l m,
  Forall (fun uc => client_ok uc.2) ups ->
  let '(o, _, s, m') := forward_loop cfg req i ups (w, l) m in
  exists es, s.2 = l ++ es /\
    forwarding i m ups.*1 es (default (rcodeReply req RcodeServerFailure) o)
      (match o with Some _ => m' | None => incr AnswersSERVFAIL m' end).
Proof.
  intros i ups. revert i. induction ups as [|[u cl] ups IH]; intros i w l m Hcl.
  { exists []. rewrite app_nil_r. split; [done|]. by apply forwarding_ending, ending_failed. }
  apply Forall_cons in Hcl as [Hc Hcl]. cbn [forward_loop ctx_Err ctx_remaining dns_Id logged].
  destruct (ctx_Err w) as [[e|] w1].
  { exists [Ended e]. split; [done|]. by apply forwarding_ending, ending_ended. }
  destruct (ctx_remaining w1) as [d w2]. rewrite within_budget. destruct (_ <=? 0) eqn:E; bool_props.
  { exists [Left d]. split; [done|]. by apply forwarding_ending, ending_late. }
  destruct (dns_Id w2) as [id w3]. rewrite Msg_Copy_id.
  pose proof (Exchange_logged others Hothers (u_addr u) (set_id req id)
    (within (sc_forwardTimeout cfg) d) cl (w3, l ++ [Left d]) Hc) as Hx. unfold runs in Hx.
  destruct (Exchange _ _ _ _) as [r [cl' [w4 l4]]]. cbn in Hx. destruct Hx as (_ & ex & -> & Hx).
  assert (attempted u (Left d :: ex) r) as Ha by by exists d, id, ex.
  destruct r as [resp|err].
  { exists (Left d :: ex). rewrite <-app_assoc. split; [done|]. by apply forwarding_ending, ending_reply. }
  specialize (IH (i + 1) w4 ((l ++ [Left d]) ++ ex) (RecordUpstreamFailure m i (Category err)) Hcl).
  destruct (forward_loop _ _ _ _ _ _) as [[[o ups'] s] m']. destruct IH as (es & -> & Hf).
  exists (Left d :: ex ++ es). rewrite <-!app_assoc. split; [done|].
  by apply (forwarding_failed i m u (Left d :: ex) err).
Qed.
End Forward.

(** ** Pipelined requests *)

Section Pipeline.
Context `{GoUnicode} `{DnsLib} {W : Type} `{World W} `{LookupService W} (cfg : ServerConfig).

(** The replies to a sequence of messages handled one after the other, if
    all of them can be read and all the replies packed. *)
Fixpoint serve_all (datas : list (list Z)) (ups : list (EngineUpstream * Client)) (w : W)
    (m : Metrics) : option (list (list Z) * list (EngineUpstream * Client) * W * Metrics) :=
  match datas with
  | [] => Some ([], ups, w, m)
  | data :: datas =>
      match Unpack data with
      | None => None
      | Some req =>
          let '(resp, ups, w, m) := handleRequest cfg req ups w (add_inflight 1 m) in
          match Pack resp with
          | None => None
          | Some wire =>
              match serve_all datas ups w (add_inflight (-1) m) with
              | Some (wires, ups, w, m) => Some (wire :: wires, ups, w, m)
              | None => None
              end
          end
      end
  end.

Lemma handleTCPConn_all datas : forall fuel wok k ups w m wires ups' w' m',
  Forall (fun d => Z.of_nat (length d) < 65536) datas -> (forall j, wok j = true) ->
  (length datas < fuel)%nat ->
  serve_all datas ups w m = Some (wires, ups', w', m') ->
  handleTCPConn cfg fuel wok k (concat (frame <$> datas)) ups w m =
  (frame <$> wires, ups', w', m').
Proof.
  induction datas as [|d datas IH]; intros fuel wok k ups w m wires ups' w' m' Hd Hw Hf Hs;
    (destruct fuel as [|fuel]; [cbn in Hf; lia|]); cbn [handleTCPConn serve_all] in *.
  { by injection Hs as <- <- <- <-. }
  apply Forall_cons in Hd as [Hd Hds]. rewrite fmap_cons. cbn [concat].
  rewrite read_frame_frame by done. destruct (Unpack d) as [req|]; [|done].
  destruct (handleRequest _ _ _ _ _) as [[[resp ups1] w1] m1].
  destruct (Pack resp) as [wire|]; [|done]. rewrite Hw.
  destruct (serve_all _ _ _ _) as [[[[wires1 ups2] w2] m2]|] eqn:E; [|done].
  injection Hs as <- <- <- <-. cbn in Hf. erewrite IH; [done|done|done|lia|done].
Qed.

Lemma length_frames datas : (2 * length datas <= length (concat (frame <$> datas)))%nat.
Proof.
  induction datas as [|d datas IH]; [done|]. rewrite fmap_cons. cbn [concat length].
  rewrite length_app. unfold frame at 1. rewrite length_app, length_be_bytes. lia.
Qed.
End Pipeline.

(** ** Theorems *)

Section Claims.
Context `{GoUnicode} `{DnsLib} `{!DnsLaws} (cfg : ServerConfig).

(** Every reply, whether made here or relayed from an upstream, carries
    the identifier of the request. *)
Theorem reply_has_request_id {W} `{World W} `{LookupService W} req ups w m :
  m_id (handleRequest cfg req ups w m).1.1.1 = m_id req.
Proof. apply handleRequest_id. Qed.

Lemma answers_address_query {W} `{World W} `{LookupService W} req q qs ups w m v w' :
  m_question req = q :: qs -> address_query req q = true ->
  match IsEdns0 req with Some opt => OPT_Version opt = 0 | None => True end ->
  svc_Lookup (q_name q) (q_qtype q) w = (Ok v, w') ->
  exists resp m', handleRequest cfg req ups w m = (resp, ups, w', m') /\
    replies_to req resp /\ answer_of q v resp /\
    (forall k, mt_counts m' k = mt_counts (incr (answer_class v) (incr Resolved m)) k) /\
    match IsEdns0 req with
    | None => m_extra resp = []
    | Some opt => exists opt', m_extra resp = [opt'] /\ IsEdns0 resp = Some opt' /\
        OPT_UDPSize opt' = edns_size opt /\ OPT_Version opt' = 0
    end.
Proof.
  intros Hq Ha Hv Hl. unfold handleRequest. rewrite Hq, Ha, Hl. cbn [negb].
  replace (match IsEdns0 req with Some opt => negb (OPT_Version opt =? 0) | None => false end)
    with false by (destruct (IsEdns0 req); [by rewrite Hv|done]).
  pose proof (synthesize_ok req q v (incr Resolved m)) as Hs.
  destruct (synthesize _ _ _ _) as [resp m']. exists resp, m'. by split.
Qed.

(** C24: an address query is answered from the lookup.  The reply repeats the
    question and has the addresses at the value's TTL, or NXDOMAIN or NODATA
    with the SOA at that TTL, or SERVFAIL; exactly one of the four answer
    counters is incremented, the one of that class; and an OPT record is
    present exactly when the request has one, advertising the client's size
    limited to 512..1232. *)
Theorem address_query_answered {W} `{World W} `{LookupService W} req q qs ups w m v w' :
  m_question req = q :: qs -> address_query req q = true ->
  match IsEdns0 req with Some opt => OPT_Version opt = 0 | None => True end ->
  svc_Lookup (q_name q) (q_qtype q) w = (Ok v, w') ->
  exists resp m', handleRequest cfg req ups w m = (resp, ups, w', m') /\
    replies_to req resp /\ answer_of q v resp /\
    (forall k, mt_counts m' k = mt_counts (incr (answer_class v) (incr Resolved m)) k) /\
    match IsEdns0 req with
    | None => m_extra resp = []
    | Some opt => exists opt', m_extra resp = [opt'] /\ IsEdns0 resp = Some opt' /\
        OPT_UDPSize opt' = edns_size opt /\ OPT_Version opt' = 0
    end.
Proof. apply answers_address_query. Qed.

(** C40: the addresses survive the wire format: reading the records of a
    positive reply as an upstream client does gives back exactly the chosen
    addresses, in order, each with the value's TTL. *)
Theorem positive_reply_roundtrip req q v :
  q_qtype q = TypeA \/ q_qtype q = TypeAAAA -> Forall (addr_for (q_qtype q)) (v_addrs v) ->
  v_addrs v <> [] ->
  records (q_qtype q) (m_answer (synthesize req q v (Metrics.New [] 0)).1) =
  (fun a => (a, v_ttl v)) <$> v_addrs v.
Proof.
  intros Hq Ha Hne. pose proof (synthesize_ok req q v (Metrics.New [] 0)) as Hs.
  destruct (synthesize _ _ _ _) as [resp m']. destruct Hs as (_ & Hans & _).
  unfold answer_of, answer_class in Hans.
  replace (nonempty (v_addrs v)) with true in Hans by (by destruct (v_addrs v)).
  destruct Hans as (_ & Hans & _). cbn [fst]. rewrite Hans. by apply records_address_records.
Qed.


(** A UDP reply is cut to a size between 512 and 1232 that is at most the
    size the client advertised, when that is at least 512. *)
Theorem udp_size_bounds req :
  512 <= truncate_size req maxUDPPayload <= 1232 /\
  match IsEdns0 req with
  | Some opt => truncate_size req maxUDPPayload <= Z.max 512 (OPT_UDPSize opt)
  | None => truncate_size req maxUDPPayload = 512
  end.
Proof.
  unfold truncate_size, MinMsgSize, maxUDPPayload. destruct (IsEdns0 req) as [opt|]; [|lia].
  rewrite Z.geb_leb, Z.gtb_ltb. repeat case_match; bool_props; lia.
Qed.

(** C25: pipelined TCP requests are answered in order.  When the peer sends
    frames that can be read and whose replies can be packed, the connection
    writes exactly the frames of the replies, in the order of the requests. *)
Theorem tcp_pipeline {W} `{World W} `{LookupService W} datas wok ups w m wires ups' w' m' :
  Forall (fun d => Z.of_nat (length d) < 65536) datas -> (forall j, wok j = true) ->
  serve_all cfg datas ups w m = Some (wires, ups', w', m') ->
  let input := concat (frame <$> datas) in
  handleTCPConn cfg (S (length input)) wok 0 input ups w m = (frame <$> wires, ups', w', m').
Proof.
  intros Hd Hw Hs input. apply handleTCPConn_all; try done.
  pose proof (length_frames datas). subst input. lia.
Qed.
End Claims.

(** ** Examples *)

Definition fixed_lookup (v : Value) : LookupService unit := {|
  svc_Lookup _ _ w := (Ok v, w);
|}.

Definition sample_cfg : ServerConfig := mkServerConfig 2500.
Definition sample_value : Value :=
  mkValue RcodeSuccess [Addr4 16777217; Addr4 16777218] None 60 PolicyPreferChina 0.
Definition sample_question : Question := mkQuestion "host." TypeA ClassINET.
(** A query with an OPT record that advertises 4096 octets. *)
Definition sample_request : Msg :=
  mkMsg 4242 false OpcodeQuery false false true false false false false RcodeSuccess false
    [sample_question] [] [] [RR_OPT (mkHdr "." TypeOPT 4096 0) []].
Definition no_answers : AddrPort -> result bool Msg := fun _ => Err true.
Definition second_answers : AddrPort -> result bool Msg := fun a =>
  if ap_port a =? 54 then Ok (set_id (set_answer new_Msg [a_record "host." 30 1]) 9) else Err false.
Definition sample_ups : list (EngineUpstream * Client) :=
  [(mkUpstream (mkAddrPort (Addr4 1) 53) true, NewClient 1232);
   (mkUpstream (mkAddrPort (Addr4 2) 54) false, NewClient 1232)].

Lemma address_query_answered_witness :
  exists resp m',
    @handleRequest sample_dns unit (fixed_world no_answers) (fixed_lookup sample_value)
      sample_cfg sample_request sample_ups () (Metrics.New [] 0) = (resp, sample_ups, (), m') /\
    m_answer resp = address_record sample_question 60 <$> v_addrs sample_value.
Proof.
  destruct (@address_query_answered sample_dns sample_dns_laws sample_cfg unit
    (fixed_world no_answers) (fixed_lookup sample_value) sample_request sample_question []
    sample_ups () (Metrics.New [] 0) sample_value () eq_refl eq_refl eq_refl eq_refl)
    as (resp & m' & Hr & _ & (_ & Ha & _) & _).
  exists resp, m'. split; [exact Hr|exact Ha].
Defined.

Lemma positive_reply_roundtrip_witness :
  records TypeA (m_answer (@synthesize sample_dns sample_request sample_question sample_value (Metrics.New [] 0)).1) =
  [(Addr4 16777217, 60); (Addr4 16777218, 60)].
Proof.
  apply (@positive_reply_roundtrip sample_dns sample_dns_laws sample_request sample_question sample_value).
  - left. reflexivity.
  - repeat constructor; cbn; (eexists; split; [reflexivity|split; vm_compute; congruence]).
  - discriminate.
Defined.


Lemma sample_served :
  exists ups' w' m',
    @serve_all sample_dns unit (fixed_world no_answers) (fixed_lookup sample_value)
      sample_cfg [[7]; [9]] sample_ups () (Metrics.New [] 0) = Some ([[7; 0]; [9; 0]], ups', w', m').
Proof. eexists _, _, _. reflexivity. Qed.

Lemma tcp_pipeline_witness :
  (@handleTCPConn sample_dns unit (fixed_world no_answers) (fixed_lookup sample_value)
    sample_cfg 7 (fun _ => true) 0 (concat (frame <$> [[7]; [9]])) sample_ups () (Metrics.New [] 0)).1.1.1 =
  [frame [7; 0]; frame [9; 0]].
Proof.
  destruct sample_served as (ups' & w' & m' & E).
  change 7%nat with (S (length (concat (frame <$> [[7]; [9]])))).
  rewrite (@tcp_pipeline sample_dns sample_cfg unit (fixed_world no_answers)
    (fixed_lookup sample_value) [[7]; [9]] (fun _ => true) sample_ups () (Metrics.New [] 0)
    [[7; 0]; [9; 0]] ups' w' m').
  - reflexivity.
  - repeat constructor.
  - intros j. reflexivity.
  - exact E.
Defined.
