(* ===== verification/Config.v ===== *)
(** * Config: the settings of [internal/config/config.go]

    The on-disk shape [raw] and the conversion [build] into a [Config], check
    by check in the source's order.  Decoding TOML is a library's work: it is
    a parameter of [Load] and [FromBytes]. *)

From S2P Require Import Prelude Netip GoText NetipParse GoTime GoFormat.

(** ** Data *)

Record rawUpstream := mkRawUpstream { ru_addr : string; ru_port : Z; ru_role : string }.
Record rawChina := mkRawChina { rc_prefixFiles : list string; rc_overridesFile : string }.
Record rawResolve := mkRawResolve {
  rr_overallTimeout : string; rr_attemptTimeout : string; rr_maxCNAMEHops : Z;
  rr_udpPayloadSize : Z; rr_minTTL : string; rr_maxTTL : string; rr_negMinTTL : string;
  rr_negMaxTTL : string;
}.
Record rawCache := mkRawCache {
  rk_enabled : option bool; rk_maxEntries : Z; rk_sweepInterval : string;
}.
Record rawForward := mkRawForward { rf_timeout : string }.
Record rawLog := mkRawLog { rl_level : string; rl_format : string }.
Record rawMetrics := mkRawMetrics { rm_listen : string }.

Record raw := mkRaw {
  r_bind : string;
  r_port : Z;
  r_udp : option bool;
  r_tcp : option bool;
  r_tcpIdleTimeout : string;
  r_maxConcurrency : Z;
  r_upstreams : list rawUpstream;
  r_china : rawChina;
  r_resolve : rawResolve;
  r_cache : rawCache;
  r_forward : rawForward;
  r_log : rawLog;
  r_metrics : rawMetrics;
}.

Inductive Role := RoleAuto | RoleChina | RoleForeign.

Record Upstream := mkUpstream { up_addr : Addr; up_port : Z; up_role : Role }.

Record Config := mkConfig {
  Bind : string;
  Port : Z;
  UDP : bool;
  TCP : bool;
  TCPIdleTimeout : Duration;
  MaxConcurrency : Z;
  Upstreams : list Upstream;
  PrefixFiles : list string;
  OverridesFile : string;
  OverallTimeout : Duration;
  AttemptTimeout : Duration;
  MaxCNAMEHops : Z;
  UDPPayloadSize : Z;
  MinTTL : Duration;
  MaxTTL : Duration;
  NegMinTTL : Duration;
  NegMaxTTL : Duration;
  CacheEnabled : bool;
  MaxEntries : Z;
  SweepInterval : Duration;
  ForwardTimeout : Duration;
  LogLevel : string;
  LogFormat : string;
  MetricsListen : string;
}.

Inductive config_error :=
| DecodeFailed
| BadPort (port : Z)
| NoTransport
| BadDuration (field : string)
| BadConcurrency
| BadUpstreamAddr (i : nat) (addr : string)
| BadUpstreamPort (i : nat) (port : Z)
| BadUpstreamRole (i : nat) (role : string)
| NoUpstream
| DuplicateUpstream (addr : Addr)
| NoPrefixFiles
| AttemptOverOverall (attempt overall : Duration)
| BadHops
| BadPayloadSize
| TTLOrder
| NegTTLOrder
| BadMaxEntries
| BadLogLevel (level : string)
| BadLogFormat (format : string)
| BadMetricsListen (listen : string).

Definition Defaults : Config :=
  mkConfig "127.0.0.1" 8053 true true (30 * Second) 512 [] [] ""
    (2500 * Millisecond) (1500 * Millisecond) 10 1232
    (30 * Second) (3600 * Second) (60 * Second) (600 * Second)
    true 65536 (30 * Second) (2500 * Millisecond) "info" "text" "".

Definition Upstream_String (u : Upstream) : string :=
  AddrPort_String (mkAddrPort (up_addr u) (uint16 (up_port u))).

(** ** Building *)

Open Scope go_scope.

(** A duration setting: the default unless the text is given. *)
Definition duration (field text : string) (dflt : Duration) : result config_error Duration :=
  if String.eqb text "" then Ok dflt
  else match ParseDuration text with Some d => Ok d | None => Err (BadDuration field) end.

(** A number setting: the default when 0, and otherwise within bounds. *)
Definition number (v dflt : Z) (ok : bool) (e : config_error) : result config_error Z :=
  if v =? 0 then Ok dflt else if ok then Ok v else Err e.

Definition parse_role (i : nat) (role : string) : result config_error Role :=
  if String.eqb role "" || String.eqb role "auto" then Ok RoleAuto
  else if String.eqb role "china" then Ok RoleChina
  else if String.eqb role "foreign" then Ok RoleForeign
  else Err (BadUpstreamRole i role).

Fixpoint build_upstreams (i : nat) (us : list rawUpstream) (acc : list Upstream)
    : result config_error (list Upstream) :=
  match us with
  | [] => Ok acc
  | u :: us =>
      match ParseAddr (ru_addr u) with
      | None => Err (BadUpstreamAddr i (ru_addr u))
      | Some addr =>
          let? port := number (ru_port u) 53 (negb ((ru_port u <? 1) || (ru_port u >? 65535)))
                         (BadUpstreamPort i (ru_port u)) in
          let? role := parse_role i (ru_role u) in
          build_upstreams (S i) us (acc ++ [mkUpstream addr port role])
      end
  end.

Fixpoint check_duplicates (us : list Upstream) (seen : gset Addr) : result config_error unit :=
  match us with
  | [] => Ok ()
  | u :: us => if decide (up_addr u ∈ seen) then Err (DuplicateUpstream (up_addr u))
               else check_duplicates us ({[up_addr u]} ∪ seen)
  end.

(** A setting that must be one of some words. *)
Definition word (allowed : list string) (text dflt : string) (e : config_error)
    : result config_error string :=
  if String.eqb text "" then Ok dflt
  else if bool_decide (text ∈ allowed) then Ok text else Err e.

Definition build (r : raw) : result config_error Config :=
  let c := Defaults in
  let bind := if String.eqb (r_bind r) "" then Bind c else r_bind r in
  let? port := number (r_port r) (Port c) (negb ((r_port r <? 1) || (r_port r >? 65535)))
                 (BadPort (r_port r)) in
  let udp := default (UDP c) (r_udp r) in
  let tcp := default (TCP c) (r_tcp r) in
  guard? udp || tcp else NoTransport in
  let? idle := duration "tcp_idle_timeout" (r_tcpIdleTimeout r) (TCPIdleTimeout c) in
  let? conc := number (r_maxConcurrency r) (MaxConcurrency c) (negb (r_maxConcurrency r <? 1))
                 BadConcurrency in
  let? ups := build_upstreams 0 (r_upstreams r) [] in
  guard? negb (length ups <? 1)%nat else NoUpstream in
  let? _ := check_duplicates ups ∅ in
  let files := rc_prefixFiles (r_china r) in
  guard? negb (length files =? 0)%nat else NoPrefixFiles in
  let ovfile := rc_overridesFile (r_china r) in
  let rr := r_resolve r in
  let? overall := duration "resolve.overall_timeout" (rr_overallTimeout rr) (OverallTimeout c) in
  let? attempt := duration "resolve.attempt_timeout" (rr_attemptTimeout rr) (AttemptTimeout c) in
  guard? negb (attempt >? overall) else AttemptOverOverall attempt overall in
  let? hops := number (rr_maxCNAMEHops rr) (MaxCNAMEHops c)
                 (negb ((rr_maxCNAMEHops rr <? 1) || (rr_maxCNAMEHops rr >? 64))) BadHops in
  let? size := number (rr_udpPayloadSize rr) (UDPPayloadSize c)
                 (negb ((rr_udpPayloadSize rr <? 512) || (rr_udpPayloadSize rr >? 4096)))
                 BadPayloadSize in
  let? minttl := duration "resolve.min_ttl" (rr_minTTL rr) (MinTTL c) in
  let? maxttl := duration "resolve.max_ttl" (rr_maxTTL rr) (MaxTTL c) in
  guard? negb (minttl >? maxttl) else TTLOrder in
  let? negmin := duration "resolve.neg_min_ttl" (rr_negMinTTL rr) (NegMinTTL c) in
  let? negmax := duration "resolve.neg_max_ttl" (rr_negMaxTTL rr) (NegMaxTTL c) in
  guard? negb (negmin >? negmax) else NegTTLOrder in
  let enabled := default (CacheEnabled c) (rk_enabled (r_cache r)) in
  let? entries := number (rk_maxEntries (r_cache r)) (MaxEntries c)
                    (negb (rk_maxEntries (r_cache r) <? 1)) BadMaxEntries in
  let? sweep := duration "cache.sweep_interval" (rk_sweepInterval (r_cache r)) (SweepInterval c) in
  let? fwd := duration "forward.timeout" (rf_timeout (r_forward r)) (ForwardTimeout c) in
  let? level := word ["debug"; "info"; "warn"; "error"] (rl_level (r_log r)) (LogLevel c)
                  (BadLogLevel (rl_level (r_log r))) in
  let? format := word ["text"; "json"] (rl_format (r_log r)) (LogFormat c)
                   (BadLogFormat (rl_format (r_log r))) in
  let? listen :=
    if String.eqb (rm_listen (r_metrics r)) "" then Ok (MetricsListen c)
    else match ParseAddrPort (rm_listen (r_metrics r)) with
         | Some _ => Ok (rm_listen (r_metrics r))
         | None => Err (BadMetricsListen (rm_listen (r_metrics r)))
         end in
  Ok (mkConfig bind port udp tcp idle conc ups files ovfile overall attempt hops size
        minttl maxttl negmin negmax enabled entries sweep fwd level format listen).

(** [toml.DecodeFile] and [toml.Unmarshal]. *)
Section Decode.
Context (decode_file decode_bytes : string -> option raw).

Definition Load (path : string) : result config_error Config :=
  match decode_file path with None => Err DecodeFailed | Some r => build r end.
Definition FromBytes (data : string) : result config_error Config :=
  match decode_bytes data with None => Err DecodeFailed | Some r => build r end.
End Decode.

(** ** What a configuration satisfies *)

Definition upstream_ok (u : Upstream) : Prop :=
  1 <= up_port u <= 65535 /\ Addr_ok (up_addr u) /\ up_addr u <> AddrZero.

Record config_ok (c : Config) : Prop := {
  co_port : 1 <= Port c <= 65535;
  co_transport : UDP c = true \/ TCP c = true;
  co_concurrency : 1 <= MaxConcurrency c;
  co_upstreams : Upstreams c <> [] /\ Forall upstream_ok (Upstreams c);
  co_distinct : NoDup (up_addr <$> Upstreams c);
  co_prefixes : PrefixFiles c <> [];
  co_timeouts : AttemptTimeout c <= OverallTimeout c;
  co_hops : 1 <= MaxCNAMEHops c <= 64;
  co_payload : 512 <= UDPPayloadSize c <= 4096;
  co_ttl : MinTTL c <= MaxTTL c;
  co_negttl : NegMinTTL c <= NegMaxTTL c;
  co_entries : 1 <= MaxEntries c;
  co_level : LogLevel c ∈ ["debug"; "info"; "warn"; "error"];
  co_format : LogFormat c ∈ ["text"; "json"];
  co_metrics : MetricsListen c = "" \/ is_Some (ParseAddrPort (MetricsListen c));
}.

(** How a setting follows from what the file says: the default when nothing
    is said, and otherwise what is. *)
Definition given_text (text dflt : string) : string := if String.eqb text "" then dflt else text.
Definition given_number (v dflt : Z) : Z := if v =? 0 then dflt else v.
Definition given_duration (text : string) (dflt d : Duration) : Prop :=
  text = "" /\ d = dflt \/ text <> "" /\ ParseDuration text = Some d.
Definition given_role (role : string) (r : Role) : Prop :=
  (role = "" \/ role = "auto") /\ r = RoleAuto \/ role = "china" /\ r = RoleChina \/
  role = "foreign" /\ r = RoleForeign.
Definition given_upstream (ru : rawUpstream) (u : Upstream) : Prop :=
  ParseAddr (ru_addr ru) = Some (up_addr u) /\ up_port u = given_number (ru_port ru) 53 /\
  given_role (ru_role ru) (up_role u).

Record settings_of (r : raw) (c : Config) : Prop := {
  so_bind : Bind c = given_text (r_bind r) (Bind Defaults);
  so_port : Port c = given_number (r_port r) (Port Defaults);
  so_udp : UDP c = default (UDP Defaults) (r_udp r);
  so_tcp : TCP c = default (TCP Defaults) (r_tcp r);
  so_idle : given_duration (r_tcpIdleTimeout r) (TCPIdleTimeout Defaults) (TCPIdleTimeout c);
  so_concurrency : MaxConcurrency c = given_number (r_maxConcurrency r) (MaxConcurrency Defaults);
  so_upstreams : Forall2 given_upstream (r_upstreams r) (Upstreams c);
  so_prefixes : PrefixFiles c = rc_prefixFiles (r_china r);
  so_overrides : OverridesFile c = rc_overridesFile (r_china r);
  so_overall : given_duration (rr_overallTimeout (r_resolve r)) (OverallTimeout Defaults) (OverallTimeout c);
  so_attempt : given_duration (rr_attemptTimeout (r_resolve r)) (AttemptTimeout Defaults) (AttemptTimeout c);
  so_hops : MaxCNAMEHops c = given_number (rr_maxCNAMEHops (r_resolve r)) (MaxCNAMEHops Defaults);
  so_payload : UDPPayloadSize c =
    given_number (rr_udpPayloadSize (r_resolve r)) (UDPPayloadSize Defaults);
  so_minttl : given_duration (rr_minTTL (r_resolve r)) (MinTTL Defaults) (MinTTL c);
  so_maxttl : given_duration (rr_maxTTL (r_resolve r)) (MaxTTL Defaults) (MaxTTL c);
  so_negmin : given_duration (rr_negMinTTL (r_resolve r)) (NegMinTTL Defaults) (NegMinTTL c);
  so_negmax : given_duration (rr_negMaxTTL (r_resolve r)) (NegMaxTTL Defaults) (NegMaxTTL c);
  so_cache : CacheEnabled c = default (CacheEnabled Defaults) (rk_enabled (r_cache r));
  so_entries : MaxEntries c = given_number (rk_maxEntries (r_cache r)) (MaxEntries Defaults);
  so_sweep : given_duration (rk_sweepInterval (r_cache r)) (SweepInterval Defaults) (SweepInterval c);
  so_forward : given_duration (rf_timeout (r_forward r)) (ForwardTimeout Defaults) (ForwardTimeout c);
  so_level : LogLevel c = given_text (rl_level (r_log r)) (LogLevel Defaults);
  so_format : LogFormat c = given_text (rl_format (r_log r)) (LogFormat Defaults);
  so_metrics : MetricsListen c = given_text (rm_listen (r_metrics r)) (MetricsListen Defaults);
}.

Lemma number_range v dflt lo hi e n :
  lo <= dflt <= hi ->
  number v dflt (negb ((v <? lo) || (v >? hi))) e = Ok n <-> n = given_number v dflt /\ lo <= n <= hi.
Proof.
  intros Hd. unfold number, given_number. destruct (v =? 0); [split; [by intros [= <-]|by intros [-> _]]|].
  rewrite Z.gtb_ltb. destruct ((v <? lo) || (hi <? v)) eqn:E; cbn [negb]; bool_props.
  - split; [done|]. intros [-> ?]. apply orb_true_iff in E as [E|E]; bool_props; lia.
  - split; [intros [= <-]; lia|by intros [-> _]].
Qed.

Lemma number_lower v dflt lo e n :
  lo <= dflt -> number v dflt (negb (v <? lo)) e = Ok n <-> n = given_number v dflt /\ lo <= n.
Proof.
  intros Hd. unfold number, given_number. destruct (v =? 0); [split; [by intros [= <-]|by intros [-> _]]|].
  destruct (v <? lo) eqn:E; cbn [negb]; bool_props.
  - split; [done|]. intros [-> ?]. lia.
  - split; [by intros [= <-]|by intros [-> _]].
Qed.

Lemma word_allowed allowed text dflt e r :
  dflt ∈ allowed -> word allowed text dflt e = Ok r <-> r = given_text text dflt /\ r ∈ allowed.
Proof.
  intros Hd. unfold word, given_text. destruct (String.eqb text "").
  { split; [by intros [= <-]|by intros [-> _]]. }
  case_bool_decide; split; [by intros [= <-]|by intros [-> _]|done|by intros [-> ?]].
Qed.

Lemma duration_given field text dflt d :
  duration field text dflt = Ok d <-> given_duration text dflt d.
Proof.
  unfold duration, given_duration. destruct (String.eqb_spec text "") as [->|Ht].
  - split; [intros [= <-]; by left|by intros [[_ ->]|[? _]]].
  - destruct (ParseDuration text) as [d'|].
    + split; [intros [= <-]; by right|]. intros [[? _]|[_ [= ->]]]; done.
    + split; [done|]. by intros [[? _]|[_ ?]].
Qed.

Lemma parse_role_given i role r : parse_role i role = Ok r <-> given_role role r.
Proof.
  unfold parse_role, given_role.
  repeat match goal with |- context [String.eqb role ?w] => destruct (String.eqb_spec role w) as [->|] end;
    cbn [orb]; (split; [intros [= <-]; auto 6|]); naive_solver.
Qed.

Lemma listen_given text c :
  (if String.eqb text "" then Ok ""
   else match ParseAddrPort text with
        | Some _ => Ok text
        | None => Err (BadMetricsListen text)
        end) = Ok c <->
  c = given_text text "" /\ (c = "" \/ is_Some (ParseAddrPort c)).
Proof.
  unfold given_text. destruct (String.eqb_spec text "") as [->|Ht].
  { split; [intros [= <-]; auto|by intros [-> _]]. }
  destruct (ParseAddrPort text) as [ap|] eqn:E.
  - split; [intros [= <-]; split; [done|right; by rewrite E]|by intros [-> _]].
  - split; [done|]. intros [-> [?|[? ?]]]; congruence.
Qed.

Lemma build_upstreams_given us : forall i acc ups,
  build_upstreams i us acc = Ok ups <->
  exists k, ups = acc ++ k /\ Forall2 given_upstream us k /\ Forall upstream_ok k.
Proof.
  induction us as [|u us IH]; intros i acc ups; cbn [build_upstreams].
  { split; [intros [= <-]; exists []; by rewrite app_nil_r|].
    intros (k & -> & Hk & _). apply Forall2_nil_inv_l in Hk as ->. by rewrite app_nil_r. }
  destruct (ParseAddr (ru_addr u)) as [addr|] eqn:Ea.
  2:{ split; [done|]. intros (k & -> & (y & k' & (Hy & _) & _)%Forall2_cons_inv_l & _). congruence. }
  rewrite result_bind_Ok. setoid_rewrite result_bind_Ok. setoid_rewrite number_range; [|lia].
  setoid_rewrite parse_role_given. setoid_rewrite IH. split.
  - intros (port & (Hp & Hr) & role & Hrole & k & -> & Hg & Hok).
    exists (mkUpstream addr port role :: k). rewrite <-app_assoc. split; [done|].
    split; (constructor; [|done]); [by split|]. split; [done|]. by eapply ParseAddr_ok.
  - intros (k & -> & (y & k' & (Hy & Hp & Hrole) & Hg & ->)%Forall2_cons_inv_l & Hok).
    apply Forall_cons in Hok as [Hy' Hok]. exists (up_port y). split; [split; [done|apply Hy']|].
    exists (up_role y). split; [done|]. exists k'. split; [|done]. rewrite <-app_assoc. cbn.
    rewrite Hy in Ea. injection Ea as <-. by destruct y.
Qed.

Lemma check_duplicates_ok us seen :
  check_duplicates us seen = Ok () <->
  NoDup (up_addr <$> us) /\ (forall a, a ∈ up_addr <$> us -> a ∉ seen).
Proof.
  revert seen. induction us as [|u us IH]; intros seen; cbn [check_duplicates].
  { split; [|done]. intros _. split; [constructor|by intros a ?%elem_of_nil]. }
  rewrite fmap_cons, NoDup_cons. setoid_rewrite elem_of_cons. destruct (decide _) as [Hd|Hd].
  - split; [done|]. intros [_ Hn]. by destruct (Hn (up_addr u)); [left|].
  - rewrite IH. set_solver.
Qed.

Lemma guard_Ok {A} (b : bool) (k : result config_error A) e c :
  (if b then k else Err e) = Ok c <-> b = true /\ k = Ok c.
Proof. destruct b; naive_solver. Qed.

(** Inverts the steps of a successful build. *)
Ltac build_inv H :=
  repeat first
    [ let x := fresh "x" in let Hx := fresh "Hx" in
      apply result_bind_Ok in H as (x & Hx & H)
    | let E := fresh "Eg" in apply guard_Ok in H as [E H] ].

(** A check that passes. *)
Ltac build_guard :=
  first [ apply orb_true_iff; cbn; intuition congruence
        | apply negb_true_iff; rewrite Z.gtb_ltb; apply Z.ltb_ge; lia
        | match goal with |- context [length ?l] =>
            let E := fresh in destruct l eqn:E; [intuition congruence|done]
          end ].

(** Takes the steps of a build whose settings are known. *)
Ltac build_steps :=
  repeat first
    [ apply result_bind_Ok; eexists; split;
      [first [ apply number_range; [cbn; lia|by split]
             | apply number_lower; [cbn; lia|by split]
             | apply word_allowed; [set_solver|by split]
             | by apply duration_given
             | by apply listen_given
             | apply build_upstreams_given; eexists; split; [apply app_nil_l|intuition eassumption]
             | apply check_duplicates_ok; split; [done|intros; apply not_elem_of_empty] ]|]
    | apply guard_Ok; split; [by build_guard|] ].

Lemma build_config_ok r c : build r = Ok c -> config_ok c.
Proof.
  unfold build. cbn zeta. intros H. build_inv H. injection H as <-.
  repeat match goal with
  | H : number _ _ (negb (_ || _)) _ = Ok _ |- _ => apply number_range in H; [|cbn; lia]
  | H : number _ _ (negb (_ <? _)) _ = Ok _ |- _ => apply number_lower in H; [|cbn; lia]
  | H : word _ _ _ _ = Ok _ |- _ => apply word_allowed in H; [|set_solver]
  | H : check_duplicates _ _ = Ok ?x |- _ => destruct x; apply check_duplicates_ok in H as [H _]
  | H : build_upstreams _ _ _ = Ok _ |- _ =>
      apply build_upstreams_given in H as (? & -> & H & ?)
  | H : (if String.eqb _ _ then _ else _) = Ok _ |- _ => apply listen_given in H
  | H : negb _ = true |- _ => apply negb_true_iff in H
  | H : (_ >? _) = false |- _ => rewrite Z.gtb_ltb in H; apply Z.ltb_ge in H
  | H : _ || _ = true |- _ => apply orb_true_iff in H
  | H : (_ <? _)%nat = false |- _ => apply Nat.ltb_ge in H
  | H : (_ =? _)%nat = false |- _ => apply Nat.eqb_neq in H
  | H : _ /\ _ |- _ => destruct H
  end.
  constructor; cbn in *; try done; try lia.
  - split; [|done]. intros ->. cbn in *. lia.
  - by intros E; rewrite E in *.
Qed.

Lemma build_settings r c : build r = Ok c -> settings_of r c.
Proof.
  unfold build. cbn zeta. intros H. build_inv H. injection H as <-.
  repeat match goal with
  | H : number _ _ (negb (_ || _)) _ = Ok _ |- _ => apply number_range in H as [H _]; [|cbn; lia]
  | H : number _ _ (negb (_ <? _)) _ = Ok _ |- _ => apply number_lower in H as [H _]; [|cbn; lia]
  | H : word _ _ _ _ = Ok _ |- _ => apply word_allowed in H as [H _]; [|set_solver]
  | H : duration _ _ _ = Ok _ |- _ => apply duration_given in H
  | H : build_upstreams _ _ _ = Ok _ |- _ =>
      apply build_upstreams_given in H as (? & -> & H & _)
  | H : (if String.eqb (rm_listen _) _ then _ else _) = Ok _ |- _ => apply listen_given in H as [H _]
  end.
  by constructor.
Qed.

Lemma build_accepts r c : settings_of r c -> config_ok c -> build r = Ok c.
Proof.
  intros [] []. destruct c. cbn in *. unfold build. cbn zeta. build_steps.
  by subst.
Qed.

(** ** Theorems *)


(** A configuration with one upstream and one prefix file, and a minimum TTL
    as given. *)
Definition sample_raw (min_ttl : string) : raw :=
  mkRaw "" 0 None None "" 0 [mkRawUpstream "223.5.5.5" 0 "china"]
    (mkRawChina ["cn.txt"] "") (mkRawResolve "" "" 0 0 min_ttl "" "" "")
    (mkRawCache None 0 "") (mkRawForward "") (mkRawLog "" "") (mkRawMetrics "").


(** Negative durations are accepted.  "-5s" passes as a minimum TTL, and
    its conversion to 32 bits in seconds, as [main] does it, is above 4
    billion, past the maximum it was checked against. *)
Theorem negative_min_ttl_accepted :
  exists c, build (sample_raw "-5s") = Ok c /\ MinTTL c = -5 * Second /\
    uint32 (Z.quot (MinTTL c) Second) = 4294967291 /\
    uint32 (Z.quot (MaxTTL c) Second) = 3600.
Proof.
  destruct (build (sample_raw "-5s")) as [c|e] eqn:E; [|vm_compute in E; discriminate E].
  exists c. split; [reflexivity|]. vm_compute in E. injection E as <-. by vm_compute.
Qed.
