(* ===== verification/Intake.v ===== *)
(** * Intake: bounded concurrency and shutdown of [internal/server/server.go]

    The serve loops, the goroutines they start and the shutdown sequence of
    [ListenAndServe] as a state machine over the semaphore [sem], the wait
    group [wg] and the loops' control points.  Every event is one operation
    on shared state, so a run is an interleaving of the goroutines.  What a
    handler does with its request is in [Server]; here a handler is running,
    has given its slot back, or has left the wait group. *)

From S2P Require Import Prelude.

(** The control point of a serve loop: reading (or accepting), waiting for a
    slot with a connection in hand (TCP only), holding a slot it has just
    taken, or stopped. *)
Inductive loop_state := Reading | Admitting | Holding | Stopped.

#[export] Instance loop_state_eq_dec : EqDecision loop_state.
Proof. solve_decision. Defined.

(** The goroutine of [ListenAndServe]: serving, waiting for the loops to
    stop, waiting for the handlers, and done (whether or not they all
    finished). *)
Inductive main_state := Serving | WaitLoops | WaitHandlers | Done (drained : bool).

Inductive transport := Udp | Tcp.

Record Intake := mkIntake {
  i_sem : nat;
  i_wg : nat;
  i_running : nat;
  i_released : nat;
  i_udp : loop_state;
  i_tcp : loop_state;
  i_ctx_done : bool;
  i_main : main_state;
  i_dropped : nat;
}.

Inductive event :=
| EvRead (t : transport)       (* a datagram that unpacks, or a connection *)
| EvReadError (t : transport)
| EvOverload                   (* no slot within [tcpAdmitTimeout] *)
| EvAcquire                    (* a TCP connection gets a slot *)
| EvSpawn (t : transport)      (* [wg.Add(1)] and the goroutine starts *)
| EvRelease                    (* a handler returns: [<-s.sem] *)
| EvLeave                      (* then [wg.Done()] *)
| EvCancel                     (* the serve context is done *)
| EvLoopsStopped
| EvDrained
| EvDrainTimeout.

Section Intake.
Context (MaxConcurrency : nat).

Definition loop (s : Intake) (t : transport) : loop_state :=
  match t with Udp => i_udp s | Tcp => i_tcp s end.
Definition set_loop (s : Intake) (t : transport) (l : loop_state) : Intake :=
  match t with
  | Udp => mkIntake (i_sem s) (i_wg s) (i_running s) (i_released s) l (i_tcp s)
             (i_ctx_done s) (i_main s) (i_dropped s)
  | Tcp => mkIntake (i_sem s) (i_wg s) (i_running s) (i_released s) (i_udp s) l
             (i_ctx_done s) (i_main s) (i_dropped s)
  end.
Definition set_counts (s : Intake) (sem wg running released : nat) : Intake :=
  mkIntake sem wg running released (i_udp s) (i_tcp s) (i_ctx_done s) (i_main s) (i_dropped s).
Definition set_main (s : Intake) (m : main_state) : Intake :=
  mkIntake (i_sem s) (i_wg s) (i_running s) (i_released s) (i_udp s) (i_tcp s)
    (i_ctx_done s) m (i_dropped s).
Definition drop_one (s : Intake) : Intake :=
  mkIntake (i_sem s) (i_wg s) (i_running s) (i_released s) (i_udp s) (i_tcp s)
    (i_ctx_done s) (i_main s) (S (i_dropped s)).

(** [s.sem <- struct{}{}] when the channel has room. *)
Definition acquire (s : Intake) (t : transport) : option Intake :=
  if (i_sem s <? MaxConcurrency)%nat then
    Some (set_loop (set_counts s (S (i_sem s)) (i_wg s) (i_running s) (i_released s)) t Holding)
  else None.

(** The loops start when their transport is configured. *)
Definition start (udp tcp : bool) : Intake :=
  mkIntake 0 0 0 0 (if udp then Reading else Stopped) (if tcp then Reading else Stopped)
    false Serving 0.

(** The next state, or [None] when the event cannot happen. *)
Definition next (s : Intake) (e : event) : option Intake :=
  match e with
  | EvRead Udp =>
      (* the [select] takes a slot or drops the query *)
      if decide (i_udp s = Reading) then
        match acquire s Udp with Some s => Some s | None => Some (drop_one s) end
      else None
  | EvRead Tcp => if decide (i_tcp s = Reading) then Some (set_loop s Tcp Admitting) else None
  | EvReadError t =>
      if decide (loop s t = Reading) then
        Some (if i_ctx_done s then set_loop s t Stopped else s)
      else None
  | EvOverload =>
      if decide (i_tcp s = Admitting) then Some (drop_one (set_loop s Tcp Reading)) else None
  | EvAcquire => if decide (i_tcp s = Admitting) then acquire s Tcp else None
  | EvSpawn t =>
      if decide (loop s t = Holding) then
        Some (set_loop (set_counts s (i_sem s) (S (i_wg s)) (S (i_running s)) (i_released s)) t Reading)
      else None
  | EvRelease =>
      if (0 <? i_running s)%nat && (0 <? i_sem s)%nat then
        Some (set_counts s (i_sem s - 1) (i_wg s) (i_running s - 1) (S (i_released s)))
      else None
  | EvLeave =>
      if (0 <? i_released s)%nat then
        Some (set_counts s (i_sem s) (i_wg s - 1) (i_running s) (i_released s - 1))
      else None
  | EvCancel =>
      Some (mkIntake (i_sem s) (i_wg s) (i_running s) (i_released s) (i_udp s) (i_tcp s) true
              (match i_main s with Serving => WaitLoops | m => m end) (i_dropped s))
  | EvLoopsStopped =>
      if decide (i_udp s = Stopped /\ i_tcp s = Stopped) then
        match i_main s with WaitLoops => Some (set_main s WaitHandlers) | _ => None end
      else None
  | EvDrained =>
      match i_main s with
      | WaitHandlers => if (i_wg s =? 0)%nat then Some (set_main s (Done true)) else None
      | _ => None
      end
  | EvDrainTimeout =>
      match i_main s with WaitHandlers => Some (set_main s (Done false)) | _ => None end
  end.

Fixpoint run (s : Intake) (es : list event) : option Intake :=
  match es with
  | [] => Some s
  | e :: es => match next s e with Some s => run s es | None => None end
  end.

(** ** Invariant *)

Definition held (l : loop_state) : nat := if decide (l = Holding) then 1 else 0.

Record intake_ok (s : Intake) : Prop := {
  io_sem : i_sem s = (i_running s + held (i_udp s) + held (i_tcp s))%nat;
  io_cap : (i_sem s <= MaxConcurrency)%nat;
  io_wg : i_wg s = (i_running s + i_released s)%nat;
  io_loops : match i_main s with
             | Serving | WaitLoops => True
             | WaitHandlers | Done false => i_udp s = Stopped /\ i_tcp s = Stopped
             | Done true => i_udp s = Stopped /\ i_tcp s = Stopped /\ i_wg s = 0%nat
             end;
}.

Lemma start_ok udp tcp : intake_ok (start udp tcp).
Proof. destruct udp, tcp; (constructor; cbn; [done|lia|done|done]). Qed.

Lemma next_ok s e s' : intake_ok s -> next s e = Some s' -> intake_ok s'.
Proof.
  intros [Hsem Hcap Hwg Hl] Hn.
  destruct s as [sem wg running released udp tcp done main dropped]. cbn in *.
  destruct e as [[]|[]| | |[]| | | | | |]; cbn in Hn; unfold acquire in Hn; cbn in Hn;
    repeat (split_match_in Hn; try discriminate Hn);
    repeat match goal with H : _ && _ = true |- _ => apply andb_true_iff in H as [? ?] end;
    rewrite ?Nat.ltb_lt, ?Nat.ltb_ge, ?Nat.eqb_eq in *;
    injection Hn as <-; simplify_eq; constructor; cbn in *; unfold held in *;
    repeat case_decide; simplify_eq; try done; try lia;
    repeat case_match; try done; try lia; intuition (try congruence; try lia).
  all: rewrite Nat.leb_le in *; lia.
Qed.

Lemma run_ok es : forall s s', intake_ok s -> run s es = Some s' -> intake_ok s'.
Proof.
  induction es as [|e es IH]; intros s s' Hs; cbn [run]; [by intros [= <-]|].
  destruct (next s e) as [s1|] eqn:E; [|done]. apply IH. by eapply next_ok.
Qed.

(** No new handler once the loops have stopped. *)
Lemma stopped_next s e s' :
  intake_ok s -> i_udp s = Stopped -> i_tcp s = Stopped -> next s e = Some s' ->
  i_udp s' = Stopped /\ i_tcp s' = Stopped /\ (i_wg s' <= i_wg s)%nat.
Proof.
  intros Hs Hu Ht Hn. destruct s as [sem wg running released udp tcp done main dropped].
  cbn in Hu, Ht. subst.
  destruct e as [[]|[]| | |[]| | | | | |]; cbn in Hn;
    repeat (split_match_in Hn; try discriminate Hn); try discriminate;
    injection Hn as <-; cbn; split_and!; done || lia.
Qed.

Lemma stopped_run es : forall s s',
  intake_ok s -> i_udp s = Stopped -> i_tcp s = Stopped -> run s es = Some s' ->
  i_udp s' = Stopped /\ i_tcp s' = Stopped /\ (i_wg s' <= i_wg s)%nat.
Proof.
  induction es as [|e es IH]; intros s s' Hs Hu Ht; cbn [run]; [by intros [= <-]|].
  destruct (next s e) as [s1|] eqn:E; [|done]. intros Hr.
  destruct (stopped_next s e s1 Hs Hu Ht E) as (Hu1 & Ht1 & Hw).
  destruct (IH s1 s' (next_ok s e s1 Hs E) Hu1 Ht1 Hr) as (? & ? & ?). split_and!; done || lia.
Qed.

(** ** Theorems *)

(** C31: concurrency is bounded: in every reachable state at most
    [MaxConcurrency] requests are being handled, and the semaphore and the
    wait group count exactly the slots held and the handlers not yet left. *)
Theorem handlers_bounded udp tcp es s :
  run (start udp tcp) es = Some s ->
  (i_running s <= MaxConcurrency)%nat /\
  i_sem s = (i_running s + held (i_udp s) + held (i_tcp s))%nat /\
  i_wg s = (i_running s + i_released s)%nat.
Proof.
  intros Hr. destruct (run_ok es _ _ (start_ok udp tcp) Hr) as [Hsem Hcap Hwg _].
  split_and!; [lia|done|done].
Qed.

(** C33: shutdown drains.  Once [ListenAndServe] waits for the handlers, no
    further datagram or connection is taken in, whatever happens: both loops
    have stopped and no handler starts, so that the wait group only falls; and
    when it reports that it has drained, no handler is left.  (A handler of a
    connection that is open goes on reading and answering its requests until
    its own deadline.) *)
Theorem drain_is_final udp tcp es s es' s' :
  run (start udp tcp) es = Some s -> i_main s = WaitHandlers -> run s es' = Some s' ->
  (i_wg s' <= i_wg s)%nat /\ i_udp s' = Stopped /\ i_tcp s' = Stopped /\
  (i_main s' = Done true -> i_running s' = 0%nat /\ i_released s' = 0%nat).
Proof.
  intros Hr Hm Hr'. pose proof (run_ok es _ _ (start_ok udp tcp) Hr) as Hs.
  pose proof (io_loops s Hs) as Hl. rewrite Hm in Hl. destruct Hl as [Hu Ht].
  destruct (stopped_run es' s s' Hs Hu Ht Hr') as (Hu' & Ht' & Hw).
  destruct (run_ok es' s s' Hs Hr') as [_ _ Hwg Hl']. split_and!; try done.
  intros Hd. rewrite Hd in Hl'. lia.
Qed.
End Intake.

(** ** Examples *)

(** Two slots, three datagrams (the third is dropped), then a shutdown. *)
Definition sample_events : list event :=
  [EvRead Udp; EvSpawn Udp; EvRead Udp; EvSpawn Udp; EvRead Udp].
Definition shutdown_events : list event :=
  [EvCancel; EvReadError Udp; EvReadError Tcp; EvLoopsStopped].
Definition handlers_return : list event :=
  [EvRelease; EvLeave; EvRelease; EvLeave; EvDrained].

Definition after (es : list event) : Intake := default (start true true) (run 2 (start true true) es).

Lemma handlers_bounded_witness : (i_running (after sample_events) <= 2)%nat.
Proof.
  apply (handlers_bounded 2 true true sample_events (after sample_events)).
  vm_compute. reflexivity.
Defined.

Lemma drain_is_final_witness :
  i_running (after (sample_events ++ shutdown_events ++ handlers_return)) = 0%nat.
Proof.
  apply (drain_is_final 2 true true (sample_events ++ shutdown_events)
    (after (sample_events ++ shutdown_events)) handlers_return
    (after (sample_events ++ shutdown_events ++ handlers_return))); vm_compute; reflexivity.
Defined.
