(* ===== verification/Listen.v ===== *)
(** * Listen: creating the server, its listeners and its end

    [New] and [ListenAndServe] of [internal/server/server.go]: the sockets it
    binds, the address it reports as ready, the goroutines it starts and the
    sockets it closes.  The serve loops and the drain are the machine of
    [Intake]; which address the operating system binds for a text is a
    parameter. *)

From S2P Require Import Prelude Netip GoText NetipParse GoTime GoFormat GoAddrText Overrides Dns Policy Upstream Engine Cache Resolve Metrics Config Intake.

(** ** Sockets *)

(** The address of a bound socket ([net.UDPAddr], [net.TCPAddr]) and its
    [String]. *)
Record NetAddr := mkNetAddr { na_host : string; na_port : Z }.

#[export] Instance NetAddr_eq_dec : EqDecision NetAddr.
Proof. solve_decision. Defined.

Definition NetAddr_String (a : NetAddr) : string := JoinHostPort (na_host a) (Itoa (na_port a)).

Lemma NetAddr_String_inj a b :
  0 <= na_port a -> 0 <= na_port b -> NetAddr_String a = NetAddr_String b -> a = b.
Proof.
  intros Ha Hb E. destruct a as [h p], b as [h' p']. unfold NetAddr_String in E. cbn in *.
  apply JoinHostPort_inj in E as [-> E]; [|by apply Itoa_no_colon..].
  pose proof (Atoi_Itoa p Ha) as Hp. rewrite E, Atoi_Itoa in Hp by done. by injection Hp as ->.
Qed.

(** The sockets the process has open. *)
Abbreviation Sockets := (gmap nat (transport * NetAddr)).

Section Os.
(** The address bound for a text, or the error. *)
Context (os_bind : transport -> string -> Sockets -> result string NetAddr).

(** [net.ListenPacket] and [net.Listen]. *)
Definition listen (t : transport) (addr : string) (os : Sockets)
    : result string (nat * NetAddr) * Sockets :=
  match os_bind t addr os with
  | Err e => (Err e, os)
  | Ok a => let fd := fresh (dom os) in (Ok (fd, a), <[fd := (t, a)]> os)
  end.

(** [Close] of a socket that may be nil. *)
Definition close (fd : option nat) (os : Sockets) : Sockets :=
  match fd with Some fd => delete fd os | None => os end.

(** ** The server *)

Record Server := mkServer {
  s_svc : Service;
  s_cfg : Config;
  s_m : Metrics;
  s_sem : nat;
  s_upstreams : list (EngineUpstream * Client);
  s_udpConn : option nat;
  s_tcpLn : option nat;
}.

(** [None] when [make] panics for a negative capacity. *)
Definition New (svc : Service) (cfg : Config) (m : Metrics)
    (upstreams : list (EngineUpstream * Client)) : option Server :=
  if MaxConcurrency cfg <? 0 then None
  else Some (mkServer svc cfg m (Z.to_nat (MaxConcurrency cfg)) upstreams None None).

Definition set_udpConn (s : Server) (fd : nat) : Server :=
  mkServer (s_svc s) (s_cfg s) (s_m s) (s_sem s) (s_upstreams s) (Some fd) (s_tcpLn s).
Definition set_tcpLn (s : Server) (fd : nat) : Server :=
  mkServer (s_svc s) (s_cfg s) (s_m s) (s_sem s) (s_upstreams s) (s_udpConn s) (Some fd).

Definition bind_udp (s : Server) (addr : string) (os : Sockets)
    : result string (Server * option NetAddr) * Sockets :=
  if UDP (s_cfg s) then
    match listen Udp addr os with
    | (Err e, os) => (Err e, os)
    | (Ok (fd, a), os) => (Ok (set_udpConn s fd, Some a), os)
    end
  else (Ok (s, None), os).

(** With port 0 the TCP listener shares the port the UDP socket got. *)
Definition bind_tcp (s : Server) (addr : string) (bound : option NetAddr) (os : Sockets)
    : result string (Server * option NetAddr) * Sockets :=
  if TCP (s_cfg s) then
    let tcpAddr := match bound with Some a => NetAddr_String a | None => addr end in
    match listen Tcp tcpAddr os with
    | (Err e, os) => (Err e, close (s_udpConn s) os)
    | (Ok (fd, a), os) => (Ok (set_tcpLn s fd, Some a), os)
    end
  else (Ok (s, bound), os).

Definition bind_all (s : Server) (os : Sockets)
    : result string (Server * option NetAddr) * Sockets :=
  let addr := JoinHostPort (Bind (s_cfg s)) (Itoa (Port (s_cfg s))) in
  match bind_udp s addr os with
  | (Err e, os) => (Err e, os)
  | (Ok (s, bound), os) => bind_tcp s addr bound os
  end.

(** How [ListenAndServe] ends: with the error of a bind, in a panic when
    [bound] is nil and somebody waits for the address, or with nil once the
    drain is over. *)
Inductive ended :=
| BindFailed (e : string)
| NilBound
| Served (drained : bool).

(** The events are those of the serve loops, the handlers and the context
    from the moment the loops start.  [None] when they cannot happen or leave
    the call serving.  The result is the way it ends, what [ready] received
    and the sockets left: the shutdown goroutine closes the listener, and the
    call itself the UDP socket. *)
Definition ListenAndServe (s : Server) (ready : bool) (es : list event) (os : Sockets)
    : option (ended * option string * Sockets) :=
  match bind_all s os with
  | (Err e, os) => Some (BindFailed e, None, os)
  | (Ok (s, bound), os) =>
      if ready && negb (bool_decide (is_Some bound)) then Some (NilBound, None, os)
      else
        let told := if ready then NetAddr_String <$> bound else None in
        match run (s_sem s) (start (UDP (s_cfg s)) (TCP (s_cfg s))) es with
        | Some st =>
            match i_main st with
            | Done drained => Some (Served drained, told, close (s_udpConn s) (close (s_tcpLn s) os))
            | _ => None
            end
        | None => None
        end
  end.

(** ** Lemmas *)

Definition unbound (s : Server) : Prop := s_udpConn s = None /\ s_tcpLn s = None.

Lemma New_spec svc cfg m ups s :
  New svc cfg m ups = Some s -> s_cfg s = cfg /\ unbound s /\ s_sem s = Z.to_nat (MaxConcurrency cfg).
Proof. unfold New. destruct (_ <? _); [done|]. by intros [= <-]. Qed.

Lemma listen_new t addr os fd a os' :
  listen t addr os = (Ok (fd, a), os') ->
  os_bind t addr os = Ok a /\ os !! fd = None /\ os' = <[fd := (t, a)]> os.
Proof.
  unfold listen. destruct (os_bind t addr os) as [b|e]; [|done]. intros [= <- <- <-].
  split_and!; [done| |done]. apply not_elem_of_dom, is_fresh.
Qed.

Lemma listen_err t addr os e os' : listen t addr os = (Err e, os') -> os' = os.
Proof. unfold listen. destruct (os_bind t addr os); by intros [= ? ?]. Qed.

(** What is bound when the two steps are over: nothing after an error, and
    otherwise a socket for each configured transport. *)
Lemma bind_all_spec s os : unbound s ->
  match bind_all s os with
  | (Err _, os') => os' = os
  | (Ok (s', bound), os') =>
      s_cfg s' = s_cfg s /\ s_sem s' = s_sem s /\
      (UDP (s_cfg s) = true \/ TCP (s_cfg s) = true -> is_Some bound) /\
      close (s_udpConn s') (close (s_tcpLn s') os') = os
  end.
Proof.
  intros [Hu Ht]. unfold bind_all, bind_udp, bind_tcp.
  destruct (UDP (s_cfg s)) eqn:Eu.
  - destruct (listen Udp _ os) as [[[fd a]|e] os1] eqn:El; [|by apply listen_err in El].
    apply listen_new in El as (_ & Hn & ->). cbn [set_udpConn s_cfg s_udpConn s_tcpLn].
    destruct (TCP (s_cfg s)) eqn:Et.
    + destruct (listen Tcp _ _) as [[[fd' b]|e] os2] eqn:El.
      * apply listen_new in El as (_ & Hn' & ->). cbn. split_and!; try done.
        by rewrite !delete_insert_id.
      * apply listen_err in El as ->. cbn. by rewrite delete_insert_id.
    + cbn. rewrite Ht. cbn. split_and!; try done. by rewrite delete_insert_id.
  - destruct (TCP (s_cfg s)) eqn:Et.
    + destruct (listen Tcp _ os) as [[[fd' b]|e] os2] eqn:El.
      * apply listen_new in El as (_ & Hn' & ->). cbn. rewrite Hu. split_and!; try done.
        by rewrite delete_insert_id.
      * apply listen_err in El as ->. by rewrite Hu.
    + rewrite Hu, Ht. split_and!; try done. by intros [?|?].
Qed.
(** The socket of each configured transport, when binding succeeds. *)
Lemma bind_all_sockets s os s' bound os' :
  UDP (s_cfg s) = true -> TCP (s_cfg s) = true -> bind_all s os = (Ok (s', bound), os') ->
  exists fu ft a b os1, s_udpConn s' = Some fu /\ s_tcpLn s' = Some ft /\ fu <> ft /\
    os' !! fu = Some (Udp, a) /\ os' !! ft = Some (Tcp, b) /\ bound = Some b /\
    os_bind Udp (JoinHostPort (Bind (s_cfg s)) (Itoa (Port (s_cfg s)))) os = Ok a /\
    os_bind Tcp (NetAddr_String a) os1 = Ok b.
Proof.
  intros Hu Ht. unfold bind_all, bind_udp, bind_tcp. rewrite Hu.
  destruct (listen Udp _ os) as [[[fu a]|e] os1] eqn:El; [|done].
  apply listen_new in El as (Ha & Hn & ->). cbn [set_udpConn s_cfg]. rewrite Ht.
  destruct (listen Tcp _ _) as [[[ft b]|e] os2] eqn:El; [|done].
  apply listen_new in El as (Hb & Hn' & ->). intros [= <- <- <-].
  assert (fu <> ft) as Hne by (intros ->; by rewrite lookup_insert_eq in Hn').
  exists fu, ft, a, b, (<[fu:=(Udp, a)]> os). split_and!; try done.
  - by rewrite lookup_insert_ne, lookup_insert_eq.
  - by rewrite lookup_insert_eq.
Qed.

(** ** Theorems *)


(** Both transports serve one address.  When the system binds the address
    a text spells, the TCP listener ends up on the very address the UDP socket
    got, also when the port was chosen by the system, and it is the address
    reported as ready. *)
Theorem transports_share_address s os s' bound os' :
  (forall t a b os, os_bind t (NetAddr_String a) os = Ok b -> 0 < na_port a -> b = a) ->
  (forall t text a os, os_bind t text os = Ok a -> 0 < na_port a) ->
  UDP (s_cfg s) = true -> TCP (s_cfg s) = true -> bind_all s os = (Ok (s', bound), os') ->
  exists fu ft a, s_udpConn s' = Some fu /\ s_tcpLn s' = Some ft /\ fu <> ft /\
    os' !! fu = Some (Udp, a) /\ os' !! ft = Some (Tcp, a) /\ bound = Some a.
Proof.
  intros Hlaw Hport Hu Ht Hb.
  destruct (bind_all_sockets _ _ _ _ _ Hu Ht Hb)
    as (fu & ft & a & b & os1 & Eu & Et & Hne & Hfu & Hft & Hbd & Ha & Hb').
  apply Hlaw in Hb' as ->; [|by eapply Hport]. by exists fu, ft, a.
Qed.
End Os.

(** ** Examples *)

(** A system that binds 127.0.0.1 on the port asked for, and on 40000 for port
    0, and refuses an address in use. *)
Definition loopback (port : Z) : NetAddr := mkNetAddr "127.0.0.1" port.
Definition known : list (string * NetAddr) :=
  [(NetAddr_String (loopback 8053), loopback 8053); (NetAddr_String (loopback 40000), loopback 40000);
   (NetAddr_String (loopback 0), loopback 40000)].
Definition in_use (t : transport) (a : NetAddr) (os : Sockets) : bool :=
  existsb (fun k => match k.2.1, t with
                    | Udp, Udp | Tcp, Tcp => bool_decide (k.2.2 = a)
                    | _, _ => false
                    end) (map_to_list os).
Definition sample_bind (t : transport) (text : string) (os : Sockets) : result string NetAddr :=
  match find (fun k => String.eqb k.1 text) known with
  | Some (_, a) => if in_use t a os then Err "address already in use" else Ok a
  | None => Err "no such host"
  end.

Lemma sample_bind_known t text os a :
  sample_bind t text os = Ok a -> (text, a) ∈ known.
Proof.
  unfold sample_bind. destruct (find _ known) as [[text' a']|] eqn:E; [|done].
  apply find_some in E as [Hin Heq]. cbn in Heq. apply String.eqb_eq in Heq as ->.
  destruct (in_use t a' os); [done|]. intros [= <-]. by apply list_elem_of_In.
Qed.

Lemma sample_bind_spelled t a b os :
  sample_bind t (NetAddr_String a) os = Ok b -> 0 < na_port a -> b = a.
Proof.
  intros Hb%sample_bind_known Hp. unfold known in Hb. rewrite !elem_of_cons, elem_of_nil in Hb.
  assert (forall c, 0 <= na_port c -> NetAddr_String a = NetAddr_String c -> c = a) as Hinj
    by (intros c Hc E; symmetry; apply NetAddr_String_inj; done || lia).
  destruct Hb as [[= E ->]|[[= E ->]|[[= E ->]|[]]]].
  - by apply Hinj.
  - by apply Hinj.
  - apply Hinj in E as <-; [|done]. cbn in Hp. lia.
Qed.

Lemma sample_bind_port t text a os : sample_bind t text os = Ok a -> 0 < na_port a.
Proof.
  intros Hb%sample_bind_known. unfold known in Hb. rewrite !elem_of_cons, elem_of_nil in Hb.
  by destruct Hb as [[= -> ->]|[[= -> ->]|[[= -> ->]|[]]]].
Qed.

Definition listen_config : Config :=
  match build (sample_raw "45s") with Ok c => c | Err _ => Defaults end.
Definition listen_events : list event :=
  [EvRead Udp; EvSpawn Udp; EvCancel; EvReadError Udp; EvReadError Tcp; EvLoopsStopped;
   EvRelease; EvLeave; EvDrained].

Definition listen_service : Service := mkService true 30 3600 60 600.
Definition listen_run (s : Server) : option (ended * option string * Sockets) :=
  ListenAndServe sample_bind s true listen_events ∅.
Definition listen_server : Server := mkServer listen_service listen_config (Metrics.New [] 0) 512 [] None None.


(** A server on a port the system chooses. *)
Definition ephemeral_config : Config :=
  mkConfig "127.0.0.1" 0 true true (30 * Second) 8 [] [] "" Second Second 10 1232
    Second Second Second Second true 8 Second Second "info" "text" "".
Definition ephemeral_server : Server :=
  mkServer (mkService true 30 3600 60 600) ephemeral_config (Metrics.New [] 0) 8 [] None None.

Definition ephemeral_bound : result string (Server * option NetAddr) * Sockets :=
  bind_all sample_bind ephemeral_server ∅.
Definition bound_port (r : result string (Server * option NetAddr)) : option Z :=
  match r with Ok (_, Some a) => Some (na_port a) | _ => None end.

Lemma transports_share_address_witness :
  exists s' os' fu ft a, ephemeral_bound = (Ok (s', Some a), os') /\ na_port a = 40000 /\
    os' !! fu = Some (Udp, a) /\ os' !! ft = Some (Tcp, a).
Proof.
  assert (bound_port ephemeral_bound.1 = Some 40000) as Hp by (vm_compute; reflexivity).
  destruct ephemeral_bound as [[[s' bound]|e] os'] eqn:E; [|discriminate Hp].
  destruct (transports_share_address sample_bind ephemeral_server ∅ s' bound os'
    sample_bind_spelled sample_bind_port eq_refl eq_refl E) as (fu & ft & a & _ & _ & _ & Hu & Ht & ->).
  injection Hp as Hp. exists s', os', fu, ft, a. 
  split; [reflexivity|]. split; [exact Hp|]. split; [exact Hu|exact Ht].
Defined.
