(* ===== verification/FakeServer.v ===== *)
(** * FakeServer: the sockets of [internal/testdns/fake.go]

    [Start], [StartZone], [Close] and [PortOf]: the fake upstream of [Testdns]
    on a UDP and a TCP socket of one port, on the sockets of [Listen].  The
    servers' goroutines are the handler of [Testdns], and [t.Fatalf] is the
    error. *)

From S2P Require Import Prelude GoText GoFormat Dns Testdns Intake Listen.
#[local] Open Scope Z_scope.

(** [net.Addr] by its dynamic type. *)
Inductive Addr :=
| UDPAddr (a : NetAddr)
| TCPAddr (a : NetAddr)
| OtherAddr.

Definition PortOf (a : Addr) : Z :=
  match a with
  | UDPAddr v => na_port v
  | TCPAddr v => na_port v
  | OtherAddr => 0
  end.

Section FakeServer.
Context (os_bind : transport -> string -> Sockets -> result string NetAddr).

(** The sockets stand for the two [dns.Server]s, both with the handler. *)
Record FakeServer (H : Type) := mkFakeServer {
  f_UDPAddr : Addr;
  f_TCPAddr : Addr;
  f_udp : nat;
  f_tcp : nat;
  f_handler : H;
}.
#[local] Arguments mkFakeServer {H}.
#[local] Arguments f_UDPAddr {H}.
#[local] Arguments f_TCPAddr {H}.
#[local] Arguments f_udp {H}.
#[local] Arguments f_tcp {H}.
#[local] Arguments f_handler {H}.

Definition Start {H} (h : H) (os : Sockets) : result string (FakeServer H) * Sockets :=
  match listen os_bind Udp "127.0.0.1:0" os with
  | (Err e, os) => (Err ("listen udp: " +:+ e), os)
  | (Ok (pc, a), os) =>
      let port := na_port a in
      match listen os_bind Tcp ("127.0.0.1:" +:+ Itoa port) os with
      | (Err e, os) => (Err ("listen tcp: " +:+ e), os)
      | (Ok (ln, b), os) => (Ok (mkFakeServer (UDPAddr a) (TCPAddr b) pc ln h), os)
      end
  end.

Definition StartZone `{GoUnicode} `{DnsLib} (z : Zone) (os : Sockets)
    : result string (FakeServer (bool -> Msg -> Z * option Msg)) * Sockets :=
  Start (Handler z) os.

(** [Shutdown] of a server closes its socket. *)
Definition Close {H} (s : FakeServer H) (os : Sockets) : Sockets :=
  close (Some (f_tcp s)) (close (Some (f_udp s)) os).

(** A client that is told to come back over TCP finds the same handler on the
    same port, and closing the server leaves the sockets as they were. *)
Theorem one_port {H} (h : H) os s os' :
  (forall t a b os, os_bind t (NetAddr_String a) os = Ok b -> 0 < na_port a -> b = a) ->
  (forall t text a os, os_bind t text os = Ok a -> 0 < na_port a) ->
  Start h os = (Ok s, os') ->
  PortOf (f_UDPAddr s) = PortOf (f_TCPAddr s) /\ 0 < PortOf (f_UDPAddr s) /\ f_handler s = h /\
  f_udp s <> f_tcp s /\ Close s os' = os.
Proof.
  intros Hlaw Hport. unfold Start. destruct (listen os_bind Udp _ os) as [[[pc a]|e] os1] eqn:El; [|done].
  apply listen_new in El as (Ha & Hn & ->).
  destruct (listen os_bind Tcp _ _) as [[[ln b]|e] os2] eqn:El; [|done].
  apply listen_new in El as (Hb & Hn' & ->). intros [= <- <-]. cbn.
  apply Hport in Ha. change ("127.0.0.1:" +:+ Itoa (na_port a)) with (NetAddr_String (loopback (na_port a))) in Hb.
  apply Hlaw in Hb as ->; [|done].
  assert (pc <> ln) as Hne by (intros ->; by rewrite lookup_insert_eq in Hn').
  split_and!; try done. unfold Close. cbn. rewrite delete_delete, delete_insert_id by done.
  by rewrite delete_insert_id.
Qed.
End FakeServer.

(** A started server on the system of [Listen]'s examples. *)
Lemma one_port_witness : exists s os',
  Start sample_bind () ∅ = (Ok s, os') /\ PortOf (f_TCPAddr _ s) = 40000 /\ Close s os' = ∅.
Proof.
  destruct (Start sample_bind () ∅) as [[s|e] os'] eqn:E; [|vm_compute in E; discriminate E].
  destruct (one_port sample_bind () ∅ s os' sample_bind_spelled sample_bind_port E) as (_ & _ & _ & _ & Hc).
  exists s, os'. split; [reflexivity|]. split; [|exact Hc].
  assert ((fun r => match r with Ok s => PortOf (f_TCPAddr _ s) | Err _ => 0 end) (Start sample_bind () ∅).1 = 40000)
    as Hp by (vm_compute; reflexivity).
  rewrite E in Hp. exact Hp.
Defined.
