(* ===== verification/Main.v ===== *)
(** * Main: putting the program together ([cmd/chn-resolver/main.go])

    Which configuration file is read, how the assets are loaded and the
    upstreams classified, the settings handed to the service, the engine's
    result callback, and the reload on SIGHUP as one step; [Live] has it in its
    two steps, with lookups in between. *)

From S2P Require Import Prelude Netip GoText Intervals China NetipParse Loader Overrides Dns Policy Upstream Engine Cache CacheProps Flight Resolve Metrics GoTime Config.

Definition defaultConfigPath : string := "/etc/chn-resolver/chn-resolver.toml".
Definition localConfigPath : string := "chn-resolver.toml".

(** ** Configuration *)

Section LoadConfig.
(** [os.Stat] succeeding, and [config.Load]. *)
Context (stat_ok : string -> bool) (load : string -> result config_error Config).

Fixpoint first_existing (paths : list string) : option (result config_error Config) :=
  match paths with
  | [] => None
  | p :: paths => if stat_ok p then Some (load p) else first_existing paths
  end.

(** [None] is the error that no file was found. *)
Definition loadConfig (path : string) : option (result config_error Config) :=
  if negb (String.eqb path "") then Some (load path)
  else first_existing [defaultConfigPath; localConfigPath].
End LoadConfig.

(** ** Wiring *)

Inductive asset_error :=
| PrefixesFailed (e : load_error)
| OverridesFailed (e : load_error).

Section Main.
Context `{GoUnicode}.

Definition loadAssets (fs : FileSystem) (cfg : Config) : result asset_error Assets :=
  match Loader.Load fs (PrefixFiles cfg) with
  | Err e => Err (PrefixesFailed e)
  | Ok idx =>
      if negb (String.eqb (OverridesFile cfg) "") then
        match Overrides.Load fs (OverridesFile cfg) with
        | Err e => Err (OverridesFailed e)
        | Ok ov => Ok (mkAssets idx ov)
        end
      else Ok (mkAssets idx (Overrides.New [] []))
  end.

Definition classify (assets : Assets) (u : Config.Upstream) : EngineUpstream :=
  let inChina := Contains (as_china assets) (up_addr u) in
  let inChina := match up_role u with
                 | RoleChina => true
                 | RoleForeign => false
                 | RoleAuto => inChina
                 end in
  Engine.mkUpstream (mkAddrPort (up_addr u) (uint16 (up_port u))) inChina.

(** The engine's upstreams; each comes with a new client. *)
Fixpoint classify_all (size : Z) (assets : Assets) (us : list Config.Upstream)
    (ups : list (EngineUpstream * Client)) : list (EngineUpstream * Client) :=
  match us with
  | [] => ups
  | u :: us => classify_all size assets us (ups ++ [(classify assets u, NewClient (uint16 size))])
  end.
Definition classifyUpstreams (cfg : Config) (assets : Assets) : list (EngineUpstream * Client) :=
  classify_all (UDPPayloadSize cfg) assets (Config.Upstreams cfg) [].

(** The engine, the cache and the service as [main] creates them. *)
Definition new_engine (cfg : Config) (assets : Assets) : Engine :=
  Engine.New assets (classifyUpstreams cfg assets).*1 (AttemptTimeout cfg) (MaxCNAMEHops cfg)
    (uint16 (UDPPayloadSize cfg)).
Definition seconds (d : Duration) : Z := uint32 (Z.quot d Second).
Definition new_service (cfg : Config) : Service :=
  mkService (CacheEnabled cfg) (seconds (MinTTL cfg)) (seconds (MaxTTL cfg))
    (seconds (NegMinTTL cfg)) (seconds (NegMaxTTL cfg)).

(** The engine's [OnResult]. *)
Definition on_result (m : Metrics) (call : report_call) : Metrics :=
  let '(idx, state, category) := call in
  let m := RecordUpstreamResult m (Z.of_nat idx) (State_String state) in
  if decide (state = StateFailure) then RecordUpstreamFailure m (Z.of_nat idx) category else m.

(** ** Reloading *)

(** What a reload changes. *)
Record Running := mkRunning { run_engine : Engine; run_cache : Cache }.

(** One SIGHUP, with the files as they are then. *)
Definition reload (cfg : Config) (s : Running) (fs : FileSystem) : Running :=
  match loadAssets fs cfg with
  | Err _ => s
  | Ok assets => mkRunning (UpdateAssets (run_engine s) assets) (Flush (run_cache s))
  end.

Fixpoint handleReloads (cfg : Config) (s : Running) (hups : list FileSystem) : Running :=
  match hups with
  | [] => s
  | fs :: hups => handleReloads cfg (reload cfg s fs) hups
  end.

(** ** Lemmas *)

Lemma classify_all_eq size assets us ups :
  classify_all size assets us ups =
  ups ++ ((fun u => (classify assets u, NewClient (uint16 size))) <$> us).
Proof.
  revert ups. induction us as [|u us IH]; intros ups; cbn [classify_all].
  - by rewrite app_nil_r.
  - by rewrite IH, <-app_assoc.
Qed.

(** The assets of the last file system that loads. *)
Fixpoint last_good (cfg : Config) (a : Assets) (hups : list FileSystem) : Assets :=
  match hups with
  | [] => a
  | fs :: hups => last_good cfg (match loadAssets fs cfg with Ok a' => a' | Err _ => a end) hups
  end.

Definition some_good (cfg : Config) (hups : list FileSystem) : bool :=
  existsb (fun fs => match loadAssets fs cfg with Ok _ => true | Err _ => false end) hups.

Lemma seconds_exact d : 0 <= d -> d < 2 ^ 32 * Second -> seconds d = d / Second.
Proof.
  intros Hd Hu. unfold seconds. rewrite Z.quot_div_nonneg by (unfold Second; lia).
  apply uint32_id. unfold in_uint. split; [apply Z.div_pos; unfold Second; lia|].
  apply Z.div_lt_upper_bound; unfold Second in *; lia.
Qed.

(** ** Theorems *)

(** C30: a reload is all or nothing.  After any sequence of reloads the engine
    classifies with the assets of the last one that loaded, or with the
    original ones when none did; its upstreams and limits never change; and
    the cache is empty if some reload succeeded and untouched otherwise. *)
Theorem reloads_keep_last_good cfg s hups :
  let s' := handleReloads cfg s hups in
  run_engine s' = UpdateAssets (run_engine s) (last_good cfg (e_assets (run_engine s)) hups) /\
  (if some_good cfg hups then c_ll (run_cache s') = [] /\ c_items (run_cache s') = ∅
   else run_cache s' = run_cache s).
Proof.
  revert s. induction hups as [|fs hups IH]; intros s; cbn [handleReloads last_good some_good existsb].
  { split; [|done]. by destruct s as [[] c]. }
  cbn zeta. specialize (IH (reload cfg s fs)). cbn zeta in IH. destruct IH as [He Hc].
  unfold reload in *. destruct (loadAssets fs cfg) as [a|e]; cbn [orb] in *.
  - split; [exact He|]. fold (some_good cfg hups) in Hc. destruct (some_good cfg hups); [done|].
    rewrite Hc. done.
  - split; [exact He|]. exact Hc.
Qed.

(** How an upstream is classified: an explicit role wins, and otherwise
    the upstream is China-class exactly when its address lies in one of the
    loaded prefixes; every configured upstream is kept, in order, with its
    address and port. *)
Theorem upstreams_classified cfg assets ps i u :
  as_china assets = Build ps -> Forall Prefix_ok ps ->
  Forall (fun p => tail_unmapped p = true) ps ->
  Config.Upstreams cfg !! i = Some u -> upstream_ok u -> Zone (up_addr u) = "" ->
  (classifyUpstreams cfg assets).*1 !! i =
  Some (Engine.mkUpstream (mkAddrPort (up_addr u) (up_port u))
    (match up_role u with
     | RoleChina => true
     | RoleForeign => false
     | RoleAuto => existsb (fun p => Prefix_Contains p (Unmap (up_addr u))) ps
     end)).
Proof.
  intros HB Hok Ht Hi [Hp [Ha _]] Hz. unfold classifyUpstreams. rewrite classify_all_eq, app_nil_l.
  rewrite <-list_fmap_compose, list_lookup_fmap, Hi. cbn. unfold classify.
  rewrite uint16_id by (unfold in_uint; lia). rewrite HB, Build_scan by done.
  by destruct (up_role u).
Qed.

(** The limits reach the service intact.  For a checked configuration
    whose TTL limits are not negative and fit 32 bits in seconds, the service
    clamps between the configured limits, in whole seconds, and the lower
    limit is never above the upper one. *)
Theorem service_limits cfg :
  config_ok cfg -> 0 <= MinTTL cfg -> 0 <= NegMinTTL cfg ->
  MaxTTL cfg < 2 ^ 32 * Second -> NegMaxTTL cfg < 2 ^ 32 * Second ->
  sv_minTTL (new_service cfg) = MinTTL cfg / Second /\
  sv_maxTTL (new_service cfg) = MaxTTL cfg / Second /\
  sv_minTTL (new_service cfg) <= sv_maxTTL (new_service cfg) /\
  sv_negMinTTL (new_service cfg) <= sv_negMaxTTL (new_service cfg).
Proof.
  intros Hc H1 H2 H3 H4. pose proof (co_ttl cfg Hc). pose proof (co_negttl cfg Hc). cbn.
  rewrite !seconds_exact by lia. split_and!; try done; apply Z.div_le_mono; done || (unfold Second; lia).
Qed.
End Main.

(** When no path is given and neither default file exists there is no
    configuration: the built-in defaults are not used. *)
Lemma loadConfig_no_file load : loadConfig (fun _ => false) load "" = None.
Proof. done. Qed.

(** ** Examples *)

Definition sample_config : Config :=
  match build (sample_raw "45s") with Ok c => c | Err _ => Defaults end.
Definition auto_config : Config :=
  match build (mkRaw "" 0 None None "" 0 [mkRawUpstream "1.0.3.7" 5353 ""]
    (mkRawChina ["cn4.txt"; "cn6.txt"] "") (mkRawResolve "" "" 0 0 "" "" "" "")
    (mkRawCache None 0 "") (mkRawForward "") (mkRawLog "" "") (mkRawMetrics "")) with Ok c => c | Err _ => Defaults end.

Lemma upstreams_classified_witness :
  (classifyUpstreams auto_config
    (mkAssets (Build (concat sample_loaded)) (@Overrides.New ascii_tables [] []))).*1 !! 0%nat =
  Some (Engine.mkUpstream (mkAddrPort (Addr4 (be_val [1; 0; 3; 7])) 5353) true).
Proof.
  apply (upstreams_classified auto_config
    (mkAssets (Build (concat sample_loaded)) (@Overrides.New ascii_tables [] []))
    (concat sample_loaded) 0
    (Config.mkUpstream (Addr4 (be_val [1; 0; 3; 7])) 5353 RoleAuto)).
  - reflexivity.
  - unfold sample_loaded. cbn [concat app]. solve_concrete.
  - unfold sample_loaded. cbn [concat app]. solve_concrete.
  - vm_compute. reflexivity.
  - split; [vm_compute; split; discriminate|]. split; [vm_compute; split; [discriminate|reflexivity]|discriminate].
  - reflexivity.
Defined.

Lemma service_limits_witness :
  sv_minTTL (new_service sample_config) = 45 /\ sv_maxTTL (new_service sample_config) = 3600.
Proof.
  assert (build (sample_raw "45s") = Ok sample_config) as Hb by (vm_compute; reflexivity).
  destruct (service_limits sample_config (build_config_ok _ _ Hb)) as (Hmin & Hmax & _).
  - vm_compute. discriminate.
  - vm_compute. discriminate.
  - vm_compute. reflexivity.
  - vm_compute. reflexivity.
  - split; [rewrite Hmin|rewrite Hmax]; vm_compute; reflexivity.
Defined.
