(* ===== verification/Start.v ===== *)
(** * Start: the [main] function of [cmd/chn-resolver/main.go]

    From the command line to the running parts: what [-version] and [-check]
    print, which errors end the process, and the engine, cache, service,
    server, metrics and janitor a start puts together, on top of the pieces of
    [Main].  Signals and the HTTP server of the metrics page are not
    modelled. *)

From S2P Require Import Prelude Netip GoText Intervals China NetipParse Loader Overrides Dns Policy Upstream Engine Cache CacheProps Janitor Flight Resolve Metrics GoTime GoFormat GoAddrText Exposition Accounts Config Intake Listen Main.
#[local] Open Scope Z_scope.

(** ** Logging *)

Inductive level := LevelDebug | LevelInfo | LevelWarn | LevelError.
Record Logger := mkLogger { lg_level : level; lg_json : bool }.

Definition newLogger (cfg : Config) : Logger :=
  let lv := if String.eqb (LogLevel cfg) "debug" then LevelDebug
            else if String.eqb (LogLevel cfg) "warn" then LevelWarn
            else if String.eqb (LogLevel cfg) "error" then LevelError
            else LevelInfo in
  mkLogger lv (String.eqb (LogFormat cfg) "json").

(** ** The summary *)

(** The labels of the upstreams on the metrics page. *)
Fixpoint upstreamAddrs (ups : list (EngineUpstream * Client)) : list string :=
  match ups with
  | [] => []
  | u :: ups => AddrPort_String (u_addr u.1) :: upstreamAddrs ups
  end.

Definition nat_text (n : nat) : string := Itoa (Z.of_nat n).

Definition summary_lines (cfg : Config) (assets : Assets) (ups : list (EngineUpstream * Client))
    : list string :=
  let '(v4, v6) := Counts (as_china assets) in
  ["config ok: listening on " +:+ Bind cfg +:+ ":" +:+ Itoa (Port cfg) +:+
     " (udp=" +:+ bool_text (UDP cfg) +:+ " tcp=" +:+ bool_text (TCP cfg) +:+ ")";
   "prefixes: " +:+ nat_text v4 +:+ " v4 spans, " +:+ nat_text v6 +:+ " v6 spans (inputs: " +:+
     Itoa (V4Input (as_china assets)) +:+ " v4, " +:+ Itoa (V6Input (as_china assets)) +:+ " v6)"] ++
  ((fun u => "upstream " +:+ AddrPort_String (u_addr u.1) +:+ ": in_china=" +:+ bool_text (u_china u.1))
     <$> ups) ++
  ["timeouts: attempt=" +:+ Duration_String (AttemptTimeout cfg) +:+ " overall=" +:+
     Duration_String (OverallTimeout cfg) +:+ "; cache: enabled=" +:+ bool_text (CacheEnabled cfg) +:+
     " max_entries=" +:+ Itoa (MaxEntries cfg);
   "ttl clamps: [" +:+ Duration_String (MinTTL cfg) +:+ ", " +:+ Duration_String (MaxTTL cfg) +:+
     "], negative [" +:+ Duration_String (NegMinTTL cfg) +:+ ", " +:+ Duration_String (NegMaxTTL cfg) +:+ "]"].
Definition printSummary (cfg : Config) (assets : Assets) (ups : list (EngineUpstream * Client)) : string :=
  unlines (summary_lines cfg assets ups).

(** ** The program *)

Record Flags := mkFlags { fl_config : string; fl_check : bool; fl_version : bool }.

(** What [fatal] reports. *)
Inductive fatal_error :=
| NoConfigFile
| ConfigFailed (e : config_error)
| AssetsFailed (e : asset_error).

(** What runs after a start: the parts, the janitor's interval and the
    address of the metrics page, if any. *)
Record Program := mkProgram {
  pg_log : Logger;
  pg_run : Running;
  pg_service : Service;
  pg_metrics : Metrics;
  pg_server : Server;
  pg_sweep : Duration;
  pg_page : option string;
}.

Inductive ending :=
| Printed (text : string)
| Exit1 (e : fatal_error)
| Crashed
| Started (p : Program).

Section Start.
Context `{GoUnicode}.
(** The file system, the decoder of configuration files, the clock of the
    cache and the time of the call. *)
Context (fs : FileSystem) (stat_ok : string -> bool) (decode_file : string -> option raw).
Context (clock : nat -> Z) (now : Z) (version : string).

Definition assemble (cfg : Config) (assets : Assets) (ups : list (EngineUpstream * Client))
    : option Program :=
  let m := Metrics.New (upstreamAddrs ups) now in
  let eng := Engine.New assets ups.*1 (AttemptTimeout cfg) (MaxCNAMEHops cfg)
               (uint16 (UDPPayloadSize cfg)) in
  let c := Cache.New (MaxEntries cfg) clock in
  let svc := new_service cfg in
  match Listen.New svc cfg m ups with
  | None => None
  | Some srv =>
      Some (mkProgram (newLogger cfg) (mkRunning eng c) svc m srv (SweepInterval cfg)
        (if String.eqb (MetricsListen cfg) "" then None else Some (MetricsListen cfg)))
  end.

(** [main] up to the point where everything runs. *)
Definition main (fl : Flags) : ending :=
  if fl_version fl then Printed ("chn-resolver " +:+ version +:+ String newline "")
  else match loadConfig stat_ok (Config.Load decode_file) (fl_config fl) with
  | None => Exit1 NoConfigFile
  | Some (Err e) => Exit1 (ConfigFailed e)
  | Some (Ok cfg) =>
      match loadAssets fs cfg with
      | Err e => Exit1 (AssetsFailed e)
      | Ok assets =>
          let ups := classifyUpstreams cfg assets in
          if fl_check fl then Printed (printSummary cfg assets ups)
          else match assemble cfg assets ups with
               | None => Crashed
               | Some p => Started p
               end
      end
  end.

(** What remains of [main] once [ListenAndServe] is over: an error is fatal
    unless the context is done. *)
Definition finish (ended : ended) (ctx_done : bool) : option string :=
  match ended with
  | BindFailed e => if ctx_done then None else Some e
  | _ => None
  end.

(** The janitor's goroutine; a panic in it ends the process. *)
Definition janitor (p : Program) (evs : list janitor_event) : option (Cache * bool) :=
  RunJanitor (run_cache (pg_run p)) (pg_sweep p) evs.

(** ** What a start establishes *)

Record program_ok (cfg : Config) (p : Program) : Prop := {
  po_config : s_cfg (pg_server p) = cfg /\ config_ok cfg;
  po_upstreams : e_upstreams (run_engine (pg_run p)) = (s_upstreams (pg_server p)).*1;
  po_count : length (e_upstreams (run_engine (pg_run p))) = length (Config.Upstreams cfg);
  po_metrics : pg_metrics p =
    Metrics.New ((fun u => AddrPort_String (u_addr u)) <$> e_upstreams (run_engine (pg_run p))) now;
  po_labels : NoDup (um_addr <$> mt_upstreams (pg_metrics p));
  po_engine : AttemptTimeout cfg = e_attemptTimeout (run_engine (pg_run p)) /\
    1 <= e_maxHops (run_engine (pg_run p)) <= 64 /\
    e_udpSize (run_engine (pg_run p)) = UDPPayloadSize cfg;
  po_clients : Forall (fun u => u.2 = NewClient (UDPPayloadSize cfg)) (s_upstreams (pg_server p));
  po_cache : run_cache (pg_run p) = Cache.New (MaxEntries cfg) clock /\ cache_ok (run_cache (pg_run p));
  po_service : pg_service p = new_service cfg /\ s_svc (pg_server p) = pg_service p;
  po_server : unbound (pg_server p) /\ (1 <= s_sem (pg_server p))%nat /\ s_m (pg_server p) = pg_metrics p;
}.
(** ** Lemmas *)

Lemma upstreamAddrs_eq ups : upstreamAddrs ups = (fun u => AddrPort_String (u_addr u)) <$> ups.*1.
Proof. induction ups as [|u ups IH]; [done|]. cbn. by rewrite IH. Qed.

Lemma classifyUpstreams_eq cfg assets :
  classifyUpstreams cfg assets =
  (fun u => (classify assets u, NewClient (uint16 (UDPPayloadSize cfg)))) <$> Config.Upstreams cfg.
Proof. unfold classifyUpstreams. by rewrite classify_all_eq. Qed.

Lemma classify_addr assets u :
  upstream_ok u -> u_addr (classify assets u) = mkAddrPort (up_addr u) (up_port u).
Proof.
  intros [Hp _]. unfold classify. destruct (up_role u); cbn [u_addr]; by rewrite uint16_id by (unfold in_uint; lia).
Qed.

(** Upstreams with different addresses have different labels. *)
Lemma labels_distinct cfg assets :
  config_ok cfg -> NoDup (upstreamAddrs (classifyUpstreams cfg assets)).
Proof.
  intros Hc. rewrite upstreamAddrs_eq, classifyUpstreams_eq, <-!list_fmap_compose.
  pose proof (co_distinct cfg Hc) as Hd. destruct (co_upstreams cfg Hc) as [_ Hu].
  rewrite Forall_forall in Hu. apply NoDup_fmap_2_strong; [|by eapply NoDup_fmap_1].
  intros x y Hx Hy E.
  change (AddrPort_String (u_addr (classify assets x)) = AddrPort_String (u_addr (classify assets y))) in E.
  pose proof (Hu x Hx) as (Hpx & Hax & Hzx).
  pose proof (Hu y Hy) as (Hpy & Hay & Hzy). rewrite !classify_addr in E by auto.
  apply AddrPort_String_inj in E; cbn; try done; try lia. injection E as Ea _.
  apply list_elem_of_lookup_1 in Hx as [i Hi]. apply list_elem_of_lookup_1 in Hy as [j Hj].
  assert (i = j) as ->; [|by simplify_eq].
  eapply (NoDup_lookup _ i j); [exact Hd|by rewrite list_lookup_fmap, Hi|].
  rewrite list_lookup_fmap, Hj. cbn. by rewrite Ea.
Qed.

Lemma loaded_config_ok path cfg :
  loadConfig stat_ok (Config.Load decode_file) path = Some (Ok cfg) -> config_ok cfg.
Proof.
  assert (forall p, Config.Load decode_file p = Ok cfg -> config_ok cfg) as Hl.
  { unfold Config.Load. intros p. destruct (decode_file p) as [r|]; [|done]. apply build_config_ok. }
  unfold loadConfig, first_existing. destruct (negb _).
  - intros [= E]. by eapply Hl.
  - destruct (stat_ok defaultConfigPath); [intros [= E]; by eapply Hl|].
    destruct (stat_ok localConfigPath); [intros [= E]; by eapply Hl|done].
Qed.

Lemma assemble_ok cfg assets : config_ok cfg ->
  exists p, assemble cfg assets (classifyUpstreams cfg assets) = Some p /\
    program_ok cfg p /\ e_assets (run_engine (pg_run p)) = assets /\
    s_upstreams (pg_server p) = classifyUpstreams cfg assets /\ pg_sweep p = SweepInterval cfg.
Proof.
  intros Hc. pose proof (co_concurrency cfg Hc) as Hm. pose proof (co_payload cfg Hc) as Hpay.
  pose proof (co_entries cfg Hc) as He. unfold assemble, Listen.New.
  rewrite (proj2 (Z.ltb_ge _ _)) by lia. eexists. split; [reflexivity|].
  split; [|done]. constructor; cbn -[Cache.New Metrics.New].
  - done.
  - done.
  - rewrite classifyUpstreams_eq, <-list_fmap_compose. apply length_fmap.
  - by rewrite upstreamAddrs_eq.
  - pose proof (New_counts (upstreamAddrs (classifyUpstreams cfg assets)) now) as Hn.
    rewrite (cn_labels _ _ _ _ Hn). by apply labels_distinct.
  - split_and!; [done|apply (co_hops cfg Hc)|apply (co_hops cfg Hc)|]. apply uint16_id. unfold in_uint. lia.
  - rewrite classifyUpstreams_eq. apply Forall_fmap, Forall_forall. intros u _. cbn.
    by rewrite uint16_id by (unfold in_uint; lia).
  - split; [done|]. apply New_ok. lia.
  - done.
  - split_and!; try done. lia.
Qed.

(** What a start went through. *)
Lemma started fl p :
  main fl = Started p -> exists cfg assets,
    loadConfig stat_ok (Config.Load decode_file) (fl_config fl) = Some (Ok cfg) /\
    loadAssets fs cfg = Ok assets /\ e_assets (run_engine (pg_run p)) = assets /\ program_ok cfg p /\
    s_upstreams (pg_server p) = classifyUpstreams cfg assets /\ pg_sweep p = SweepInterval cfg.
Proof.
  unfold main. destruct (fl_version fl); [done|].
  destruct (loadConfig _ _ _) as [[cfg|e]|] eqn:El; [|done..].
  pose proof (loaded_config_ok _ _ El) as Hc. destruct (loadAssets fs cfg) as [assets|e] eqn:Ea; [|done].
  destruct (fl_check fl); [done|].
  destruct (assemble_ok cfg assets Hc) as (q & -> & Hq & Has & Hu & Hs). intros [= <-].
  by exists cfg, assets.
Qed.

(** ** Theorems *)

(** C28: a start is complete and consistent: the program that runs has an
    engine, a server and metrics for the same upstreams in the same order,
    with pairwise distinct labels on the metrics page, the limits of a checked
    configuration, an empty well-formed cache of the configured size, and a
    server with room for a request that has bound nothing yet. *)
Theorem start_consistent fl p :
  main fl = Started p -> exists cfg assets,
    loadConfig stat_ok (Config.Load decode_file) (fl_config fl) = Some (Ok cfg) /\
    loadAssets fs cfg = Ok assets /\ e_assets (run_engine (pg_run p)) = assets /\ program_ok cfg p.
Proof. intros Hm. destruct (started _ _ Hm) as (cfg & assets & ? & ? & ? & ? & _). by exists cfg, assets. Qed.

(** C29: [-check] tells whether a start succeeds.  It prints the summary of
    exactly the configuration, assets and upstreams a start with the same
    files would run with, it reports the error that would end the start, and
    it never starts anything. *)
Theorem check_predicts_start path :
  match main (mkFlags path true false) with
  | Printed text => exists p, main (mkFlags path false false) = Started p /\
      text = printSummary (s_cfg (pg_server p)) (e_assets (run_engine (pg_run p)))
               (s_upstreams (pg_server p))
  | Exit1 e => main (mkFlags path false false) = Exit1 e
  | Crashed | Started _ => False
  end.
Proof.
  unfold main. cbn [fl_version fl_config fl_check].
  destruct (loadConfig _ _ _) as [[cfg|e]|] eqn:El; [|done..].
  pose proof (loaded_config_ok _ _ El) as Hc. destruct (loadAssets fs cfg) as [assets|e]; [|done].
  destruct (assemble_ok cfg assets Hc) as (p & -> & Hp & Ha & Hu & _). exists p.
  split; [done|]. by rewrite (proj1 (po_config cfg p Hp)), Ha, Hu.
Qed.
(** The engine's callback in terms of the calls it makes. *)
Definition report_records (c : report_call) : list record_call :=
  let '(idx, state, category) := c in
  UpstreamResult (Z.of_nat idx) (State_String state) ::
  (if decide (state = StateFailure) then [UpstreamFailure (Z.of_nat idx) category] else []).

Lemma on_result_records m calls :
  foldl on_result m calls = records m (concat (report_records <$> calls)).
Proof.
  revert m. induction calls as [|[[idx state] category] calls IH]; intros m; [done|].
  cbn [foldl fmap list_fmap concat]. rewrite IH. unfold records. rewrite foldl_app. f_equal.
  unfold report_records, on_result. by destruct (decide (state = StateFailure)).
Qed.

Definition plain_zone (u : EngineUpstream) : Prop := is_ascii (Zone (ap_addr (u_addr u))) = true.

Lemma labels_ascii fl p : main fl = Started p ->
  Forall plain_zone (e_upstreams (run_engine (pg_run p))) ->
  Forall (fun a => is_ascii a = true)
    ((fun u => AddrPort_String (u_addr u)) <$> e_upstreams (run_engine (pg_run p))).
Proof.
  intros Hm Hz. destruct (started _ _ Hm) as (cfg & assets & _ & _ & _ & Hq & Hu & _).
  pose proof (proj2 (po_config _ _ Hq)) as Hc.
  rewrite (po_upstreams _ _ Hq), Hu, classifyUpstreams_eq in *.
  destruct (co_upstreams cfg Hc) as [_ Hup]. rewrite Forall_forall in Hup. rewrite Forall_forall in Hz. apply Forall_forall.
  intros a (u & -> & Hin)%list_elem_of_fmap. pose proof (Hz u Hin) as Hzu.
  apply list_elem_of_fmap in Hin as ([u' cl] & -> & Hin). apply list_elem_of_fmap in Hin as (c & [= -> ->] & Hin).
  destruct (Hup c Hin) as (Hp & Ha & Hne). unfold plain_zone in Hzu. cbn [fst] in *.
  rewrite classify_addr in * by done. apply AddrPort_String_ascii; cbn; done || lia.
Qed.

(** C15: the metrics page of a running program tells what happened.  After any
    sequence of calls that record something, from the engine's callback
    ([on_result_records]), the forwarder or the handlers, the page is printed
    whatever order its maps are visited in and reads as samples of pairwise
    distinct series; they give the number of calls of each kind modulo 2^64:
    every plain counter and policy, the requests in flight, and for each of
    the engine's upstreams, under its address, exactly the result states and
    failure categories recorded for it. *)
Theorem started_page `{GoQuote} fl p order cs t :
  main fl = Started p -> (forall i g, order i g ≡ₚ map_to_list g) ->
  Forall plain_zone (e_upstreams (run_engine (pg_run p))) -> Forall names_ascii cs ->
  exists text ss, Write order (records (pg_metrics p) cs) t = Some text /\
    scrape text = Some ss /\ NoDup ss.*1 /\
    (forall k, (counter_series k, uint64 (Z.of_nat (count (Bump k) cs))) ∈ ss) /\
    (forall name, name ∈ policy_names ->
       (policy_series name, uint64 (Z.of_nat (count (Policy name) cs))) ∈ ss) /\
    ((inflight_gauge, []), int64 (inflight cs)) ∈ ss /\
    forall i u s n, e_upstreams (run_engine (pg_run p)) !! i = Some u ->
      ((result_series (AddrPort_String (u_addr u)) s, n) ∈ ss <->
         counted (count (UpstreamResult (Z.of_nat i) s) cs) = Some n) /\
      ((failure_series (AddrPort_String (u_addr u)) s, n) ∈ ss <->
         counted (count (UpstreamFailure (Z.of_nat i) s) cs) = Some n).
Proof.
  intros Hm Ho Hz Hcs. pose proof (labels_ascii _ _ Hm Hz) as Ha.
  destruct (started _ _ Hm) as (cfg & assets & _ & _ & _ & Hp & _).
  pose proof (po_labels _ _ Hp) as Hd. rewrite (po_metrics _ _ Hp) in *.
  rewrite (cn_labels _ _ _ _ (New_counts _ now)) in Hd.
  destruct (page_reads order _ now cs t Ho Ha Hd Hcs) as (text & ss & Hw & Hs & Hn & Hk & Hpol & Hi & Hu).
  exists text, ss. split_and!; try done. intros i u s n Hiu. apply Hu. by rewrite list_lookup_fmap, Hiu.
Qed.

(** A start survives its janitor exactly when the sweep interval is
    positive: otherwise [time.NewTicker] panics in the janitor's goroutine and
    the process ends, although the configuration was accepted; with a positive
    interval every tick sweeps until the context is done. *)
Theorem janitor_survives fl p evs :
  main fl = Started p ->
  janitor p evs = (if 0 <? pg_sweep p then Some (janitor_loop (run_cache (pg_run p)) evs) else None) /\
  exists cfg, loadConfig stat_ok (Config.Load decode_file) (fl_config fl) = Some (Ok cfg) /\
    pg_sweep p = SweepInterval cfg.
Proof.
  intros Hm. destruct (started _ _ Hm) as (cfg & assets & Hl & _ & _ & _ & _ & Hs).
  split; [done|]. by exists cfg.
Qed.
End Start.

(** ** Examples *)

(** One configuration file, at the path given, with a sweep interval as
    given. *)
Definition start_raw (sweep : string) : raw :=
  mkRaw "" 0 None None "" 0 [mkRawUpstream "1.0.3.7" 5353 ""; mkRawUpstream "2001:4860::8888" 0 "foreign"]
    (mkRawChina ["cn4.txt"; "cn6.txt"] "") (mkRawResolve "" "" 0 0 "" "" "" "")
    (mkRawCache None 0 sweep) (mkRawForward "") (mkRawLog "" "") (mkRawMetrics "").
Definition start_file (path : string) : option raw :=
  if String.eqb path "a.toml" then Some (start_raw "")
  else if String.eqb path "b.toml" then Some (start_raw "0s") else None.
Definition start_main : Flags -> ending :=
  @main ascii_tables sample_fs (fun _ => false) start_file (fun _ => 0) 0 "dev".

Definition start_upstreams (e : ending) : list string :=
  match e with
  | Started p => (fun u => AddrPort_String (u_addr u)) <$> e_upstreams (run_engine (pg_run p))
  | _ => []
  end.
Definition start_sweep (e : ending) : option Z :=
  match e with Started p => Some (pg_sweep p) | _ => None end.

Example check_prints :
  match start_main (mkFlags "a.toml" true false) with
  | Printed text => hd "" (split_newlines text)
  | _ => ""
  end = "config ok: listening on 127.0.0.1:8053 (udp=true tcp=true)".
Proof. vm_compute. reflexivity. Qed.

(** An accepted configuration that ends the process after its start. *)
Example zero_sweep_accepted :
  start_sweep (start_main (mkFlags "b.toml" false false)) = Some 0.
Proof. vm_compute. reflexivity. Qed.

Definition a_flags : Flags := mkFlags "a.toml" false false.
Definition b_flags : Flags := mkFlags "b.toml" false false.
Definition a_labels : list string := ["1.0.3.7:5353"; "[2001:4860::8888]:53"].

Lemma start_consistent_witness : exists p cfg,
  start_main a_flags = Started p /\
  NoDup (um_addr <$> mt_upstreams (pg_metrics p)) /\ s_cfg (pg_server p) = cfg /\
  start_upstreams (Started p) = a_labels.
Proof.
  assert (start_upstreams (start_main a_flags) = a_labels) as Hl by (vm_compute; reflexivity).
  destruct (start_main a_flags) as [?|?| |p] eqn:E; try discriminate Hl.
  destruct (@start_consistent ascii_tables sample_fs (fun _ => false) start_file (fun _ => 0) 0 "dev"
    a_flags p E) as (cfg & assets & _ & _ & _ & Hp).
  exists p, cfg. split; [reflexivity|]. split; [exact (po_labels _ _ _ _ Hp)|].
  split; [exact (proj1 (po_config _ _ _ _ Hp))|exact Hl].
Defined.

Definition plain_zones (e : ending) : bool :=
  match e with
  | Started p => forallb (fun u => is_ascii (Zone (ap_addr (u_addr u)))) (e_upstreams (run_engine (pg_run p)))
  | _ => false
  end.
Definition first_label (e : ending) : option (option string) :=
  match e with
  | Started p => Some ((fun u => AddrPort_String (u_addr u)) <$> e_upstreams (run_engine (pg_run p)) !! 1%nat)
  | _ => None
  end.

Lemma started_page_witness : exists p text ss, start_main a_flags = Started p /\
  Write (H := plain_quotes) (fun _ => map_to_list) (records (pg_metrics p) sample_records) Second = Some text /\
  scrape text = Some ss /\ (result_series "[2001:4860::8888]:53" "answer", 2) ∈ ss.
Proof.
  assert (plain_zones (start_main a_flags) = true) as Hz by (vm_compute; reflexivity).
  assert (first_label (start_main a_flags) = Some (Some "[2001:4860::8888]:53")) as Hf by (vm_compute; reflexivity).
  destruct (start_main a_flags) as [?|?| |p] eqn:E; try discriminate Hz.
  cbn [plain_zones first_label] in Hz, Hf. injection Hf as Hf.
  destruct (e_upstreams (run_engine (pg_run p)) !! 1%nat) as [u|] eqn:Eu; [|discriminate Hf].
  injection Hf as Hf.
  destruct (@started_page ascii_tables sample_fs (fun _ => false) start_file (fun _ => 0) 0 "dev" plain_quotes
    a_flags p (fun _ => map_to_list) sample_records Second E) as (text & ss & Hw & Hs & _ & _ & _ & _ & Hu).
  - reflexivity.
  - apply Forall_forall. intros v Hv. apply (proj1 (forallb_forall _ _) Hz). by apply list_elem_of_In.
  - repeat constructor.
  - exists p, text, ss. split; [reflexivity|]. split; [exact Hw|]. split; [exact Hs|].
    rewrite <-Hf. apply (Hu 1%nat u "answer" 2 Eu). vm_compute. reflexivity.
Defined.

(** With [sweep_interval = "0s"] the check passes and the start fails. *)
Lemma janitor_survives_witness : exists p,
  start_main b_flags = Started p /\ forall evs, janitor p evs = None.
Proof.
  assert (start_sweep (start_main b_flags) = Some 0) as Hs by exact zero_sweep_accepted.
  destruct (start_main b_flags) as [?|?| |p] eqn:E; try discriminate Hs. injection Hs as Hs.
  exists p. split; [reflexivity|]. intros evs.
  destruct (@janitor_survives ascii_tables sample_fs (fun _ => false) start_file (fun _ => 0) 0 "dev"
    b_flags p evs E) as [Hj _]. by rewrite Hj, Hs.
Defined.
