(* ===== verification/System.v ===== *)
(** * System: from the query to the reply

    The resolution service as an implementation of the interface the server
    is written against, and what a client is told about an address: the whole
    path from the request through the lookup, the engine and the policy to
    the records of the reply. *)

From S2P Require Import Prelude Netip GoText Intervals China Overrides Dns Policy Upstream ChaseProps Engine EngineProps Family Cache CacheProps Flight Resolve Callers Metrics Server ServerProps.

(** A world that also holds the cache. *)
#[export] Instance with_cache_world {W} `{World W} : World (W * Cache) := {|
  ctx_Err '(w, c) := let '(e, w) := ctx_Err w in (e, (w, c));
  ctx_remaining '(w, c) := let '(d, w) := ctx_remaining w in (d, (w, c));
  dns_Id '(w, c) := let '(i, w) := dns_Id w in (i, (w, c));
  others_write t own '(w, c) := let '(b, w) := others_write t own w in (b, (w, c));
  dns_Exchange cl q addr '(w, c) := let '(r, w) := dns_Exchange cl q addr w in (r, (w, c));
|}.

Section System.
Context `{GoUnicode} `{DnsLib} {W : Type} `{World W}.

(** [Service.Lookup] over the engine's runs: [run qname qtype w] is the
    engine's result in the world [w].  (A store that fails does not happen on
    a well-formed cache; it is reported as an error.) *)
Definition service_lookup (sv : Service) (run : string -> Z -> W -> EngineResult * W)
    : LookupService (W * Cache) := {|
  svc_Lookup qname qtype '(w, c) :=
    let key := key_of qname qtype in
    let cached := if sv_cacheOn sv then lookup_cached c key else (None, c) in
    match cached with
    | (Some v, c) => (Ok v, (w, c))
    | (None, c) =>
        let '(res, w) := run qname qtype w in
        if negb (sv_cacheOn sv) then (Ok (resolve sv res).1, (w, c))
        else match Do_alone c key (resolve sv res) with
             | Some (v, c) => (Ok v, (w, c))
             | None => (Err Canceled, (w, c))
             end
    end;
|}.

(** It is [Lookup] of the service, run on the engine's result. *)
Lemma service_lookup_Lookup sv run qname qtype w c v c' :
  Lookup sv c qname qtype (run qname qtype w).1 = Some (v, c') ->
  exists w', svc_Lookup (LookupService := service_lookup sv run) qname qtype (w, c) =
    (Ok v, (w', c')).
Proof.
  unfold Lookup. cbn. destruct (run qname qtype w) as [res w']. cbn [fst].
  destruct (sv_cacheOn sv); cbn [negb].
  - destruct (lookup_cached _ _) as [[v1|] c1]; [intros [= <- <-]; by eauto|].
    intros ->. eauto.
  - intros [= <- <-]. eauto.
Qed.

Lemma address_query_type req q :
  address_query req q = true -> q_qtype q = TypeA \/ q_qtype q = TypeAAAA.
Proof.
  unfold address_query. intros Hq. destruct (Z.eqb_spec (q_qtype q) TypeA); [by left|].
  destruct (Z.eqb_spec (q_qtype q) TypeAAAA); [by right|]. cbn in Hq.
  by rewrite !orb_true_r in Hq.
Qed.

(** The split horizon, end to end.  An address query that the cache does
    not answer gets, in the reply, exactly the addresses the engine chose, in
    order and with the TTL computed for them; and, for a list of well-formed
    prefixes none of which ends at an IPv4-mapped address, the policy tells on
    which side all of them are: each address lies in one of the prefixes the
    index was built from under the two China policies, and none does under
    the others. *)
Theorem split_horizon_reply `{!DnsLaws} cfg sv run e evs calls ps req q ups w w' c m res :
  address_query req q = true -> m_question req = [q] ->
  match IsEdns0 req with Some opt => OPT_Version opt = 0 | None => True end ->
  as_china (e_assets e) = Build ps ->
  Forall Prefix_ok ps -> Forall (fun p => tail_unmapped p = true) ps ->
  sv_cacheOn sv = false ->
  run (q_name q) (q_qtype q) w = (res, w') ->
  Resolve e (q_name q) evs = Some (res, calls) ->
  (forall o, EvOutcome o ∈ evs -> from_wire e (q_name q) (q_qtype q) o) -> er_addrs res <> [] ->
  exists resp m' ttl,
    handleRequest (H2 := service_lookup sv run) cfg req ups (w, c) m = (resp, ups, (w', c), m') /\
    m_id resp = m_id req /\ m_rcode resp = RcodeSuccess /\
    records (q_qtype q) (m_answer resp) = (fun a => (a, ttl)) <$> er_addrs res /\
    forall a, a ∈ er_addrs res ->
      existsb (fun p => Prefix_Contains p (Unmap a)) ps = china_policy (er_policy res).
Proof.
  intros Hq Hqs Hv HB Hok Ht Hoff Hrun Hres Hwire Hne.
  pose proof (Resolve_family _ _ _ _ _ _ Hwire Hres) as Hfor.
  pose proof (address_query_type req q Hq) as Htype.
  set (v := (resolve sv res).1). destruct (resolve_value sv res) as (_ & Hva & _). fold v in Hva.
  set (LS := service_lookup sv run).
  destruct (answers_address_query cfg req q [] ups (w, c) m v (w', c))
    as (resp & m' & Hh & (Hid & _) & Hans & _); try done.
  { cbn. rewrite Hoff, Hrun. done. }
  unfold answer_of, answer_class in Hans. rewrite Hva in Hans.
  replace (nonempty (er_addrs res)) with true in Hans by (by destruct (er_addrs res)).
  destruct Hans as (Hrc & Ha & _). exists resp, m', (v_ttl v). split_and!; try done.
  - rewrite Ha. by apply records_address_records.
  - intros a Hin. rewrite Forall_forall in Hfor. apply Hfor in Hin as Ha'.
    apply addr_for_ok in Ha' as [Hok' Hz]. by eapply (one_side e (q_name q) evs res calls ps a).
Qed.

(** ** With the cache and other callers *)

(** The engines of a server's life: a reload replaces the assets, so there is
    one for every set of assets that was in use.  A run of one of them on
    outcomes of its upstreams. *)
Definition engine_ran (engines : Engine -> Prop) (qname : string) (qtype : Z) (res : EngineResult)
    : Prop :=
  exists e evs calls, engines e /\
    (forall o, EvOutcome o ∈ evs -> from_wire e qname qtype o) /\
    Resolve e qname evs = Some (res, calls).

(** The override list means the same for names with one key, the root
    apart. *)
Lemma same_key_Match ov q q' qtype :
  key_of q qtype = key_of q' qtype -> Overrides.normalize q <> "" -> Overrides.normalize q <> "." ->
  Match ov q = Match ov q'.
Proof.
  unfold key_of. intros Hk Hq1 Hq2. assert (normalizeName q = normalizeName q') as Hn by congruence.
  rewrite !normalizeName_eq in Hn. unfold Match.
  destruct (String.eqb_spec (Overrides.normalize q) "") as [|_]; [done|].
  destruct (String.eqb_spec (Overrides.normalize q') "") as [|_]; [congruence|]. by rewrite Hn.
Qed.

Lemma select_policy_Match assets qname results :
  (s_policy (select assets qname results) = PolicyOverride -> Match (as_overrides assets) qname = true) /\
  (s_policy (select assets qname results) = PolicyPreferChina -> Match (as_overrides assets) qname = false).
Proof.
  unfold select. destruct (Select_ok (Contains (as_china assets)) (Match (as_overrides assets)) qname results)
    as (chosen & Hr & _). inversion Hr; by split.
Qed.

(** The policy of a resolution that has addresses. *)
Lemma Resolve_policy e qname evs res calls :
  Resolve e qname evs = Some (res, calls) -> er_addrs res <> [] ->
  (er_policy res = PolicyOverride -> Match (as_overrides (e_assets e)) qname = true) /\
  (er_policy res = PolicyPreferChina -> Match (as_overrides (e_assets e)) qname = false).
Proof.
  intros Hr Hne. apply receive_run in Hr as (os & rest & c & -> & _ & -> & _); [|done|lia].
  cbn [app] in *. destruct (has_answer (o_result <$> os)) eqn:E.
  - destruct (finalize_answer (e_assets e) qname _ (report_of <$> os) c E) as (-> & _).
    apply select_policy_Match.
  - destruct (finalize_none (e_assets e) qname _ (report_of <$> os) c E) as (_ & Hn & _). done.
Qed.

(** The policy is one of those the metrics count. *)
Lemma Resolve_policy_name e qname evs res calls :
  Resolve e qname evs = Some (res, calls) -> er_addrs res <> [] -> er_policy res ∈ policy_names.
Proof.
  intros Hr Hne. apply receive_run in Hr as (os & rest & c & -> & _ & -> & _); [|done|lia].
  cbn [app] in *. destruct (has_answer (o_result <$> os)) eqn:E.
  - destruct (finalize_answer (e_assets e) qname _ (report_of <$> os) c E) as (-> & _). unfold select.
    destruct (Select_ok (Contains (as_china (e_assets e))) (Match (as_overrides (e_assets e))) qname (o_result <$> os))
      as (chosen & Hrule & _). inversion Hrule; unfold policy_names; set_solver.
  - destruct (finalize_none (e_assets e) qname _ (report_of <$> os) c E) as (_ & Hn & _). done.
Qed.

Lemma served_policy_name engines sv max clock s i qname qtype v :
  0 <= max -> monotone clock -> steps sv (engine_ran engines) (start (Cache.New max clock)) s ->
  asked s i = Some (qname, qtype) -> Lookup_result s i = Some (Ok v) -> v_addrs v <> [] ->
  v_policy v ∈ policy_names.
Proof.
  intros Hm Hmono Hs Hask Hres Hne.
  destruct (provenance sv (engine_ran engines) max clock s i _ _ v Hm Hmono Hs Hask Hres)
    as (q' & res & _ & (e & evs & calls & _ & _ & Hr) & Hprov).
  destruct (resolve_value sv res) as (_ & Ha & _ & Hp).
  assert (same_content v (resolve sv res).1) as (_ & Ea & _ & Ep) by (by destruct Hprov as [->|(_ & ? & _)]).
  rewrite Ep, Hp. rewrite Ea, Ha in Hne. by eapply Resolve_policy_name.
Qed.

(** What the addresses of a value say about the prefixes and overrides of the
    engine that found them. *)
Definition split_horizon (e : Engine) (qname : string) (qtype : Z) (v : Value) : Prop :=
  Forall (addr_for qtype) (v_addrs v) /\
  (forall ps, as_china (e_assets e) = Build ps -> Forall Prefix_ok ps ->
    Forall (fun p => tail_unmapped p = true) ps -> forall a, a ∈ v_addrs v ->
    existsb (fun p => Prefix_Contains p (Unmap a)) ps = china_policy (v_policy v)) /\
  (Overrides.normalize qname <> "" -> Overrides.normalize qname <> "." ->
    (v_policy v = PolicyOverride -> Match (as_overrides (e_assets e)) qname = true) /\
    (v_policy v = PolicyPreferChina -> Match (as_overrides (e_assets e)) qname = false)).

Lemma ran_split_horizon engines sv qname qname' qtype res v :
  engine_ran engines qname' qtype res -> key_of qname' qtype = key_of qname qtype ->
  same_content v (resolve sv res).1 -> v_addrs v <> [] ->
  exists e evs calls, engines e /\ Resolve e qname' evs = Some (res, calls) /\
    v_addrs v = er_addrs res /\ v_policy v = er_policy res /\ split_horizon e qname qtype v.
Proof.
  intros (e & evs & calls & He & Hw & Hr) Hk (_ & Ha & _ & Hp) Hne.
  destruct (resolve_value sv res) as (_ & Ha' & _ & Hp'). rewrite Ha' in Ha. rewrite Hp' in Hp.
  exists e, evs, calls. split_and!; try done. pose proof (Resolve_family _ _ _ _ _ _ Hw Hr) as Hf.
  unfold split_horizon. rewrite Ha, Hp in *. split_and!; [done| |].
  - intros ps HB Hok Ht a Hin. rewrite Forall_forall in Hf.
    destruct (addr_for_ok _ _ (Hf a Hin)). by eapply (one_side e qname' evs res calls ps a).
  - intros Hq1 Hq2. rewrite (same_key_Match _ qname qname' qtype) by done.
    by apply (Resolve_policy _ _ _ _ _ Hr).
Qed.

(** C1: the split horizon, end to end, with the cache and any number of
    concurrent callers.  Whatever the value a lookup returned, its own
    engine run's, another caller's, or one from the cache, the reply to the
    address query has exactly its addresses with its TTL; they are the
    addresses some resolution for the same name chose, of the family asked
    for; and the policy tells on which side of the prefix list of that
    resolution all of them are, if the list's prefixes are well formed and
    none of them ends at an IPv4-mapped address ([China.mapped_tail_lost] says
    what becomes of one that does), and whether the override list applied, if
    the name is not the root. *)
Theorem served_split_horizon `{!DnsLaws} `{!LookupService W} engines cfg sv max clock s i req q ups w w' m v :
  0 <= max -> monotone clock ->
  steps sv (engine_ran engines) (start (Cache.New max clock)) s ->
  asked s i = Some (q_name q, q_qtype q) -> Lookup_result s i = Some (Ok v) ->
  svc_Lookup (q_name q) (q_qtype q) w = (Ok v, w') ->
  address_query req q = true -> m_question req = [q] ->
  match IsEdns0 req with Some opt => OPT_Version opt = 0 | None => True end ->
  v_addrs v <> [] ->
  exists resp m', handleRequest cfg req ups w m = (resp, ups, w', m') /\
    m_id resp = m_id req /\ m_rcode resp = RcodeSuccess /\
    records (q_qtype q) (m_answer resp) = (fun a => (a, v_ttl v)) <$> v_addrs v /\
    exists e qname' evs res calls, engines e /\ key_of qname' (q_qtype q) = key_of (q_name q) (q_qtype q) /\
      Resolve e qname' evs = Some (res, calls) /\
      v_addrs v = er_addrs res /\ v_policy v = er_policy res /\
      split_horizon e (q_name q) (q_qtype q) v.
Proof.
  intros Hm Hmono Hs Hask Hres Hl Hq Hqs Hv Hne.
  destruct (provenance sv (engine_ran engines) max clock s i _ _ v Hm Hmono Hs Hask Hres)
    as (q' & res & Hk & Hran & Hprov).
  assert (same_content v (resolve sv res).1) as Hc by (by destruct Hprov as [->|(_ & ? & _)]).
  destruct (ran_split_horizon engines sv _ q' _ res v Hran Hk Hc Hne)
    as (e & evs & calls & He & Hr & Ha & Hp & Hsh).
  destruct (answers_address_query cfg req q [] ups w m v w')
    as (resp & m' & Hh & (Hid & _) & Hans & _); try done.
  unfold answer_of, answer_class in Hans.
  replace (nonempty (v_addrs v)) with true in Hans by (by destruct (v_addrs v)).
  destruct Hans as (Hrc & Hans & _). exists resp, m'. split_and!; try done.
  - rewrite Hans. apply records_address_records; [by apply (address_query_type req)|apply Hsh].
  - exists e, q', evs, res, calls. by split_and!.
Qed.
End System.

(** ** Example *)

Definition uncached : Service := mkService false 30 3600 60 600.

Lemma split_horizon_reply_witness :
  exists resp m' ttl,
    @handleRequest sample_dns (unit * Cache) (@with_cache_world unit (fixed_world no_answers))
      (@service_lookup ascii_tables unit uncached (fun _ _ w => (sample_resolution, w)))
      sample_cfg sample_request sample_ups ((), empty_cache) (Metrics.New [] 0) =
      (resp, sample_ups, ((), empty_cache), m') /\
    records TypeA (m_answer resp) = [(Addr4 china_ip, ttl)].
Proof.
  destruct (@split_horizon_reply ascii_tables sample_dns unit (fixed_world no_answers) sample_dns_laws
    sample_cfg uncached (fun _ _ w => (sample_resolution, w)) sample_engine
    (EvOutcome <$> sample_outcomes) sample_calls sample_prefixes sample_request sample_question
    sample_ups () () empty_cache (Metrics.New [] 0) sample_resolution)
    as (resp & m' & ttl & Hh & _ & _ & Hr & _).
  - reflexivity.
  - reflexivity.
  - reflexivity.
  - reflexivity.
  - unfold sample_prefixes. solve_concrete.
  - unfold sample_prefixes. solve_concrete.
  - reflexivity.
  - reflexivity.
  - exact sample_run.
  - exact sample_from_wire.
  - vm_compute. discriminate.
  - exists resp, m', ttl. split; [exact Hh|]. exact Hr.
Defined.

(** Caller 0 resolves the name and caller 1 finds its answer in the cache. *)
Definition sample_engines (e : Engine) : Prop := e = sample_engine.
Definition horizon_missed : Callers :=
  @Lookup_begin ascii_tables sample_service sample_start 0 "host." TypeA.
Definition horizon_entered : Callers := default horizon_missed (@Lookup_enter ascii_tables horizon_missed 0).
Definition horizon_resolved : Callers :=
  default horizon_entered (Lookup_resolved sample_service horizon_entered 0 sample_resolution).
Definition horizon_answered : Callers :=
  default horizon_resolved (within horizon_resolved (Do_close (cs_sys horizon_resolved) 0)).
Definition horizon_hit : Callers :=
  @Lookup_begin ascii_tables sample_service horizon_answered 1 (q_name sample_question) TypeA.

Lemma horizon_reachable :
  @steps ascii_tables sample_service (@engine_ran ascii_tables sample_dns sample_engines) sample_start horizon_hit.
Proof.
  eapply rtc_l; [apply step_advance, advance_move, (move_begin _ sample_start 0 "host." TypeA); reflexivity|].
  eapply rtc_l; [apply step_advance, advance_move, (move_enter _ horizon_missed 0 horizon_entered); vm_compute; reflexivity|].
  eapply rtc_l; [apply step_advance, (advance_resolved _ _ horizon_entered 0 "host." TypeA sample_resolution horizon_resolved)|].
  - vm_compute. reflexivity.
  - exists sample_engine, (EvOutcome <$> sample_outcomes), sample_calls.
    split; [reflexivity|]. split; [exact sample_from_wire|exact sample_run].
  - vm_compute. reflexivity.
  - eapply rtc_l; [apply step_advance, advance_move, (move_close _ horizon_resolved 0 horizon_answered); vm_compute; reflexivity|].
    apply rtc_once, step_advance, advance_move, (move_begin _ horizon_answered 1 (q_name sample_question) TypeA). vm_compute. reflexivity.
Qed.

(** The service as caller 1 sees it. *)
Definition hit_value : Value :=
  match Lookup_result horizon_hit 1 with Some (Ok v) => v | _ => zero_Value end.
Definition hit_service : LookupService unit := {| svc_Lookup _ _ w := (Ok hit_value, w) |}.

Lemma served_split_horizon_witness :
  exists resp m',
    @handleRequest sample_dns unit (fixed_world no_answers) hit_service
      sample_cfg sample_request sample_ups () (Metrics.New [] 0) = (resp, sample_ups, (), m') /\
    records TypeA (m_answer resp) = [(Addr4 china_ip, 60)].
Proof.
  destruct (@served_split_horizon ascii_tables sample_dns unit (fixed_world no_answers) sample_dns_laws
    hit_service sample_engines sample_cfg sample_service 4 half_seconds horizon_hit 1 sample_request
    sample_question sample_ups () () (Metrics.New [] 0) hit_value)
    as (resp & m' & Hh & _ & _ & Hr & _).
  - lia.
  - exact half_seconds_monotone.
  - exact horizon_reachable.
  - vm_compute. reflexivity.
  - vm_compute. reflexivity.
  - reflexivity.
  - reflexivity.
  - reflexivity.
  - reflexivity.
  - vm_compute. discriminate.
  - exists resp, m'. split; [exact Hh|]. etransitivity; [exact Hr|]. vm_compute. reflexivity.
Defined.
