(* ===== verification/Live.v ===== *)
(** * Live: reloads while lookups run

    The running program: any number of callers in [Service.Lookup], each run
    of the engine with the assets it loaded when it began, and the goroutine
    of [handleReloads] ([cmd/chn-resolver/main.go]), which swaps new assets in
    and then flushes the cache.  The swap, the flush, the load of the assets
    and the end of a run are separate steps, so they interleave with each
    other and with the callers of [Callers].  A run sees its context end only
    after it has ended. *)

From S2P Require Import Prelude Netip GoText Intervals China Loader Overrides Dns Policy Upstream Engine EngineProps Family Cache CacheProps Flight Resolve Callers Config Main System.

(** Where the goroutine of [handleReloads] is: at the head of its loop, or
    between the swap and the flush. *)
Inductive reloader := Ranging | Swapped.

(** [lv_loaded] is the local [assets] of each run of [Resolve]. *)
Record Live := mkLive {
  lv_callers : Callers;
  lv_engine : Engine;
  lv_loaded : gmap nat Assets;
  lv_reloader : reloader;
}.

Definition boot (c : Cache) (e : Engine) : Live := mkLive (Callers.start c) e ∅ Ranging.

(** The caller is inside [Engine.Resolve]: it leads a flight, or runs the
    engine without a cache. *)
Definition running (s : Callers) (i : nat) : bool :=
  match cs_calls s !! i with
  | Some (Direct _ _) => true
  | Some (Entered _ _) =>
      match s_callers (cs_sys s) !! i with Some (Leading _ _) => true | _ => false end
  | _ => false
  end.

Section Live.
Context `{GoUnicode} `{DnsLib} (sv : Service) (cfg : Config).

(** ** The steps *)

Definition with_callers (s : Live) (c : Callers) : Live :=
  mkLive c (lv_engine s) (lv_loaded s) (lv_reloader s).

(** [assets := e.assets.Load()], the first statement of [Resolve]. *)
Definition Resolve_load (s : Live) (i : nat) : option Live :=
  if running (lv_callers s) i then
    match lv_loaded s !! i with
    | None => Some (mkLive (lv_callers s) (lv_engine s)
                (<[i := e_assets (lv_engine s)]> (lv_loaded s)) (lv_reloader s))
    | Some _ => None
    end
  else None.

(** The rest of [Resolve], on the events its [select] saw, and what the
    service does with the result. *)
Definition Resolve_rest (s : Live) (i : nat) (evs : list event) : option Live :=
  match asked (lv_callers s) i, lv_loaded s !! i with
  | Some (qname, _), Some assets =>
      match Engine.Resolve (UpdateAssets (lv_engine s) assets) qname evs with
      | Some (res, _) =>
          match Lookup_resolved sv (lv_callers s) i res with
          | Some c => Some (with_callers s c)
          | None => None
          end
      | None => None
      end
  | _, _ => None
  end.

(** A signal, up to the swap; a failure leaves everything as it was. *)
Definition reload_swap (s : Live) (fs : FileSystem) : option Live :=
  match lv_reloader s with
  | Swapped => None
  | Ranging =>
      match loadAssets fs cfg with
      | Err _ => Some s
      | Ok assets =>
          Some (mkLive (lv_callers s) (UpdateAssets (lv_engine s) assets) (lv_loaded s) Swapped)
      end
  end.

Definition reload_flush (s : Live) : option Live :=
  match lv_reloader s with
  | Ranging => None
  | Swapped => Some (mkLive (flush (lv_callers s)) (lv_engine s) (lv_loaded s) Ranging)
  end.

(** The events of a run are outcomes of the engine's upstreams for the
    caller's question, and the end of the caller's context once it has
    ended. *)
Definition events_of (s : Live) (i : nat) (evs : list event) : Prop :=
  (forall qname qtype o, asked (lv_callers s) i = Some (qname, qtype) ->
    EvOutcome o ∈ evs -> from_wire (lv_engine s) qname qtype o) /\
  (EvDone ∈ evs -> is_Some (cs_ended (lv_callers s) !! i)).

(** A step, with the signals it takes. *)
Inductive live_step : Live -> list FileSystem -> Live -> Prop :=
| live_move s c : move sv (lv_callers s) c -> live_step s [] (with_callers s c)
| live_load s i s' : Resolve_load s i = Some s' -> live_step s [] s'
| live_rest s i evs s' : events_of s i evs -> Resolve_rest s i evs = Some s' -> live_step s [] s'
| live_swap s fs s' : reload_swap s fs = Some s' -> live_step s [fs] s'
| live_flush s s' : reload_flush s = Some s' -> live_step s [] s'.

(** A run, with the signals it takes in their order. *)
Inductive live_run (s : Live) : list FileSystem -> Live -> Prop :=
| run_none : live_run s [] s
| run_step hs s1 hs' s2 : live_run s hs s1 -> live_step s1 hs' s2 -> live_run s (hs ++ hs') s2.

Lemma run_silent s hs s1 s2 : live_run s hs s1 -> live_step s1 [] s2 -> live_run s hs s2.
Proof. intros Hr Hs. rewrite <-(app_nil_r hs). by eapply run_step. Qed.

(** ** The reload alone *)

(** With nothing in between, the two halves are [Main.reload]. *)
Lemma reload_halves s fs s1 :
  lv_reloader s = Ranging -> reload_swap s fs = Some s1 ->
  let s2 := default s1 (reload_flush s1) in
  mkRunning (lv_engine s2) (s_cache (cs_sys (lv_callers s2))) =
  reload cfg (mkRunning (lv_engine s) (s_cache (cs_sys (lv_callers s)))) fs /\ lv_reloader s2 = Ranging.
Proof.
  unfold reload_swap, reload, reload_flush. intros Hr. rewrite Hr.
  destruct (loadAssets fs cfg) as [a|e]; intros [= <-]; [done|]. cbn. by rewrite Hr.
Qed.

(** The engine of a run has the assets of the last signal that loaded. *)
Lemma live_run_engine s hs s' :
  live_run s hs s' ->
  lv_engine s' = UpdateAssets (lv_engine s) (last_good cfg (e_assets (lv_engine s)) hs).
Proof.
  assert (forall a l l', last_good cfg a (l ++ l') = last_good cfg (last_good cfg a l) l') as Happ.
  { intros a l. revert a. induction l as [|fs l IH]; intros a l'; [done|]. apply IH. }
  induction 1 as [|hs s1 hs' s2 _ IH Hstep]; [by destruct (lv_engine s)|].
  rewrite Happ. destruct Hstep as [s1 c|s1 i s2 E|s1 i evs s2 _ E|s1 fs s2 E|s1 s2 E]; cbn.
  - exact IH.
  - unfold Resolve_load in E. repeat split_match_in E; simplify_eq. exact IH.
  - unfold Resolve_rest in E. repeat split_match_in E; simplify_eq. exact IH.
  - unfold reload_swap in E. destruct (lv_reloader s1); [|done]. rewrite IH in *.
    destruct (loadAssets fs cfg) as [a|e]; by injection E as <-.
  - unfold reload_flush in E. destruct (lv_reloader s1); [done|]. injection E as <-. exact IH.
Qed.

(** ** The runs of the engine *)

(** A run of [Resolve] that has loaded its assets has begun. *)
Definition begun (s : Callers) (i : nat) : Prop :=
  match cs_calls s !! i with
  | Some (Direct _ _) | Some (Entered _ _) | Some (Answered _ _ _) => True
  | _ => False
  end.

Lemma running_begun s i : running s i = true -> begun s i.
Proof. unfold running, begun. by destruct (cs_calls s !! i) as [[| | |]|]. Qed.

Lemma move_begun s s' i : move sv s s' -> begun s i -> begun s' i.
Proof.
  unfold begun. destruct 1 as [s j q t Hj|s j s' E|s j s' E|s j s' E|s j e s' He E|s j e He|s]; intros Hi; try exact Hi.
  - assert (i <> j) as Hne by (intros ->; by rewrite Hj in Hi).
    unfold Lookup_begin. destruct (negb _); [cbn; by rewrite lookup_insert_ne|].
    destruct (lookup_cached _ _) as [[v|] c]; cbn; by rewrite lookup_insert_ne.
  - unfold Lookup_enter in E. destruct (cs_calls s !! j) as [[q t| | |]|] eqn:Hj; try done.
    injection E as <-. cbn. destruct (decide (j = i)) as [->|Hne]; [by rewrite lookup_insert_eq|].
    by rewrite lookup_insert_ne.
  - unfold within in E. by destruct (Do_close _ _); simplify_eq.
  - unfold within in E. by destruct (Do_wake _ _); simplify_eq.
  - unfold within in E. by destruct (Do_cancel _ _ _); simplify_eq.
Qed.

Lemma resolved_begun s j res s' i : Lookup_resolved sv s j res = Some s' -> begun s i -> begun s' i.
Proof.
  unfold Lookup_resolved, begun. destruct (cs_calls s !! j) as [[| |q t|]|] eqn:Hj; try done.
  - by destruct (Do_finish _ _ _ _); intros [= <-].
  - intros [= <-]. cbn. destruct (decide (j = i)) as [->|Hne]; [by rewrite lookup_insert_eq|].
    by rewrite lookup_insert_ne.
Qed.

(** A caller that runs in the window ran in it before the step, or had not
    begun. *)
Lemma relevant_same w s s' i :
  cs_calls s' !! i = cs_calls s !! i -> s_callers (cs_sys s') !! i = s_callers (cs_sys s) !! i ->
  relevant w s' i -> relevant w s i.
Proof. unfold relevant. by intros -> ->. Qed.

Lemma within_relevant w s i j p sys' :
  s_callers sys' = <[j := p]> (s_callers (cs_sys s)) -> (forall k f, p <> Leading k f) ->
  relevant w (mkCallers sys' (cs_calls s) (cs_ended s)) i -> relevant w s i.
Proof.
  intros Hc Hp. destruct (decide (j = i)) as [->|Hne].
  - unfold relevant. cbn. rewrite Hc, lookup_insert_eq.
    destruct (cs_calls s !! i) as [[| | |]|]; try done. intros (f & [= E] & _). by apply Hp in E.
  - apply relevant_same; [done|]. cbn. by rewrite Hc, lookup_insert_ne.
Qed.

Lemma begin_relevant w s i j q t :
  cs_calls s !! j = None -> relevant w (Lookup_begin sv s j q t) i -> relevant w s i \/ ~ begun s i.
Proof.
  intros Hj Hr. destruct (decide (j = i)) as [->|Hne]; [right; unfold begun; rewrite Hj; by intros []|left].
  revert Hr. unfold Lookup_begin. destruct (negb _).
  { apply relevant_same; [by apply lookup_insert_ne|done]. }
  destruct (lookup_cached _ _) as [[v|] c].
  all: apply relevant_same; [by apply lookup_insert_ne|done].
Qed.

Lemma move_relevant w s s' i : move sv s s' -> relevant w s' i -> relevant w s i \/ ~ begun s i.
Proof.
  destruct 1 as [s j q t Hj|s j s' E|s j s' E|s j s' E|s j e s' He E|s j e He|s]; [by apply begin_relevant|..]; intros Hr.
  - unfold Lookup_enter in E. destruct (cs_calls s !! j) as [[q t| | |]|] eqn:Hj; try done.
    injection E as <-. destruct (decide (j = i)) as [->|Hne]; [right; unfold begun; rewrite Hj; by intros []|left].
    revert Hr. apply relevant_same; [by apply lookup_insert_ne|]. cbn. unfold Do_enter.
    destruct (s_flights _ !! _); by apply lookup_insert_ne.
  - unfold within, Do_close in E. repeat split_match_in E; simplify_eq. left. revert Hr. eapply within_relevant; [reflexivity|done].
  - unfold within, Do_wake in E. repeat split_match_in E; simplify_eq. left. revert Hr. eapply within_relevant; [reflexivity|done].
  - unfold within, Do_cancel in E. repeat split_match_in E; simplify_eq. left. revert Hr. eapply within_relevant; [reflexivity|done].
  - by left.
  - by left.
Qed.

Lemma resolved_relevant w s j res s' i :
  Lookup_resolved sv s j res = Some s' -> relevant w s' i -> relevant w s i.
Proof.
  unfold Lookup_resolved. destruct (cs_calls s !! j) as [[| |q t|]|] eqn:Hj; try done.
  - unfold Do_finish. destruct (s_callers (cs_sys s) !! j) as [[|k f| |]|]; try done.
    destruct (resolve sv res).2; [destruct (setLocked _ _ _) as [c|]; [|done]|];
      intros [= <-]; (eapply within_relevant; [reflexivity|done]).
  - intros [= <-]. destruct (decide (j = i)) as [->|Hne].
    + unfold relevant. cbn. by rewrite lookup_insert_eq.
    + apply relevant_same; [by apply lookup_insert_ne|done].
Qed.

(** ** The invariant from a flush on *)

(** The engines the program has had with some of the assets. *)
Definition engines_with (e : Engine) (good : Assets -> Prop) (e' : Engine) : Prop :=
  exists a, good a /\ e' = UpdateAssets e a.

Lemma from_wire_UpdateAssets e a q t o : from_wire (UpdateAssets e a) q t o <-> from_wire e q t o.
Proof. done. Qed.

Section Invariant.
Context (e : Engine) (good : Assets -> Prop) (w : window) (clock : nat -> Z).

Record live_ok (s : Live) : Prop := {
  lo_callers : callers_ok sv (engine_ran (engines_with e good)) w clock (lv_callers s);
  lo_engine : engines_with e good (lv_engine s);
  lo_begun : forall i a, lv_loaded s !! i = Some a -> begun (lv_callers s) i;
  lo_loaded : forall i a, lv_loaded s !! i = Some a -> relevant w (lv_callers s) i -> good a;
}.

Lemma rest_ok s i evs s' :
  live_ok s -> events_of s i evs -> Resolve_rest s i evs = Some s' -> live_ok s'.
Proof.
  intros Hs He. unfold Resolve_rest, events_of in *.
  destruct (asked (lv_callers s) i) as [[q t]|] eqn:Ha; [|done].
  destruct (lv_loaded s !! i) as [a|] eqn:Hl; [|done].
  destruct (Engine.Resolve _ _ _) as [[res calls]|] eqn:Er; [|done].
  destruct (Lookup_resolved _ _ _ _) as [c|] eqn:El; [|done]. intros [= <-].
  destruct (lo_engine s Hs) as (b & Hb & Ee). split; cbn.
  - eapply resolved_callers_ok; [apply Hs|exact Ha| |exact El]. intros Hrel.
    exists (UpdateAssets e a), evs, calls. split_and!.
    + exists a. split; [by eapply (lo_loaded s Hs)|done].
    + intros o Ho. destruct He as [He _]. specialize (He q t o eq_refl Ho). by rewrite Ee in He.
    + by rewrite Ee in Er.
  - by exists b.
  - intros j a' Hj. eapply resolved_begun; [done|]. by eapply (lo_begun s Hs).
  - intros j a' Hj Hrel. eapply (lo_loaded s Hs); [done|]. by eapply resolved_relevant.
Qed.

Lemma live_step_ok s hs s' :
  (forall fs a, fs ∈ hs -> loadAssets fs cfg = Ok a -> good a) ->
  live_step s hs s' -> live_ok s -> live_ok s'.
Proof.
  intros Hgood. destruct 1 as [s c Hm|s i s' E|s i evs s' He E|s fs s' E|s s' E]; intros Hs.
  - split; cbn; [by eapply move_callers_ok; [|apply Hs]|apply Hs|..].
    + intros i a Hi. eapply move_begun; [done|]. by eapply (lo_begun s Hs).
    + intros i a Hi Hr. eapply move_relevant in Hr as [Hr|Hr]; [..|done].
      * by eapply (lo_loaded s Hs).
      * by apply (lo_begun s Hs) in Hi.
  - unfold Resolve_load in E. destruct (running (lv_callers s) i) eqn:Hrun; [|done].
    destruct (lv_loaded s !! i); [done|]. injection E as <-. destruct (lo_engine s Hs) as (b & Hb & Ee).
    split; cbn; [apply Hs..| |].
    + intros j a [[<- <-]|[Hne Hj]]%lookup_insert_Some; [by apply running_begun|by eapply (lo_begun s Hs)].
    + intros j a [[<- <-]|[Hne Hj]]%lookup_insert_Some; [by rewrite Ee|by apply (lo_loaded s Hs)].
  - by eapply rest_ok.
  - unfold reload_swap in E. destruct (lv_reloader s); [|done].
    destruct (loadAssets fs cfg) as [a|?] eqn:Ea; injection E as <-; [|done].
    destruct (lo_engine s Hs) as (b & Hb & Ee). split; cbn; [apply Hs| |apply Hs..].
    exists a. rewrite Ee. split; [|done]. eapply Hgood; [by apply list_elem_of_singleton|done].
  - unfold reload_flush in E. destruct (lv_reloader s); [done|]. injection E as <-.
    split; cbn; [apply flush_callers_ok, Hs|apply Hs..|].
    intros i a Hi Hr. eapply (lo_loaded s Hs); [done|]. exact Hr.
Qed.

Lemma live_run_ok s hs s' :
  (forall fs a, fs ∈ hs -> loadAssets fs cfg = Ok a -> good a) ->
  live_run s hs s' -> live_ok s -> live_ok s'.
Proof.
  intros Hgood Hr. induction Hr as [|hs s1 hs' s2 Hr IH Hstep]; [done|]. intros Hs.
  eapply live_step_ok; [|done|].
  - intros fs a Hfs. apply Hgood. rewrite elem_of_app. by right.
  - apply IH; [|done]. intros fs a Hfs. apply Hgood. rewrite elem_of_app. by left.
Qed.
End Invariant.

(** What begins after [s], for one key. *)
Definition since (s : Callers) (key : Key) : window :=
  mkWindow (fun i => cs_calls s !! i = None) (fun k => k = key) (s_next (cs_sys s)).

Lemma old_flight sys i p k f :
  flights_ok sys -> s_callers sys !! i = Some p -> at_flight p k f -> (f < s_next sys)%nat.
Proof.
  intros Hs Hi Hp. destruct (flight_exists sys i p k f Hs Hi Hp) as [fl Hfl].
  destruct (decide (s_next sys <= f)%nat) as [Hle|]; [|lia]. by rewrite (fo_next _ Hs) in Hfl.
Qed.

Lemma old_return sys i f v :
  flights_ok sys -> s_callers sys !! i = Some (Returned f (Ok v)) -> (f < s_next sys)%nat.
Proof.
  intros Hs Hi. pose proof (fo_phase _ Hs i _ Hi) as Hfl. cbn in Hfl.
  destruct (decide (s_next sys <= f)%nat) as [Hle|]; [|lia]. by rewrite (fo_next _ Hs) in Hfl.
Qed.

(** The invariant holds afresh for a key that is neither cached nor being
    resolved, whatever the runs were before. *)
Lemma window_opens ran ran' clock s key :
  callers_ok sv ran everything clock s -> s_flights (cs_sys s) !! key = None ->
  (forall v, ~ held (s_cache (cs_sys s)) key v) -> callers_ok sv ran' (since s key) clock s.
Proof.
  intros Hs Hkey Hheld. pose proof (ca_sys _ _ _ clock s Hs) as Hsys.
  split; cbn; try apply Hs; [done|..].
  - intros k f Hf ->. congruence.
  - intros k v Hv ->. by apply Hheld in Hv.
  - intros i p Hi. destruct (ca_entered _ _ _ clock s Hs i p Hi) as (q & t & Hq & Hp & _).
    exists q, t. split_and!; [done| |intros Hmine; unfold since in Hmine; cbn in Hmine; congruence].
    destruct p as [k f|k f|k f v|f [v|?]]; try done.
    + destruct Hp as [-> _]. split; [done|]. intros [_ Hf]. cbn in Hf.
      pose proof (old_flight _ i _ (key_of q t) f Hsys Hi ltac:(done)). lia.
    + intros [_ Hf]. cbn in Hf. pose proof (old_return _ i f v Hsys Hi). lia.
  - intros f v i p k _ Hi Hp [_ Hf]. cbn in Hf. pose proof (old_flight _ i p k f Hsys Hi Hp). lia.
  - intros i q t v Hi Hmine. congruence.
Qed.

Lemma old_not_relevant ran clock s key i :
  callers_ok sv ran everything clock s -> begun s i -> ~ relevant (since s key) s i.
Proof.
  intros Hs Hb. unfold relevant, begun, since in *. cbn.
  destruct (cs_calls s !! i) as [[|q t|q t|]|] eqn:Hi; try by intros []; congruence.
  intros (f & Hf & _ & Hle). cbn in Hle.
  pose proof (old_flight _ i _ (key_of q t) f (ca_sys _ _ _ clock s Hs) Hf ltac:(done)). lia.
Qed.

(** ** From the start *)

Definition any_assets (a : Assets) : Prop := True.

Lemma reachable_live_ok max clock e hs s :
  0 <= max -> live_run (boot (Cache.New max clock) e) hs s -> live_ok e any_assets everything clock s.
Proof.
  intros Hm Hr. eapply live_run_ok; [|exact Hr|]; [done|]. split; cbn; try done.
  - by apply callers_start_ok.
  - exists (e_assets e). by destruct e.
Qed.

(** The assets of the signals up to a moment, or of one that came later. *)
Definition recent (before : Assets) (later : list FileSystem) (a : Assets) : Prop :=
  a = before \/ exists fs, fs ∈ later /\ loadAssets fs cfg = Ok a.

Lemma after_flush max clock e hs s0 s1 hs' s key :
  0 <= max -> live_run (boot (Cache.New max clock) e) hs s0 -> reload_flush s0 = Some s1 ->
  s_flights (cs_sys (lv_callers s1)) !! key = None -> live_run s1 hs' s ->
  live_ok e (recent (last_good cfg (e_assets e) hs) hs') (since (lv_callers s1) key) clock s.
Proof.
  intros Hm Hr Hf Hkey Hr'. pose proof (reachable_live_ok max clock e hs s0 Hm Hr) as Hs0.
  pose proof (live_run_engine _ _ _ Hr) as He. cbn in He.
  assert (live_ok e any_assets everything clock s1) as Hs1.
  { eapply (live_step_ok _ _ _ _ s0 [] s1); [by intros ? ? ?%elem_of_nil|by apply live_flush|done]. }
  unfold reload_flush in Hf. destruct (lv_reloader s0); [done|]. injection Hf as <-.
  eapply live_run_ok; [|exact Hr'|].
  { intros fs a Hfs Ha. right. by exists fs. }
  split; cbn in *.
  - eapply window_opens; [apply Hs1|done|]. intros v. apply Flush_held.
  - exists (last_good cfg (e_assets e) hs). split; [by left|done].
  - apply Hs1.
  - intros i a Hi Hrel. by apply (old_not_relevant _ clock _ key i (lo_callers _ _ _ _ _ Hs1)) in Hrel;
      [|by eapply (lo_begun _ _ _ _ _ Hs1)].
Qed.

(** ** Theorems *)

(** C14: a reload takes effect.  Once the flush of a reload is done, and
    however lookups, further signals and the janitor interleave from then on,
    a lookup that begins afterwards for a name that is not being resolved at
    that moment is answered from a resolution with the assets of the last
    signal that loaded, or of a later one: its addresses are the ones that
    resolution chose, and its policy tells on which side of the new prefix
    list they are and whether the new override list applied. *)
Theorem reload_takes_effect max clock e hs s0 s1 hs' s i qname qtype v :
  0 <= max -> monotone clock ->
  live_run (boot (Cache.New max clock) e) hs s0 -> reload_flush s0 = Some s1 -> live_run s1 hs' s ->
  s_flights (cs_sys (lv_callers s1)) !! key_of qname qtype = None ->
  cs_calls (lv_callers s1) !! i = None ->
  asked (lv_callers s) i = Some (qname, qtype) ->
  Lookup_result (lv_callers s) i = Some (Ok v) -> v_addrs v <> [] ->
  exists a qname' evs res calls, recent (last_good cfg (e_assets e) hs) hs' a /\
    key_of qname' qtype = key_of qname qtype /\
    Engine.Resolve (UpdateAssets e a) qname' evs = Some (res, calls) /\
    v_addrs v = er_addrs res /\ v_policy v = er_policy res /\
    split_horizon (UpdateAssets e a) qname qtype v.
Proof.
  intros Hm Hmono Hr Hf Hr' Hkey Hi Ha Hl Hne.
  pose proof (lo_callers _ _ _ _ _ (after_flush max clock e hs s0 s1 hs' s _ Hm Hr Hf Hkey Hr')) as Hs.
  pose proof (window_served _ _ _ clock _ i qname qtype v Hs Ha Hl Hi eq_refl) as Hserved.
  apply served_from_run in Hserved as (q' & res & Hk & Hran & Hv);
    [|by rewrite (ca_clock _ _ _ clock _ Hs)].
  assert (same_content v (resolve sv res).1) as Hc by (by destruct Hv as [->|(_ & ? & _)]).
  destruct (ran_split_horizon _ sv qname q' qtype res v Hran Hk Hc Hne)
    as (e' & evs & calls & (a & Hgood & ->) & Hres & Haddr & Hpol & Hsh).
  exists a, q', evs, res, calls. by split_and!.
Qed.
End Live.

(** ** Example *)

(** New files, in which the address of the other upstream is the Chinese one. *)
Definition new_files : FileSystem := fun path =>
  if String.eqb path "cn4.txt" then Some (mkReader "93.184.216.0/24" false)
  else if String.eqb path "cn6.txt" then Some (mkReader "2001:db8::/32" false)
  else None.

Definition sample_events : list event := EvOutcome <$> sample_outcomes.

(** Caller [i] asks for "host." and is answered. *)
Definition l_begin (s : Live) (i : nat) : Live :=
  with_callers s (@Lookup_begin ascii_tables sample_service (lv_callers s) i "host." TypeA).
Definition l_enter (s : Live) (i : nat) : Live :=
  with_callers s (default (lv_callers s) (@Lookup_enter ascii_tables (lv_callers s) i)).
Definition l_load (s : Live) (i : nat) : Live := default s (Resolve_load s i).
Definition l_rest (s : Live) (i : nat) : Live :=
  default s (@Resolve_rest ascii_tables sample_service s i sample_events).
Definition l_close (s : Live) (i : nat) : Live :=
  with_callers s (default (lv_callers s) (within (lv_callers s) (Do_close (cs_sys (lv_callers s)) i))).
Definition l_lookup (s : Live) (i : nat) : Live :=
  l_close (l_rest (l_load (l_enter (l_begin s i) i) i) i) i.
Definition l_swap (s : Live) : Live := default s (@reload_swap ascii_tables auto_config s new_files).

Definition live_boot : Live := boot (Cache.New 4 half_seconds) sample_engine.
Definition live_old : Live := l_lookup live_boot 0.
Definition live_swapped : Live := l_swap live_old.
Definition live_flushed : Live := default live_swapped (reload_flush live_swapped).
Definition live_new : Live := l_lookup live_flushed 1.

Definition sample_live_run : Live -> list FileSystem -> Live -> Prop :=
  @live_run ascii_tables sample_dns sample_service auto_config.

Lemma sample_events_of s i :
  lv_engine s = UpdateAssets sample_engine (e_assets (lv_engine s)) ->
  asked (lv_callers s) i = Some ("host.", TypeA) ->
  @events_of ascii_tables sample_dns s i sample_events.
Proof.
  intros He Ha. split.
  - intros q t o Hq Ho. rewrite Ha in Hq. injection Hq as <- <-. rewrite He. exact (sample_from_wire o Ho).
  - by intros (o & [=] & _)%list_elem_of_fmap.
Qed.

(** The steps of a lookup that is answered by its own run. *)
Lemma l_lookup_run hs s0 s i :
  let s1 := l_begin s i in let s2 := l_enter s1 i in let s3 := l_load s2 i in let s4 := l_rest s3 i in
  sample_live_run s0 hs s -> cs_calls (lv_callers s) !! i = None ->
  @Lookup_enter ascii_tables (lv_callers s1) i = Some (lv_callers s2) ->
  Resolve_load s2 i = Some s3 ->
  lv_engine s3 = UpdateAssets sample_engine (e_assets (lv_engine s3)) ->
  asked (lv_callers s3) i = Some ("host.", TypeA) ->
  @Resolve_rest ascii_tables sample_service s3 i sample_events = Some s4 ->
  within (lv_callers s4) (Do_close (cs_sys (lv_callers s4)) i) = Some (lv_callers (l_close s4 i)) ->
  sample_live_run s0 hs (l_lookup s i).
Proof.
  intros s1 s2 s3 s4 Hr Hi H1 H2 He Ha H3 H4.
  eapply run_silent; [|apply live_move; eapply move_close; exact H4].
  eapply run_silent; [|by eapply live_rest; [apply sample_events_of|]].
  eapply run_silent; [|by eapply live_load].
  eapply run_silent; [|apply live_move; eapply move_enter; exact H1].
  eapply run_silent; [exact Hr|]. by apply live_move, move_begin.
Qed.

Lemma live_swapped_run : sample_live_run live_boot [new_files] live_swapped.
Proof.
  change [new_files] with ([] ++ [new_files]). eapply run_step.
  - apply (l_lookup_run [] live_boot live_boot 0); [constructor|vm_compute; reflexivity..].
  - apply live_swap. vm_compute. reflexivity.
Qed.

Lemma live_new_run : sample_live_run live_flushed [] live_new.
Proof. apply (l_lookup_run [] live_flushed live_flushed 1); [constructor|vm_compute; reflexivity..]. Qed.

(** The old answer was China's address of the old list; after the reload the
    same query is answered with an address of the new list. *)
Lemma reload_takes_effect_witness :
  exists v a, Lookup_result (lv_callers live_new) 1 = Some (Ok v) /\
    v_addrs v = [Addr4 foreign_ip] /\ @loadAssets ascii_tables new_files auto_config = Ok a /\
    @split_horizon ascii_tables (UpdateAssets sample_engine a) "host." TypeA v.
Proof.
  destruct (Lookup_result (lv_callers live_new) 1) as [[v|e]|] eqn:E; [|vm_compute in E; discriminate E..].
  destruct (@loadAssets ascii_tables new_files auto_config) as [a|e] eqn:Ea; [|vm_compute in Ea; discriminate Ea].
  exists v, a. split; [reflexivity|]. split; [vm_compute in E; injection E as <-; reflexivity|]. split; [reflexivity|].
  destruct (@reload_takes_effect ascii_tables sample_dns sample_service auto_config 4 half_seconds sample_engine
    [new_files] live_swapped live_flushed [] live_new 1 "host." TypeA v)
    as (a' & q & evs & res & calls & [->|(fs & Hfs & _)] & _ & _ & _ & _ & Hsh).
  - lia.
  - exact half_seconds_monotone.
  - exact live_swapped_run.
  - vm_compute. reflexivity.
  - exact live_new_run.
  - vm_compute. reflexivity.
  - vm_compute. reflexivity.
  - vm_compute. reflexivity.
  - exact E.
  - vm_compute in E. injection E as <-. discriminate.
  - cbn [last_good] in Hsh. rewrite Ea in Hsh. exact Hsh.
  - exfalso. exact (proj1 (elem_of_nil fs) Hfs).
Defined.

(** A reload does not classify the upstreams again: an upstream with role
    "auto" keeps the class it got from the prefixes of the start. *)
Lemma reload_keeps_classes :
  exists a0 a1,
    @loadAssets ascii_tables sample_fs auto_config = Ok a0 /\ @loadAssets ascii_tables new_files auto_config = Ok a1 /\
    let s := @reload ascii_tables auto_config (mkRunning (new_engine auto_config a0) (Cache.New 4 half_seconds)) new_files in
    e_assets (run_engine s) = a1 /\
    u_china <$> e_upstreams (run_engine s) = [true] /\
    u_china <$> (classifyUpstreams auto_config a1).*1 = [false].
Proof.
  destruct (@loadAssets ascii_tables sample_fs auto_config) as [a0|e] eqn:E0; [|vm_compute in E0; discriminate E0].
  destruct (@loadAssets ascii_tables new_files auto_config) as [a1|e] eqn:E1; [|vm_compute in E1; discriminate E1].
  exists a0, a1. split; [done|]. split; [done|]. unfold reload. rewrite E1. cbn [run_engine e_assets UpdateAssets].
  split; [done|]. vm_compute in E0, E1. injection E0 as <-. injection E1 as <-. split; vm_compute; reflexivity.
Qed.
