(* ===== verification/Fair.v ===== *)
(** * Fair: every lookup is answered

    The infinite runs of the program of [Live] in which every caller that can
    go on eventually does, with callers that come, contexts that end, signals
    and the janitor in any order, and in any number, in between.  A caller
    that has asked is answered in all of them. *)

From S2P Require Import Prelude Netip GoText Overrides Dns Policy Upstream Engine EngineProps Family Cache CacheProps Flight Resolve Callers Config Main System Live.

(** ** Runs without end *)

Section Run.
Context {S : Type} (sigma : nat -> S).

(** What holds stays, unless something else comes about. *)
Lemma unless (P Q : S -> Prop) t n :
  (forall t, P (sigma t) -> P (sigma (Datatypes.S t)) \/ Q (sigma (Datatypes.S t))) ->
  P (sigma t) -> P (sigma (n + t)%nat) \/ exists t', (t <= t')%nat /\ Q (sigma t').
Proof.
  intros Hu HP. induction n as [|n [IH|IH]]; [by left| |by right].
  destruct (Hu (n + t)%nat IH) as [?|HQ]; [by left|right]. exists (Datatypes.S (n + t)). split; [lia|done].
Qed.

(** Something comes about that an agent who can, and eventually does, act
    brings about. *)
Lemma ensures (acts : S -> S -> Prop) (P Q : S -> Prop) t :
  (exists t', (t <= t')%nat /\ (acts (sigma t') (sigma (Datatypes.S t')) \/ ~ exists s, acts (sigma t') s)) ->
  (forall t, P (sigma t) -> P (sigma (Datatypes.S t)) \/ Q (sigma (Datatypes.S t))) ->
  (forall t, P (sigma t) -> exists s, acts (sigma t) s) ->
  (forall t, P (sigma t) -> acts (sigma t) (sigma (Datatypes.S t)) -> Q (sigma (Datatypes.S t))) ->
  P (sigma t) -> exists t', (t <= t')%nat /\ Q (sigma t').
Proof.
  intros (t' & Ht & Hact) Hu He Hq HP. replace t' with (t' - t + t)%nat in Hact by lia.
  destruct (unless P Q t (t' - t)%nat Hu HP) as [HP'|]; [|done]. destruct Hact as [Ha|Ha].
  - exists (Datatypes.S (t' - t + t)). split; [lia|]. by apply Hq.
  - by destruct Ha; apply He.
Qed.
End Run.

Section Fair.
Context `{GoUnicode} `{DnsLib} (sv : Service) (cfg : Config).

(** ** What a caller does *)

(** The steps of the goroutine of caller [i] after the cache's miss. *)
Inductive acts (i : nat) (s : Live) : Live -> Prop :=
| act_enter c : Lookup_enter (lv_callers s) i = Some c -> acts i s (with_callers s c)
| act_load s' : Resolve_load s i = Some s' -> acts i s s'
| act_rest evs s' : events_of s i evs -> Resolve_rest sv s i evs = Some s' -> acts i s s'
| act_close c : within (lv_callers s) (Do_close (cs_sys (lv_callers s)) i) = Some c ->
    acts i s (with_callers s c)
| act_wake c : within (lv_callers s) (Do_wake (cs_sys (lv_callers s)) i) = Some c ->
    acts i s (with_callers s c)
| act_cancel e c : cs_ended (lv_callers s) !! i = Some e ->
    within (lv_callers s) (Do_cancel (cs_sys (lv_callers s)) i e) = Some c -> acts i s (with_callers s c).

(** A run in which no caller can go on forever without doing so. *)
Record fair (sigma : nat -> Live) : Prop := {
  fair_step : forall t, sigma (S t) = sigma t \/ exists hs, live_step sv cfg (sigma t) hs (sigma (S t));
  fair_acts : forall t i, exists t', (t <= t')%nat /\
    (acts i (sigma t') (sigma (S t')) \/ ~ exists s, acts i (sigma t') s);
}.

(** Where a caller is. *)
Definition local (s : Live) (i : nat) : option call * option phase * option Assets :=
  (cs_calls (lv_callers s) !! i, s_callers (cs_sys (lv_callers s)) !! i, lv_loaded s !! i).

(** Only its own steps move a caller that has begun. *)
Lemma move_local s c i :
  move sv (lv_callers s) c ->
  acts i s (with_callers s c) \/ cs_calls (lv_callers s) !! i = None \/
  local (with_callers s c) i = local s i.
Proof.
  destruct s as [s e l r]. cbn. intros Hm. set (s0 := mkLive s e l r). unfold local. cbn.
  destruct Hm as [s j q t Hj|s j s' E|s j s' E|s j s' E|s j e' s' He E|s j e' He|s]; [|destruct (decide (j = i)) as [->|Hne]..| |];
    try (by right; right); [..|left|right; right|left|right; right|left|right; right|left|right; right].
  - destruct (decide (j = i)) as [->|Hne]; [by right; left|right; right].
    unfold Lookup_begin. destruct (negb _); [cbn; by rewrite lookup_insert_ne|].
    destruct (lookup_cached _ _) as [[v|] c]; cbn; by rewrite lookup_insert_ne.
  - by apply (act_enter i s0).
  - unfold Lookup_enter in E. destruct (cs_calls s !! j) as [[q t| | |]|]; try done. injection E as <-. cbn.
    rewrite lookup_insert_ne by done. unfold Do_enter.
    destruct (s_flights _ !! _); cbn; by rewrite lookup_insert_ne.
  - by apply (act_close i s0).
  - unfold within, Do_close in E. repeat split_match_in E; simplify_eq. cbn. by rewrite lookup_insert_ne.
  - by apply (act_wake i s0).
  - unfold within, Do_wake in E. repeat split_match_in E; simplify_eq. cbn. by rewrite lookup_insert_ne.
  - by apply (act_cancel i s0 e').
  - unfold within, Do_cancel in E. repeat split_match_in E; simplify_eq. cbn. by rewrite lookup_insert_ne.
Qed.

Lemma resolved_local s j res c i :
  j <> i -> Lookup_resolved sv s j res = Some c ->
  cs_calls c !! i = cs_calls s !! i /\ s_callers (cs_sys c) !! i = s_callers (cs_sys s) !! i.
Proof.
  intros Hne. unfold Lookup_resolved, Do_finish. intros E. repeat split_match_in E; simplify_eq; cbn;
    by rewrite ?lookup_insert_ne by done.
Qed.

Lemma step_local s hs s' i :
  live_step sv cfg s hs s' ->
  acts i s s' \/ cs_calls (lv_callers s) !! i = None \/ local s' i = local s i.
Proof.
  destruct 1 as [s c Hm|s j s' E|s j evs s' He E|s fs s' E|s s' E].
  - by apply move_local.
  - destruct (decide (j = i)) as [->|Hne]; [left; by apply act_load|right; right].
    unfold Resolve_load in E. repeat split_match_in E; simplify_eq. unfold local. cbn.
    by rewrite lookup_insert_ne.
  - destruct (decide (j = i)) as [->|Hne]; [left; by eapply act_rest|right; right].
    unfold Resolve_rest in E. repeat split_match_in E; simplify_eq. unfold local. cbn.
    by edestruct (resolved_local (lv_callers s) j) as [-> ->].
  - right. right. unfold reload_swap in E. repeat split_match_in E; by simplify_eq.
  - right. right. unfold reload_flush in E. repeat split_match_in E; by simplify_eq.
Qed.

(** A flight that is closed stays so. *)
Definition closed (s : Live) (f : nat) : Prop :=
  exists v, s_store (cs_sys (lv_callers s)) !! f = Some (mkFlight true v).

Lemma alter_closed (m : gmap nat flight) g h f v :
  (forall fl, f_done fl = true -> f_done (h fl) = true) ->
  m !! f = Some (mkFlight true v) -> exists v', alter h g m !! f = Some (mkFlight true v').
Proof.
  intros Hh Hf. destruct (decide (g = f)) as [->|Hne].
  - rewrite lookup_alter_eq, Hf. cbn. specialize (Hh (mkFlight true v) eq_refl).
    destruct (h _) as [b v']. cbn in Hh. subst b. by exists v'.
  - exists v. by rewrite lookup_alter_ne.
Qed.

Lemma step_closed s hs s' f :
  flights_ok (cs_sys (lv_callers s)) -> live_step sv cfg s hs s' -> closed s f -> closed s' f.
Proof.
  intros Hs Hstep (v & Hv). unfold closed.
  destruct Hstep as [s c Hm|s j s' E|s j evs s' He E|s fs s' E|s s' E].
  - cbn. destruct Hm as [s0 j q t Hj|s0 j s' E|s0 j s' E|s0 j s' E|s0 j e' s' He E|s0 j e' He|s0]; try by exists v.
    + exists v. unfold Lookup_begin. destruct (negb _); [done|]. by destruct (lookup_cached _ _) as [[|] c].
    + unfold Lookup_enter, Do_enter in E. repeat split_match_in E; simplify_eq; cbn; exists v; [done|].
      rewrite lookup_insert_ne; [done|]. intros <-. by rewrite (fo_next _ Hs) in Hv.
    + unfold within, Do_close in E. repeat split_match_in E; simplify_eq. by eapply alter_closed.
    + unfold within, Do_wake in E. repeat split_match_in E; simplify_eq. by exists v.
    + unfold within, Do_cancel in E. repeat split_match_in E; simplify_eq. by exists v.
  - unfold Resolve_load in E. repeat split_match_in E; simplify_eq. by exists v.
  - unfold Resolve_rest, Lookup_resolved, Do_finish in E. repeat split_match_in E; simplify_eq; cbn;
      first [by exists v|by eapply alter_closed].
  - unfold reload_swap in E. repeat split_match_in E; simplify_eq; by exists v.
  - unfold reload_flush in E. repeat split_match_in E; simplify_eq; by exists v.
Qed.

(** ** What its steps do

    The proofs go over the six steps; the place of the caller leaves one of
    them, or none. *)
Ltac by_step Hl Ha :=
  let Hc := fresh "Hc" in let Hp := fresh "Hp" in let Hlo := fresh "Hlo" in let E := fresh "E" in
  injection Hl as Hc Hp Hlo; destruct Ha as [?c E|?s' E|?evs ?s' _ E|?c E|?c E|?e ?c ?He E];
  unfold Lookup_enter, Resolve_load, running, Resolve_rest, asked, Lookup_resolved, within, Do_finish,
    Do_close, Do_wake, Do_cancel in E;
  rewrite ?Hc, ?Hp, ?Hlo in E; repeat split_match_in E; simplify_eq; unfold local, with_callers; cbn;
  rewrite ?Hc, ?Hp, ?Hlo, ?lookup_insert_eq.

Lemma acts_missed i s s' q t a :
  local s i = (Some (Missed q t), None, a) -> acts i s s' ->
  cs_calls (lv_callers s') !! i = Some (Entered q t).
Proof. intros Hl Ha. by by_step Hl Ha. Qed.

(** The caller runs the engine. *)
Definition in_engine (c : call) (p : option phase) : Prop :=
  match c, p with
  | Direct _ _, None | Entered _ _, Some (Leading _ _) => True
  | _, _ => False
  end.

Lemma acts_load i s s' c p :
  local s i = (Some c, p, None) -> in_engine c p -> acts i s s' ->
  exists a, local s' i = (Some c, p, Some a).
Proof.
  intros Hl Hr Ha. destruct c as [|q t|q t|], p as [[| | |]|]; try done; by_step Hl Ha; eauto.
Qed.

Lemma acts_direct i s s' q t a :
  local s i = (Some (Direct q t), None, Some a) -> acts i s s' ->
  exists v, local s' i = (Some (Answered q t v), None, Some a).
Proof. intros Hl Ha. by_step Hl Ha; eauto. Qed.

Lemma acts_leading i s s' q t k f a :
  local s i = (Some (Entered q t), Some (Leading k f), Some a) -> acts i s s' ->
  exists v, local s' i = (Some (Entered q t), Some (Closing k f v), Some a).
Proof. intros Hl Ha. by_step Hl Ha; eauto. Qed.

Lemma acts_closing i s s' q t k f v a :
  flights_ok (cs_sys (lv_callers s)) ->
  local s i = (Some (Entered q t), Some (Closing k f v), a) -> acts i s s' ->
  local s' i = (Some (Entered q t), Some (Returned f (Ok v)), a) /\ closed s' f.
Proof.
  intros Hs Hl Ha. assert (s_store (cs_sys (lv_callers s)) !! f = Some (mkFlight false v)) as Hf
    by (injection Hl as _ Hp _; apply (fo_phase _ Hs i _ Hp)).
  by_step Hl Ha. split; [done|]. unfold closed. cbn. rewrite lookup_alter_eq, Hf. by eexists.
Qed.

Lemma acts_waiting i s s' q t k f a :
  local s i = (Some (Entered q t), Some (Waiting k f), a) -> acts i s s' ->
  exists r, local s' i = (Some (Entered q t), Some (Returned f r), a).
Proof. intros Hl Ha. by_step Hl Ha; eauto. Qed.

(** A caller that has its result does nothing more. *)
Lemma acts_result i s s' r :
  (forall q t v, cs_calls (lv_callers s) !! i = Some (Answered q t v) ->
    s_callers (cs_sys (lv_callers s)) !! i = None) ->
  Lookup_result (lv_callers s) i = Some r -> ~ acts i s s'.
Proof.
  intros Hs. unfold Lookup_result. intros Hr Ha.
  destruct (cs_calls (lv_callers s) !! i) as [[| | |q t v]|] eqn:Hc; try done.
  - destruct (s_callers (cs_sys (lv_callers s)) !! i) as [[| | |f r']|] eqn:Hp; try done.
    assert (exists a, local s i = (Some (Entered qname qtype), Some (Returned f r'), a)) as [a Hl]
      by (unfold local; rewrite Hc, Hp; by eexists).
    by_step Hl Ha.
  - assert (exists a, local s i = (Some (Answered q t v), None, a)) as [a Hl]
      by (unfold local; rewrite Hc, (Hs q t v eq_refl); by eexists).
    by_step Hl Ha.
Qed.

Lemma acts_outside i s s' : local s i = (None, None, None) -> ~ acts i s s'.
Proof. intros Hl Ha. by by_step Hl Ha. Qed.

Lemma result_local s s' i :
  local s' i = local s i -> Lookup_result (lv_callers s') i = Lookup_result (lv_callers s) i.
Proof. unfold local, Lookup_result. by intros [= -> -> _]. Qed.

(** ** Progress *)

Section Progress.
Context (e : Engine) (clock : nat -> Z) (sigma : nat -> Live).
Context (Hfair : fair sigma).
Context (Hinv : forall t, live_ok sv e any_assets everything clock (sigma t)).

Lemma callers_inv t : callers_ok sv (engine_ran (engines_with e any_assets)) everything clock (lv_callers (sigma t)).
Proof. apply Hinv. Qed.

Lemma flights_inv t : flights_ok (cs_sys (lv_callers (sigma t))).
Proof. apply callers_inv. Qed.

(** A place is left by the caller's own step, which it takes if it can. *)
Lemma stays t i : cs_calls (lv_callers (sigma t)) !! i <> None ->
  acts i (sigma t) (sigma (S t)) \/ local (sigma (S t)) i = local (sigma t) i.
Proof.
  intros Hi. destruct (fair_step _ Hfair t) as [->|(hs & Hs)]; [by right|].
  by destruct (step_local _ _ _ i Hs) as [?|[?|?]]; auto.
Qed.

Lemma stage t i l (Q : Live -> Prop) :
  local (sigma t) i = l -> l.1.1 <> None ->
  (forall t, local (sigma t) i = l -> exists s, acts i (sigma t) s) ->
  (forall t, local (sigma t) i = l -> acts i (sigma t) (sigma (S t)) -> Q (sigma (S t))) ->
  exists t', (t <= t')%nat /\ Q (sigma t').
Proof.
  intros Hl Hc He HQ. eapply (ensures sigma (acts i) (fun s => local s i = l)); [|..]; try done.
  { apply (fair_acts _ Hfair). }
  intros t' Hl'. destruct (stays t' i) as [Ha|Hs]; [|right; by apply HQ|left; congruence].
  intros Hn. apply Hc. rewrite <-Hl'. exact Hn.
Qed.

Lemma stage_missed t i q ty a :
  local (sigma t) i = (Some (Missed q ty), None, a) ->
  exists t', (t <= t')%nat /\ cs_calls (lv_callers (sigma t')) !! i = Some (Entered q ty).
Proof.
  intros Hl. eapply (stage t i _ (fun s => cs_calls (lv_callers s) !! i = _) Hl); [done| |].
  - intros t' [= Hc _ _]. eexists. apply act_enter. unfold Lookup_enter. by rewrite Hc.
  - intros t'. apply acts_missed.
Qed.

Lemma stage_load t i c p :
  local (sigma t) i = (Some c, p, None) -> in_engine c p ->
  exists t', (t <= t')%nat /\ exists a, local (sigma t') i = (Some c, p, Some a).
Proof.
  intros Hl He. eapply (stage t i _ (fun s => exists a, local s i = _) Hl); [done| |].
  - intros t' [= Hc Hp Ha]. eexists. apply act_load. unfold Resolve_load, running.
    rewrite Hc, Hp, Ha. by destruct c, p as [[]|].
  - intros t' Hl'. by apply acts_load.
Qed.

(** The run of a caller that has loaded its assets can end. *)
Lemma rest_enabled t i c p a :
  local (sigma t) i = (Some c, p, Some a) -> in_engine c p -> exists s, acts i (sigma t) s.
Proof.
  intros [= Hc Hp Ha] He.
  assert (exists q ty, asked (lv_callers (sigma t)) i = Some (q, ty)) as (q & ty & Hask)
    by (unfold asked; rewrite Hc; by destruct c; eauto).
  destruct (Resolve_can_end (UpdateAssets (lv_engine (sigma t)) a) q ty) as (evs & Hw & Hd & [res calls] & Hres).
  assert (exists c', Lookup_resolved sv (lv_callers (sigma t)) i res = Some c') as [c' Hc'].
  { destruct (fo_cache _ (flights_inv t)) as [Hok Hm]. unfold Lookup_resolved, Do_finish. rewrite Hc, Hp.
    destruct c as [|q' t'|q' t'|], p as [[|k f| |]|]; try done; [|by eexists].
    destruct (resolve sv res).2; [|by eexists].
    destruct (setLocked_simulates _ k (resolve sv res).1 Hok Hm) as (c' & -> & _). by eexists. }
  eexists. apply (act_rest i _ evs).
  - split; [|done]. intros q' t' o Hq. rewrite Hask in Hq. injection Hq as <- <-.
    rewrite <-(from_wire_UpdateAssets _ a). apply Hw.
  - unfold Resolve_rest. by rewrite Hask, Ha, Hres, Hc'.
Qed.

Lemma stage_direct t i q ty a :
  local (sigma t) i = (Some (Direct q ty), None, Some a) ->
  exists t', (t <= t')%nat /\ exists v, local (sigma t') i = (Some (Answered q ty v), None, Some a).
Proof.
  intros Hl. eapply (stage t i _ (fun s => exists v, local s i = _) Hl); [done| |].
  - intros t' Hl'. by eapply rest_enabled.
  - intros t'. apply acts_direct.
Qed.

Lemma stage_leading t i q ty k f a :
  local (sigma t) i = (Some (Entered q ty), Some (Leading k f), Some a) ->
  exists t', (t <= t')%nat /\ exists v, local (sigma t') i = (Some (Entered q ty), Some (Closing k f v), Some a).
Proof.
  intros Hl. eapply (stage t i _ (fun s => exists v, local s i = _) Hl); [done| |].
  - intros t' Hl'. by eapply rest_enabled.
  - intros t'. apply acts_leading.
Qed.

Lemma stage_closing t i q ty k f v a :
  local (sigma t) i = (Some (Entered q ty), Some (Closing k f v), a) ->
  exists t', (t <= t')%nat /\
    local (sigma t') i = (Some (Entered q ty), Some (Returned f (Ok v)), a) /\ closed (sigma t') f.
Proof.
  intros Hl. eapply (stage t i _ (fun s => local s i = _ /\ closed s f) Hl); [done| |].
  - intros t' [= Hc Hp _]. eexists. apply act_close. unfold within, Do_close. by rewrite Hp.
  - intros t'. by apply acts_closing, flights_inv.
Qed.

(** The owner of a flight closes it and has its own result then. *)
Lemma owner_closes t j q ty p f a :
  local (sigma t) j = (Some (Entered q ty), Some p, a) -> owns p f ->
  exists t', (t <= t')%nat /\ closed (sigma t') f /\
    exists v a', local (sigma t') j = (Some (Entered q ty), Some (Returned f (Ok v)), a').
Proof.
  assert (forall t k f v a, local (sigma t) j = (Some (Entered q ty), Some (Closing k f v), a) ->
    exists t', (t <= t')%nat /\ closed (sigma t') f /\
    exists v a', local (sigma t') j = (Some (Entered q ty), Some (Returned f (Ok v)), a')) as Hclosing.
  { intros t0 k0 f0 v0 a0 Hl. destruct (stage_closing _ _ _ _ _ _ _ _ Hl) as (t' & Ht & Hl' & Hf). eauto 7. }
  assert (forall t k f a, local (sigma t) j = (Some (Entered q ty), Some (Leading k f), Some a) ->
    exists t', (t <= t')%nat /\ closed (sigma t') f /\
    exists v a', local (sigma t') j = (Some (Entered q ty), Some (Returned f (Ok v)), a')) as Hleading.
  { intros t0 k0 f0 a0 Hl. destruct (stage_leading _ _ _ _ _ _ _ Hl) as (t1 & Ht1 & v & Hl1).
    destruct (Hclosing _ _ _ _ _ Hl1) as (t' & Ht & Hq). exists t'. split; [lia|done]. }
  intros Hl Hp. destruct p as [|k g|k g v|]; cbn in Hp; try done; subst g; [|by eapply Hclosing].
  destruct a as [a|]; [by eapply Hleading|].
  destruct (stage_load t j _ _ Hl ltac:(done)) as (t1 & Ht1 & a & Hl1).
  destruct (Hleading _ _ _ _ Hl1) as (t' & Ht & Hq). exists t'. split; [lia|done].
Qed.

Definition answered (i : nat) (s : Live) : Prop := is_Some (Lookup_result (lv_callers s) i).

Lemma returned_answered s i q ty f r a :
  local s i = (Some (Entered q ty), Some (Returned f r), a) -> answered i s.
Proof. intros [= Hc Hp _]. unfold answered, Lookup_result. by rewrite Hc, Hp. Qed.

(** A waiter whose flight is closed wakes up. *)
Lemma stage_closed t i q ty k f a :
  local (sigma t) i = (Some (Entered q ty), Some (Waiting k f), a) -> closed (sigma t) f ->
  exists t', (t <= t')%nat /\ answered i (sigma t').
Proof.
  intros Hl Hf. set (l := (Some (Entered q ty), Some (Waiting k f), a)) in *.
  assert (forall t, local (sigma t) i = l -> acts i (sigma t) (sigma (S t)) -> answered i (sigma (S t))) as Hact.
  { intros t' Hl' Ha. destruct (acts_waiting _ _ _ _ _ _ _ _ Hl' Ha) as [r Hr]. by eapply returned_answered. }
  apply (ensures sigma (acts i) (fun s => local s i = l /\ closed s f)); [apply Hfair|..|done].
  - intros t' [Hl' Hf']. destruct (stays t' i) as [Ha|Hs].
    + intros Hn. pose proof Hl' as [= Hc _ _]. congruence.
    + right. by apply Hact.
    + left. split; [congruence|]. destruct (fair_step _ Hfair t') as [->|(hs & Hstep)]; [done|].
      eapply step_closed; [apply flights_inv|done..].
  - intros t' [[= _ Hp _] [v Hv]]. eexists. apply act_wake. unfold within, Do_wake. by rewrite Hp, Hv.
  - intros t' [Hl' _]. by apply Hact.
Qed.

Lemma stage_waiting t i q ty k f a :
  local (sigma t) i = (Some (Entered q ty), Some (Waiting k f), a) ->
  exists t', (t <= t')%nat /\ answered i (sigma t').
Proof.
  intros Hl. pose proof Hl as [= _ Hp _].
  destruct (fo_phase _ (flights_inv t) i _ Hp) as (fl & Hfl & [Hd|(j & p & Hj & Ho)]).
  { eapply stage_closed; [done|]. destruct fl as [d v]. cbn in Hd. subst d. by exists v. }
  destruct (ca_entered _ _ _ _ _ (callers_inv t) j p Hj) as (q' & ty' & Hc' & _).
  destruct (owner_closes t j q' ty' p f (lv_loaded (sigma t) !! j)) as (t1 & Ht1 & Hf & _);
    [unfold local; by rewrite Hc', Hj|done|].
  destruct (unless sigma (fun s => local s i = (Some (Entered q ty), Some (Waiting k f), a)) (answered i)
    t (t1 - t)%nat) as [Hl1|?]; [|done| |done].
  - intros t' Hl'. destruct (stays t' i) as [Ha|Hs]; [|right|left; congruence].
    + intros Hn. pose proof Hl' as [= Hc _ _]. congruence.
    + destruct (acts_waiting _ _ _ _ _ _ _ _ Hl' Ha) as [r Hr]. by eapply returned_answered.
  - replace (t1 - t + t)%nat with t1 in Hl1 by lia.
    destruct (stage_closed t1 i q ty k f a Hl1 Hf) as (t' & Ht & Hr). exists t'. split; [lia|done].
Qed.

Lemma stage_entered t i q ty :
  cs_calls (lv_callers (sigma t)) !! i = Some (Entered q ty) ->
  exists t', (t <= t')%nat /\ answered i (sigma t').
Proof.
  intros Hc. destruct (ca_inside _ _ _ _ _ (callers_inv t) i q ty Hc) as [p Hp].
  assert (local (sigma t) i = (Some (Entered q ty), Some p, lv_loaded (sigma t) !! i)) as Hl
    by (unfold local; by rewrite Hc, Hp).
  assert (forall f, owns p f -> exists t', (t <= t')%nat /\ answered i (sigma t')) as Howner.
  { intros f Ho. destruct (owner_closes t i q ty p f _ Hl Ho) as (t' & Ht & _ & v & a' & Hl').
    exists t'. split; [done|]. by eapply returned_answered. }
  destruct p as [k f|k f|k f v|f r]; [by eapply stage_waiting|by apply (Howner f)..|].
  exists t. split; [lia|]. by eapply returned_answered.
Qed.

Lemma outside t i : (forall q ty, cs_calls (lv_callers (sigma t)) !! i <> Some (Entered q ty)) ->
  s_callers (cs_sys (lv_callers (sigma t))) !! i = None.
Proof. eapply not_inside, callers_inv. Qed.

Lemma asked_answered t i q ty :
  asked (lv_callers (sigma t)) i = Some (q, ty) -> exists t', (t <= t')%nat /\ answered i (sigma t').
Proof.
  unfold asked. intros Ha.
  destruct (cs_calls (lv_callers (sigma t)) !! i) as [[q' t'|q' t'|q' t'|q' t' v]|] eqn:Hc; try done;
    injection Ha as -> ->; [|by eapply stage_entered|..].
  - destruct (stage_missed t i q ty (lv_loaded (sigma t) !! i)) as (t1 & Ht1 & Hc1).
    { unfold local. rewrite Hc, outside; [done|]. intros ? ?. congruence. }
    destruct (stage_entered t1 i q ty Hc1) as (t' & Ht & Hr). exists t'. split; [lia|done].
  - assert (forall t a, local (sigma t) i = (Some (Direct q ty), None, Some a) ->
      exists t', (t <= t')%nat /\ answered i (sigma t')) as Hloaded.
    { intros t0 a Hl. destruct (stage_direct t0 i q ty a Hl) as (t' & Ht & v & [= Hc' _ _]).
      exists t'. split; [done|]. unfold answered, Lookup_result. by rewrite Hc'. }
    assert (local (sigma t) i = (Some (Direct q ty), None, lv_loaded (sigma t) !! i)) as Hl.
    { unfold local. rewrite Hc, outside; [done|]. intros ? ?. congruence. }
    destruct (lv_loaded (sigma t) !! i) as [a|]; [by eapply Hloaded|].
    destruct (stage_load t i _ _ Hl ltac:(done)) as (t1 & Ht1 & a & Hl1).
    destruct (Hloaded t1 a Hl1) as (t' & Ht & Hr). exists t'. split; [lia|done].
  - exists t. split; [lia|]. unfold answered, Lookup_result. by rewrite Hc.
Qed.

(** A result is kept. *)
Lemma result_kept t n i r :
  Lookup_result (lv_callers (sigma t)) i = Some r ->
  Lookup_result (lv_callers (sigma (n + t)%nat)) i = Some r.
Proof.
  intros Hr. induction n as [|n IH]; [done|]. cbn [Nat.add]. destruct (stays (n + t) i) as [Ha|Hs].
  - unfold Lookup_result in IH. intros Hn. by rewrite Hn in IH.
  - exfalso. eapply acts_result; [|exact IH|exact Ha]. intros q ty v Hv. apply outside. congruence.
  - by rewrite (result_local _ _ _ Hs).
Qed.

(** An error is that of the caller's own context. *)
Lemma error_ended t i err :
  Lookup_result (lv_callers (sigma t)) i = Some (Err err) -> cs_ended (lv_callers (sigma t)) !! i = Some err.
Proof.
  unfold Lookup_result. intros Hr. destruct (cs_calls _ !! i) as [[| | |]|]; try done.
  destruct (s_callers _ !! i) as [[| | |f r]|] eqn:Hp; try done. injection Hr as ->.
  by eapply (ca_canceled _ _ _ _ _ (callers_inv t)).
Qed.
End Progress.

Lemma fair_reachable s0 (sigma : nat -> Live) hs t :
  live_run sv cfg s0 hs (sigma 0%nat) -> fair sigma -> exists hs', live_run sv cfg s0 hs' (sigma t).
Proof.
  intros Hr Hfair. induction t as [|t (hs' & IH)]; [by exists hs|].
  destruct (fair_step _ Hfair t) as [->|(h & Hs)]; [by exists hs'|]. exists (hs' ++ h). by eapply run_step.
Qed.

(** ** Theorem *)

(** C13: every lookup is answered.  In every run of the program in which a
    caller that can go on eventually does, whatever other callers, reloads,
    the janitor and ending contexts do in between and however often, a caller
    that has asked is answered, for good: with a value, unless its own context
    has ended, and then with a value or the context's error. *)
Theorem lookups_answered max clock e hs sigma t i qname qtype :
  0 <= max -> live_run sv cfg (boot (Cache.New max clock) e) hs (sigma 0%nat) -> fair sigma ->
  asked (lv_callers (sigma t)) i = Some (qname, qtype) ->
  exists t' r, (t <= t')%nat /\
    (forall t'', (t' <= t'')%nat -> Lookup_result (lv_callers (sigma t'')) i = Some r) /\
    match r with
    | Ok _ => True
    | Err err => cs_ended (lv_callers (sigma t')) !! i = Some err
    end.
Proof.
  intros Hm Hr Hfair Ha.
  assert (forall t, live_ok sv e any_assets everything clock (sigma t)) as Hinv.
  { intros t0. destruct (fair_reachable _ sigma hs t0 Hr Hfair) as [hs' Hr'].
    by eapply reachable_live_ok. }
  destruct (asked_answered e clock sigma Hfair Hinv t i qname qtype Ha) as (t' & Ht & r & Hres).
  exists t', r. split; [done|]. split.
  - intros t'' Ht''. replace t'' with (t'' - t' + t')%nat by lia.
    by apply (result_kept e clock sigma Hfair Hinv).
  - destruct r as [v|err]; [done|]. by apply (error_ended e clock sigma Hinv).
Qed.
End Fair.

(** ** Example *)

(** Caller 0 leads, caller 1 waits for its flight; then 0 loads the assets,
    its run ends, it closes the flight and 1 wakes up. *)
Definition two_inside : Live := l_enter (l_begin (l_enter (l_begin live_boot 0) 0) 1) 1.
Definition two_loaded : Live := l_load two_inside 0.
Definition two_run : Live := l_rest two_loaded 0.
Definition two_closed : Live := l_close two_run 0.
Definition two_woken : Live :=
  with_callers two_closed (default (lv_callers two_closed)
    (within (lv_callers two_closed) (Do_wake (cs_sys (lv_callers two_closed)) 1))).
Definition two_states (t : nat) : Live :=
  nth t [two_inside; two_loaded; two_run; two_closed] two_woken.

Lemma two_inside_run : sample_live_run live_boot [] two_inside.
Proof.
  assert (sample_live_run live_boot [] (l_enter (l_begin live_boot 0) 0)) as Hr.
  { eapply run_silent; [eapply run_silent; [apply run_none|]|].
    - apply live_move. by apply (move_begin _ (lv_callers live_boot) 0 "host." TypeA).
    - apply live_move, (move_enter _ (lv_callers (l_begin live_boot 0)) 0). vm_compute. reflexivity. }
  eapply run_silent; [eapply run_silent; [exact Hr|]|].
  - apply live_move. by apply (move_begin _ (lv_callers (l_enter (l_begin live_boot 0) 0)) 1 "host." TypeA).
  - apply live_move, (move_enter _ (lv_callers (l_begin (l_enter (l_begin live_boot 0) 0) 1)) 1).
    vm_compute. reflexivity.
Qed.

Abbreviation sample_acts := (@acts ascii_tables sample_dns sample_service).

Lemma two_load : sample_acts 0 two_inside two_loaded.
Proof. apply act_load. vm_compute. reflexivity. Qed.
Lemma two_rest : sample_acts 0 two_loaded two_run.
Proof.
  apply (act_rest _ _ _ sample_events); [|vm_compute; reflexivity].
  apply sample_events_of; vm_compute; reflexivity.
Qed.
Lemma two_close : sample_acts 0 two_run two_closed.
Proof. apply act_close. vm_compute. reflexivity. Qed.
Lemma two_wake : sample_acts 1 two_closed two_woken.
Proof. apply act_wake. vm_compute. reflexivity. Qed.

Lemma acts_step i s s' : sample_acts i s s' ->
  @live_step ascii_tables sample_dns sample_service auto_config s [] s'.
Proof.
  destruct 1 as [c E|s' E|evs s' He E|c E|c E|e c He E].
  - by eapply live_move, move_enter.
  - by eapply live_load.
  - by eapply live_rest.
  - by eapply live_move, move_close.
  - by eapply live_move, move_wake.
  - by eapply live_move, move_cancel.
Qed.

Lemma lookup_above {A} (m : gmap nat A) n i :
  forallb (fun k => k <? n)%nat (map_to_list m).*1 = true -> (n <= i)%nat -> m !! i = None.
Proof.
  intros Hm Hi. destruct (m !! i) as [x|] eqn:E; [|done]. rewrite forallb_forall in Hm.
  apply elem_of_map_to_list in E. assert (i < n)%nat; [|lia].
  apply Nat.ltb_lt, Hm, list_elem_of_In, list_elem_of_fmap. by exists (i, x).
Qed.

(** In the end there is nothing left to do. *)
Lemma two_done i s : ~ sample_acts i two_woken s.
Proof.
  destruct i as [|[|i]].
  - eapply acts_result; [|vm_compute; reflexivity]. vm_compute. discriminate.
  - eapply acts_result; [|vm_compute; reflexivity]. vm_compute. discriminate.
  - apply acts_outside. unfold local.
    rewrite !(lookup_above _ 2 (S (S i))) by (lia || (vm_compute; reflexivity)). reflexivity.
Qed.

Lemma two_states_fair :
  @fair ascii_tables sample_dns sample_service auto_config two_states.
Proof.
  split.
  - intros [|[|[|[|t]]]]; [right; exists []; apply acts_step with 0%nat|
      right; exists []; apply acts_step with 0%nat|right; exists []; apply acts_step with 0%nat|
      right; exists []; apply acts_step with 1%nat|left].
    + exact two_load.
    + exact two_rest.
    + exact two_close.
    + exact two_wake.
    + by destruct t.
  - intros t i. exists (4 + t)%nat. split; [lia|]. right. intros [s Ha].
    apply (two_done i s). by destruct t.
Qed.

Lemma lookups_answered_witness :
  exists t' r, (forall t'', (t' <= t'')%nat -> Lookup_result (lv_callers (two_states t'')) 1 = Some r) /\
    match r with
    | Ok _ => True
    | Err err => cs_ended (lv_callers (two_states t')) !! 1%nat = Some err
    end.
Proof.
  destruct (@lookups_answered ascii_tables sample_dns sample_service auto_config 4 half_seconds sample_engine
    [] two_states 0 1 "host." TypeA ltac:(lia) two_inside_run two_states_fair) as (t' & r & _ & Hr & He).
  - vm_compute. reflexivity.
  - exists t', r. split; [exact Hr|exact He].
Defined.
