(* ===== verification/Requests.v ===== *)
(** * Requests: what handling a request records

    The handler ([internal/server/handler.go]), the forwarder and the
    per-message parts of [internal/server/server.go] only ever add to the
    metrics: handling a request is a sequence of the calls of [Accounts], the
    same whatever the counters are.  [request_calls] says which sequences
    there are for a request. *)

From S2P Require Import Prelude Netip GoText Dns Policy Upstream Engine Cache Metrics Exposition Accounts Server ServerProps.

(** How the dispatch of [handleRequest] sees a request. *)
Inductive kind := NoQuestion | BadVersion | ToForward | ToResolve.

#[export] Instance kind_eq_dec : EqDecision kind.
Proof. solve_decision. Defined.

(** What a lookup that returned [v] records ([synthesize]). *)
Definition answer_calls (v : Value) : list record_call :=
  if nonempty (v_addrs v) then [Accounts.Policy (v_policy v); Bump AnswersNOERROR]
  else if v_rcode v =? RcodeNameError then [Bump AnswersNXDomain]
  else if v_rcode v =? RcodeSuccess then [Bump AnswersNODATA]
  else [Bump AnswersSERVFAIL].

Definition failure_calls (fs : list (Z * string)) : list record_call :=
  (fun '(i, category) => UpstreamFailure i category) <$> fs.

Section Requests.
Context `{GoUnicode} `{DnsLib}.

Definition classify_request (req : Msg) : kind :=
  match m_question req with
  | [] => NoQuestion
  | q :: _ =>
      if match IsEdns0 req with Some opt => negb (OPT_Version opt =? 0) | None => false end then BadVersion
      else if address_query req q then ToResolve else ToForward
  end.

(** The sequences of calls of a request, with [n] upstreams.  A value with
    addresses has a policy that [policies] allows. *)
Inductive request_calls (n : nat) (policies : string -> Prop) : kind -> list record_call -> Prop :=
| calls_formerr : request_calls n policies NoQuestion [Bump FormErr]
| calls_version : request_calls n policies BadVersion []
| calls_forwarded fs i :
    (i < n)%nat ->
    request_calls n policies ToForward
      (Bump Forwarded :: failure_calls fs ++ [UpstreamResult (Z.of_nat i) "forwarded"])
| calls_not_forwarded fs :
    request_calls n policies ToForward (Bump Forwarded :: failure_calls fs ++ [Bump AnswersSERVFAIL])
| calls_failed : request_calls n policies ToResolve [Bump AnswersSERVFAIL]
| calls_answered v :
    (v_addrs v <> [] -> policies (v_policy v)) ->
    request_calls n policies ToResolve (Bump Resolved :: answer_calls v).

(** What handling a request does to the gauge and the counters. *)
Definition request_program (cs : list record_call) : list record_call :=
  Inflight 1 :: cs ++ [Inflight (-1)].

Lemma records_app m cs cs' : records (records m cs) cs' = records m (cs ++ cs').
Proof. unfold records. by rewrite foldl_app. Qed.

Lemma add_inflight_records d m : add_inflight d m = records m [Inflight d].
Proof. done. Qed.

Section Handler.
Context {W : Type} `{World W} `{LookupService W} (cfg : ServerConfig) (policies : string -> Prop).

(** The service's values with addresses have one of the policies. *)
Definition service_policies : Prop :=
  forall qname qtype w v w', svc_Lookup qname qtype w = (Ok v, w') -> v_addrs v <> [] -> policies (v_policy v).

Lemma synthesize_calls req q v :
  exists resp, forall m, synthesize req q v m = (resp, records m (answer_calls v)).
Proof.
  unfold synthesize, answer_calls. repeat split_match; by eexists.
Qed.

Lemma forward_loop_calls req ups : forall i w,
  exists o ups' w' fs, length ups' = length ups /\
    match o with
    | Some _ => exists j, (j < length ups)%nat /\ forall m, forward_loop cfg req (Z.of_nat i) ups w m =
        (o, ups', w', records m (failure_calls fs ++ [UpstreamResult (Z.of_nat (i + j)) "forwarded"]))
    | None => forall m, forward_loop cfg req (Z.of_nat i) ups w m = (o, ups', w', records m (failure_calls fs))
    end.
Proof.
  induction ups as [|[u cl] ups IH]; intros i w; cbn [forward_loop].
  { by exists None, [], w, []. }
  destruct (ctx_Err w) as [[e|] w1]; [by exists None, ((u, cl) :: ups), w1, []|].
  destruct (ctx_remaining w1) as [d w2]. set (b := match d with Some _ => _ | None => _ end).
  destruct (b <=? 0); [by exists None, ((u, cl) :: ups), w2, []|].
  destruct (dns_Id w2) as [id w3]. destruct (Exchange _ _ _ _) as [[resp|err] [cl' w4]].
  { exists (Some (set_id resp (m_id req))), ((u, cl') :: ups), w4, []. split; [done|].
    exists 0%nat. rewrite Nat.add_0_r. split; [cbn; lia|done]. }
  destruct (IH (S i) w4) as (o & ups' & w' & fs & Hlen & Ho).
  exists o, ((u, cl') :: ups'), w', ((Z.of_nat i, Category err) :: fs). split; [cbn; lia|].
  replace (Z.of_nat i + 1) with (Z.of_nat (S i)) by lia. destruct o as [r|].
  - destruct Ho as (j & Hj & Ho). exists (S j). split; [cbn; lia|]. intros m.
    rewrite Ho. replace (i + S j)%nat with (S i + j)%nat by lia. done.
  - intros m. by rewrite Ho.
Qed.

(** Handling a request only adds to the metrics, and adds one of its
    sequences of calls. *)
Lemma handleRequest_calls req ups w :
  service_policies ->
  exists resp ups' w' cs, length ups' = length ups /\
    request_calls (length ups) policies (classify_request req) cs /\
    forall m, handleRequest cfg req ups w m = (resp, ups', w', records m cs).
Proof.
  intros Hpol. unfold handleRequest, classify_request. destruct (m_question req) as [|q qs].
  { eexists _, ups, w, _. split; [done|]. split; [constructor|done]. }
  destruct (match IsEdns0 req with Some _ => _ | None => _ end).
  { eexists _, ups, w, _. split; [done|]. split; [constructor|done]. }
  destruct (address_query req q); cbn [negb].
  - destruct (svc_Lookup (q_name q) (q_qtype q) w) as [[v|e] w'] eqn:E.
    + destruct (synthesize_calls req q v) as (resp & Hs). eexists resp, ups, w', _. split; [done|].
      split; [by apply (calls_answered _ _ v); apply (Hpol _ _ _ _ _ E)|]. intros m. by rewrite Hs.
    + eexists _, ups, w', _. split; [done|]. split; [constructor|done].
  - unfold forward. change (forward_loop cfg req 0) with (forward_loop cfg req (Z.of_nat 0)).
    destruct (forward_loop_calls req ups 0 w) as (o & ups' & w' & fs & Hlen & Ho).
    destruct o as [resp|].
    + destruct Ho as (j & Hj & Ho). eexists resp, ups', w', _. split; [done|].
      split; [by apply (calls_forwarded _ _ fs j)|]. intros m. by rewrite (Ho (incr Forwarded m)).
    + eexists _, ups', w', _. split; [done|]. split; [apply (calls_not_forwarded _ _ fs)|]. intros m.
      rewrite (Ho (incr Forwarded m)). cbn. f_equal. change (incr ?k ?m) with (records m [Bump k]).
      by rewrite records_app.
Qed.

Lemma handleDatagram_calls req ups w :
  service_policies ->
  exists wire ups' w' cs, length ups' = length ups /\
    request_calls (length ups) policies (classify_request req) cs /\
    forall m, handleDatagram cfg req ups w m = (wire, ups', w', records m (request_program cs)).
Proof.
  intros Hpol. destruct (handleRequest_calls req ups w Hpol) as (resp & ups' & w' & cs & Hl & Hc & Hh).
  eexists _, ups', w', cs. split; [done|]. split; [done|]. intros m. unfold handleDatagram.
  rewrite Hh. do 2 f_equal. change (add_inflight ?d ?m) with (records m [Inflight d]).
  unfold request_program. by rewrite !records_app.
Qed.

(** A connection handles the requests of its frames one after the other. *)
Lemma handleTCPConn_calls fuel wok : forall k input ups w,
  service_policies ->
  exists out ups' w' reqs css, length ups' = length ups /\
    Forall2 (fun req => request_calls (length ups) policies (classify_request req)) reqs css /\
    forall m, handleTCPConn cfg fuel wok k input ups w m =
      (out, ups', w', records m (concat (request_program <$> css))).
Proof.
  induction fuel as [|fuel IH]; intros k input ups w Hpol; cbn [handleTCPConn];
    [|destruct (read_frame input) as [[data rest]|]; [destruct (Unpack data) as [req|]|]].
  1, 3, 4: by exists [], ups, w, [], [].
  destruct (handleRequest_calls req ups w Hpol) as (resp & ups1 & w1 & cs & Hl & Hc & Hh).
  assert (forall m, handleRequest cfg req ups w (add_inflight 1 m) =
    (resp, ups1, w1, records m (Inflight 1 :: cs))) as Hh1 by (intros m; by rewrite Hh).
  destruct (Pack resp) as [wire|] eqn:Ep; [destruct (wok k)|].
  2, 3: exists [], ups1, w1, [req], [cs]; split; [done|]; split; [by repeat constructor|];
    intros m; rewrite Hh1, Ep; cbn; change (add_inflight ?d ?m) with (records m [Inflight d]);
    by rewrite records_app, app_nil_r.
  destruct (IH (S k) rest ups1 w1 Hpol) as (out & ups2 & w2 & reqs & css & Hl2 & Hf & Hh2).
  exists (frame wire :: out), ups2, w2, (req :: reqs), (cs :: css). split; [lia|]. rewrite Hl in Hf.
  split; [by constructor|]. intros m. rewrite Hh1, Ep, Hh2. cbn beta iota.
  rewrite add_inflight_records, !records_app. do 2 f_equal. unfold request_program. cbn.
  by rewrite <-!app_assoc.
Qed.
End Handler.
End Requests.
