(* ===== verification/Front.v ===== *)
(** * Front: the serve loops, their handlers and the counters

    [serveUDP] and [serveTCP] of [internal/server/server.go] with what they
    count, over the control of [Intake]: each datagram and connection is
    counted, unpacked, admitted or dropped, and each handler makes the calls
    of the requests it handles ([Requests]) one at a time, interleaved with
    the loops, the other handlers and the engine's callback. *)

From S2P Require Import Prelude Netip GoText Dns Policy Upstream Engine Cache Metrics Exposition Accounts Server ServerProps Intake Main Start Requests.
#[local] Open Scope Z_scope.

(** The calls made so far, which the counters hold; the datagram the UDP loop
    has in hand; and for every running handler the calls it has left.  The
    requests handled and the handlers started so far are history. *)
Record Front := mkFront {
  fr_intake : Intake;
  fr_calls : list record_call;
  fr_datagram : option Msg;
  fr_handlers : list (list record_call);
  fr_requests : list Msg;
  fr_started : nat;
}.

Definition listen (udp tcp : bool) : Front := mkFront (Intake.start udp tcp) [] None [] [] 0.

Definition note (s : Front) (cs : list record_call) : Front :=
  mkFront (fr_intake s) (fr_calls s ++ cs) (fr_datagram s) (fr_handlers s) (fr_requests s) (fr_started s).
Definition set_intake (s : Front) (i : Intake) : Front :=
  mkFront i (fr_calls s) (fr_datagram s) (fr_handlers s) (fr_requests s) (fr_started s).
Definition in_hand (s : Front) (req : option Msg) : Front :=
  mkFront (fr_intake s) (fr_calls s) req (fr_handlers s) (fr_requests s) (fr_started s).
Definition set_handlers (s : Front) (hs : list (list record_call)) : Front :=
  mkFront (fr_intake s) (fr_calls s) (fr_datagram s) hs (fr_requests s) (fr_started s).
(** [go func() { ... }()] for these requests. *)
Definition go_handler (s : Front) (reqs : list Msg) (css : list (list record_call)) : Front :=
  mkFront (fr_intake s) (fr_calls s) (fr_datagram s)
    (fr_handlers s ++ [concat (request_program <$> css)]) (fr_requests s ++ reqs) (S (fr_started s)).

(** ** Sums over calls *)

Definition total {A} (w : A -> Z) (l : list A) : Z := foldr (fun a n => w a + n) 0 l.
Definition is_call (c d : record_call) : Z := if decide (c = d) then 1 else 0.

Section Total.
Context {A : Type}.
Implicit Types (w : A -> Z) (l : list A).

Lemma total_cons w a l : total w (a :: l) = w a + total w l.
Proof. done. Qed.

Lemma total_app w l l' : total w (l ++ l') = total w l + total w l'.
Proof. unfold total. induction l as [|a l IH]; cbn in *; [done|lia]. Qed.

Lemma total_perm w l l' : l ≡ₚ l' -> total w l = total w l'.
Proof. induction 1; rewrite ?total_cons; lia. Qed.

Lemma total_ext w w' l : (forall a, a ∈ l -> w a = w' a) -> total w l = total w' l.
Proof.
  induction l as [|a l IH]; intros Hw; [done|]. rewrite !total_cons.
  rewrite Hw by by left. f_equal. apply IH. intros b Hb. apply Hw. by right.
Qed.

Lemma total_zero w l : (forall a, w a = 0) -> total w l = 0.
Proof. intros Hw. induction l as [|a l IH]; [done|]. by rewrite total_cons, Hw, IH. Qed.

Lemma total_add w w' l : total (fun a => w a + w' a) l = total w l + total w' l.
Proof. induction l as [|a l IH]; [done|]. rewrite !total_cons. lia. Qed.

Lemma total_uint64 w l : uint64 (total (fun a => uint64 (w a)) l) = uint64 (total w l).
Proof.
  induction l as [|a l IH]; [done|]. rewrite !total_cons. unfold uint64 in *.
  rewrite Z.add_mod_idemp_l by done. by rewrite Zplus_mod, IH, <-Zplus_mod.
Qed.
End Total.

Lemma total_count c cs : total (is_call c) cs = Z.of_nat (count c cs).
Proof.
  induction cs as [|d cs IH]; [done|]. rewrite total_cons, IH.
  unfold count, is_call. rewrite filter_cons. destruct (decide (c = d)); cbn; lia.
Qed.

(** Counting calls of several kinds at once. *)
Lemma total_counts {A} (f : A -> record_call) l w cs :
  Forall (fun c => total (fun a => is_call (f a) c) l = w c) cs ->
  total (fun a => Z.of_nat (count (f a) cs)) l = total w cs.
Proof.
  intros Hw. rewrite (total_ext _ (fun a => total (is_call (f a)) cs)) by (intros a _; by rewrite total_count).
  induction Hw as [|c cs Hc _ IH].
  - clear. induction l as [|a l IH]; [done|]. by rewrite total_cons, IH.
  - rewrite total_cons, <-Hc, <-IH, <-total_add. by apply total_ext.
Qed.

Lemma total_indicator `{EqDecision A} (l : list A) a :
  NoDup l -> total (fun b => if decide (b = a) then 1 else 0) l = if decide (a ∈ l) then 1 else 0.
Proof.
  induction 1 as [|b l Hb _ IH]; [by rewrite decide_False by set_solver|]. rewrite total_cons, IH.
  destruct (decide (b = a)) as [->|Hne].
  - rewrite decide_False by done. by rewrite decide_True by (by left).
  - do 2 case_decide; set_solver.
Qed.

Section Front.
Context `{GoUnicode} `{DnsLib} (MaxConcurrency n : nat) (policies : string -> Prop).

(** ** The loops *)

(** An iteration of [serveUDP] that read a datagram, up to [wg.Add(1)]. *)
Definition serveUDP_read (s : Front) (data : list Z) : option Front :=
  if decide (i_udp (fr_intake s) = Reading) then
    let s := note s [Bump QueriesUDP] in
    match Unpack data with
    | None => Some (note s [Bump ParseError])
    | Some req =>
        match next MaxConcurrency (fr_intake s) (EvRead Udp) with
        | Some i =>
            if decide (i_udp i = Holding) then Some (in_hand (set_intake s i) (Some req))
            else Some (note (set_intake s i) [Bump DroppedOverload])
        | None => None
        end
    end
  else None.

(** The handler of the datagram in hand is started. *)
Definition serveUDP_go (s : Front) (cs : list record_call) : option Front :=
  match fr_datagram s, next MaxConcurrency (fr_intake s) (EvSpawn Udp) with
  | Some req, Some i => Some (go_handler (in_hand (set_intake s i) None) [req] [cs])
  | _, _ => None
  end.

(** [serveTCP] accepts a connection, and gives up on a slot for it. *)
Definition serveTCP_accept (s : Front) : option Front :=
  match next MaxConcurrency (fr_intake s) (EvRead Tcp) with
  | Some i => Some (note (set_intake s i) [Bump QueriesTCP])
  | None => None
  end.
Definition serveTCP_overload (s : Front) : option Front :=
  match next MaxConcurrency (fr_intake s) EvOverload with
  | Some i => Some (note (set_intake s i) [Bump DroppedOverload])
  | None => None
  end.
Definition serveTCP_go (s : Front) (reqs : list Msg) (css : list (list record_call)) : option Front :=
  match next MaxConcurrency (fr_intake s) (EvSpawn Tcp) with
  | Some i => Some (go_handler (set_intake s i) reqs css)
  | None => None
  end.

(** The steps of the control that record nothing. *)
Definition silent (e : Intake.event) : bool :=
  match e with
  | EvReadError _ | EvAcquire | EvLeave | EvCancel | EvLoopsStopped | EvDrained | EvDrainTimeout => true
  | EvRead _ | EvOverload | EvSpawn _ | EvRelease => false
  end.

Definition recorded (req : Msg) (cs : list record_call) : Prop :=
  request_calls n policies (classify_request req) cs.

Inductive front_step : Front -> Front -> Prop :=
| front_read s data s' : serveUDP_read s data = Some s' -> front_step s s'
| front_go s req cs s' :
    fr_datagram s = Some req -> recorded req cs -> serveUDP_go s cs = Some s' -> front_step s s'
| front_accept s s' : serveTCP_accept s = Some s' -> front_step s s'
| front_overload s s' : serveTCP_overload s = Some s' -> front_step s s'
| front_connection s reqs css s' :
    Forall2 recorded reqs css -> serveTCP_go s reqs css = Some s' -> front_step s s'
| front_record s hs c cs hs' :
    fr_handlers s = hs ++ (c :: cs) :: hs' ->
    front_step s (set_handlers (note s [c]) (hs ++ cs :: hs'))
| front_return s hs hs' i :
    fr_handlers s = hs ++ [] :: hs' -> next MaxConcurrency (fr_intake s) EvRelease = Some i ->
    front_step s (set_handlers (set_intake s i) (hs ++ hs'))
| front_engine s call : front_step s (note s (report_records call))
| front_silent s e i :
    silent e = true -> next MaxConcurrency (fr_intake s) e = Some i -> front_step s (set_intake s i).

Definition front_steps : Front -> Front -> Prop := rtc front_step.

(** ** The control is that of [Intake] *)

Lemma front_step_intake s s' :
  front_step s s' -> exists es, run MaxConcurrency (fr_intake s) es = Some (fr_intake s').
Proof.
  destruct 1 as [s data s' E|s req cs s' Hd _ E|s s' E|s s' E|s reqs css s' _ E|s hs c cs hs' E|
                 s hs hs' i _ E|s call|s e i _ E].
  - unfold serveUDP_read in E. case_decide as Hr; [|done]. destruct (Unpack data).
    + cbn [fr_intake note] in E. destruct (next _ _ _) as [i|] eqn:En; [|done]. exists [EvRead Udp].
      cbn [run]. rewrite En. by case_decide; injection E as <-.
    + injection E as <-. by exists [].
  - unfold serveUDP_go in E. rewrite Hd in E. destruct (next _ _ _) as [i|] eqn:En; [|done].
    injection E as <-. exists [EvSpawn Udp]. cbn [run]. by rewrite En.
  - unfold serveTCP_accept in E. destruct (next _ _ _) as [i|] eqn:En; [|done].
    injection E as <-. exists [EvRead Tcp]. cbn [run]. by rewrite En.
  - unfold serveTCP_overload in E. destruct (next _ _ _) as [i|] eqn:En; [|done].
    injection E as <-. exists [EvOverload]. cbn [run]. by rewrite En.
  - unfold serveTCP_go in E. destruct (next _ _ _) as [i|] eqn:En; [|done].
    injection E as <-. exists [EvSpawn Tcp]. cbn [run]. by rewrite En.
  - by exists [].
  - exists [EvRelease]. cbn [run]. by rewrite E.
  - by exists [].
  - exists [e]. cbn [run]. by rewrite E.
Qed.

Lemma run_app es es' s s1 s2 :
  run MaxConcurrency s es = Some s1 -> run MaxConcurrency s1 es' = Some s2 ->
  run MaxConcurrency s (es ++ es') = Some s2.
Proof.
  revert s. induction es as [|e es IH]; intros s; cbn; [by intros [= ->]|].
  destruct (next _ _ _); [apply IH|done].
Qed.

(** Every run of the front end is a run of [Intake]. *)
Lemma front_refines_intake s s' :
  front_steps s s' -> exists es, run MaxConcurrency (fr_intake s) es = Some (fr_intake s').
Proof.
  induction 1 as [s|s s1 s2 H1 _ (es & IH)]; [by exists []|].
  destruct (front_step_intake _ _ H1) as (es1 & E1). exists (es1 ++ es). by eapply run_app.
Qed.

(** ** What the requests add up to *)

(** [g] is the sum of the weights [w] over the calls of a request, by its
    kind; nothing else has a weight. *)
Record tally (w : record_call -> Z) (g : kind -> Z) : Prop := {
  ta_calls : forall k cs, request_calls n policies k cs -> total w cs = g k;
  ta_gauge : forall d, w (Inflight d) = 0;
  ta_loops : forall k, k ∈ [QueriesUDP; QueriesTCP; ParseError; DroppedOverload] -> w (Bump k) = 0;
  ta_engine : forall call, total w (report_records call) = 0;
}.

Definition sum_kinds (g : kind -> Z) (reqs : list Msg) : Z :=
  foldr (fun req n => g (classify_request req) + n) 0 reqs.

Lemma sum_kinds_cons g req reqs : sum_kinds g (req :: reqs) = g (classify_request req) + sum_kinds g reqs.
Proof. done. Qed.

Lemma sum_kinds_app g reqs reqs' : sum_kinds g (reqs ++ reqs') = sum_kinds g reqs + sum_kinds g reqs'.
Proof. unfold sum_kinds. induction reqs as [|r reqs IH]; cbn in *; [done|lia]. Qed.

Lemma program_tally w g k cs :
  tally w g -> request_calls n policies k cs -> total w (request_program cs) = g k.
Proof.
  intros Ht Hc. unfold request_program.
  rewrite total_cons, total_app, (ta_calls w g Ht k cs Hc). cbn. rewrite !(ta_gauge w g Ht). lia.
Qed.

Lemma programs_tally w g reqs css :
  tally w g -> Forall2 recorded reqs css -> total w (concat (request_program <$> css)) = sum_kinds g reqs.
Proof.
  intros Ht. induction 1 as [|req cs reqs css Hc _ IH]; [done|].
  cbn [fmap list_fmap concat]. rewrite total_app, IH, (program_tally w g _ cs Ht Hc). done.
Qed.

(** The weights of an end of a request: a reply of the server's own with its
    counter, or a reply of an upstream. *)
Definition w_end (c : record_call) : Z :=
  match c with
  | Bump (FormErr | AnswersNOERROR | AnswersNXDomain | AnswersNODATA | AnswersSERVFAIL) => 1
  | UpstreamResult _ s => if String.eqb s "forwarded" then 1 else 0
  | _ => 0
  end.
Definition is_kind (k k' : kind) : Z := if decide (k = k') then 1 else 0.
Definition w_policy (c : record_call) : Z :=
  match c with Accounts.Policy _ => 1 | Bump AnswersNOERROR => -1 | _ => 0 end.

Lemma total_failures w fs : (forall i c, w (UpstreamFailure i c) = 0) -> total w (failure_calls fs) = 0.
Proof. intros Hw. induction fs as [|[i c] fs IH]; [done|]. cbn [failure_calls fmap list_fmap]. by rewrite total_cons, Hw. Qed.

Lemma engine_state call : exists i s cs, report_records call = UpstreamResult i s :: cs /\ s <> "forwarded" /\
  forall w, (forall i c, w (UpstreamFailure i c) = 0) -> total w cs = 0.
Proof.
  destruct call as [[idx st] cat]. eexists _, _, _. split; [done|]. split; [by destruct st|].
  intros w Hw. case_decide; cbn; rewrite ?Hw; done.
Qed.

Ltac prove_tally :=
  split;
  [intros k cs Hc; destruct Hc as [| |fs i Hi|fs| |v Hv];
     rewrite ?total_cons, ?total_app, ?total_failures by done; try done;
     unfold answer_calls; repeat (case_match; try done)
  |done
  |intros k Hk; rewrite !elem_of_cons, elem_of_nil in Hk; naive_solver
  |intros call; destruct (engine_state call) as (i & s & cs & -> & Hs & Ht); rewrite total_cons, Ht by done; cbn;
     try (apply String.eqb_neq in Hs as ->); done].

Lemma ends_tally : tally w_end (fun k => 1 - is_kind BadVersion k).
Proof. prove_tally. Qed.
Lemma formerr_tally : tally (is_call (Bump FormErr)) (is_kind NoQuestion).
Proof. prove_tally. Qed.
Lemma forwarded_tally : tally (is_call (Bump Forwarded)) (is_kind ToForward).
Proof. prove_tally. Qed.
Lemma policy_tally : tally w_policy (fun _ => 0).
Proof. prove_tally. Qed.

(** ** Handlers and the gauge *)

Definition w_gauge (c : record_call) : Z := match c with Inflight d => d | _ => 0 end.

(** What a handler has left leaves the gauge where it is, or takes back the
    one request it is in. *)
Fixpoint gauge_ok (cs : list record_call) : Prop :=
  match cs with
  | [] => True
  | c :: cs' => (total w_gauge cs = 0 \/ total w_gauge cs = -1) /\ gauge_ok cs'
  end.

Lemma gauge_now cs : gauge_ok cs -> total w_gauge cs = 0 \/ total w_gauge cs = -1.
Proof. destruct cs as [|c cs]; [by left|]. by intros [? _]. Qed.

Lemma gauge_ok_app cs cs' :
  total w_gauge cs' = 0 -> gauge_ok cs' -> gauge_ok cs -> gauge_ok (cs ++ cs').
Proof.
  intros H0' Hok. induction cs as [|c cs IH]; [done|]. intros [Hc Hcs]. cbn [app gauge_ok].
  split; [|by apply IH]. change (c :: cs ++ cs') with ((c :: cs) ++ cs'). rewrite total_app. lia.
Qed.

(** The calls of a request do not touch the gauge. *)
Lemma request_no_gauge k cs : request_calls n policies k cs -> Forall (fun c => w_gauge c = 0) cs.
Proof.
  assert (forall fs, Forall (fun c => w_gauge c = 0) (failure_calls fs)) as Hf.
  { intros fs. unfold failure_calls. apply Forall_fmap, Forall_true. by intros []. }
  destruct 1; repeat constructor; try (apply Forall_app; split; [done|by repeat constructor]).
  unfold answer_calls. repeat case_match; by repeat constructor.
Qed.

Lemma program_gauge k cs :
  request_calls n policies k cs -> total w_gauge (request_program cs) = 0 /\ gauge_ok (request_program cs).
Proof.
  intros Hc%request_no_gauge. unfold request_program. cbn [gauge_ok]. rewrite total_cons.
  assert (total w_gauge (cs ++ [Inflight (-1)]) = -1 /\ gauge_ok (cs ++ [Inflight (-1)])) as [E Hok].
  { induction Hc as [|c cs Hc _ [E Hok]]; [by repeat constructor|]. cbn [app gauge_ok].
    rewrite total_cons. cbn in Hc. rewrite Hc, E. by repeat split; [right|]. }
  rewrite E. cbn. by repeat split; [left|].
Qed.

Lemma programs_gauge reqs css :
  Forall2 recorded reqs css ->
  total w_gauge (concat (request_program <$> css)) = 0 /\ gauge_ok (concat (request_program <$> css)).
Proof.
  induction 1 as [|req cs reqs css Hc _ [E Hok]]; [done|]. cbn [fmap list_fmap concat].
  destruct (program_gauge _ _ Hc) as [E1 H1']. rewrite total_app, E1, E. split; [done|].
  by apply gauge_ok_app.
Qed.

(** Calls that are counted under a name the metrics have. *)
Definition known (c : record_call) : Prop :=
  match c with
  | UpstreamResult i s => s = "forwarded" -> 0 <= i < Z.of_nat n
  | Accounts.Policy p => policies p
  | _ => True
  end.

Lemma request_known k cs : request_calls n policies k cs -> Forall known cs.
Proof.
  assert (forall fs, Forall known (failure_calls fs)) as Hf.
  { intros fs. unfold failure_calls. apply Forall_fmap, Forall_true. by intros []. }
  destruct 1 as [| |fs i Hi|fs| |v Hv]; repeat constructor.
  - apply Forall_app. split; [done|]. apply Forall_singleton. cbn. lia.
  - apply Forall_app. split; [done|]. by repeat constructor.
  - unfold answer_calls. destruct (v_addrs v) as [|a l]; cbn [nonempty].
    + repeat case_match; by repeat constructor.
    + repeat constructor. by apply Hv.
Qed.

Lemma programs_known reqs css :
  Forall2 recorded reqs css -> Forall known (concat (request_program <$> css)).
Proof.
  induction 1 as [|req cs reqs css Hc%request_known _ IH]; [constructor|]. cbn [fmap list_fmap concat].
  unfold request_program. cbn [app]. constructor; [done|]. rewrite !Forall_app.
  split; [split; [done|by apply Forall_singleton]|done].
Qed.

(** The calls of a request are not those of the loops. *)
Lemma request_not_loops k cs w :
  request_calls n policies k cs -> (forall i s, w (UpstreamResult i s) = 0) ->
  (forall i s, w (UpstreamFailure i s) = 0) -> (forall p, w (Accounts.Policy p) = 0) ->
  (forall k, k ∉ [QueriesUDP; QueriesTCP; ParseError; DroppedOverload] -> w (Bump k) = 0) ->
  total w cs = 0.
Proof.
  intros Hc Hr Hf Hp Hb.
  destruct Hc as [| |fs i Hi|fs| |v Hv]; unfold answer_calls; repeat case_match;
    rewrite ?total_cons, ?total_app, ?total_failures by done; cbn;
    rewrite ?Hr, ?Hp, ?Hb by (rewrite !elem_of_cons, elem_of_nil; naive_solver); done.
Qed.

Lemma programs_not_loops reqs css w :
  Forall2 recorded reqs css -> (forall i s, w (UpstreamResult i s) = 0) ->
  (forall i s, w (UpstreamFailure i s) = 0) -> (forall p, w (Accounts.Policy p) = 0) ->
  (forall k, k ∉ [QueriesUDP; QueriesTCP; ParseError; DroppedOverload] -> w (Bump k) = 0) ->
  (forall d, w (Inflight d) = 0) -> total w (concat (request_program <$> css)) = 0.
Proof.
  intros Hf Hr Hu Hp Hb Hi. induction Hf as [|req cs reqs css Hc _ IH]; [done|].
  cbn [fmap list_fmap concat]. rewrite total_app, IH. unfold request_program.
  rewrite total_cons, total_app, (request_not_loops _ _ w Hc), !Hi by done. cbn. by rewrite Hi.
Qed.

(** ** Invariant *)

(** The calls made and those that are left to the handlers. *)
Definition all_calls (s : Front) : list record_call := fr_calls s ++ concat (fr_handlers s).

Definition waiting (l : loop_state) : Z := match l with Admitting | Holding => 1 | Reading | Stopped => 0 end.
Definition waits (i : Intake) : Z := waiting (i_udp i) + waiting (i_tcp i).

Definition w_query (c : record_call) : Z :=
  match c with
  | Bump (QueriesUDP | QueriesTCP) => 1
  | Bump (ParseError | DroppedOverload) => -1
  | _ => 0
  end.

Record front_ok (s : Front) : Prop := {
  fk_intake : intake_ok MaxConcurrency (fr_intake s);
  fk_running : length (fr_handlers s) = i_running (fr_intake s);
  fk_hand : is_Some (fr_datagram s) <-> i_udp (fr_intake s) = Holding;
  fk_gauge : Forall gauge_ok (fr_handlers s);
  fk_known : Forall known (all_calls s);
  fk_inflight : total w_gauge (all_calls s) = 0;
  fk_tally : forall w g, tally w g -> total w (all_calls s) = sum_kinds g (fr_requests s);
  fk_query : total w_query (all_calls s) = Z.of_nat (fr_started s) + waits (fr_intake s);
  fk_dropped : total (is_call (Bump DroppedOverload)) (all_calls s) = Z.of_nat (i_dropped (fr_intake s));
}.

(** What an event does to the control, as far as it is counted. *)
Definition effect (i : Intake) (e : Intake.event) (i' : Intake) : Prop :=
  match e with
  | EvRead Udp =>
      i_running i' = i_running i /\
      ((i_udp i' = Holding /\ waits i' = waits i + 1 /\ i_dropped i' = i_dropped i) \/
       (i_udp i' = Reading /\ waits i' = waits i /\ i_dropped i' = S (i_dropped i)))
  | EvRead Tcp =>
      i_running i' = i_running i /\ i_udp i' = i_udp i /\ waits i' = waits i + 1 /\ i_dropped i' = i_dropped i
  | EvOverload =>
      i_running i' = i_running i /\ i_udp i' = i_udp i /\ waits i = waits i' + 1 /\ i_dropped i' = S (i_dropped i)
  | EvSpawn Udp =>
      i_running i' = S (i_running i) /\ i_udp i' = Reading /\ waits i = waits i' + 1 /\ i_dropped i' = i_dropped i
  | EvSpawn Tcp =>
      i_running i' = S (i_running i) /\ i_udp i' = i_udp i /\ waits i = waits i' + 1 /\ i_dropped i' = i_dropped i
  | EvRelease =>
      i_running i = S (i_running i') /\ i_udp i' = i_udp i /\ waits i' = waits i /\ i_dropped i' = i_dropped i
  | _ =>
      i_running i' = i_running i /\ (i_udp i' = Holding <-> i_udp i = Holding) /\
      waits i' = waits i /\ i_dropped i' = i_dropped i
  end.

Lemma next_effect i e i' : next MaxConcurrency i e = Some i' -> effect i e i'.
Proof.
  destruct i as [sem wg running released udp tcp done main dropped].
  destruct e as [[]|[]| | |[]| | | | | |]; cbn; unfold acquire; cbn; intros Hn;
    repeat (split_match_in Hn; try discriminate Hn); injection Hn as <-; unfold waits; cbn;
    repeat match goal with
    | H : _ && _ = true |- _ => apply andb_true_iff in H as [? ?]
    | H : (_ <? _)%nat = true |- _ => apply Nat.ltb_lt in H
    | H : decide _ = left _ |- _ => clear H
    end; subst; cbn; try by split_and!; try lia.
  all: naive_solver lia.
Qed.

(** ** Preservation *)

(** A step that adds these calls and requests. *)
Lemma front_ok_added s s' added reqs :
  front_ok s -> intake_ok MaxConcurrency (fr_intake s') ->
  length (fr_handlers s') = i_running (fr_intake s') ->
  (is_Some (fr_datagram s') <-> i_udp (fr_intake s') = Holding) ->
  Forall gauge_ok (fr_handlers s') ->
  all_calls s' ≡ₚ all_calls s ++ added -> fr_requests s' = fr_requests s ++ reqs ->
  Forall known added -> total w_gauge added = 0 ->
  (forall w g, tally w g -> total w added = sum_kinds g reqs) ->
  total w_query added + Z.of_nat (fr_started s) + waits (fr_intake s) =
    Z.of_nat (fr_started s') + waits (fr_intake s') ->
  total (is_call (Bump DroppedOverload)) added + Z.of_nat (i_dropped (fr_intake s)) =
    Z.of_nat (i_dropped (fr_intake s')) ->
  front_ok s'.
Proof.
  intros [_ _ _ _ Hk Hg Ht Hq Hd] Hi Hr Hh Hgs Hall Hreqs Hka Hga Hta Hqa Hda.
  assert (forall w, total w (all_calls s') = total w (all_calls s) + total w added) as E
    by (intros w; by rewrite <-total_app; apply total_perm).
  split; try done; rewrite ?E; try lia.
  - rewrite Hall. by apply Forall_app.
  - intros w g Hw. by rewrite E, Hreqs, sum_kinds_app, (Ht w g Hw), (Hta w g Hw).
Qed.

(** A step of the loops that starts no handler. *)
Lemma loop_step_ok s i req ks :
  front_ok s -> intake_ok MaxConcurrency i -> i_running i = i_running (fr_intake s) ->
  (is_Some req <-> i_udp i = Holding) ->
  Forall (fun k => k ∈ [QueriesUDP; QueriesTCP; ParseError; DroppedOverload]) ks ->
  total w_query (Bump <$> ks) + waits (fr_intake s) = waits i ->
  total (is_call (Bump DroppedOverload)) (Bump <$> ks) + Z.of_nat (i_dropped (fr_intake s)) =
    Z.of_nat (i_dropped i) ->
  front_ok (mkFront i (fr_calls s ++ (Bump <$> ks)) req (fr_handlers s) (fr_requests s) (fr_started s)).
Proof.
  intros Hs Hi Hr Hh Hks Hq Hd. eapply (front_ok_added s _ (Bump <$> ks) []); cbn; try done; try lia.
  - rewrite Hr. apply Hs.
  - apply Hs.
  - unfold all_calls. cbn. rewrite <-!app_assoc. f_equiv. apply Permutation_app_comm.
  - by rewrite app_nil_r.
  - apply Forall_fmap, Forall_true. done.
  - clear. induction ks as [|k ks IH]; [done|]. cbn. exact IH.
  - intros w g Hw. clear -Hks Hw. induction Hks as [|k ks Hk _ IH]; [done|].
    cbn [fmap list_fmap]. rewrite total_cons, (ta_loops w g Hw k Hk). exact IH.
Qed.

(** A handler starts. *)
Lemma go_ok s i req reqs css :
  front_ok s -> intake_ok MaxConcurrency i -> i_running i = S (i_running (fr_intake s)) ->
  (is_Some req <-> i_udp i = Holding) -> Forall2 recorded reqs css ->
  waits (fr_intake s) = waits i + 1 -> i_dropped i = i_dropped (fr_intake s) ->
  front_ok (go_handler (in_hand (set_intake s i) req) reqs css).
Proof.
  intros Hs Hi Hr Hh Hf Hq Hd. set (cs := concat (request_program <$> css)).
  destruct (programs_gauge reqs css Hf) as [Hg0 Hgok].
  eapply (front_ok_added s _ cs reqs); cbn; try done.
  - rewrite length_app, (fk_running s Hs), Hr. cbn. lia.
  - apply Forall_app. split; [apply Hs|by apply Forall_singleton].
  - unfold all_calls. cbn. by rewrite concat_app, app_assoc; cbn; rewrite app_nil_r.
  - by eapply programs_known.
  - intros w g Hw. by apply programs_tally.
  - unfold cs. rewrite (programs_not_loops reqs css w_query Hf); try done; [lia|].
    intros k Hk. rewrite !not_elem_of_cons in Hk. destruct k; naive_solver.
  - unfold cs. rewrite (programs_not_loops reqs css (is_call _) Hf); try done; [lia|].
    intros k Hk. rewrite !not_elem_of_cons in Hk. unfold is_call. case_decide; naive_solver.
Qed.

(** A handler goes on, or returns; the calls made and left are the same. *)
Lemma handlers_ok s i cs hs :
  front_ok s -> intake_ok MaxConcurrency i -> length hs = i_running i ->
  i_udp i = i_udp (fr_intake s) -> waits i = waits (fr_intake s) -> i_dropped i = i_dropped (fr_intake s) ->
  Forall gauge_ok hs -> cs ++ concat hs ≡ₚ concat (fr_handlers s) ->
  front_ok (set_handlers (note (set_intake s i) cs) hs).
Proof.
  intros Hs Hi Hr Hu Hw Hd Hg Hall. eapply (front_ok_added s _ [] []); cbn; try done.
  - rewrite Hu. apply Hs.
  - unfold all_calls. cbn. by rewrite <-app_assoc, Hall, app_nil_r.
  - by rewrite app_nil_r.
  - lia.
  - lia.
Qed.

Lemma engine_ok s call : front_ok s -> front_ok (note s (report_records call)).
Proof.
  intros Hs. destruct (engine_state call) as (i & st & cs & E & Hst & Hcs).
  assert (Forall known cs) as Hk.
  { destruct call as [[idx st'] cat]. cbn in E. injection E as _ _ <-.
    case_decide; by repeat constructor. }
  eapply (front_ok_added s _ (report_records call) []); cbn; try apply Hs.
  - unfold all_calls. cbn. rewrite <-!app_assoc. f_equiv. apply Permutation_app_comm.
  - by rewrite app_nil_r.
  - rewrite E. by constructor; [intros ?|].
  - rewrite E, total_cons, Hcs by done. done.
  - intros w g Hw. apply (ta_engine w g Hw).
  - rewrite E, total_cons, Hcs by done. done.
  - rewrite E, total_cons, Hcs by done. done.
Qed.

(** Sums of weights over the calls of a loop. *)
Ltac loop_sum :=
  match goal with
  | |- context [total ?w ?cs] =>
      let v := eval vm_compute in (total w cs) in change (total w cs) with v; lia
  end.

Lemma serveUDP_read_ok s data s' : front_ok s -> serveUDP_read s data = Some s' -> front_ok s'.
Proof.
  intros Hs E. unfold serveUDP_read in E. case_decide as Hr; [|done].
  destruct (Unpack data) as [req|]; cbn [fr_intake note] in E.
  2: { injection E as <-. unfold note. cbn. rewrite <-app_assoc.
       apply (loop_step_ok s _ _ [QueriesUDP; ParseError] Hs); try apply Hs; try done.
       repeat constructor; set_solver. }
  destruct (next _ _ _) as [i|] eqn:En; [|done]. pose proof (next_ok _ _ _ _ (fk_intake s Hs) En) as Hi.
  destruct (next_effect _ _ _ En) as (Hrun & [(Hu & Hw & Hd)|(Hu & Hw & Hd)]); rewrite Hu in E; cbn in E;
    injection E as <-.
  - apply (loop_step_ok s i (Some req) [QueriesUDP] Hs); try done.
    + repeat constructor; set_solver.
    + loop_sum.
    + loop_sum.
  - unfold note. cbn. rewrite <-app_assoc.
    apply (loop_step_ok s i _ [QueriesUDP; DroppedOverload] Hs); try done.
    + rewrite Hu, (fk_hand s Hs), Hr. done.
    + repeat constructor; set_solver.
    + loop_sum.
Qed.

Lemma handler_returns_ok s hs hs' i :
  front_ok s -> fr_handlers s = hs ++ [] :: hs' -> next MaxConcurrency (fr_intake s) EvRelease = Some i ->
  front_ok (set_handlers (set_intake s i) (hs ++ hs')).
Proof.
  intros Hs Hh E. pose proof (fk_gauge s Hs) as Hg. pose proof (fk_running s Hs) as Hrun.
  rewrite Hh in *. apply Forall_app in Hg as [Hg1 [_ Hg3]%Forall_cons].
  destruct (next_effect _ _ _ E) as (Hr & Hu & Hw & Hd).
  replace (set_handlers (set_intake s i) (hs ++ hs'))
    with (set_handlers (note (set_intake s i) []) (hs ++ hs'))
    by (unfold set_handlers, note; cbn; by rewrite app_nil_r).
  apply handlers_ok; try done.
  - eapply next_ok; [apply Hs|exact E].
  - rewrite !length_app in *. cbn in Hrun. lia.
  - by apply Forall_app.
  - rewrite Hh, !concat_app. done.
Qed.

Lemma silent_ok s e i :
  front_ok s -> silent e = true -> next MaxConcurrency (fr_intake s) e = Some i -> front_ok (set_intake s i).
Proof.
  intros Hs He E. pose proof (next_effect _ _ _ E) as Heff.
  assert (i_running i = i_running (fr_intake s) /\ (i_udp i = Holding <-> i_udp (fr_intake s) = Holding) /\
    waits i = waits (fr_intake s) /\ i_dropped i = i_dropped (fr_intake s)) as (Hr & Hu & Hw & Hd)
    by (by destruct e as [[]|[]| | |[]| | | | | |]).
  eapply (front_ok_added s _ [] []); cbn; try apply Hs; try done; try lia.
  - eapply next_ok; [apply Hs|exact E].
  - rewrite Hr. apply Hs.
  - rewrite Hu. apply Hs.
  - by rewrite app_nil_r.
  - by rewrite app_nil_r.
Qed.

Lemma front_step_ok s s' : front_step s s' -> front_ok s -> front_ok s'.
Proof.
  destruct 1 as [s data s' E|s req cs s' Hreq Hc E|s s' E|s s' E|s reqs css s' Hf E|s hs c cs hs' Hh|
                 s hs hs' i Hh E|s call|s e i He E]; intros Hs; pose proof (fk_hand s Hs) as Hand;
    pose proof (fk_intake s Hs) as Hok; pose proof (fk_gauge s Hs) as Hg; pose proof (fk_running s Hs) as Hrun.
  - by eapply serveUDP_read_ok.
  - unfold serveUDP_go in E. rewrite Hreq in E. destruct (next _ _ _) as [i|] eqn:En; [|done].
    injection E as <-. destruct (next_effect _ _ _ En) as (Hr & Hu & Hw & Hd).
    apply go_ok; try done; [by eapply next_ok|by rewrite Hu|by repeat constructor].
  - unfold serveTCP_accept in E. destruct (next _ _ _) as [i|] eqn:En; [|done]. injection E as <-.
    destruct (next_effect _ _ _ En) as (Hr & Hu & Hw & Hd).
    apply (loop_step_ok s i (fr_datagram s) [QueriesTCP] Hs); try done;
      [by eapply next_ok|by rewrite Hu|by repeat constructor; set_solver|loop_sum|loop_sum].
  - unfold serveTCP_overload in E. destruct (next _ _ _) as [i|] eqn:En; [|done]. injection E as <-.
    destruct (next_effect _ _ _ En) as (Hr & Hu & Hw & Hd).
    apply (loop_step_ok s i (fr_datagram s) [DroppedOverload] Hs); try done;
      [by eapply next_ok|by rewrite Hu|by repeat constructor; set_solver|loop_sum|loop_sum].
  - unfold serveTCP_go in E. destruct (next _ _ _) as [i|] eqn:En; [|done]. injection E as <-.
    destruct (next_effect _ _ _ En) as (Hr & Hu & Hw & Hd).
    apply (go_ok s i (fr_datagram s)); try done; [by eapply next_ok|by rewrite Hu].
  - rewrite Hh in *. apply Forall_app in Hg as [Hg1 [[_ Hg2] Hg3]%Forall_cons].
    apply (handlers_ok s (fr_intake s)); try done.
    + rewrite <-Hrun, !length_app. done.
    + rewrite Forall_app, Forall_cons. done.
    + rewrite Hh, !concat_app. cbn. solve_Permutation.
  - by eapply handler_returns_ok.
  - by apply engine_ok.
  - by eapply silent_ok.
Qed.

Lemma front_reachable_ok udp tcp s : front_steps (listen udp tcp) s -> front_ok s.
Proof.
  intros Hr. assert (front_ok (listen udp tcp)) as Hi.
  { split; cbn; try done; [apply start_ok| |by destruct udp, tcp].
    split; [by intros []|by destruct udp]. }
  revert Hi. induction Hr as [|s1 s2 s3 H12 _ IH]; [done|]. intros Hs. eauto using front_step_ok.
Qed.

(** ** Reading the counters *)

Definition of_kind (k : kind) (reqs : list Msg) : nat :=
  length (filter (fun req => classify_request req = k) reqs).

Lemma sum_of_kind k reqs : sum_kinds (is_kind k) reqs = Z.of_nat (of_kind k reqs).
Proof.
  induction reqs as [|r reqs IH]; [done|]. rewrite sum_kinds_cons, IH.
  unfold of_kind, is_kind. rewrite filter_cons. do 2 case_decide; cbn; congruence || lia.
Qed.

Lemma sum_supported reqs :
  sum_kinds (fun k => 1 - is_kind BadVersion k) reqs = Z.of_nat (length reqs - of_kind BadVersion reqs).
Proof.
  assert (of_kind BadVersion reqs <= length reqs)%nat as Hle by apply length_filter.
  rewrite Nat2Z.inj_sub, <-sum_of_kind by done. clear.
  induction reqs as [|r reqs IH]; [done|]. rewrite !sum_kinds_cons. cbn [length]. lia.
Qed.

Lemma inflight_total cs : inflight cs = total w_gauge cs.
Proof. induction cs as [|c cs IH]; [done|]. rewrite total_cons, <-IH. by destruct c. Qed.

Lemma handlers_gauge hs :
  Forall gauge_ok hs -> - Z.of_nat (length hs) <= total w_gauge (concat hs) <= 0.
Proof.
  induction 1 as [|h hs Hh%gauge_now _ IH]; [done|]. cbn [concat length]. rewrite total_app. lia.
Qed.

Section Counters.
Context (labels : list string) (t0 : Z) (cs : list record_call).
Let m : Metrics := records (New labels t0) cs.

Lemma counters_total ks :
  uint64 (total (mt_counts m) ks) = uint64 (total (fun k => Z.of_nat (count (Bump k) cs)) ks).
Proof.
  rewrite (total_ext _ (fun k => uint64 (Z.of_nat (count (Bump k) cs)))) by (intros k _; apply records_counts).
  apply total_uint64.
Qed.

(** The replies of upstreams that were passed on, over all upstreams. *)
Definition forwarded_by (u : UpstreamMetrics) : Z := default 0 (um_results u !! "forwarded").
Definition w_forwarded (c : record_call) : Z :=
  match c with UpstreamResult _ s => if String.eqb s "forwarded" then 1 else 0 | _ => 0 end.

Lemma total_over_upstreams (f : UpstreamMetrics -> Z) (g : nat -> Z) (us : list UpstreamMetrics) :
  (forall i u, us !! i = Some u -> f u = g i) -> total f us = total g (seq 0 (length us)).
Proof.
  revert g. induction us as [|u us IH]; intros g Hf; [done|]. cbn [length seq]. rewrite !total_cons.
  rewrite (Hf 0%nat u eq_refl), <-fmap_S_seq. f_equal.
  rewrite (IH (fun i => g (S i))) by (intros i v Hv; by apply (Hf (S i))).
  clear. induction (seq 0 (length us)) as [|i l IH]; [done|]. cbn [fmap list_fmap]. rewrite !total_cons. lia.
Qed.

Lemma forwarded_total :
  length labels = n -> Forall known cs ->
  uint64 (total forwarded_by (mt_upstreams m)) = uint64 (total w_forwarded cs).
Proof.
  intros Hn Hk. assert (counts labels t0 cs m) as Hc by apply records_counts.
  rewrite (total_over_upstreams _
    (fun i => uint64 (Z.of_nat (count (UpstreamResult (Z.of_nat i) "forwarded") cs)))).
  2: { intros i u Hu. unfold forwarded_by. rewrite (proj1 (cn_upstreams _ _ _ _ Hc i u Hu "forwarded")).
       unfold counted. by destruct (count _ _). }
  rewrite total_uint64. f_equal. apply (total_counts (fun i => UpstreamResult (Z.of_nat i) "forwarded")).
  replace (length (mt_upstreams m)) with n by (by rewrite <-Hn, <-(cn_labels _ _ _ _ Hc), length_fmap).
  eapply Forall_impl; [exact Hk|]. intros c Hkc.
  destruct c as [k|d|i s|i s|p]; try (apply total_zero; intros j; unfold is_call; by case_decide).
  cbn in *. destruct (String.eqb_spec s "forwarded") as [->|Hs];
    [|apply total_zero; intros j; unfold is_call; case_decide; congruence].
  rewrite (total_ext _ (fun j => if decide (j = Z.to_nat i) then 1 else 0)).
  - specialize (Hkc eq_refl). rewrite total_indicator by apply NoDup_seq.
    rewrite decide_True; [done|]. apply elem_of_seq. lia.
  - intros j _. unfold is_call. do 2 case_decide; try done; [simplify_eq; lia|].
    subst. rewrite Z2Nat.id in * by (specialize (Hkc eq_refl); lia). done.
Qed.

(** The policy counters together. *)
Definition w_policies (c : record_call) : Z := match c with Accounts.Policy _ => 1 | _ => 0 end.

Lemma policies_total :
  (forall p, policies p -> p ∈ policy_names) -> Forall known cs ->
  uint64 (total (fun p => default 0 (mt_policies m !! p)) policy_names) = uint64 (total w_policies cs).
Proof.
  intros Hp Hk. assert (counts labels t0 cs m) as Hc by apply records_counts.
  rewrite (total_ext _ (fun p => uint64 (Z.of_nat (count (Accounts.Policy p) cs)))).
  2: { intros p Hin. by rewrite (cn_policies _ _ _ _ Hc p Hin). }
  rewrite total_uint64. f_equal. apply (total_counts Accounts.Policy).
  eapply Forall_impl; [exact Hk|]. intros c Hkc.
  destruct c as [k|d|i s|i s|p]; try (apply total_zero; intros q; unfold is_call; by case_decide).
  rewrite (total_ext _ (fun q => if decide (q = p) then 1 else 0)).
  - rewrite total_indicator, decide_True; [done|by apply Hp|]. apply (bool_decide_unpack _). by vm_compute.
  - intros q _. unfold is_call. do 2 case_decide; congruence.
Qed.
End Counters.

Lemma uint64_plus a b a' b' : uint64 a = uint64 a' -> uint64 b = uint64 b' -> uint64 (a + b) = uint64 (a' + b').
Proof. unfold uint64. intros Ha Hb. by rewrite Zplus_mod, Ha, Hb, <-Zplus_mod. Qed.

(** ** Theorems *)

(** C32: the gauge of requests in flight.  At every moment it is the number
    of requests that are being handled: never negative, at most one for each
    running handler, and so within the configured concurrency. *)
Theorem inflight_bounded udp tcp labels t0 s :
  Z.of_nat MaxConcurrency < 2 ^ 63 -> front_steps (listen udp tcp) s ->
  let m := records (New labels t0) (fr_calls s) in
  mt_inflight m = - total w_gauge (concat (fr_handlers s)) /\
  0 <= mt_inflight m <= Z.of_nat (length (fr_handlers s)) /\
  (length (fr_handlers s) <= MaxConcurrency)%nat.
Proof.
  intros Hm Hr. cbn zeta. pose proof (front_reachable_ok udp tcp s Hr) as Hs.
  pose proof (handlers_gauge _ (fk_gauge s Hs)) as Hg. pose proof (fk_inflight s Hs) as Hi.
  unfold all_calls in Hi. rewrite total_app in Hi.
  assert (length (fr_handlers s) <= MaxConcurrency)%nat as Hlen.
  { rewrite (fk_running s Hs). destruct (fk_intake s Hs) as [Hsem Hcap _ _]. lia. }
  rewrite (cn_inflight _ _ _ _ (records_counts labels t0 (fr_calls s))), inflight_total.
  rewrite int64_id by (unfold in_int64; lia). lia.
Qed.

(** The calls that end a request, by counter. *)
Lemma ends_split cs :
  total w_end cs =
  total (fun k => Z.of_nat (count (Bump k) cs))
    [FormErr; AnswersNOERROR; AnswersNXDomain; AnswersNODATA; AnswersSERVFAIL] + total w_forwarded cs.
Proof.
  rewrite (total_counts Bump _ (fun c => w_end c - w_forwarded c)).
  - rewrite <-total_add. apply total_ext. intros c _. lia.
  - apply Forall_true. intros c. destruct c as [[]| | | |]; try done. cbn [w_end w_forwarded]. by rewrite Z.sub_diag.
Qed.

Lemma queries_split cs :
  total (fun k => Z.of_nat (count (Bump k) cs)) [QueriesUDP; QueriesTCP] =
  total (fun k => Z.of_nat (count (Bump k) cs)) [ParseError; DroppedOverload] + total w_query cs.
Proof.
  rewrite !(total_counts Bump _ (fun c => total (fun k => is_call (Bump k) c) [QueriesUDP; QueriesTCP]))
    by by apply Forall_true.
  rewrite (total_counts Bump _ (fun c => total (fun k => is_call (Bump k) c) [ParseError; DroppedOverload]))
    by by apply Forall_true.
  rewrite <-total_add. apply total_ext. intros c _. destruct c as [[]| | | |]; done.
Qed.

Lemma policies_split cs :
  total w_policies cs = total w_policy cs + total (is_call (Bump AnswersNOERROR)) cs.
Proof. rewrite <-total_add. apply total_ext. by intros [[]| | | |] _. Qed.

Lemma sum_none reqs : sum_kinds (fun _ => 0) reqs = 0.
Proof. induction reqs as [|r reqs IH]; [done|]. by rewrite sum_kinds_cons, IH. Qed.

(** Nothing is left when the shutdown has drained. *)
Lemma drained_idle s :
  front_ok s -> i_main (fr_intake s) = Done true ->
  fr_handlers s = [] /\ waits (fr_intake s) = 0 /\ all_calls s = fr_calls s.
Proof.
  intros Hs Hd. destruct (fk_intake s Hs) as [_ _ Hwg Hl]. rewrite Hd in Hl. destruct Hl as (Hu & Ht & Hz).
  assert (fr_handlers s = []) as E by (apply nil_length_inv; rewrite (fk_running s Hs); lia).
  unfold waits, all_calls. rewrite Hu, Ht, E. cbn. by rewrite app_nil_r.
Qed.

(** C16: the books balance.  When the server has shut down and drained, in
    whatever way its loops, handlers and engine runs interleaved, then modulo
    2^64: every request that was handled, but for those of an unknown EDNS
    version, which are answered with BADVERS and never counted, is counted
    once among FORMERR, the four kinds of answer and the
    forwarded replies of all upstreams; requests without a question and
    forwarded ones have their own counters; every datagram and connection was
    a parse error, dropped, or handled; the drops are those of the semaphore;
    the policies add up to the positive answers; and none is in flight. *)
Theorem drained_accounts udp tcp labels t0 s :
  length labels = n -> (forall p, policies p -> p ∈ policy_names) ->
  front_steps (listen udp tcp) s -> i_main (fr_intake s) = Done true ->
  let m := records (New labels t0) (fr_calls s) in
  let reqs := fr_requests s in
  uint64 (total (mt_counts m) [FormErr; AnswersNOERROR; AnswersNXDomain; AnswersNODATA; AnswersSERVFAIL] +
          total forwarded_by (mt_upstreams m)) =
    uint64 (Z.of_nat (length reqs - of_kind BadVersion reqs)) /\
  mt_counts m FormErr = uint64 (Z.of_nat (of_kind NoQuestion reqs)) /\
  mt_counts m Forwarded = uint64 (Z.of_nat (of_kind ToForward reqs)) /\
  uint64 (total (mt_counts m) [QueriesUDP; QueriesTCP]) =
    uint64 (total (mt_counts m) [ParseError; DroppedOverload] + Z.of_nat (fr_started s)) /\
  mt_counts m DroppedOverload = uint64 (Z.of_nat (i_dropped (fr_intake s))) /\
  uint64 (total (fun p => default 0 (mt_policies m !! p)) policy_names) = mt_counts m AnswersNOERROR /\
  mt_inflight m = 0.
Proof.
  intros Hn Hp Hr Hd. cbn zeta. pose proof (front_reachable_ok udp tcp s Hr) as Hs.
  destruct (drained_idle s Hs Hd) as (_ & Hw & Hall). set (cs := fr_calls s) in *.
  pose proof (fk_known s Hs) as Hk. pose proof (fk_tally s Hs) as Ht. pose proof (fk_query s Hs) as Hq.
  pose proof (fk_dropped s Hs) as Hdrop. pose proof (fk_inflight s Hs) as Hi. rewrite Hall in *.
  assert (forall k, mt_counts (records (New labels t0) cs) k = uint64 (total (is_call (Bump k)) cs)) as Hc.
  { intros k. rewrite total_count. apply records_counts. }
  split_and!.
  - rewrite <-sum_supported, <-(Ht _ _ ends_tally), ends_split.
    apply uint64_plus; [apply counters_total|by apply forwarded_total].
  - by rewrite Hc, (Ht _ _ formerr_tally), sum_of_kind.
  - by rewrite Hc, (Ht _ _ forwarded_tally), sum_of_kind.
  - rewrite counters_total, queries_split, Hq, Hw, Z.add_0_r. apply uint64_plus; [|done].
    symmetry. apply counters_total.
  - by rewrite Hc, Hdrop.
  - rewrite policies_total by done. rewrite Hc. f_equal.
    rewrite policies_split, (Ht _ _ policy_tally). by rewrite sum_none.
  - by rewrite (cn_inflight _ _ _ _ (records_counts labels t0 cs)), inflight_total, Hi.
Qed.
End Front.

(** ** Example *)

(** One slot and one upstream: a datagram is answered while a second one is
    dropped and a third does not unpack; then the server shuts down. *)
Definition f_next (s : Front) (e : Intake.event) : Front := default s (set_intake s <$> next 1 (fr_intake s) e).
Definition f_read (s : Front) (data : list Z) : Front :=
  default s (@serveUDP_read sample_dns 1 s data).
Definition f_record (s : Front) : Front :=
  match fr_handlers s with [c :: cs] => set_handlers (note s [c]) [cs] | _ => s end.
Definition f_return (s : Front) : Front :=
  match fr_handlers s with [[]] => set_handlers (f_next s EvRelease) [] | _ => s end.

Definition answered_calls : list record_call := Bump Resolved :: answer_calls sample_value.

Definition front_admitted : Front := f_read (listen true false) [7].
Definition front_started : Front := default front_admitted (serveUDP_go 1 front_admitted answered_calls).
Definition front_busy : Front := f_record (f_record (f_read (f_read front_started [9]) [])).
Definition front_handled : Front := f_return (f_record (f_record (f_record front_busy))).
Definition front_drained : Front :=
  f_next (f_next (f_next (f_next (f_next front_handled EvLeave) EvCancel) (EvReadError Udp)) EvLoopsStopped) EvDrained.

Definition sample_front_steps : Front -> Front -> Prop :=
  @front_steps sample_dns 1 1 (fun p => p ∈ policy_names).

Definition sample_front_step : Front -> Front -> Prop :=
  @front_step sample_dns 1 1 (fun p => p ∈ policy_names).

Lemma f_read_step s data : is_Some (@serveUDP_read sample_dns 1 s data) -> sample_front_step s (f_read s data).
Proof. intros [s' E]. apply (front_read _ _ _ _ data). unfold f_read. by rewrite E. Qed.

Lemma f_record_step s c cs : fr_handlers s = [c :: cs] -> sample_front_step s (f_record s).
Proof. intros E. unfold f_record. rewrite E. by apply (front_record _ _ _ s [] c cs []). Qed.

Lemma f_next_step s e :
  silent e = true -> is_Some (next 1 (fr_intake s) e) -> sample_front_step s (f_next s e).
Proof. intros He [i E]. unfold f_next. rewrite E. by apply (front_silent _ _ _ s e i). Qed.

Lemma f_return_step s i :
  fr_handlers s = [[]] -> next 1 (fr_intake s) EvRelease = Some i -> sample_front_step s (f_return s).
Proof. intros Eh E. unfold f_return, f_next. rewrite Eh, E. by apply (front_return _ _ _ s [] [] i). Qed.

Lemma front_busy_reachable : sample_front_steps (listen true false) front_busy.
Proof.
  eapply rtc_l; [apply (f_read_step _ [7]); vm_compute; by eexists|].
  eapply rtc_l; [eapply (front_go _ _ _ front_admitted _ answered_calls front_started)|].
  - vm_compute. reflexivity.
  - apply (calls_answered 1 _ sample_value). intros _. apply (bool_decide_unpack _). by vm_compute.
  - vm_compute. reflexivity.
  - eapply rtc_l; [apply (f_read_step front_started [9]); vm_compute; by eexists|].
    eapply rtc_l; [apply (f_read_step _ []); vm_compute; by eexists|].
    eapply rtc_l; [by eapply f_record_step|]. apply rtc_once. by eapply f_record_step.
Qed.

Lemma front_drained_reachable : sample_front_steps (listen true false) front_drained.
Proof.
  etrans; [apply front_busy_reachable|].
  do 3 (eapply rtc_l; [by eapply f_record_step|]).
  eapply rtc_l; [by eapply f_return_step|].
  eapply rtc_l; [apply (f_next_step _ EvLeave); [reflexivity|vm_compute; by eexists]|].
  eapply rtc_l; [apply (f_next_step _ EvCancel); [reflexivity|vm_compute; by eexists]|].
  eapply rtc_l; [apply (f_next_step _ (EvReadError Udp)); [reflexivity|vm_compute; by eexists]|].
  eapply rtc_l; [apply (f_next_step _ EvLoopsStopped); [reflexivity|vm_compute; by eexists]|].
  apply rtc_once, (f_next_step _ EvDrained); [reflexivity|vm_compute; by eexists].
Qed.

Lemma inflight_bounded_witness :
  let m := records (New ["a"] 0) (fr_calls front_busy) in mt_inflight m = 1 /\ 0 <= mt_inflight m <= 1.
Proof.
  split; [vm_compute; reflexivity|].
  apply (@inflight_bounded sample_dns 1 1 (fun p => p ∈ policy_names) true false ["a"] 0 front_busy
    ltac:(lia) front_busy_reachable).
Defined.

Lemma drained_accounts_witness :
  let m := records (New ["a"] 0) (fr_calls front_drained) in
  uint64 (total (mt_counts m) [QueriesUDP; QueriesTCP]) =
    uint64 (total (mt_counts m) [ParseError; DroppedOverload] + 1) /\ mt_counts m DroppedOverload = 1.
Proof.
  destruct (@drained_accounts sample_dns 1 1 (fun p => p ∈ policy_names) true false ["a"] 0 front_drained
    eq_refl (fun p Hp => Hp) front_drained_reachable ltac:(vm_compute; reflexivity))
    as (_ & _ & _ & Hq & Hd & _).
  split; [exact Hq|]. rewrite Hd. vm_compute. reflexivity.
Defined.
